(** * proxy-converter-core: share-link parsers and dispatcher

    A shallow embedding of the share-link parsing core of the Clash config
    editor (frontend/src/vendor/proxy-converter-core):

    - [core/utils.js]            text utilities,
    - [parsers/*-parser.js]      the eight protocol parsers,
    - [index.js]                 the protocol dispatcher.

    JavaScript strings are sequences of UTF-16 code units and are modelled
    as [list N].  The string methods of the language that the code calls
    ([trim], [indexOf], [slice], [split], [decodeURIComponent], [atob],
    [TextDecoder], [parseInt]) are given executable definitions in module
    [JS]; the regular expressions of the source are written out as boolean
    matchers, each next to the regular expression it stands for. *)

From Stdlib Require Import List NArith ZArith Bool Ascii String Lia Sorted.
Import ListNotations.

Local Open Scope Z_scope.

(* ================================================================== *)
(** ** JavaScript strings *)
(* ================================================================== *)

Module JS.

(** A string is the list of its UTF-16 code units. *)
Definition jstr := list N.

Definition ch (a : ascii) : N := N_of_ascii a.

(** *** UTF-8 decoding (WHATWG Encoding, "UTF-8 decoder", replacement mode)

    The decoder state is the number of continuation bytes still needed,
    the code point accumulated so far and the admissible range of the next
    byte. *)

Record utf8_state := Utf8St {
  u_need : nat;
  u_cp : N;
  u_lo : N;
  u_hi : N
}.

Definition utf8_idle : utf8_state := Utf8St 0 0 128 191.

(** UTF-16 code units of a code point. *)
Definition utf16_of_cp (cp : N) : jstr :=
  if (cp <? 65536)%N then [cp]
  else let c := (cp - 65536)%N in
       [(55296 + c / 1024)%N; (56320 + c mod 1024)%N].

Definition REPLACEMENT : N := 65533%N.

(** A lead byte read in the idle state: either output, or a new state,
    or an error ([None]). *)
Definition utf8_lead (b : N) : option (jstr * utf8_state) :=
  if (b <=? 127)%N then Some ([b], utf8_idle)
  else if ((194 <=? b) && (b <=? 223))%N then
    Some ([], Utf8St 1 (N.land b 31) 128 191)
  else if ((224 <=? b) && (b <=? 239))%N then
    Some ([], Utf8St 2 (N.land b 15)
                (if (b =? 224)%N then 160%N else 128%N)
                (if (b =? 237)%N then 159%N else 191%N))
  else if ((240 <=? b) && (b <=? 244))%N then
    Some ([], Utf8St 3 (N.land b 7)
                (if (b =? 240)%N then 144%N else 128%N)
                (if (b =? 244)%N then 143%N else 191%N))
  else None.

(** One step of the decoder in replacement mode: an ill-formed sequence
    yields U+FFFD, and a byte that cannot continue a sequence is read
    again as a lead byte. *)
Definition utf8_step (st : utf8_state) (b : N) : jstr * utf8_state :=
  let lead b :=
    match utf8_lead b with
    | Some r => r
    | None => ([REPLACEMENT], utf8_idle)
    end in
  match u_need st with
  | O => lead b
  | S k =>
      if ((u_lo st <=? b) && (b <=? u_hi st))%N then
        let cp := (u_cp st * 64 + N.land b 63)%N in
        match k with
        | O => (utf16_of_cp cp, utf8_idle)
        | S _ => ([], Utf8St k cp 128 191)
        end
      else
        let '(out, st') := lead b in (REPLACEMENT :: out, st')
  end.

Fixpoint utf8_run (st : utf8_state) (bs : list N) : jstr :=
  match bs with
  | [] => match u_need st with O => [] | S _ => [REPLACEMENT] end
  | b :: bs' => let '(out, st') := utf8_step st b in out ++ utf8_run st' bs'
  end.

Definition utf8_decode (bs : list N) : jstr := utf8_run utf8_idle bs.

(** [new TextDecoder("utf-8", {fatal: false}).decode(bytes)]: a leading
    byte order mark is dropped. *)
Definition TextDecoder_decode (bs : list N) : jstr :=
  match bs with
  | 239%N :: 187%N :: 191%N :: bs' => utf8_decode bs'
  | _ => utf8_decode bs
  end.

(** A string literal of the source: the code units of the UTF-8 text. *)
Definition js (s : string) : jstr :=
  utf8_decode (map N_of_ascii (list_ascii_of_string s)).

(** *** Comparison *)

Fixpoint str_eqb (a b : jstr) : bool :=
  match a, b with
  | [], [] => true
  | x :: a', y :: b' => (x =? y)%N && str_eqb a' b'
  | _, _ => false
  end.

Definition isEmpty {A} (s : list A) : bool :=
  match s with [] => true | _ => false end.

(** The double quote, which a literal of this file cannot hold, and the
    line feed. *)
Definition dquote : jstr := [34%N].
Definition newline : jstr := [10%N].

(** Truthiness of a string: [Boolean(s)], [!s] is its negation. *)
Definition truthy (s : jstr) : bool := negb (isEmpty s).

(** [a || b] on strings. *)
Definition orElse (a b : jstr) : jstr := if truthy a then a else b.

(** *** Character classes *)

Definition in_range (lo hi c : N) : bool := ((lo <=? c) && (c <=? hi))%N.

Definition isDigit (c : N) : bool := in_range 48 57 c.
Definition isUpper (c : N) : bool := in_range 65 90 c.
Definition isLower (c : N) : bool := in_range 97 122 c.
Definition isAlpha (c : N) : bool := isUpper c || isLower c.
Definition isAlnum (c : N) : bool := isAlpha c || isDigit c.
Definition isHex (c : N) : bool :=
  isDigit c || in_range 65 70 c || in_range 97 102 c.

(** White space and line terminators: what [trim] strips and what [\s]
    matches. *)
Definition isWhite (c : N) : bool :=
  in_range 9 13 c || (c =? 32)%N || (c =? 160)%N || (c =? 5760)%N
  || in_range 8192 8202 c || (c =? 8232)%N || (c =? 8233)%N
  || (c =? 8239)%N || (c =? 8287)%N || (c =? 12288)%N || (c =? 65279)%N.

(** *** String methods *)

Fixpoint trimStart (s : jstr) : jstr :=
  match s with
  | c :: s' => if isWhite c then trimStart s' else s
  | [] => []
  end.

Definition trimEnd (s : jstr) : jstr := rev (trimStart (rev s)).

Definition trim (s : jstr) : jstr := trimEnd (trimStart s).

Fixpoint startsWith (p s : jstr) : bool :=
  match p, s with
  | [], _ => true
  | x :: p', y :: s' => (x =? y)%N && startsWith p' s'
  | _ :: _, [] => false
  end.

Definition endsWith (p s : jstr) : bool := startsWith (rev p) (rev s).

Definition len (s : jstr) : Z := Z.of_nat (List.length s).

(** [s.indexOf(p)]: the first position at which [p] occurs, or -1. *)
Fixpoint indexOf (p s : jstr) : Z :=
  if startsWith p s then 0
  else match s with
       | [] => -1
       | _ :: s' => let i := indexOf p s' in if i <? 0 then -1 else i + 1
       end.

(** [s.lastIndexOf(p)]: the last position at which [p] occurs, or -1. *)
Fixpoint lastIndexOf (p s : jstr) : Z :=
  match s with
  | [] => if startsWith p s then 0 else -1
  | _ :: s' =>
      let i := lastIndexOf p s' in
      if 0 <=? i then i + 1 else if startsWith p s then 0 else -1
  end.

Definition includes (p s : jstr) : bool := 0 <=? indexOf p s.

(** Relative index of [slice]: negative counts from the end, and the
    result is clamped to the string. *)
Definition clampIndex (l i : Z) : Z :=
  if i <? 0 then Z.max (l + i) 0 else Z.min i l.

(** [s.slice(a, b)] *)
Definition slice (s : jstr) (a b : Z) : jstr :=
  let from := clampIndex (len s) a in
  let to := clampIndex (len s) b in
  firstn (Z.to_nat (to - from)) (skipn (Z.to_nat from) s).

(** [s.slice(a)] *)
Definition sliceFrom (s : jstr) (a : Z) : jstr :=
  skipn (Z.to_nat (clampIndex (len s) a)) s.

(** [s.split(sep)] for a non-empty separator [sep]; [skip] counts the
    code units of a separator still to be passed over. *)
Fixpoint split_go (sep s : jstr) (skip : nat) (cur : jstr) : list jstr :=
  match s with
  | [] => [cur]
  | c :: s' =>
      match skip with
      | S k => split_go sep s' k cur
      | O =>
          if startsWith sep s
          then cur :: split_go sep s' (List.length sep - 1) []
          else split_go sep s' 0 (cur ++ [c])
      end
  end.

Definition split (sep s : jstr) : list jstr := split_go sep s 0 [].

(** [s.split(/[...]/g)] for a character class given as a predicate. *)
Fixpoint splitClass_go (p : N -> bool) (s cur : jstr) : list jstr :=
  match s with
  | [] => [cur]
  | c :: s' =>
      if p c then cur :: splitClass_go p s' []
      else splitClass_go p s' (cur ++ [c])
  end.

Definition splitClass (p : N -> bool) (s : jstr) : list jstr :=
  splitClass_go p s [].

(** [l.join(sep)] *)
Fixpoint join (sep : jstr) (l : list jstr) : jstr :=
  match l with
  | [] => []
  | [x] => x
  | x :: l' => x ++ sep ++ join sep l'
  end.

(** [s.replace(/c/g, d)] for single code units. *)
Definition replaceChar (c d : N) (s : jstr) : jstr :=
  map (fun x => if (x =? c)%N then d else x) s.

(** Number of occurrences of a code unit: [(s.match(/c/g) || []).length]. *)
Definition countChar (c : N) (s : jstr) : Z :=
  Z.of_nat (List.length (filter (fun x => (x =? c)%N) s)).

(** [s.toLowerCase()] for a string of ASCII letters, as the literal
    prefixes that the case-insensitive patterns of the source spell out. *)
Definition toLowerCaseAscii (s : jstr) : jstr :=
  map (fun c => if isUpper c then (c + 32)%N else c) s.

(** *** Numbers *)

Fixpoint digitsValue (acc : Z) (s : jstr) : Z :=
  match s with
  | c :: s' => if isDigit c then digitsValue (acc * 10 + Z.of_N (c - 48)) s' else acc
  | [] => acc
  end.

Definition startsWithDigit (s : jstr) : bool :=
  match s with c :: _ => isDigit c | [] => false end.

(** The integer that [Number.parseInt(s, 10)] reads: leading white space,
    an optional sign and the longest run of digits; [None] when there is
    no digit. *)
Definition parseInt (s : jstr) : option Z :=
  match trimStart s with
  | c :: s' =>
      if (c =? ch "-")%N then
        if startsWithDigit s' then Some (- digitsValue 0 s') else None
      else if (c =? ch "+")%N then
        if startsWithDigit s' then Some (digitsValue 0 s') else None
      else if isDigit c then Some (digitsValue 0 (c :: s')) else None
  | [] => None
  end.

(** Decimal text of an integer ([String(n)] for |n| < 10^21). *)
Fixpoint natDigits (fuel : nat) (n : N) (acc : jstr) : jstr :=
  match fuel with
  | O => acc
  | S f =>
      let acc' := (48 + n mod 10)%N :: acc in
      if (n <? 10)%N then acc' else natDigits f (n / 10)%N acc'
  end.

Definition Z_toString (z : Z) : jstr :=
  let n := Z.to_N (Z.abs z) in
  let d := natDigits (S (N.to_nat (N.log2 n))) n [] in
  if z <? 0 then ch "-" :: d else d.

End JS.

(* ================================================================== *)
(** ** [decodeURIComponent], [atob] *)
(* ================================================================== *)

Module Codec.
Import JS.

Definition hexVal (c : N) : N :=
  if isDigit c then (c - 48)%N
  else if in_range 65 70 c then (c - 55)%N
  else (c - 87)%N.

(** A URI component is read as literal code units and escaped octets. *)
Inductive uri_token :=
| TChar (c : N)
| TByte (b : N).

(** [None]: a [%] that is not followed by two hexadecimal digits. *)
Fixpoint uri_tokens (s : jstr) : option (list uri_token) :=
  match s with
  | [] => Some []
  | c :: rest =>
      if (c =? ch "%")%N then
        match rest with
        | h1 :: h2 :: rest' =>
            if isHex h1 && isHex h2
            then option_map (cons (TByte (hexVal h1 * 16 + hexVal h2)%N))
                            (uri_tokens rest')
            else None
        | _ => None
        end
      else option_map (cons (TChar c)) (uri_tokens rest)
  end.

(** The escaped octets must be well-formed UTF-8; [None]: they are not. *)
Fixpoint uri_utf8 (st : utf8_state) (ts : list uri_token) : option jstr :=
  match ts with
  | [] => match u_need st with O => Some [] | S _ => None end
  | TChar c :: ts' =>
      match u_need st with
      | O => option_map (cons c) (uri_utf8 utf8_idle ts')
      | S _ => None
      end
  | TByte b :: ts' =>
      match u_need st with
      | O =>
          match utf8_lead b with
          | Some (out, st') => option_map (app out) (uri_utf8 st' ts')
          | None => None
          end
      | S k =>
          if ((u_lo st <=? b) && (b <=? u_hi st))%N then
            let cp := (u_cp st * 64 + N.land b 63)%N in
            match k with
            | O => option_map (app (utf16_of_cp cp)) (uri_utf8 utf8_idle ts')
            | S _ => uri_utf8 (Utf8St k cp 128 191) ts'
            end
          else None
      end
  end.

(** [decodeURIComponent(s)]; [None] stands for a thrown [URIError]. *)
Definition decodeURIComponent (s : jstr) : option jstr :=
  match uri_tokens s with
  | Some ts => uri_utf8 utf8_idle ts
  | None => None
  end.

(** The Base64 alphabet. *)
Definition b64val (c : N) : option N :=
  if isUpper c then Some (c - 65)%N
  else if isLower c then Some (c - 71)%N
  else if isDigit c then Some (c + 4)%N
  else if (c =? ch "+")%N then Some 62%N
  else if (c =? ch "/")%N then Some 63%N
  else None.

Definition isB64 (c : N) : bool :=
  match b64val c with Some _ => true | None => false end.

Definition b64sextet (c : N) : N :=
  match b64val c with Some v => v | None => 0%N end.

(** Octets of a run of sextets; the bits left over in a last group of two
    or three sextets are dropped. *)
Fixpoint b64_octets (v : list N) : list N :=
  match v with
  | a :: b :: c :: d :: rest =>
      (a * 4 + b / 16)%N :: ((b mod 16) * 16 + c / 4)%N
        :: ((c mod 4) * 64 + d)%N :: b64_octets rest
  | [a; b; c] => [(a * 4 + b / 16)%N; ((b mod 16) * 16 + c / 4)%N]
  | [a; b] => [(a * 4 + b / 16)%N]
  | _ => []
  end.

Definition isAsciiWhite (c : N) : bool :=
  (c =? 9)%N || (c =? 10)%N || (c =? 12)%N || (c =? 13)%N || (c =? 32)%N.

(** At most two trailing [=], given the reversed string. *)
Definition dropPadding (r : jstr) : jstr :=
  match r with
  | c1 :: r1 =>
      if (c1 =? ch "=")%N then
        match r1 with
        | c2 :: r2 => if (c2 =? ch "=")%N then r2 else r1
        | [] => r1
        end
      else r
  | [] => r
  end.

(** [atob(s)] (HTML, "forgiving-base64 decode"): the binary string, one
    code unit per octet; [None] stands for a thrown [InvalidCharacterError]. *)
Definition atob (s : jstr) : option jstr :=
  let s1 := filter (fun c => negb (isAsciiWhite c)) s in
  let s2 := if (len s1 mod 4 =? 0) then rev (dropPadding (rev s1)) else s1 in
  if (len s2 mod 4 =? 1) then None
  else if forallb isB64 s2 then Some (b64_octets (map b64sextet s2))
  else None.

End Codec.

(* ================================================================== *)
(** ** Values, objects *)
(* ================================================================== *)

Module Val.
Import JS.

(** A number is an integer, or some other double (a fraction, [NaN] or an
    infinity) that is identified by its [String()] text. *)
Inductive jsnum :=
| NInt (z : Z)
| NOther (text : jstr).

#[local] Set Warnings "-register-all".
Inductive jsval :=
| VUndef
| VNull
| VBool (b : bool)
| VNum (n : jsnum)
| VStr (s : jstr)
| VArr (items : list jsval)
| VObj (fields : list (jstr * jsval)).

(** An object is the list of its own properties in insertion order. *)
Definition obj := list (jstr * jsval).

(** [o[k]] *)
Fixpoint getProp (k : jstr) (o : obj) : jsval :=
  match o with
  | [] => VUndef
  | (k', v) :: o' => if str_eqb k k' then v else getProp k o'
  end.

(** [o[k] = v] *)
Fixpoint setProp (k : jstr) (v : jsval) (o : obj) : obj :=
  match o with
  | [] => [(k, v)]
  | (k', v') :: o' =>
      if str_eqb k k' then (k', v) :: o' else (k', v') :: setProp k v o'
  end.

(** [o.k] for a property name of the source text. *)
Definition prop (o : obj) (k : string) : jsval := getProp (js k) o.

(** [v.k] for a value that is an object. *)
Definition field (k : string) (v : jsval) : jsval :=
  match v with
  | VObj o => getProp (js k) o
  | _ => VUndef
  end.

(** [v == null] *)
Definition isNullish (v : jsval) : bool :=
  match v with VUndef | VNull => true | _ => false end.

(** [Boolean(v)] *)
Definition truthyV (v : jsval) : bool :=
  match v with
  | VUndef | VNull => false
  | VBool b => b
  | VNum (NInt z) => negb (z =? 0)
  | VNum (NOther t) => negb (str_eqb t (js "NaN"))
  | VStr s => truthy s
  | VArr _ | VObj _ => true
  end.

(** [!o] for an object or [null]. *)
Definition isNull {A} (o : option A) : bool :=
  match o with Some _ => false | None => true end.

(** [a ?? b] *)
Definition nullish {A} (a : option A) (b : option A) : option A :=
  match a with Some _ => a | None => b end.

(** Injections of the typed values of the model. *)
Definition ofStr (s : jstr) : jsval := VStr s.
Definition ofInt (z : Z) : jsval := VNum (NInt z).
Definition ofStrs (l : list jstr) : jsval := VArr (map VStr l).

(** [s || undefined], [s || null] *)
Definition strOrUndef (s : jstr) : jsval := if truthy s then VStr s else VUndef.
Definition strOrNull (s : jstr) : jsval := if truthy s then VStr s else VNull.
(** [b || undefined] *)
Definition trueOrUndef (b : bool) : jsval := if b then VBool true else VUndef.
(** [l.length ? l : undefined] *)
Definition strsOrUndef (l : list jstr) : jsval :=
  match l with [] => VUndef | _ => ofStrs l end.
(** A nullable string and a nullable number. *)
Definition ofStrN (s : option jstr) : jsval :=
  match s with Some x => VStr x | None => VNull end.
Definition ofIntN (z : option Z) : jsval :=
  match z with Some x => ofInt x | None => VNull end.
Definition ofIntU (z : option Z) : jsval :=
  match z with Some x => ofInt x | None => VUndef end.

(** JavaScript functions that the embedding leaves open, because their
    definition is a table or an algorithm outside the repository:
    - [s.toLowerCase()] (the Unicode case mapping),
    - [JSON.parse(s)], [None] standing for a thrown [SyntaxError],
    - [Number(s)] on a string that matches [^[+-]?\d+(\.\d+)?$],
    - [String(n)] for an integer of magnitude 10^21 or more (exponent
      notation). *)
Class Builtins := {
  toLowerCase : jstr -> jstr;
  JSON_parse : jstr -> option jsval;
  Number_decimal : jstr -> jsnum;
  bigIntText : Z -> jstr;
  (** the empty string has no letters to map *)
  toLowerCase_empty : toLowerCase [] = []
}.

Section WithBuiltins.
Context {B : Builtins}.

Definition numToString (n : jsnum) : jstr :=
  match n with
  | NInt z => if Z.abs z <? 10 ^ 21 then Z_toString z else bigIntText z
  | NOther t => t
  end.

(** [String(v)]; an array is joined with commas, [null] and [undefined]
    elements giving the empty string. *)
Fixpoint toString (v : jsval) : jstr :=
  match v with
  | VUndef => js "undefined"
  | VNull => js "null"
  | VBool true => js "true"
  | VBool false => js "false"
  | VNum n => numToString n
  | VStr s => s
  | VArr l =>
      join (js ",")
           (map (fun x => if isNullish x then [] else toString x) l)
  | VObj _ => js "[object Object]"
  end.

End WithBuiltins.

(** [NaN] and the infinities. *)
Definition NaN : jsnum := NOther (js "NaN").
Definition Infinity (negative : bool) : jsnum :=
  NOther (if negative then js "-Infinity" else js "Infinity").

Definition isInteger (n : jsnum) : bool :=
  match n with NInt _ => true | NOther _ => false end.

Definition isFinite (n : jsnum) : bool :=
  match n with
  | NInt _ => true
  | NOther t =>
      negb (str_eqb t (js "NaN") || str_eqb t (js "Infinity")
            || str_eqb t (js "-Infinity"))
  end.

(** The double nearest to an integer (ties to even). *)
Definition toDouble (z : Z) : jsnum :=
  let a := Z.abs z in
  if a <? 2 ^ 53 then NInt z
  else
    let e := Z.log2 a - 52 in
    let q := a / 2 ^ e in
    let r := a mod 2 ^ e in
    let half := 2 ^ (e - 1) in
    let q' := if (half <? r) || ((r =? half) && Z.odd q) then q + 1 else q in
    let m := q' * 2 ^ e in
    if 2 ^ 1024 <=? m then Infinity (z <? 0)
    else NInt (if z <? 0 then - m else m).

(** [Number.parseInt(s, 10)] *)
Definition parseInt (s : jstr) : jsnum :=
  match JS.parseInt s with
  | Some z => toDouble z
  | None => NaN
  end.

End Val.

(* ================================================================== *)
(** ** Warnings and exceptions *)
(* ================================================================== *)

Module Eff.
Import JS.

(** A thrown [Error] with its message. *)
Inductive exn := Error (message : jstr).

Definition message (e : exn) : jstr := match e with Error m => m end.

(** A computation that appends to the [warnings] array of the parser that
    runs it and that may throw.  The array is the state: what was pushed
    before a throw stays in it. *)
Definition M (A : Type) : Type := list jstr -> (exn + A) * list jstr.

Definition ret {A} (a : A) : M A := fun ws => (inr a, ws).

Definition bind {A B} (m : M A) (k : A -> M B) : M B :=
  fun ws =>
    match m ws with
    | (inr a, ws') => k a ws'
    | (inl e, ws') => (inl e, ws')
    end.

(** [warnings.push(w)] *)
Definition warn (w : jstr) : M unit := fun ws => (inr tt, ws ++ [w]).

(** The current contents of [warnings]. *)
Definition warnings : M (list jstr) := fun ws => (inr ws, ws).

(** [throw e] *)
Definition throw {A} (e : exn) : M A := fun ws => (inl e, ws).

(** [try { m } catch (e) { h e }] *)
Definition tryCatch {A} (m : M A) (h : exn -> M A) : M A :=
  fun ws =>
    match m ws with
    | (inl e, ws') => h e ws'
    | r => r
    end.

(** [if (c) m;] *)
Definition when (c : bool) (m : M unit) : M unit :=
  if c then m else ret tt.

(** A parser entry point: run with a fresh [warnings] array. *)
Definition run {A} (m : M A) : exn + A := fst (m []).

End Eff.

Declare Scope eff_scope.
Delimit Scope eff_scope with eff.
Notation "x <- m ;; k" := (Eff.bind m (fun x => k))
  (at level 61, m at next level, right associativity) : eff_scope.
Notation "m ;; k" := (Eff.bind m (fun _ => k))
  (at level 61, right associativity) : eff_scope.
Notation "' p <- m ;; k" := (Eff.bind m (fun x => let 'p := x in k))
  (at level 61, p pattern, m at next level, right associativity) : eff_scope.

(* ================================================================== *)
(** ** core/utils.js *)
(* ================================================================== *)

Module Utils.
Import JS Codec Val.

(** [input.replace(/%(?![0-9A-Fa-f]{2})/g, "%25")] *)
Fixpoint escapeStrayPercent (s : jstr) : jstr :=
  match s with
  | [] => []
  | c :: rest =>
      if (c =? ch "%")%N then
        match rest with
        | h1 :: h2 :: _ =>
            if isHex h1 && isHex h2 then c :: escapeStrayPercent rest
            else js "%25" ++ escapeStrayPercent rest
        | _ => js "%25" ++ escapeStrayPercent rest
        end
      else c :: escapeStrayPercent rest
  end.

(** [safeDecodeURIComponent(s)] for a string [s]. *)
Definition safeDecodeURIComponent (s : jstr) : jstr :=
  let input := s in
  match decodeURIComponent input with
  | Some r => r
  | None =>
      let fixed := escapeStrayPercent input in
      match decodeURIComponent fixed with
      | Some r => r
      | None => input
      end
  end.

(** [safeDecodeURIComponent(s)] for a string or [null]:
    [null] gives the empty string. *)
Definition safeDecodeURIComponentN (s : option jstr) : jstr :=
  match s with
  | None => []
  | Some x => safeDecodeURIComponent x
  end.

Definition _normalizeBase64Input (s : jstr) : jstr :=
  let raw := trim s in
  if isEmpty raw then []
  else
    let compact := filter (fun c => negb (isWhite c)) raw in
    let normalized :=
      replaceChar (ch "_") (ch "/") (replaceChar (ch "-") (ch "+") compact) in
    let mod_ := len normalized mod 4 in
    if mod_ =? 0 then normalized
    else if mod_ =? 2 then normalized ++ js "=="
    else if mod_ =? 3 then normalized ++ js "="
    else normalized.

(** In the browser, where this bundle runs, [TextDecoder] is defined. *)
Definition _bytesToUtf8 (bytes : list N) : jstr := TextDecoder_decode bytes.

(** [/[^0-9A-Za-z+/=]/.test(s)] *)
Definition hasNonBase64Char (s : jstr) : bool :=
  existsb (fun c => negb (isB64 c || (c =? ch "=")%N)) s.

(** [base64DecodeUtf8(s)]; [None] is [null].  [Buffer] is undefined in
    the browser, so that the [atob] path is the one taken; an exception of
    [atob] is caught and leads to the final [return null]. *)
Definition base64DecodeUtf8 (s : jstr) : option jstr :=
  let normalized := _normalizeBase64Input s in
  if isEmpty normalized then None
  else if hasNonBase64Char normalized then None
  else if len normalized mod 4 =? 1 then None
  else
    match atob normalized with
    | Some bin => Some (_bytesToUtf8 (map (fun c => N.land c 255) bin))
    | None => None
    end.

Record UrlParts := mkUrlParts {
  scheme : option jstr;
  authority : option jstr;
  path : jstr;
  query : option jstr;
  fragment : option jstr
}.

Fixpoint takeWhile (p : N -> bool) (s : jstr) : jstr :=
  match s with
  | c :: s' => if p c then c :: takeWhile p s' else []
  | [] => []
  end.

Definition isSchemeChar (c : N) : bool :=
  isAlnum c || (c =? ch "+")%N || (c =? ch ".")%N || (c =? ch "-")%N.

(** The scheme pattern of [splitUrlLoosely]: a letter, then letters,
    digits, [+], [.] or [-], then a colon, anchored at the start.  The
    result is the group [m[1]]; the whole match [m[0]] is one code unit
    longer. *)
Definition matchScheme (s : jstr) : option jstr :=
  match s with
  | c :: rest =>
      if isAlpha c then
        let run := takeWhile isSchemeChar rest in
        match skipn (List.length run) rest with
        | d :: _ => if (d =? ch ":")%N then Some (c :: run) else None
        | [] => None
        end
      else None
  | [] => None
  end.

Definition splitUrlLoosely (url : jstr) : UrlParts :=
  let s := trim url in
  let hashIndex := indexOf (js "#") s in
  let beforeHash := if 0 <=? hashIndex then slice s 0 hashIndex else s in
  let fragment :=
    if 0 <=? hashIndex then Some (sliceFrom s (hashIndex + 1)) else None in
  let qIndex := indexOf (js "?") beforeHash in
  let beforeQuery :=
    if 0 <=? qIndex then slice beforeHash 0 qIndex else beforeHash in
  let query :=
    if 0 <=? qIndex then Some (sliceFrom beforeHash (qIndex + 1)) else None in
  match matchScheme beforeQuery with
  | Some m1 =>
      let rest := sliceFrom beforeQuery (len m1 + 1) in
      if startsWith (js "//") rest then
        let rest := sliceFrom rest 2 in
        let slashIndex := indexOf (js "/") rest in
        if 0 <=? slashIndex then
          mkUrlParts (Some m1) (Some (slice rest 0 slashIndex))
                     (sliceFrom rest slashIndex) query fragment
        else mkUrlParts (Some m1) (Some rest) [] query fragment
      else mkUrlParts (Some m1) None rest query fragment
  | None => mkUrlParts None None beforeQuery query fragment
  end.

(** [isPort(n)] *)
Definition isPort (n : jsval) : bool :=
  match n with
  | VStr s =>
      let trimmed := trim s in
      if truthy trimmed && forallb isDigit trimmed then
        match parseInt trimmed with
        | NInt num => (1 <=? num) && (num <=? 65535)
        | NOther _ => false
        end
      else false
  | VNum (NInt z) => (1 <=? z) && (z <=? 65535)
  | _ => false
  end.

(** [isPort(pn) ? pn : null] for a number [pn]. *)
Definition portOrNull (pn : jsnum) : option Z :=
  if isPort (VNum pn) then
    match pn with NInt z => Some z | NOther _ => None end
  else None.

Record Authority := mkAuthority {
  userinfo : option jstr;
  host : option jstr;
  port : option Z
}.

(** [/^\d{1,5}$/.test(s)] *)
Definition isDigits1to5 (s : jstr) : bool :=
  forallb isDigit s && (1 <=? len s) && (len s <=? 5).

(** [left || null] *)
Definition strOrNone (s : jstr) : option jstr :=
  if truthy s then Some s else None.

(** [parseAuthority(authority)]; the argument is a string or [null]. *)
Definition parseAuthority (authority : option jstr) : Authority :=
  let raw := match authority with None => [] | Some a => trim a end in
  let input := if startsWith (js "//") raw then sliceFrom raw 2 else raw in
  let at_ := lastIndexOf (js "@") input in
  let hostport := if 0 <=? at_ then sliceFrom input (at_ + 1) else input in
  let userinfo := if 0 <=? at_ then Some (slice input 0 at_) else None in
  let hp := trim hostport in
  if isEmpty hp then mkAuthority userinfo None None
  else if startsWith (js "[") hp then
    let close := indexOf (js "]") hp in
    if 0 <? close then
      let host := slice hp 1 close in
      let rest := sliceFrom hp (close + 1) in
      if startsWith (js ":") rest then
        let p := sliceFrom rest 1 in
        let pn := parseInt p in
        mkAuthority userinfo (Some host) (portOrNull pn)
      else mkAuthority userinfo (Some host) None
    else mkAuthority userinfo (Some hp) None
  else
    let colonCount := countChar (ch ":") hp in
    if 1 <? colonCount then mkAuthority userinfo (Some hp) None
    else
      let whole := mkAuthority userinfo (Some hp) None in
      if colonCount =? 1 then
        let lastColon := lastIndexOf (js ":") hp in
        let left := slice hp 0 lastColon in
        let right := sliceFrom hp (lastColon + 1) in
        if isDigits1to5 right then
          let pn := parseInt right in
          if isPort (VNum pn) then
            mkAuthority userinfo (strOrNone left) (portOrNull pn)
          else whole
        else whole
      else whole.

(** The body of the loop of [parseQuery]: [out[k]] becomes [v], or the
    array of the values seen for [k]. *)
Definition queryAdd (k v : jstr) (out : obj) : obj :=
  match getProp k out with
  | VUndef | VNull => setProp k (VStr v) out
  | VArr prev => setProp k (VArr (prev ++ [VStr v])) out
  | prev => setProp k (VArr [prev; VStr v]) out
  end.

Definition isQuerySep (c : N) : bool := (c =? ch "&")%N || (c =? ch ";")%N.

(** [s.startsWith("?") ? s.slice(1) : s] *)
Definition dropQuestionMark (raw : jstr) : jstr :=
  if startsWith (js "?") raw then sliceFrom raw 1 else raw.

(** [parseQuery(query)]; the argument is a string or [null]. *)
Definition parseQuery (query : option jstr) : obj :=
  let raw := match query with None => [] | Some q => q end in
  let s := dropQuestionMark raw in
  if isEmpty s then []
  else
    fold_left
      (fun out part =>
         if isEmpty part then out
         else
           let eq := indexOf (js "=") part in
           let kRaw := if 0 <=? eq then slice part 0 eq else part in
           let vRaw := if 0 <=? eq then sliceFrom part (eq + 1) else [] in
           let k := safeDecodeURIComponent (replaceChar (ch "+") (ch " ") kRaw) in
           let v := safeDecodeURIComponent (replaceChar (ch "+") (ch " ") vRaw) in
           if isEmpty k then out else queryAdd k v out)
      (splitClass isQuerySep s) [].

(** The character classes of
    [/^[0-9a-f]{8}-[0-9a-f]{4}-[1-5][0-9a-f]{3}-[89ab][0-9a-f]{3}-[0-9a-f]{12}$/i] *)
Definition isDash (c : N) : bool := (c =? ch "-")%N.
Definition isVersion (c : N) : bool := in_range 49 53 c.
Definition isVariant (c : N) : bool :=
  (c =? ch "8")%N || (c =? ch "9")%N || (c =? ch "a")%N || (c =? ch "b")%N
  || (c =? ch "A")%N || (c =? ch "B")%N.

Definition uuidPattern : list (N -> bool) :=
  repeat isHex 8 ++ [isDash] ++ repeat isHex 4 ++ [isDash]
  ++ [isVersion] ++ repeat isHex 3 ++ [isDash]
  ++ [isVariant] ++ repeat isHex 3 ++ [isDash] ++ repeat isHex 12.

(** A string matches a sequence of character classes from start to end. *)
Fixpoint matchClasses (pat : list (N -> bool)) (s : jstr) : bool :=
  match pat, s with
  | [], [] => true
  | p :: pat', c :: s' => p c && matchClasses pat' s'
  | _, _ => false
  end.

Definition uuidRegex (s : jstr) : bool := matchClasses uuidPattern s.

(** [isUuid(s)] *)
Definition isUuid (s : jstr) : bool :=
  let v := trim s in
  if isEmpty v then false else uuidRegex v.

End Utils.

(* ================================================================== *)
(** ** Helpers that every parser file defines in the same words *)
(* ================================================================== *)

Module Common.
Import JS Codec Val Utils Eff.

(** [asString(v)] for a string or [null]. *)
Definition asStr (v : option jstr) : jstr :=
  match v with None => [] | Some s => s end.

(** The number of [isPort(p) ? p : 0], once [isPort(p)] holds. *)
Definition asPort (p : option Z) : Z :=
  match p with Some z => z | None => 0 end.

(** [x.trim() || null] *)
Definition trimOrNull (x : jstr) : option jstr := strOrNone (trim x).

(** The loop of [getRawQueryFirstParam]: the value of the first part
    whose decoded key is [key]. *)
Fixpoint firstParamIn (key : jstr) (parts : list jstr) : option jstr :=
  match parts with
  | [] => None
  | part :: rest =>
      if isEmpty part then firstParamIn key rest
      else
        let eq := indexOf (js "=") part in
        let kRaw := if 0 <=? eq then slice part 0 eq else part in
        let vRaw := if 0 <=? eq then sliceFrom part (eq + 1) else [] in
        let k := safeDecodeURIComponent kRaw in
        if str_eqb k key then Some (safeDecodeURIComponent vRaw)
        else firstParamIn key rest
  end.

(** [getRawQueryFirstParam(query, key)] (vless-parser.js, ssr-parser.js) *)
Definition getRawQueryFirstParam (query : option jstr) (key : string)
  : option jstr :=
  let raw := asStr query in
  let s := dropQuestionMark raw in
  if isEmpty s then None
  else firstParamIn (js key) (splitClass isQuerySep s).

(** [supported.has(x)] for a [Set] of string literals. *)
Definition setHas (l : list string) (x : jstr) : bool :=
  existsb (fun k => str_eqb x (js k)) l.

(** The text that a [catch (e)] block reports:
    [asString(e && e.message ? e.message : e)]. *)
Definition exnText (e : exn) : jstr :=
  if truthy (message e) then message e else js "Error".

Section WithBuiltins.
Context {B : Builtins}.

(** [asString(v)] for any value. *)
Definition asString (v : jsval) : jstr :=
  if isNullish v then [] else toString v.

(** [lower(v)] *)
Definition lower (v : option jstr) : jstr := toLowerCase (trim (asStr v)).

(** [getFirstParam(queryObj, key)] *)
Definition getFirstParam (queryObj : obj) (key : string) : option jstr :=
  match getProp (js key) queryObj with
  | VUndef | VNull => None
  | VArr [] => None
  | VArr (x :: _) => Some (asString x)
  | v => Some (asString v)
  end.

(** [parseBooleanish(v)] *)
Definition parseBooleanish (v : option jstr) : bool :=
  let s := lower v in
  if isEmpty s then false
  else setHas ["1"; "true"; "yes"; "y"; "on"]%string s.

(** [/^[+]?\d+$/.test(s)] *)
Definition isPlusDigits (s : jstr) : bool :=
  let d := match s with
           | c :: s' => if (c =? ch "+")%N then s' else s
           | [] => s
           end in
  truthy d && forallb isDigit d.

(** [parsePositiveInt(v)] for a string or [null]. *)
Definition parsePositiveInt (v : option jstr) : jsnum :=
  let s := trim (asStr v) in
  if isEmpty s then NaN
  else if negb (isPlusDigits s) then NaN
  else
    match parseInt s with
    | NInt n => if 0 <? n then NInt n else NaN
    | NOther _ => NaN
    end.

(** [Number.isFinite(n) ? n : undefined] *)
Definition finiteOrUndef (n : jsnum) : jsval :=
  if isFinite n then VNum n else VUndef.

(** [s.split(sep).map((x) => x.trim()).filter(Boolean)] *)
Definition trimmedParts (parts : list jstr) : list jstr :=
  filter truthy (map trim parts).

Definition isCommaOrBar (c : N) : bool := (c =? ch ",")%N || (c =? ch "|")%N.

(** [parseAlpn(v)] of hysteria-parser.js, hysteria2-parser.js and
    tuic-parser.js, called on the result of [getFirstParam]. *)
Definition parseAlpnBar (v : option jstr) : list jstr :=
  match v with
  | None => []
  | Some x =>
      let s := trim x in
      if isEmpty s then [] else trimmedParts (splitClass isCommaOrBar s)
  end.

End WithBuiltins.

End Common.

(* ================================================================== *)
(** ** parsers/vless-parser.js *)
(* ================================================================== *)

Module VLESS.
Import JS Codec Val Utils Eff Common.
Local Open Scope eff_scope.

Section WithBuiltins.
Context {B : Builtins}.

(** [parseAlpn(v)]: [v] is [queryObj.alpn], a string, an array of strings
    or [undefined]. *)
Definition parseAlpn (v : jsval) : list jstr :=
  if isNullish v then []
  else
    let raw := match v with
               | VArr l => join (js ",") (map asString l)
               | _ => asString v
               end in
    trimmedParts (split (js ",") raw).

(** [/^uuid:/i.test(raw)] *)
Definition hasUuidPrefix (raw : jstr) : bool :=
  match raw with
  | u1 :: u2 :: i :: d :: c :: _ =>
      ((u1 =? ch "u") || (u1 =? ch "U"))%N
      && ((u2 =? ch "u") || (u2 =? ch "U"))%N
      && ((i =? ch "i") || (i =? ch "I"))%N
      && ((d =? ch "d") || (d =? ch "D"))%N
      && (c =? ch ":")%N
  | _ => false
  end.

(** The second half of [normalizeUuid], after the [uuid:] prefix form. *)
Definition normalizeUuidPlain (raw : jstr) : M jstr :=
  if isUuid raw then ret raw
  else
    let decoded := base64DecodeUtf8 raw in
    let decodedTrim := trim (asStr decoded) in
    if truthy decodedTrim && isUuid decodedTrim then
      warn (js "检测到非标准 Base64 UUID，已成功解码为标准 UUID") ;;
      ret decodedTrim
    else
      warn (js "UUID 非法（既不是标准 UUID，也无法作为 Base64 UUID 解码）") ;;
      ret raw.

(** [normalizeUuid(uuidRaw, warnings)] *)
Definition normalizeUuid (uuidRaw : jstr) : M jstr :=
  let raw := trim uuidRaw in
  if isEmpty raw then
    warn (js "缺少 uuid（userinfo）") ;; ret []
  else if hasUuidPrefix raw then
    let tail := trim (sliceFrom raw (indexOf (js ":") raw + 1)) in
    if isUuid tail then
      warn (js "检测到非标准 userinfo（uuid:xxx），已取 ':' 后的 UUID") ;;
      ret tail
    else
      let decodedTail := base64DecodeUtf8 tail in
      let decodedTailTrim := trim (asStr decodedTail) in
      if truthy decodedTailTrim && isUuid decodedTailTrim then
        warn (js "检测到非标准 userinfo（uuid:Base64），已成功解码为标准 UUID") ;;
        ret decodedTailTrim
      else normalizeUuidPlain raw
  else normalizeUuidPlain raw.

(** [/^[0-9a-fA-F]+$/.test(sid)] *)
Definition isHexString (s : jstr) : bool := truthy s && forallb isHex s.

(** The [try] block of [parse]. *)
Definition parseBody (url : jstr) : M jsval :=
  let rawUrl := trim url in
  let parts := splitUrlLoosely rawUrl in
  let scheme := scheme parts in
  let authority := authority parts in
  let query := query parts in
  let fragment := fragment parts in
  when (truthy (lower scheme) && negb (str_eqb (lower scheme) (js "vless")))
       (warn (js "scheme 不是 vless（当前为 " ++ asStr scheme
              ++ js "），仍尝试按 VLESS 解析")) ;;
  let a := parseAuthority (Some (asStr authority)) in
  let userinfo := userinfo a in
  let host := host a in
  let port := port a in
  let uuidDecoded := safeDecodeURIComponent (asStr userinfo) in
  uuid <- normalizeUuid uuidDecoded ;;
  let server := trim (asStr host) in
  when (isEmpty server) (warn (js "缺少服务器地址（host）")) ;;
  let portNum := port in
  match portNum with
  | None =>
      when (truthy server && includes (js ":") server
            && negb (includes (js "]") (asStr authority)))
           (warn (js "疑似 IPv6 地址未使用 [] 包裹，导致端口无法解析")) ;;
      warn (js "缺少端口（port）")
  | Some p =>
      when (negb (isPort (ofInt p)))
           (warn (js "端口非法（" ++ Z_toString p ++ js "），期望范围 1-65535"))
  end ;;
  let queryObj := parseQuery (Some (asStr query)) in
  let decodedName := safeDecodeURIComponent (asStr fragment) in
  let name := orElse (orElse (trim decodedName) server) (js "vless") in
  when (isEmpty decodedName || isEmpty (trim decodedName))
       (warn (js "缺少节点名称（fragment），已使用 host 或默认值代替")) ;;
  (* TLS / Reality *)
  let securityRaw := getFirstParam queryObj "security" in
  let security := lower securityRaw in
  let sni := trimOrNull (asStr (getFirstParam queryObj "sni")) in
  let fp := trimOrNull (asStr (getFirstParam queryObj "fp")) in
  let allowInsecure := parseBooleanish (getFirstParam queryObj "allowInsecure") in
  let alpn := parseAlpn (getProp (js "alpn") queryObj) in
  let pbkFromRaw := getRawQueryFirstParam query "pbk" in
  let pbk := trimOrNull (asStr (match pbkFromRaw with
                                | Some _ => pbkFromRaw
                                | None => getFirstParam queryObj "pbk"
                                end)) in
  let sid := trimOrNull (asStr (getFirstParam queryObj "sid")) in
  let hasTlsHints :=
    truthy (asStr sni) || truthy (asStr fp) || allowInsecure
    || negb (isEmpty alpn) || truthy (asStr pbk) || truthy (asStr sid) in
  let explicit := str_eqb security (js "tls") || str_eqb security (js "reality") in
  when (negb explicit && truthy security)
       (warn (js "未知 security=" ++ asStr securityRaw
              ++ js "，将按" ++ dquote ++ js "无 TLS" ++ dquote
              ++ js "处理（如存在 TLS 相关参数则会尝试推断）")) ;;
  let inferred := negb explicit && hasTlsHints in
  let inferredSecurity :=
    if truthy (asStr pbk) || truthy (asStr sid) then js "reality" else js "tls" in
  when inferred
       (warn (js "缺少或无法识别 security，已根据参数推断为 " ++ inferredSecurity)) ;;
  let tlsEnabled := explicit || inferred in
  let tlsSecurity :=
    if explicit then Some security
    else if inferred then Some inferredSecurity else None in
  let isReality := tlsEnabled && str_eqb (asStr tlsSecurity) (js "reality") in
  when (isReality && isEmpty (asStr pbk))
       (warn (js "security=reality 但缺少 pbk（Public Key）")) ;;
  when (isReality && truthy (asStr sid) && negb (isHexString (asStr sid)))
       (warn (js "sid（Short ID）不是合法 Hex 字符串")) ;;
  let reality :=
    if isReality then
      VObj ((match pbk with Some x => [(js "pbk", VStr x)] | None => [] end)
            ++ (match sid with Some x => [(js "sid", VStr x)] | None => [] end))
    else VUndef in
  let tls := VObj [
    (js "enabled", VBool tlsEnabled);
    (js "security", ofStrN tlsSecurity);
    (js "sni", ofStrN sni);
    (js "alpn", strsOrUndef alpn);
    (js "insecure", trueOrUndef allowInsecure);
    (js "fingerprint", strOrUndef (asStr fp));
    (js "reality", reality) ] in
  (* transport *)
  let typeRaw := getFirstParam queryObj "type" in
  let network := orElse (lower typeRaw) (js "tcp") in
  let supported := ["tcp"; "ws"; "grpc"; "http"]%string in
  let finalNetwork := if setHas supported network then network else js "tcp" in
  when (negb (setHas supported network) && truthy network)
       (warn (js "未知传输层 type=" ++ asStr typeRaw ++ js "，已降级为 tcp")) ;;
  let pathParam := orElse (trim (asStr (getFirstParam queryObj "path"))) (js "/") in
  let hostHeader := trimOrNull (asStr (getFirstParam queryObj "host")) in
  let pathHost := VObj [ (js "path", VStr pathParam);
                         (js "host", strOrUndef (asStr hostHeader)) ] in
  let serviceName := trimOrNull (asStr (getFirstParam queryObj "serviceName")) in
  let mode := trimOrNull (asStr (getFirstParam queryObj "mode")) in
  let transport := VObj [
    (js "network", VStr finalNetwork);
    (js "ws", if str_eqb finalNetwork (js "ws") then pathHost else VUndef);
    (js "grpc",
      if str_eqb finalNetwork (js "grpc") then
        VObj [ (js "serviceName", strOrUndef (asStr serviceName));
               (js "mode", strOrUndef (asStr mode)) ]
      else VUndef);
    (js "http", if str_eqb finalNetwork (js "http") then pathHost else VUndef) ] in
  (* flow *)
  let flow := trimOrNull (asStr (getFirstParam queryObj "flow")) in
  let extras := VObj [
    (js "uuidRaw", strOrUndef uuidDecoded);
    (js "flow", strOrUndef (asStr flow));
    (js "query", VObj queryObj);
    (js "rawUrl", strOrUndef rawUrl) ] in
  ws <- warnings ;;
  ret (VObj [
    (js "source", VStr (js "vless"));
    (js "type", VStr (js "vless"));
    (js "name", VStr name);
    (js "server", VStr server);
    (js "port", ofInt (match portNum with Some p => p | None => 0 end));
    (js "uuid", VStr uuid);
    (js "tls", tls);
    (js "transport", transport);
    (js "extras", extras);
    (js "warnings", ofStrs ws) ]).

(** The [catch (e)] block of [parse]. *)
Definition parseCatch (url : jstr) (e : exn) : M jsval :=
  warn (js "解析异常（已捕获）：" ++ exnText e) ;;
  ws <- warnings ;;
  ret (VObj [
    (js "source", VStr (js "vless"));
    (js "type", VStr (js "vless"));
    (js "name", VStr (js "vless"));
    (js "server", VStr []);
    (js "port", ofInt 0);
    (js "uuid", VStr []);
    (js "extras", VObj [ (js "rawUrl", VStr url) ]);
    (js "warnings", ofStrs ws) ]).

(** [VLESSParser.parse(url)]: the returned node, or the exception that
    escapes. *)
Definition parse (url : jstr) : exn + jsval :=
  run (tryCatch (parseBody url) (parseCatch url)).

End WithBuiltins.

End VLESS.

(* ================================================================== *)
(** ** parsers/trojan-parser.js *)
(* ================================================================== *)

Module Trojan.
Import JS Codec Val Utils Eff Common.
Local Open Scope eff_scope.

Section WithBuiltins.
Context {B : Builtins}.

(** [parseAlpn(v)]: [v] is [queryObj.alpn]. *)
Definition parseAlpn (v : jsval) : list jstr :=
  match v with
  | VUndef | VNull => []
  | VArr l => filter truthy (map (fun x => trim (asString x)) l)
  | _ =>
      let s := trim (asString v) in
      if isEmpty s then [] else trimmedParts (split (js ",") s)
  end.

(** The record returned for an empty input and by the [catch] block. *)
Definition zeroed (rawUrl : jstr) (ws : list jstr) : jsval :=
  VObj [
    (js "source", VStr (js "trojan"));
    (js "type", VStr (js "trojan"));
    (js "name", VStr (js "trojan"));
    (js "server", VStr []);
    (js "port", ofInt 0);
    (js "password", VStr []);
    (js "extras", VObj [ (js "rawUrl", VStr rawUrl) ]);
    (js "warnings", ofStrs ws) ].

Definition parseBody (url : jstr) : M jsval :=
  let rawUrl := trim url in
  if isEmpty rawUrl then
    warn (js "输入为空，无法解析 Trojan") ;;
    ws <- warnings ;;
    ret (zeroed [] ws)
  else
    let parts := splitUrlLoosely rawUrl in
    let scheme := scheme parts in
    let authority := authority parts in
    let query := query parts in
    let fragment := fragment parts in
    when (truthy (lower scheme) && negb (str_eqb (lower scheme) (js "trojan")))
         (warn (js "scheme 不是 trojan（当前为 " ++ asStr scheme
                ++ js "），仍尝试按 Trojan 解析")) ;;
    let nameFromFrag :=
      match fragment with
      | Some f => trim (safeDecodeURIComponent f)
      | None => []
      end in
    let queryObj := parseQuery query in
    let a := parseAuthority authority in
    let password := trim (safeDecodeURIComponent (asStr (userinfo a))) in
    let server := trim (safeDecodeURIComponent (asStr (host a))) in
    let portNum := if isPort (ofIntN (port a)) then asPort (port a) else 0 in
    when (isEmpty password) (warn (js "缺少密码：password（userinfo）")) ;;
    when (isEmpty server) (warn (js "缺少服务器地址：server")) ;;
    when (portNum =? 0)
         (warn (js "端口不合法：port=" ++ asString (ofIntN (port a)))) ;;
    let name := orElse (orElse nameFromFrag server) (js "trojan") in
    let securityRaw := getFirstParam queryObj "security" in
    let security := lower securityRaw in
    let sni :=
      trimOrNull (asStr (nullish (getFirstParam queryObj "sni")
                                 (getFirstParam queryObj "peer"))) in
    let alpn := parseAlpn (getProp (js "alpn") queryObj) in
    let allowInsecure :=
      parseBooleanish (nullish (getFirstParam queryObj "allowInsecure")
                               (getFirstParam queryObj "insecure")) in
    let tlsEnabled := negb (setHas ["none"; "false"; "0"; "off"]%string security) in
    when (negb tlsEnabled)
         (warn (js "security 指定为 none/false：Trojan 通常要求 TLS，已按输入禁用 tls")) ;;
    let tls := VObj [
      (js "enabled", VBool tlsEnabled);
      (js "security", if tlsEnabled then VStr (js "tls") else VNull);
      (js "sni", ofStrN sni);
      (js "alpn", strsOrUndef alpn);
      (js "insecure", trueOrUndef allowInsecure) ] in
    let typeRaw := getFirstParam queryObj "type" in
    let network0 := orElse (lower typeRaw) (js "tcp") in
    let supported := ["tcp"; "ws"; "grpc"]%string in
    let network := if setHas supported network0 then network0 else js "tcp" in
    when (negb (setHas supported network0) && truthy network0)
         (warn (js "未支持的传输层 type=" ++ asStr typeRaw ++ js "，已降级为 tcp")) ;;
    let pathParam := orElse (trim (asStr (getFirstParam queryObj "path"))) (js "/") in
    let hostHeader := trimOrNull (asStr (getFirstParam queryObj "host")) in
    let serviceName := trimOrNull (asStr (getFirstParam queryObj "serviceName")) in
    let mode := trimOrNull (asStr (getFirstParam queryObj "mode")) in
    let transport := VObj [
      (js "network", VStr network);
      (js "ws",
        if str_eqb network (js "ws") then
          VObj [ (js "path", VStr pathParam);
                 (js "host", strOrUndef (asStr hostHeader)) ]
        else VUndef);
      (js "grpc",
        if str_eqb network (js "grpc") then
          VObj [ (js "serviceName", strOrUndef (asStr serviceName));
                 (js "mode", strOrUndef (asStr mode)) ]
        else VUndef) ] in
    let extras := VObj [ (js "query", VObj queryObj); (js "rawUrl", VStr rawUrl) ] in
    ws <- warnings ;;
    ret (VObj [
      (js "source", VStr (js "trojan"));
      (js "type", VStr (js "trojan"));
      (js "name", VStr name);
      (js "server", VStr server);
      (js "port", ofInt portNum);
      (js "password", VStr password);
      (js "tls", tls);
      (js "transport", transport);
      (js "extras", extras);
      (js "warnings", ofStrs ws) ]).

Definition parseCatch (url : jstr) (e : exn) : M jsval :=
  warn (js "解析异常（已捕获）：" ++ exnText e) ;;
  ws <- warnings ;;
  ret (zeroed url ws).

(** [TrojanParser.parse(url)] *)
Definition parse (url : jstr) : exn + jsval :=
  run (tryCatch (parseBody url) (parseCatch url)).

End WithBuiltins.

End Trojan.

(* ================================================================== *)
(** ** parsers/hysteria-parser.js *)
(* ================================================================== *)

Module Hysteria.
Import JS Codec Val Utils Eff Common.
Local Open Scope eff_scope.

Section WithBuiltins.
Context {B : Builtins}.

(** [tryParseJsonObject(text)]; [None] is [null]. *)
Definition tryParseJsonObject (text : jstr) : option jsval :=
  let s := trim text in
  if isEmpty s then None
  else if negb (startsWith (js "{") s && endsWith (js "}") s) then None
  else
    match JSON_parse s with
    | Some (VObj o) => Some (VObj o)
    | Some _ => None
    | None => None
    end.

Definition zeroed (rawUrl : jstr) (ws : list jstr) : jsval :=
  VObj [
    (js "source", VStr (js "hysteria"));
    (js "type", VStr (js "hysteria"));
    (js "name", VStr (js "hysteria"));
    (js "server", VStr []);
    (js "port", ofInt 0);
    (js "extras", VObj [ (js "rawUrl", VStr rawUrl) ]);
    (js "warnings", ofStrs ws) ].

Definition parseBody (url : jstr) : M jsval :=
  let rawUrl := trim url in
  if isEmpty rawUrl then
    warn (js "输入为空，无法解析 Hysteria") ;;
    ws <- warnings ;;
    ret (zeroed [] ws)
  else
    let parts := splitUrlLoosely rawUrl in
    let scheme := scheme parts in
    let authority := authority parts in
    let path := path parts in
    let query := query parts in
    let fragment := fragment parts in
    when (truthy (lower scheme) && negb (str_eqb (lower scheme) (js "hysteria")))
         (warn (js "scheme 不是 hysteria（当前为 " ++ asStr scheme
                ++ js "），仍尝试按 Hysteria 解析")) ;;
    let nameFromFrag :=
      match fragment with
      | Some f => trim (safeDecodeURIComponent f)
      | None => []
      end in
    let queryObj := parseQuery query in
    let authorityText := match authority with Some x => x | None => path end in
    let a := parseAuthority (Some authorityText) in
    let server := trim (safeDecodeURIComponent (asStr (host a))) in
    let portNum := if isPort (ofIntN (port a)) then asPort (port a) else 0 in
    when (isEmpty server) (warn (js "缺少服务器地址：server")) ;;
    when (portNum =? 0)
         (warn (js "端口不合法：port=" ++ asString (ofIntN (port a)))) ;;
    let authFromUserinfo := trim (safeDecodeURIComponent (asStr (userinfo a))) in
    let authRaw :=
      orElse (trim (asStr (nullish (getFirstParam queryObj "auth-str")
                          (nullish (getFirstParam queryObj "auth_str")
                                   (getFirstParam queryObj "auth")))))
             authFromUserinfo in
    let maybeObj := if truthy authRaw then tryParseJsonObject authRaw else None in
    (if truthy authRaw then
       match maybeObj with
       | Some _ => warn (js "检测到 auth 为 JSON 对象：将输出到 Clash 的 auth 字段")
       | None => ret tt
       end
     else warn (js "缺少认证信息：auth-str/auth（query 或 userinfo）")) ;;
    let authStr :=
      if truthy authRaw then
        match maybeObj with Some _ => [] | None => authRaw end
      else [] in
    let authObj := match maybeObj with Some o => o | None => VUndef end in
    let sni :=
      trimOrNull (asStr (nullish (getFirstParam queryObj "sni")
                        (nullish (getFirstParam queryObj "peer")
                                 (getFirstParam queryObj "servername")))) in
    let alpn := parseAlpnBar (getFirstParam queryObj "alpn") in
    let allowInsecure :=
      parseBooleanish (nullish (getFirstParam queryObj "allowInsecure")
                      (nullish (getFirstParam queryObj "insecure")
                               (getFirstParam queryObj "skip-cert-verify"))) in
    let tls := VObj [
      (js "enabled", VBool true);
      (js "security", VStr (js "tls"));
      (js "sni", ofStrN sni);
      (js "alpn", strsOrUndef alpn);
      (js "insecure", trueOrUndef allowInsecure) ] in
    let obfs := trim (asStr (getFirstParam queryObj "obfs")) in
    let recvWindowConn0 :=
      parsePositiveInt (nullish (getFirstParam queryObj "recv-window-conn")
                       (nullish (getFirstParam queryObj "recvWindowConn")
                                (getFirstParam queryObj "recv_window_conn"))) in
    let recvWindow0 :=
      parsePositiveInt (nullish (getFirstParam queryObj "recv-window")
                       (nullish (getFirstParam queryObj "recvWindow")
                                (getFirstParam queryObj "recv_window"))) in
    let recvWindowConn := finiteOrUndef recvWindowConn0 in
    let recvWindow := finiteOrUndef recvWindow0 in
    let disableMtuDiscovery :=
      parseBooleanish (nullish (getFirstParam queryObj "disable-mtu-discovery")
                      (nullish (getFirstParam queryObj "disableMtuDiscovery")
                               (getFirstParam queryObj "disable_mtu_discovery"))) in
    let fastOpen :=
      parseBooleanish (nullish (getFirstParam queryObj "fast-open")
                      (nullish (getFirstParam queryObj "fastOpen")
                               (getFirstParam queryObj "fastopen"))) in
    let smuxEnabled := parseBooleanish (getFirstParam queryObj "smux") in
    let smux :=
      if smuxEnabled then VObj [ (js "enabled", VBool true) ] else VUndef in
    let name := orElse (orElse nameFromFrag server) (js "hysteria") in
    let extras := VObj [ (js "query", VObj queryObj); (js "rawUrl", VStr rawUrl) ] in
    ws <- warnings ;;
    ret (VObj [
      (js "source", VStr (js "hysteria"));
      (js "type", VStr (js "hysteria"));
      (js "name", VStr name);
      (js "server", VStr server);
      (js "port", ofInt portNum);
      (js "tls", tls);
      (js "authStr", strOrUndef authStr);
      (js "auth", authObj);
      (js "obfs", strOrUndef obfs);
      (js "recvWindowConn", recvWindowConn);
      (js "recvWindow", recvWindow);
      (js "disableMtuDiscovery", trueOrUndef disableMtuDiscovery);
      (js "fastOpen", trueOrUndef fastOpen);
      (js "smux", smux);
      (js "extras", extras);
      (js "warnings", ofStrs ws) ]).

Definition parseCatch (url : jstr) (e : exn) : M jsval :=
  warn (js "解析异常（已捕获）：" ++ exnText e) ;;
  ws <- warnings ;;
  ret (zeroed url ws).

(** [HysteriaParser.parse(url)] *)
Definition parse (url : jstr) : exn + jsval :=
  run (tryCatch (parseBody url) (parseCatch url)).

End WithBuiltins.

End Hysteria.

(* ================================================================== *)
(** ** parsers/hysteria2-parser.js *)
(* ================================================================== *)

Module Hysteria2.
Import JS Codec Val Utils Eff Common.
Local Open Scope eff_scope.

Section WithBuiltins.
Context {B : Builtins}.

Definition zeroed (rawUrl : jstr) (ws : list jstr) : jsval :=
  VObj [
    (js "source", VStr (js "hysteria2"));
    (js "type", VStr (js "hysteria2"));
    (js "name", VStr (js "hysteria2"));
    (js "server", VStr []);
    (js "port", ofInt 0);
    (js "password", VStr []);
    (js "extras", VObj [ (js "rawUrl", VStr rawUrl) ]);
    (js "warnings", ofStrs ws) ].

Definition parseBody (url : jstr) : M jsval :=
  let rawUrl := trim url in
  if isEmpty rawUrl then
    warn (js "输入为空，无法解析 Hysteria2") ;;
    ws <- warnings ;;
    ret (zeroed [] ws)
  else
    let parts := splitUrlLoosely rawUrl in
    let scheme := scheme parts in
    let authority := authority parts in
    let path := path parts in
    let query := query parts in
    let fragment := fragment parts in
    let sc := lower scheme in
    when (truthy sc && negb (str_eqb sc (js "hysteria2"))
          && negb (str_eqb sc (js "hy2")))
         (warn (js "scheme 不是 hysteria2/hy2（当前为 " ++ asStr scheme
                ++ js "），仍尝试按 Hysteria2 解析")) ;;
    let nameFromFrag :=
      match fragment with
      | Some f => trim (safeDecodeURIComponent f)
      | None => []
      end in
    let queryObj := parseQuery query in
    let authorityText := match authority with Some x => x | None => path end in
    let a := parseAuthority (Some authorityText) in
    let server := trim (safeDecodeURIComponent (asStr (host a))) in
    let portNum := if isPort (ofIntN (port a)) then asPort (port a) else 0 in
    let passwordFromUserinfo :=
      trim (safeDecodeURIComponent (asStr (userinfo a))) in
    let passwordFromQuery :=
      trim (asStr (nullish (getFirstParam queryObj "password")
                  (nullish (getFirstParam queryObj "auth")
                           (getFirstParam queryObj "passwd")))) in
    let password := trim (orElse (orElse passwordFromUserinfo passwordFromQuery) []) in
    when (isEmpty server) (warn (js "缺少服务器地址：server")) ;;
    when (portNum =? 0)
         (warn (js "端口不合法：port=" ++ asString (ofIntN (port a)))) ;;
    when (isEmpty password)
         (warn (js "缺少认证信息：password（userinfo 或 query:password/auth）")) ;;
    let name := orElse (orElse nameFromFrag server) (js "hysteria2") in
    let sni :=
      trimOrNull (asStr (nullish (getFirstParam queryObj "sni")
                        (nullish (getFirstParam queryObj "peer")
                                 (getFirstParam queryObj "servername")))) in
    let alpn := parseAlpnBar (getFirstParam queryObj "alpn") in
    let allowInsecure :=
      parseBooleanish (nullish (getFirstParam queryObj "allowInsecure")
                      (nullish (getFirstParam queryObj "insecure")
                               (getFirstParam queryObj "skip-cert-verify"))) in
    let tls := VObj [
      (js "enabled", VBool true);
      (js "security", VStr (js "tls"));
      (js "sni", ofStrN sni);
      (js "alpn", strsOrUndef alpn);
      (js "insecure", trueOrUndef allowInsecure) ] in
    let obfs := trim (asStr (getFirstParam queryObj "obfs")) in
    let obfsPassword :=
      trim (asStr (nullish (getFirstParam queryObj "obfs-password")
                  (nullish (getFirstParam queryObj "obfsPassword")
                           (getFirstParam queryObj "obfs_passwd")))) in
    let fastOpen :=
      parseBooleanish (nullish (getFirstParam queryObj "fast-open")
                      (nullish (getFirstParam queryObj "fastOpen")
                               (getFirstParam queryObj "fastopen"))) in
    let recvWindowConn0 :=
      parsePositiveInt (nullish (getFirstParam queryObj "recv-window-conn")
                       (nullish (getFirstParam queryObj "recvWindowConn")
                                (getFirstParam queryObj "recv_window_conn"))) in
    let recvWindow0 :=
      parsePositiveInt (nullish (getFirstParam queryObj "recv-window")
                       (nullish (getFirstParam queryObj "recvWindow")
                                (getFirstParam queryObj "recv_window"))) in
    let maxConn0 :=
      parsePositiveInt (nullish (getFirstParam queryObj "max-conn")
                       (nullish (getFirstParam queryObj "maxConn")
                                (getFirstParam queryObj "max_conn"))) in
    let recvWindowConn := finiteOrUndef recvWindowConn0 in
    let recvWindow := finiteOrUndef recvWindow0 in
    let maxConn := finiteOrUndef maxConn0 in
    let smuxEnabled := parseBooleanish (getFirstParam queryObj "smux") in
    let smux :=
      if smuxEnabled then VObj [ (js "enabled", VBool true) ] else VUndef in
    let extras := VObj [ (js "query", VObj queryObj); (js "rawUrl", VStr rawUrl) ] in
    ws <- warnings ;;
    ret (VObj [
      (js "source", VStr (js "hysteria2"));
      (js "type", VStr (js "hysteria2"));
      (js "name", VStr name);
      (js "server", VStr server);
      (js "port", ofInt portNum);
      (js "password", VStr password);
      (js "tls", tls);
      (js "obfs", strOrUndef obfs);
      (js "obfsPassword", strOrUndef obfsPassword);
      (js "fastOpen", trueOrUndef fastOpen);
      (js "recvWindowConn", recvWindowConn);
      (js "recvWindow", recvWindow);
      (js "maxConn", maxConn);
      (js "smux", smux);
      (js "extras", extras);
      (js "warnings", ofStrs ws) ]).

Definition parseCatch (url : jstr) (e : exn) : M jsval :=
  warn (js "解析异常（已捕获）：" ++ exnText e) ;;
  ws <- warnings ;;
  ret (zeroed url ws).

(** [Hysteria2Parser.parse(url)] *)
Definition parse (url : jstr) : exn + jsval :=
  run (tryCatch (parseBody url) (parseCatch url)).

End WithBuiltins.

End Hysteria2.

(* ================================================================== *)
(** ** parsers/tuic-parser.js *)
(* ================================================================== *)

Module TUIC.
Import JS Codec Val Utils Eff Common.
Local Open Scope eff_scope.

Section WithBuiltins.
Context {B : Builtins}.

(** [normalizeUuid(uuidRaw, warnings)] *)
Definition normalizeUuid (uuidRaw : jstr) : M jstr :=
  let raw := trim uuidRaw in
  if isEmpty raw then
    warn (js "缺少 uuid（userinfo 或 query）") ;; ret []
  else if isUuid raw then ret raw
  else
    let decoded := base64DecodeUtf8 raw in
    let d := trim (asStr decoded) in
    if truthy d && isUuid d then
      warn (js "检测到非标准 Base64 UUID：已成功解码为标准 UUID") ;;
      ret d
    else
      warn (js "uuid 不合法（已保留原值）") ;;
      ret raw.

Definition zeroed (rawUrl : jstr) (ws : list jstr) : jsval :=
  VObj [
    (js "source", VStr (js "tuic"));
    (js "type", VStr (js "tuic"));
    (js "name", VStr (js "tuic"));
    (js "server", VStr []);
    (js "port", ofInt 0);
    (js "uuid", VStr []);
    (js "password", VStr []);
    (js "extras", VObj [ (js "rawUrl", VStr rawUrl) ]);
    (js "warnings", ofStrs ws) ].

Definition parseBody (url : jstr) : M jsval :=
  let rawUrl := trim url in
  if isEmpty rawUrl then
    warn (js "输入为空，无法解析 TUIC") ;;
    ws <- warnings ;;
    ret (zeroed [] ws)
  else
    let parts := splitUrlLoosely rawUrl in
    let scheme := scheme parts in
    let authority := authority parts in
    let path := path parts in
    let query := query parts in
    let fragment := fragment parts in
    when (truthy (lower scheme) && negb (str_eqb (lower scheme) (js "tuic")))
         (warn (js "scheme 不是 tuic（当前为 " ++ asStr scheme
                ++ js "），仍尝试按 TUIC 解析")) ;;
    let nameFromFrag :=
      match fragment with
      | Some f => trim (safeDecodeURIComponent f)
      | None => []
      end in
    let queryObj := parseQuery query in
    let authorityText := match authority with Some x => x | None => path end in
    let a := parseAuthority (Some authorityText) in
    let server := trim (safeDecodeURIComponent (asStr (host a))) in
    let portNum := if isPort (ofIntN (port a)) then asPort (port a) else 0 in
    let userinfo := trim (safeDecodeURIComponent (asStr (userinfo a))) in
    let idx := indexOf (js ":") userinfo in
    when (truthy userinfo && (idx <? 0))
         (warn (js "TUIC userinfo 格式异常：期望 uuid:password")) ;;
    let uuidRaw :=
      if truthy userinfo then
        if 0 <=? idx then trim (slice userinfo 0 idx) else trim userinfo
      else [] in
    let passwordRaw :=
      if truthy userinfo && (0 <=? idx)
      then trim (sliceFrom userinfo (idx + 1)) else [] in
    let uuidFromQuery := trim (asStr (getFirstParam queryObj "uuid")) in
    let passwordFromQuery :=
      trim (asStr (nullish (getFirstParam queryObj "password")
                           (getFirstParam queryObj "pass"))) in
    uuid <- normalizeUuid (orElse uuidRaw uuidFromQuery) ;;
    let password := trim (orElse (orElse passwordRaw passwordFromQuery) []) in
    when (isEmpty server) (warn (js "缺少服务器地址：server")) ;;
    when (portNum =? 0)
         (warn (js "端口不合法：port=" ++ asString (ofIntN (port a)))) ;;
    when (isEmpty uuid) (warn (js "缺少或无效 uuid")) ;;
    when (isEmpty password) (warn (js "缺少 password")) ;;
    let name := orElse (orElse nameFromFrag server) (js "tuic") in
    let sni :=
      trimOrNull (asStr (nullish (getFirstParam queryObj "sni")
                        (nullish (getFirstParam queryObj "peer")
                                 (getFirstParam queryObj "servername")))) in
    let alpn := parseAlpnBar (getFirstParam queryObj "alpn") in
    let allowInsecure :=
      parseBooleanish (nullish (getFirstParam queryObj "allowInsecure")
                      (nullish (getFirstParam queryObj "insecure")
                               (getFirstParam queryObj "skip-cert-verify"))) in
    let tls := VObj [
      (js "enabled", VBool true);
      (js "security", VStr (js "tls"));
      (js "sni", ofStrN sni);
      (js "alpn", strsOrUndef alpn);
      (js "insecure", trueOrUndef allowInsecure) ] in
    let congestionController :=
      trim (asStr (nullish (getFirstParam queryObj "congestion-controller")
                  (nullish (getFirstParam queryObj "congestion_controller")
                           (getFirstParam queryObj "congestionController")))) in
    let reduceRtt :=
      parseBooleanish (nullish (getFirstParam queryObj "reduce-rtt")
                      (nullish (getFirstParam queryObj "reduce_rtt")
                               (getFirstParam queryObj "reduceRtt"))) in
    let requestTimeout0 :=
      parsePositiveInt (nullish (getFirstParam queryObj "request-timeout")
                       (nullish (getFirstParam queryObj "request_timeout")
                                (getFirstParam queryObj "requestTimeout"))) in
    let requestTimeout := finiteOrUndef requestTimeout0 in
    let maxUdpRelayPacketSize0 :=
      parsePositiveInt
        (nullish (getFirstParam queryObj "max-udp-relay-packet-size")
        (nullish (getFirstParam queryObj "max_udp_relay_packet_size")
                 (getFirstParam queryObj "maxUdpRelayPacketSize"))) in
    let maxUdpRelayPacketSize := finiteOrUndef maxUdpRelayPacketSize0 in
    let extras := VObj [ (js "query", VObj queryObj); (js "rawUrl", VStr rawUrl) ] in
    ws <- warnings ;;
    ret (VObj [
      (js "source", VStr (js "tuic"));
      (js "type", VStr (js "tuic"));
      (js "name", VStr name);
      (js "server", VStr server);
      (js "port", ofInt portNum);
      (js "uuid", VStr uuid);
      (js "password", VStr password);
      (js "tls", tls);
      (js "congestionController", strOrUndef congestionController);
      (js "reduceRtt", trueOrUndef reduceRtt);
      (js "requestTimeout", requestTimeout);
      (js "maxUdpRelayPacketSize", maxUdpRelayPacketSize);
      (js "extras", extras);
      (js "warnings", ofStrs ws) ]).

Definition parseCatch (url : jstr) (e : exn) : M jsval :=
  warn (js "解析异常（已捕获）：" ++ exnText e) ;;
  ws <- warnings ;;
  ret (zeroed url ws).

(** [TUICParser.parse(url)] *)
Definition parse (url : jstr) : exn + jsval :=
  run (tryCatch (parseBody url) (parseCatch url)).

End WithBuiltins.

End TUIC.

(* ================================================================== *)
(** ** parsers/ss-parser.js *)
(* ================================================================== *)

Module SS.
Import JS Codec Val Utils Eff Common.
Local Open Scope eff_scope.

Section WithBuiltins.
Context {B : Builtins}.

(** [getRawQueryFirstParamNoSemicolon(query, key)]: as
    [getRawQueryFirstParam], but the query is split at [&] only. *)
Definition getRawQueryFirstParamNoSemicolon (query : option jstr) (key : string)
  : option jstr :=
  let raw := asStr query in
  let s := dropQuestionMark raw in
  if isEmpty s then None
  else firstParamIn (js key) (split (js "&") s).

(** [parseMethodPassword(text, warnings)]: [(method, password)]. *)
Definition parseMethodPassword (text : jstr) : M (jstr * jstr) :=
  let s := trim text in
  if isEmpty s then
    warn (js "缺少 method:password") ;; ret ([], [])
  else
    let idx := indexOf (js ":") s in
    if idx <? 0 then
      warn (js "method:password 格式不正确（缺少 ':'）") ;;
      ret (trim s, [])
    else
      let method := trim (slice s 0 idx) in
      let password := trim (sliceFrom s (idx + 1)) in
      when (isEmpty method) (warn (js "缺少加密方法（cipher/method）")) ;;
      when (isEmpty password) (warn (js "缺少密码（password）")) ;;
      ret (method, password).

Record Creds := mkCreds {
  method : jstr;
  password : jstr;
  userinfoDecoded : jstr
}.

(** [parseUserinfoToCreds(userinfoRaw, warnings)] *)
Definition parseUserinfoToCreds (userinfoRaw : option jstr) : M Creds :=
  let userinfo := trim (safeDecodeURIComponent (asStr userinfoRaw)) in
  if isEmpty userinfo then
    warn (js "缺少 userinfo（method:password 或 Base64(method:password)）") ;;
    ret (mkCreds [] [] [])
  else
    let decoded := base64DecodeUtf8 userinfo in
    let d := trim (asStr decoded) in
    match decoded with
    | Some _ =>
        if truthy d && includes (js ":") d then
          warn (js "检测到 Base64(method:password) 的 userinfo，已成功解码") ;;
          mp <- parseMethodPassword d ;;
          ret (mkCreds (fst mp) (snd mp) d)
        else
          mp <- parseMethodPassword userinfo ;;
          ret (mkCreds (fst mp) (snd mp) [])
    | None =>
        mp <- parseMethodPassword userinfo ;;
        ret (mkCreds (fst mp) (snd mp) [])
    end.

Record Plugin := mkPlugin {
  plugin : jstr;
  pluginOpts : jsval;
  pluginRaw : jstr
}.

(** The body of the loop over [parts.slice(1)] in [parsePlugin]. *)
Definition pluginOpt (opts : obj) (seg : jstr) : obj :=
  let p := trim seg in
  if isEmpty p then opts
  else
    let eq := indexOf (js "=") p in
    if eq <? 0 then setProp p (VBool true) opts
    else
      let k := trim (slice p 0 eq) in
      let v := trim (sliceFrom p (eq + 1)) in
      if isEmpty k then opts else setProp k (VStr v) opts.

(** [parsePlugin(pluginValue, warnings)] *)
Definition parsePlugin (pluginValue : option jstr) : M Plugin :=
  let raw := trim (asStr pluginValue) in
  if isEmpty raw then ret (mkPlugin [] VUndef [])
  else
    let s := trim (safeDecodeURIComponent raw) in
    if isEmpty s then ret (mkPlugin [] VUndef raw)
    else
      let parts := trimmedParts (split (js ";") s) in
      match parts with
      | [] => ret (mkPlugin [] VUndef s)
      | first :: others =>
          let plugin := first in
          let opts := fold_left pluginOpt others [] in
          when (isEmpty plugin) (warn (js "plugin 参数存在但插件名为空")) ;;
          ret (mkPlugin plugin
                        (if isEmpty opts then VUndef else VObj opts)
                        s)
      end.

Definition zeroed (rawUrl : jstr) (ws : list jstr) : jsval :=
  VObj [
    (js "source", VStr (js "ss"));
    (js "type", VStr (js "ss"));
    (js "name", VStr (js "ss"));
    (js "server", VStr []);
    (js "port", ofInt 0);
    (js "cipher", VStr []);
    (js "password", VStr []);
    (js "extras", VObj [ (js "rawUrl", VStr rawUrl) ]);
    (js "warnings", ofStrs ws) ].

(** What the three-way branch on the shape of the authority assigns. *)
Record Main := mkMain {
  m_server : jstr;
  m_port : Z;
  m_method : jstr;
  m_password : jstr;
  m_format : jstr
}.

Definition parseMain (a1 : Authority) : M Main :=
  let hasOuterHostPort :=
    truthy (asStr (host a1)) && (match port a1 with Some _ => true | None => false end) in
  let hasUserinfo :=
    match userinfo a1 with
    | Some u => negb (str_eqb (trim u) [])
    | None => false
    end in
  if hasOuterHostPort then
    let server := trim (safeDecodeURIComponentN (host a1)) in
    let portNum := if isPort (ofIntN (port a1)) then asPort (port a1) else 0 in
    when (portNum =? 0)
         (warn (js "端口不合法：port=" ++ asString (ofIntN (port a1)))) ;;
    creds <- parseUserinfoToCreds (userinfo a1) ;;
    let format :=
      if truthy (userinfoDecoded creds) then js "legacy" else js "sip002-plain" in
    ret (mkMain server portNum (method creds) (password creds) format)
  else if negb hasUserinfo && truthy (asStr (host a1)) then
    let payloadB64 := trim (safeDecodeURIComponentN (host a1)) in
    let decoded := base64DecodeUtf8 payloadB64 in
    match decoded with
    | None =>
        warn (js "Base64 解码失败：ss:// payload 非法（无法解析 SIP002 base64 形式）") ;;
        ret (mkMain [] 0 [] [] (js "unknown"))
    | Some dec =>
        let decodedText := trim dec in
        let a2 := parseAuthority (Some decodedText) in
        when (isEmpty (asStr (userinfo a2)))
             (warn (js "SIP002 Base64 解码后缺少 userinfo（method:password）")) ;;
        creds <- parseUserinfoToCreds (userinfo a2) ;;
        let server := trim (safeDecodeURIComponent (asStr (host a2))) in
        let portNum := if isPort (ofIntN (port a2)) then asPort (port a2) else 0 in
        when (isEmpty server) (warn (js "缺少服务器地址（Base64 解码后 host 为空）")) ;;
        when (portNum =? 0)
             (warn (js "端口不合法：port=" ++ asString (ofIntN (port a2)))) ;;
        ret (mkMain server portNum (method creds) (password creds)
                    (js "sip002-base64"))
    end
  else
    warn (js "无法识别 SS URL 主体结构（缺少 authority/host/userinfo）") ;;
    ret (mkMain [] 0 [] [] (js "unknown")).

Definition parseBody (url : jstr) : M jsval :=
  let rawUrl := trim url in
  if isEmpty rawUrl then
    warn (js "输入为空，无法解析 SS") ;;
    ws <- warnings ;;
    ret (zeroed [] ws)
  else
    let parts := splitUrlLoosely rawUrl in
    let scheme := scheme parts in
    let authority := authority parts in
    let path := path parts in
    let query := query parts in
    let fragment := fragment parts in
    when (truthy (lower scheme) && negb (str_eqb (lower scheme) (js "ss")))
         (warn (js "scheme 不是 ss（当前为 " ++ asStr scheme
                ++ js "），仍尝试按 SS 解析")) ;;
    let nameFromFrag :=
      match fragment with
      | Some f => trim (safeDecodeURIComponent f)
      | None => []
      end in
    let queryObj := parseQuery query in
    let pluginFromRaw := getRawQueryFirstParamNoSemicolon query "plugin" in
    let pluginValue :=
      match pluginFromRaw with
      | Some _ => pluginFromRaw
      | None => getFirstParam queryObj "plugin"
      end in
    pluginParsed <- parsePlugin pluginValue ;;
    let authorityText := match authority with Some x => x | None => path end in
    let a1 := parseAuthority (Some authorityText) in
    main <- parseMain a1 ;;
    let server := m_server main in
    let portNum := m_port main in
    let method := m_method main in
    let password := m_password main in
    let format := m_format main in
    when (isEmpty server) (warn (js "缺少服务器地址：server")) ;;
    when (portNum =? 0) (warn (js "缺少或无效端口：port")) ;;
    when (isEmpty method) (warn (js "缺少加密方法：cipher/method")) ;;
    when (isEmpty password) (warn (js "缺少密码：password")) ;;
    let name := orElse (orElse nameFromFrag server) (js "ss") in
    let extras := VObj [
      (js "format", VStr format);
      (js "pluginRaw", strOrUndef (pluginRaw pluginParsed));
      (js "query", VObj queryObj);
      (js "rawUrl", VStr rawUrl) ] in
    ws <- warnings ;;
    ret (VObj [
      (js "source", VStr (js "ss"));
      (js "type", VStr (js "ss"));
      (js "name", VStr name);
      (js "server", VStr server);
      (js "port", ofInt portNum);
      (js "cipher", VStr method);
      (js "password", VStr password);
      (js "plugin", strOrUndef (plugin pluginParsed));
      (js "pluginOpts", pluginOpts pluginParsed);
      (js "extras", extras);
      (js "warnings", ofStrs ws) ]).

Definition parseCatch (url : jstr) (e : exn) : M jsval :=
  warn (js "解析异常（已捕获）：" ++ exnText e) ;;
  ws <- warnings ;;
  ret (zeroed url ws).

(** [SSParser.parse(url)] *)
Definition parse (url : jstr) : exn + jsval :=
  run (tryCatch (parseBody url) (parseCatch url)).

End WithBuiltins.

End SS.

(* ================================================================== *)
(** ** parsers/ssr-parser.js *)
(* ================================================================== *)

Module SSR.
Import JS Codec Val Utils Eff Common.
Local Open Scope eff_scope.

Section WithBuiltins.
Context {B : Builtins}.

(** [parseQueryNoPlus(query)]: as [parseQuery], but [+] is kept. *)
Definition parseQueryNoPlus (query : jstr) : obj :=
  let s := dropQuestionMark query in
  if isEmpty s then []
  else
    fold_left
      (fun result part =>
         if isEmpty part then result
         else
           let eq := indexOf (js "=") part in
           let kRaw := if 0 <=? eq then slice part 0 eq else part in
           let vRaw := if 0 <=? eq then sliceFrom part (eq + 1) else [] in
           let k := safeDecodeURIComponent kRaw in
           let v := safeDecodeURIComponent vRaw in
           if isEmpty k then result else queryAdd k v result)
      (splitClass isQuerySep s) [].

(** [decodeBase64ToTextMaybe(b64, warnings, label)] *)
Definition decodeBase64ToTextMaybe (b64 : jstr) (label : string) : M jstr :=
  let raw := trim b64 in
  if isEmpty raw then ret []
  else
    match base64DecodeUtf8 raw with
    | None =>
        warn (js label ++ js " Base64 解码失败（已保留原值）") ;;
        ret raw
    | Some decoded => ret decoded
    end.

Record SsrMain := mkSsrMain {
  server : jstr;
  port : Z;
  protocol : jstr;
  method : jstr;
  obfs : jstr;
  password : jstr;
  passwordB64 : jstr
}.

Definition emptyMain : SsrMain := mkSsrMain [] 0 [] [] [] [] [].

(** [parseSsrMain(main, warnings)]: the five fields are cut off from the
    right, at the last colon each time. *)
Definition parseSsrMain (main : jstr) : M SsrMain :=
  let s0 := trim main in
  if isEmpty s0 then
    warn (js "SSR 主体为空（Base64 解码后无 server:port:...）") ;;
    ret emptyMain
  else
    tryCatch
      (let rest := s0 in
       let i5 := lastIndexOf (js ":") rest in
       if i5 <? 0 then throw (Error (js "缺少分隔符 ':'（无法定位 password）"))
       else
       let passwordB64 := sliceFrom rest (i5 + 1) in
       let rest := slice rest 0 i5 in
       let i4 := lastIndexOf (js ":") rest in
       if i4 <? 0 then throw (Error (js "缺少分隔符 ':'（无法定位 obfs）"))
       else
       let obfs := sliceFrom rest (i4 + 1) in
       let rest := slice rest 0 i4 in
       let i3 := lastIndexOf (js ":") rest in
       if i3 <? 0 then throw (Error (js "缺少分隔符 ':'（无法定位 method）"))
       else
       let method := sliceFrom rest (i3 + 1) in
       let rest := slice rest 0 i3 in
       let i2 := lastIndexOf (js ":") rest in
       if i2 <? 0 then throw (Error (js "缺少分隔符 ':'（无法定位 protocol）"))
       else
       let protocol := sliceFrom rest (i2 + 1) in
       let rest := slice rest 0 i2 in
       let i1 := lastIndexOf (js ":") rest in
       if i1 <? 0 then throw (Error (js "缺少分隔符 ':'（无法定位 port）"))
       else
       let portRaw := sliceFrom rest (i1 + 1) in
       let server := slice rest 0 i1 in
       let pn := parseInt (trim portRaw) in
       let port := if isPort (VNum pn) then asPort (portOrNull pn) else 0 in
       when (port =? 0) (warn (js "端口不合法：port=" ++ portRaw)) ;;
       ret (mkSsrMain (trim server) port (trim protocol) (trim method)
                      (trim obfs) [] (trim passwordB64)))
      (fun err =>
         warn (js "SSR 主体解析失败（已降级处理）：" ++ exnText err) ;;
         ret emptyMain).

(** Trailing slashes are removed: [s.replace(/\/+$/g, empty)]. *)
Definition dropTrailingSlashes (s : jstr) : jstr :=
  rev ((fix go (r : jstr) : jstr :=
          match r with
          | c :: r' => if (c =? ch "/")%N then go r' else r
          | [] => []
          end) (rev s)).

(** The records of the early returns and of the [catch] block differ in
    their [extras] only. *)
Definition zeroed (extras : obj) (ws : list jstr) : jsval :=
  VObj [
    (js "source", VStr (js "ssr"));
    (js "type", VStr (js "ssr"));
    (js "name", VStr (js "ssr"));
    (js "server", VStr []);
    (js "port", ofInt 0);
    (js "cipher", VStr []);
    (js "password", VStr []);
    (js "protocol", VStr []);
    (js "obfs", VStr []);
    (js "extras", VObj extras);
    (js "warnings", ofStrs ws) ].

(** [b64 ? decodeBase64ToTextMaybe(b64, warnings, label).trim() : empty] *)
Definition decodeParam (b64 : option jstr) (label : string) : M jstr :=
  if truthy (asStr b64) then
    t <- decodeBase64ToTextMaybe (asStr b64) label ;; ret (trim t)
  else ret [].

Definition parseBody (url : jstr) : M jsval :=
  let rawUrl := trim url in
  if isEmpty rawUrl then
    warn (js "输入为空，无法解析 SSR") ;;
    ws <- warnings ;;
    ret (zeroed [ (js "rawUrl", VStr []) ] ws)
  else
    let parts := splitUrlLoosely rawUrl in
    let scheme := scheme parts in
    let authority := authority parts in
    let path := path parts in
    let fragment := fragment parts in
    when (truthy (lower scheme) && negb (str_eqb (lower scheme) (js "ssr")))
         (warn (js "scheme 不是 ssr（当前为 " ++ asStr scheme
                ++ js "），仍尝试按 SSR 解析")) ;;
    let payloadRaw :=
      trim (safeDecodeURIComponent
              (match authority with Some x => x | None => path end)) in
    if isEmpty payloadRaw then
      warn (js "SSR payload 为空（缺少 Base64 主体）") ;;
      ws <- warnings ;;
      ret (zeroed [ (js "rawUrl", VStr rawUrl); (js "rawBase64", VStr []) ] ws)
    else
    match base64DecodeUtf8 payloadRaw with
    | None =>
        warn (js "SSR Base64 解码失败：payload 非法") ;;
        ws <- warnings ;;
        ret (zeroed [ (js "rawUrl", VStr rawUrl);
                      (js "rawBase64", VStr payloadRaw) ] ws)
    | Some decoded =>
    let decodedText := trim decoded in
    if isEmpty decodedText then
      warn (js "SSR Base64 解码后为空") ;;
      ws <- warnings ;;
      ret (zeroed [ (js "rawUrl", VStr rawUrl);
                    (js "rawBase64", VStr payloadRaw);
                    (js "rawDecodedText", VStr []) ] ws)
    else
    let idx := indexOf (js "/?") decodedText in
    let q2 := indexOf (js "?") decodedText in
    let mainPart :=
      if 0 <=? idx then slice decodedText 0 idx
      else if 0 <=? q2 then dropTrailingSlashes (slice decodedText 0 q2)
      else dropTrailingSlashes decodedText in
    let queryPart :=
      if 0 <=? idx then sliceFrom decodedText (idx + 2)
      else if 0 <=? q2 then sliceFrom decodedText (q2 + 1)
      else [] in
    mainParsed <- parseSsrMain mainPart ;;
    let server0 := trim (safeDecodeURIComponent (server mainParsed)) in
    let server :=
      if startsWith (js "[") server0 && endsWith (js "]") server0
      then slice server0 1 (-1) else server0 in
    let port := port mainParsed in
    let protocol := trim (protocol mainParsed) in
    let method := trim (method mainParsed) in
    let obfs := trim (obfs mainParsed) in
    password0 <- decodeBase64ToTextMaybe (passwordB64 mainParsed) "password" ;;
    let password := trim password0 in
    when (isEmpty server) (warn (js "缺少服务器地址：server")) ;;
    when (port =? 0) (warn (js "缺少或无效端口：port")) ;;
    when (isEmpty method) (warn (js "缺少加密方法：cipher/method")) ;;
    when (isEmpty password) (warn (js "缺少密码：password")) ;;
    when (isEmpty protocol) (warn (js "缺少 protocol")) ;;
    when (isEmpty obfs) (warn (js "缺少 obfs")) ;;
    let remarksB64 := getRawQueryFirstParam (Some queryPart) "remarks" in
    let groupB64 := getRawQueryFirstParam (Some queryPart) "group" in
    let protoparamB64 := getRawQueryFirstParam (Some queryPart) "protoparam" in
    let obfsparamB64 := getRawQueryFirstParam (Some queryPart) "obfsparam" in
    remarks <- decodeParam remarksB64 "remarks" ;;
    group <- decodeParam groupB64 "group" ;;
    protocolParam <- decodeParam protoparamB64 "protoparam" ;;
    obfsParam <- decodeParam obfsparamB64 "obfsparam" ;;
    let nameFromFrag :=
      match fragment with
      | Some f => trim (safeDecodeURIComponent f)
      | None => []
      end in
    let name := orElse (orElse (orElse nameFromFrag remarks) server) (js "ssr") in
    let queryObj := if truthy queryPart then parseQueryNoPlus queryPart else [] in
    let extras := VObj [
      (js "remarks", strOrUndef remarks);
      (js "group", strOrUndef group);
      (js "query", VObj queryObj);
      (js "rawUrl", VStr rawUrl);
      (js "rawBase64", VStr payloadRaw);
      (js "rawDecodedText", VStr decodedText);
      (js "rawInnerQuery", strOrUndef queryPart) ] in
    ws <- warnings ;;
    ret (VObj [
      (js "source", VStr (js "ssr"));
      (js "type", VStr (js "ssr"));
      (js "name", VStr name);
      (js "server", VStr server);
      (js "port", ofInt port);
      (js "cipher", VStr method);
      (js "password", VStr password);
      (js "protocol", VStr protocol);
      (js "protocolParam", strOrUndef protocolParam);
      (js "obfs", VStr obfs);
      (js "obfsParam", strOrUndef obfsParam);
      (js "extras", extras);
      (js "warnings", ofStrs ws) ])
    end.

Definition parseCatch (url : jstr) (e : exn) : M jsval :=
  warn (js "解析异常（已捕获）：" ++ exnText e) ;;
  ws <- warnings ;;
  ret (zeroed [ (js "rawUrl", VStr url) ] ws).

(** [SSRParser.parse(url)] *)
Definition parse (url : jstr) : exn + jsval :=
  run (tryCatch (parseBody url) (parseCatch url)).

End WithBuiltins.

End SSR.

(* ================================================================== *)
(** ** parsers/vmess-parser.js *)
(* ================================================================== *)

Module VMess.
Import JS Codec Val Utils Eff Common.
Local Open Scope eff_scope.

Section WithBuiltins.
Context {B : Builtins}.

(** [lower(v)] for any value. *)
Definition lowerV (v : jsval) : jstr := toLowerCase (trim (asString v)).

(** [a ?? b] on values. *)
Definition coalesce (a b : jsval) : jsval := if isNullish a then b else a.

(** [asObject(v)]; [None] is [null]. *)
Definition asObject (v : jsval) : option obj :=
  match v with VObj o => Some o | _ => None end.

(** [/^[+-]?\d+(\.\d+)?$/.test(s)] *)
Definition isDecimal (s : jstr) : bool :=
  let unsigned :=
    match s with
    | c :: s' => if ((c =? ch "+") || (c =? ch "-"))%N then s' else s
    | [] => s
    end in
  let int := takeWhile isDigit unsigned in
  let rest := skipn (List.length int) unsigned in
  truthy int
  && match rest with
     | [] => true
     | c :: frac => (c =? ch ".")%N && truthy frac && forallb isDigit frac
     end.

(** [parseNumberish(v)] *)
Definition parseNumberish (v : jsval) : jsnum :=
  let fromText :=
    let s := trim (asString v) in
    if isEmpty s then NaN
    else if negb (isDecimal s) then NaN
    else
      let n := Number_decimal s in
      if isFinite n then n else NaN in
  match v with
  | VNum n => if isFinite n then n else fromText
  | _ => fromText
  end.

(** [parseAlpn(v)] *)
Definition parseAlpn (v : jsval) : list jstr :=
  match v with
  | VUndef | VNull => []
  | VArr l => filter truthy (map (fun x => trim (asString x)) l)
  | _ =>
      let s := trim (asString v) in
      if isEmpty s then [] else trimmedParts (splitClass isCommaOrBar s)
  end.

Definition TLS_TOKEN_SET : list string :=
  ["tls"; "xtls"; "reality"; "none"; "true"; "false"; "1"; "0"; "on"; "off"]%string.

(** [isTlsToken(s)] *)
Definition isTlsToken (s : jstr) : bool :=
  let t := toLowerCase (trim s) in
  if isEmpty t then false else setHas TLS_TOKEN_SET t.

Record TlsMode := mkTlsMode {
  enabled : bool;
  security : option jstr;
  unknown : option jstr
}.

(** [parseTlsMode(v)] *)
Definition parseTlsMode (v : jsval) : TlsMode :=
  let s := lowerV v in
  if isEmpty s || setHas ["none"; "false"; "0"; "off"]%string s
  then mkTlsMode false None None
  else if setHas ["tls"; "xtls"; "1"; "true"; "on"]%string s
  then mkTlsMode true (Some (js "tls")) None
  else if str_eqb s (js "reality")
  then mkTlsMode true (Some (js "reality")) None
  else mkTlsMode false None (Some s).

(** [normalizeUuid(uuidRaw, warnings)] *)
Definition normalizeUuid (uuidRaw : jsval) : M jstr :=
  let raw := trim (asString uuidRaw) in
  if isEmpty raw then
    warn (js "缺少 id/uuid（VMess 用户 ID）") ;; ret []
  else if isUuid raw then ret raw
  else
    let decoded := base64DecodeUtf8 raw in
    let decodedTrim := trim (asStr decoded) in
    if truthy decodedTrim && isUuid decodedTrim then
      warn (js "检测到非标准 Base64 UUID（id），已成功解码为标准 UUID") ;;
      ret decodedTrim
    else
      warn (js "id（uuid）不合法（既不是标准 UUID，也无法作为 Base64 UUID 解码）") ;;
      ret raw.

(** [s0.replace(/,\s*([}\]])/g, "$1")]: a comma that only white space
    separates from a closing bracket or brace is dropped with that white
    space.  [pend] holds the white space read after a comma that is still
    undecided. *)
Fixpoint dropTrailingCommas (s : jstr) (pend : option jstr) : jstr :=
  match s with
  | [] =>
      match pend with
      | Some w => ch "," :: w
      | None => []
      end
  | c :: s' =>
      match pend with
      | None =>
          if (c =? ch ",")%N then dropTrailingCommas s' (Some [])
          else c :: dropTrailingCommas s' None
      | Some w =>
          if isWhite c then dropTrailingCommas s' (Some (w ++ [c]))
          else if ((c =? ch "}") || (c =? ch "]"))%N
          then c :: dropTrailingCommas s' None
          else if (c =? ch ",")%N
          then ch "," :: w ++ dropTrailingCommas s' (Some [])
          else ch "," :: w ++ c :: dropTrailingCommas s' None
      end
  end.

(** A leading byte order mark is removed. *)
Definition dropBom (s : jstr) : jstr :=
  match s with
  | c :: s' => if (c =? 65279)%N then s' else s
  | [] => []
  end.

Definition NOT_OBJECT : jstr :=
  js "VMess JSON 不是对象（期望 {...}，实际为数组或其他类型）".

(** [parseJsonLoosely(text, warnings)]: the object (or [null]) and the
    text that was parsed. *)
Definition parseJsonLoosely (text : jstr) : M (option obj * jstr) :=
  let s0 := trim (dropBom text) in
  if isEmpty s0 then
    warn (js "VMess JSON 为空（Base64 解码后内容为空）") ;;
    ret (None, s0)
  else
    match JSON_parse s0 with
    | Some parsed =>
        let obj := asObject parsed in
        when (isNull obj) (warn NOT_OBJECT) ;;
        ret (obj, s0)
    | None =>
        let i := indexOf (js "{") s0 in
        let j := lastIndexOf (js "}") s0 in
        let sub := slice s0 i (j + 1) in
        match (if (0 <=? i) && (i <? j) then JSON_parse sub else None) with
        | Some parsed =>
            let obj := asObject parsed in
            when (isNull obj) (warn NOT_OBJECT) ;;
            warn (js "VMess JSON 不是严格格式：已截取 {...} 子串后解析") ;;
            ret (obj, sub)
        | None =>
            let fixed := dropTrailingCommas s0 None in
            match (if negb (str_eqb fixed s0) then JSON_parse fixed else None) with
            | Some parsed =>
                let obj := asObject parsed in
                when (isNull obj) (warn NOT_OBJECT) ;;
                warn (js "VMess JSON 不是严格格式：已尝试移除尾随逗号后解析") ;;
                ret (obj, fixed)
            | None =>
                warn (js "VMess JSON 解析失败（无法从 Base64 解码内容中获得有效对象）") ;;
                ret (None, s0)
            end
        end
    end.

(** The scheme pattern of [parse]: that of [splitUrlLoosely], followed by
    two slashes.  The whole match [m[0]] is three code units longer than
    the group [m[1]] that is returned. *)
Definition matchSchemeSlashes (s : jstr) : option jstr :=
  match matchScheme s with
  | Some m1 =>
      if startsWith (js "//") (skipn (List.length m1 + 1) s) then Some m1
      else None
  | None => None
  end.

(** The prefix [vmess:] in any case, then two slashes, are removed. *)
Definition dropVmessPrefix (rawUrl : jstr) : jstr :=
  let s1 :=
    if str_eqb (toLowerCaseAscii (firstn 6 rawUrl)) (js "vmess:")
    then skipn 6 rawUrl else rawUrl in
  if startsWith (js "//") s1 then skipn 2 s1 else s1.

(** [v != null ? asString(v) : undefined] *)
Definition textOrUndef (v : jsval) : jsval :=
  if isNullish v then VUndef else VStr (asString v).

Definition zeroed (rawUrl : jstr) (ws : list jstr) : jsval :=
  VObj [
    (js "source", VStr (js "vmess"));
    (js "type", VStr (js "vmess"));
    (js "name", VStr (js "vmess"));
    (js "server", VStr []);
    (js "port", ofInt 0);
    (js "uuid", VStr []);
    (js "extras", VObj [ (js "rawUrl", VStr rawUrl) ]);
    (js "warnings", ofStrs ws) ].

Definition parseBody (url : jstr) : M jsval :=
  let rawUrl := trim url in
  if isEmpty rawUrl then
    warn (js "输入为空，无法解析 VMess") ;;
    ws <- warnings ;;
    ret (zeroed [] ws)
  else
    let m := matchSchemeSlashes rawUrl in
    let scheme := m in
    when (truthy (asStr scheme)
          && negb (str_eqb (toLowerCase (trim (asStr scheme))) (js "vmess")))
         (warn (js "scheme 不是 vmess（当前为 " ++ asStr scheme
                ++ js "），仍尝试按 VMess 解析")) ;;
    let afterScheme :=
      match m with
      | Some m1 => sliceFrom rawUrl (len m1 + 3)
      | None => dropVmessPrefix rawUrl
      end in
    let hashIndex := indexOf (js "#") afterScheme in
    let beforeHash :=
      if 0 <=? hashIndex then slice afterScheme 0 hashIndex else afterScheme in
    let fragmentRaw :=
      if 0 <=? hashIndex then Some (sliceFrom afterScheme (hashIndex + 1))
      else None in
    let qIndex := indexOf (js "?") beforeHash in
    let payloadRaw0 :=
      if 0 <=? qIndex then slice beforeHash 0 qIndex else beforeHash in
    let queryRaw :=
      if 0 <=? qIndex then Some (sliceFrom beforeHash (qIndex + 1)) else None in
    let fragmentName :=
      match fragmentRaw with
      | Some f => safeDecodeURIComponent f
      | None => []
      end in
    let payloadRaw := safeDecodeURIComponent payloadRaw0 in
    let decoded := base64DecodeUtf8 payloadRaw in
    let maybeJson := trim payloadRaw in
    let direct := startsWith (js "{") maybeJson && endsWith (js "}") maybeJson in
    match decoded with
    | None =>
        if direct
        then warn (js "vmess:// 内容不是 Base64：检测到直接 JSON，已按 JSON 解析")
        else warn (js "Base64 解码失败：vmess:// payload 非法")
    | Some _ => ret tt
    end ;;
    let jsonText :=
      match decoded with
      | None => if direct then maybeJson else []
      | Some d => trim d
      end in
    parsed <- parseJsonLoosely jsonText ;;
    let vm := fst parsed in
    let jsonRawUsed := snd parsed in
    let vmObj := match vm with Some o => o | None => [] end in
    let ps := trim (asString (prop vmObj "ps")) in
    let add := trim (asString (coalesce (prop vmObj "add")
                               (coalesce (prop vmObj "server") (prop vmObj "addr")))) in
    let portRaw := prop vmObj "port" in
    let portNum0 := parseNumberish portRaw in
    let portNum :=
      if isInteger portNum0 && isPort (VNum portNum0)
      then asPort (portOrNull portNum0) else 0 in
    when (portNum =? 0)
         (warn (js "端口不合法：port=" ++ asString portRaw)) ;;
    uuid <- normalizeUuid (coalesce (prop vmObj "id") (prop vmObj "uuid")) ;;
    let alterIdRaw :=
      coalesce (prop vmObj "aid") (coalesce (prop vmObj "alterId") (prop vmObj "alterID")) in
    let alterId0 := parseNumberish alterIdRaw in
    let alterId :=
      match alterId0 with
      | NInt z => if 0 <=? z then z else 0
      | NOther _ => 0
      end in
    when (negb (isNullish alterIdRaw) && negb (isInteger alterId0))
         (warn (js "alterId 不合法：aid=" ++ asString alterIdRaw
                ++ js "（已降级为 0）")) ;;
    let securityRaw := prop vmObj "security" in
    let securityStr := trim (asString securityRaw) in
    let isSecurityTls := isTlsToken securityStr in
    let cipherRaw :=
      coalesce (prop vmObj "scy")
        (coalesce (prop vmObj "cipher")
           (if negb isSecurityTls && truthy securityStr
            then securityRaw else VUndef)) in
    let cipher := orElse (trim (asString cipherRaw)) (js "auto") in
    when (isEmpty add) (warn (js "缺少服务器地址：add/server")) ;;
    when (truthy uuid && negb (isUuid uuid))
         (warn (js "UUID 校验失败：id 不是标准 UUID（已保留原值）")) ;;
    let name :=
      trim (orElse (orElse (orElse (trim fragmentName) ps) add) (js "vmess")) in
    let tlsRaw :=
      coalesce (coalesce (prop vmObj "tls")
                         (if isSecurityTls then securityRaw else VUndef))
               (prop vmObj "tlsMode") in
    let tlsMode := parseTlsMode tlsRaw in
    when (truthy (asStr (unknown tlsMode)))
         (warn (js "未知 tls 值：" ++ asStr (unknown tlsMode)
                ++ js "（已按 tls=false 处理）")) ;;
    let sni :=
      trimOrNull (asString (coalesce (prop vmObj "sni")
                             (coalesce (prop vmObj "servername") (prop vmObj "serverName")))) in
    let alpn := parseAlpn (prop vmObj "alpn") in
    let hasTlsHints := truthy (asStr sni) || negb (isEmpty alpn) in
    let inferred := negb (enabled tlsMode) && hasTlsHints in
    when inferred
         (warn (js "缺少或无法识别 tls/security，已根据 TLS 参数（sni/alpn）推断为 tls=true")) ;;
    let tlsEnabled := enabled tlsMode || inferred in
    let tlsSecurity := if inferred then Some (js "tls") else security tlsMode in
    when (tlsEnabled && str_eqb (asStr tlsSecurity) (js "reality"))
         (warn (js "检测到 security=reality（VMess 通常不使用 Reality）：将按 tls=true 输出，Reality 细节仅保留在 extras")) ;;
    let tls := VObj [
      (js "enabled", VBool tlsEnabled);
      (js "security", ofStrN tlsSecurity);
      (js "sni", ofStrN sni);
      (js "alpn", strsOrUndef alpn) ] in
    let netRaw := coalesce (prop vmObj "net") (prop vmObj "network") in
    let net0 := orElse (lowerV netRaw) (js "tcp") in
    let headerType := lowerV (prop vmObj "type") in
    let net1 :=
      if str_eqb net0 (js "tcp") && str_eqb headerType (js "http")
      then js "http" else net0 in
    let supported := ["tcp"; "ws"; "grpc"; "http"; "h2"]%string in
    let finalNetwork := if setHas supported net1 then net1 else js "tcp" in
    when (negb (setHas supported net1) && truthy net1)
         (warn (js "未支持的传输层 net=" ++ asString netRaw
                ++ js "（Clash Meta 不支持 " ++ net1
                ++ js "，已降级为 tcp，原值保留在 extras）")) ;;
    let hostRaw := trim (asString (prop vmObj "host")) in
    let pathRaw := trim (asString (prop vmObj "path")) in
    let hostFirst :=
      if truthy hostRaw then
        match trimmedParts (split (js ",") hostRaw) with
        | x :: _ => x
        | [] => []
        end
      else [] in
    let pathOrRoot := orElse pathRaw (js "/") in
    let serviceName :=
      orElse (orElse (trim (asString (coalesce (prop vmObj "serviceName")
                                       (coalesce (prop vmObj "servicename")
                                                 (prop vmObj "service-name")))))
                     pathRaw) [] in
    let mode := orElse headerType [] in
    let transport := VObj [
      (js "network", VStr finalNetwork);
      (js "ws",
        if str_eqb finalNetwork (js "ws") then
          VObj [ (js "path", VStr pathOrRoot); (js "host", strOrUndef hostFirst) ]
        else VUndef);
      (js "grpc",
        if str_eqb finalNetwork (js "grpc") then
          VObj [ (js "serviceName", strOrUndef serviceName);
                 (js "mode", strOrUndef mode) ]
        else VUndef);
      (js "http",
        if str_eqb finalNetwork (js "http") then
          VObj [ (js "path", VStr pathOrRoot); (js "host", strOrUndef hostFirst) ]
        else VUndef);
      (js "h2",
        if str_eqb finalNetwork (js "h2") then
          VObj [ (js "path", VStr pathOrRoot); (js "host", strOrUndef hostRaw) ]
        else VUndef) ] in
    let extras := VObj [
      (js "v", strOrUndef (trim (asString (prop vmObj "v"))));
      (js "ps", strOrUndef ps);
      (js "addRaw", strOrUndef add);
      (js "portRaw", textOrUndef portRaw);
      (js "idRaw", textOrUndef (prop vmObj "id"));
      (js "aidRaw", textOrUndef alterIdRaw);
      (js "netRaw", textOrUndef netRaw);
      (js "typeRaw", textOrUndef (prop vmObj "type"));
      (js "hostRaw", strOrUndef hostRaw);
      (js "pathRaw", strOrUndef pathRaw);
      (js "tlsRaw", textOrUndef tlsRaw);
      (js "query",
        if truthy (asStr queryRaw) then VObj (parseQuery queryRaw) else VUndef);
      (js "rawBase64", strOrUndef payloadRaw);
      (js "rawJsonText", strOrUndef jsonRawUsed);
      (js "rawUrl", VStr rawUrl) ] in
    ws <- warnings ;;
    ret (VObj [
      (js "source", VStr (js "vmess"));
      (js "type", VStr (js "vmess"));
      (js "name", VStr name);
      (js "server", VStr add);
      (js "port", ofInt portNum);
      (js "uuid", VStr uuid);
      (js "alterId", ofInt alterId);
      (js "cipher", VStr cipher);
      (js "tls", tls);
      (js "transport", transport);
      (js "extras", extras);
      (js "warnings", ofStrs ws) ]).

Definition parseCatch (url : jstr) (e : exn) : M jsval :=
  warn (js "解析异常（已捕获）：" ++ exnText e) ;;
  ws <- warnings ;;
  ret (zeroed url ws).

(** [VMessParser.parse(url)] *)
Definition parse (url : jstr) : exn + jsval :=
  run (tryCatch (parseBody url) (parseCatch url)).

End WithBuiltins.

End VMess.

(* ================================================================== *)
(** ** index.js: the protocol dispatcher *)
(* ================================================================== *)

Module Dispatcher.
Import JS Codec Val Utils Eff Common.

Inductive protocol :=
| vless | vmess | ss | trojan | hysteria2 | ssr | hysteria | tuic.

(** The names that an object literal inherits from [Object.prototype].
    [PROTOCOL_ALIASES[p]] is a function for each of them but [__proto__],
    for which it is the prototype object; the function under
    [constructor] is [Object]. *)
Definition inheritedNames : list string :=
  ["__defineGetter__"; "__defineSetter__"; "hasOwnProperty";
   "__lookupGetter__"; "__lookupSetter__"; "isPrototypeOf";
   "propertyIsEnumerable"; "toString"; "valueOf"; "toLocaleString"]%string.

(** [String(f)] for the built-in function of that name. *)
Definition nativeText (name : jstr) : jstr :=
  js "function " ++ name ++ js "() { [native code] }".

(** [PROTOCOL_ALIASES[p] || p], as the text that the uses of the result
    ([parserMap[proto]], the error message) turn it into. *)
Definition aliasOrSelf (p : jstr) : jstr :=
  if str_eqb p (js "hy2") then js "hysteria2"
  else if str_eqb p (js "shadowsocks") then js "ss"
  else if str_eqb p (js "constructor") then nativeText (js "Object")
  else if setHas inheritedNames p then nativeText p
  else if str_eqb p (js "__proto__") then js "[object Object]"
  else p.

(** [parserMap[proto]] and [converterMap[proto]], which have the same
    keys; [None] is [undefined]. *)
Definition lookupProtocol (proto : jstr) : option protocol :=
  if str_eqb proto (js "vless") then Some vless
  else if str_eqb proto (js "vmess") then Some vmess
  else if str_eqb proto (js "ss") then Some ss
  else if str_eqb proto (js "trojan") then Some trojan
  else if str_eqb proto (js "hysteria2") then Some hysteria2
  else if str_eqb proto (js "ssr") then Some ssr
  else if str_eqb proto (js "hysteria") then Some hysteria
  else if str_eqb proto (js "tuic") then Some tuic
  else None.

(** The result of [parseProxyLink]: [{success: true, proxy, warnings}] or
    [{success: false, error}]. *)
Inductive LinkResult :=
| Success (proxy : jsval) (warnings : jsval)
| Failure (error : jstr).


Record BatchError := mkBatchError {
  line : Z;
  link : jstr;
  error : jstr
}.

Record BatchResult := mkBatchResult {
  proxies : list jsval;
  errors : list BatchError
}.

(** The argument of [parseBatchProxyLinks]: an array of lines, or one
    string. *)
Inductive BatchInput :=
| Lines (lines : list jstr)
| Text (text : jstr).

(** [l.forEach((x, index) => ...)] as a fold over a state. *)
Fixpoint forEach {A S} (f : S -> A -> Z -> S) (l : list A) (index : Z) (s : S) : S :=
  match l with
  | [] => s
  | x :: l' => forEach f l' (index + 1) (f s x index)
  end.

Section WithBuiltins.
Context {B : Builtins}.

(** The converters ([converters/*.js]).  The body of each [convert] is one
    [try] block whose [catch] returns an object literal, so that [convert]
    returns a value for every node.  Which value is of no concern to the
    dispatcher, which is stated for any such functions. *)
Variable convert : protocol -> jsval -> jsval.

(** [normalizeProtocol(raw)] *)
Definition normalizeProtocol (raw : jstr) : jstr :=
  let p := toLowerCase (trim raw) in
  aliasOrSelf p.

(** [parserMap[proto].parse(raw)] *)
Definition parserOf (proto : protocol) : jstr -> exn + jsval :=
  match proto with
  | vless => VLESS.parse
  | vmess => VMess.parse
  | ss => SS.parse
  | trojan => Trojan.parse
  | hysteria2 => Hysteria2.parse
  | ssr => SSR.parse
  | hysteria => Hysteria.parse
  | tuic => TUIC.parse
  end.

(** [raw.split('://')[0]] *)
Definition schemeToken (raw : jstr) : jstr :=
  match split (js "://") raw with
  | x :: _ => x
  | [] => []
  end.

(** [node?.warnings || []] *)
Definition warningsOf (node : jsval) : jsval :=
  let w := field "warnings" node in
  if truthyV w then w else VArr [].

(** [parseProxyLink(link)] *)
Definition parseProxyLink (link : jstr) : LinkResult :=
  let raw := trim link in
  if isEmpty raw then Failure (js "无效的代理链接")
  else
    let proto := normalizeProtocol (schemeToken raw) in
    match lookupProtocol proto with
    | None =>
        Failure (js "不支持的协议: " ++ orElse proto (js "(unknown)"))
    | Some p =>
        match parserOf p raw with
        | inr node =>
            let proxy := convert p node in
            Success proxy (warningsOf node)
        | inl e => Failure (exnText e)
        end
    end.

(** [trimmed.length > 80 ? `${trimmed.slice(0, 80)}...` : trimmed] *)
Definition shorten (trimmed : jstr) : jstr :=
  if 80 <? len trimmed then slice trimmed 0 80 ++ js "..." else trimmed.

(** The callback of [forEach] in [parseBatchProxyLinks]. *)
Definition batchLine (acc : BatchResult) (line : jstr) (index : Z) : BatchResult :=
  let trimmed := trim line in
  if isEmpty trimmed || negb (includes (js "://") trimmed) then acc
  else
    match parseProxyLink trimmed with
    | Success proxy _ => mkBatchResult (proxies acc ++ [proxy]) (errors acc)
    | Failure err =>
        mkBatchResult (proxies acc)
          (errors acc ++ [mkBatchError (index + 1) (shorten trimmed) err])
    end.

(** [parseBatchProxyLinks(lines)] *)
Definition parseBatchProxyLinks (lines : BatchInput) : BatchResult :=
  let l := match lines with
           | Lines l => l
           | Text s => split newline s
           end in
  forEach batchLine l 0 (mkBatchResult [] []).

End WithBuiltins.

End Dispatcher.

(* ================================================================== *)
(** ** An engine for the examples *)
(* ================================================================== *)

(** The open functions of [Builtins], defined on the inputs that the
    examples and the witnesses of this file use: [toLowerCase] maps the
    letters A-Z and leaves every other code unit as it is (what
    JavaScript does on ASCII text); [JSON.parse] reads JSON whose numbers
    are written without fraction and exponent exactly, and keeps any
    other number as its text. *)
Module Engine.
Import JS Codec Val.

Definition isJsonWhite (c : N) : bool :=
  (c =? 32)%N || (c =? 9)%N || (c =? 10)%N || (c =? 13)%N.

Fixpoint skipWhite (s : jstr) : jstr :=
  match s with
  | c :: s' => if isJsonWhite c then skipWhite s' else s
  | [] => []
  end.

(** The characters of a string literal after its opening quote, and what
    follows the closing quote. *)
Fixpoint jsonString (s : jstr) (acc : jstr) : option (jstr * jstr) :=
  match s with
  | [] => None
  | c :: s' =>
      if (c =? 34)%N then Some (acc, s')
      else if (c =? ch "\")%N then
        match s' with
        | e :: s'' =>
            if (e =? ch "u")%N then
              match s'' with
              | h1 :: h2 :: h3 :: h4 :: rest =>
                  if isHex h1 && isHex h2 && isHex h3 && isHex h4 then
                    jsonString rest
                      (acc ++ [(((hexVal h1 * 16 + hexVal h2) * 16
                                 + hexVal h3) * 16 + hexVal h4)%N])
                  else None
              | _ => None
              end
            else
              let simple (x : N) := jsonString s'' (acc ++ [x]) in
              if (e =? 34)%N then simple 34%N
              else if (e =? ch "\")%N then simple (ch "\")
              else if (e =? ch "/")%N then simple (ch "/")
              else if (e =? ch "b")%N then simple 8%N
              else if (e =? ch "f")%N then simple 12%N
              else if (e =? ch "n")%N then simple 10%N
              else if (e =? ch "r")%N then simple 13%N
              else if (e =? ch "t")%N then simple 9%N
              else None
        | [] => None
        end
      else if (c <? 32)%N then None
      else jsonString s' (acc ++ [c])
  end.

Definition isNumberChar (c : N) : bool :=
  isDigit c || (c =? ch "-")%N || (c =? ch "+")%N || (c =? ch ".")%N
  || (c =? ch "e")%N || (c =? ch "E")%N.

(** An optional minus sign and digits without a leading zero. *)
Definition isJsonInt (s : jstr) : bool :=
  let d := match s with
           | c :: s' => if (c =? ch "-")%N then s' else s
           | [] => s
           end in
  truthy d && forallb isDigit d
  && match d with
     | c :: _ :: _ => negb (c =? ch "0")%N
     | _ => true
     end.

Definition jsonNumber (s : jstr) : option (jsval * jstr) :=
  let t := Utils.takeWhile isNumberChar s in
  let rest := skipn (List.length t) s in
  if isJsonInt t then
    match JS.parseInt t with
    | Some z => Some (VNum (toDouble z), rest)
    | None => None
    end
  else if truthy t && startsWithDigit (match t with
                                        | c :: t' => if (c =? ch "-")%N then t' else t
                                        | [] => t
                                        end)
  then Some (VNum (NOther t), rest)
  else None.

Definition dropLiteral (lit : string) (s : jstr) : option jstr :=
  if startsWith (js lit) s then Some (skipn (List.length (js lit)) s) else None.

Fixpoint jsonValue (fuel : nat) (s : jstr) : option (jsval * jstr) :=
  match fuel with
  | O => None
  | S f =>
      match skipWhite s with
      | [] => None
      | c :: s' =>
          if (c =? ch "{")%N then
            match skipWhite s' with
            | d :: s'' =>
                if (d =? ch "}")%N then Some (VObj [], s'')
                else jsonMembers f (d :: s'') []
            | [] => None
            end
          else if (c =? ch "[")%N then
            match skipWhite s' with
            | d :: s'' =>
                if (d =? ch "]")%N then Some (VArr [], s'')
                else jsonElements f (d :: s'') []
            | [] => None
            end
          else if (c =? 34)%N then
            match jsonString s' [] with
            | Some (t, rest) => Some (VStr t, rest)
            | None => None
            end
          else if (c =? ch "t")%N then
            option_map (pair (VBool true)) (dropLiteral "true" (c :: s'))
          else if (c =? ch "f")%N then
            option_map (pair (VBool false)) (dropLiteral "false" (c :: s'))
          else if (c =? ch "n")%N then
            option_map (pair VNull) (dropLiteral "null" (c :: s'))
          else jsonNumber (c :: s')
      end
  end
with jsonMembers (fuel : nat) (s : jstr) (acc : obj) : option (jsval * jstr) :=
  match fuel with
  | O => None
  | S f =>
      match skipWhite s with
      | q :: s1 =>
          if (q =? 34)%N then
            match jsonString s1 [] with
            | Some (k, s2) =>
                match skipWhite s2 with
                | colon :: s3 =>
                    if (colon =? ch ":")%N then
                      match jsonValue f s3 with
                      | Some (v, s4) =>
                          let acc' := setProp k v acc in
                          match skipWhite s4 with
                          | d :: s5 =>
                              if (d =? ch ",")%N then jsonMembers f s5 acc'
                              else if (d =? ch "}")%N then Some (VObj acc', s5)
                              else None
                          | [] => None
                          end
                      | None => None
                      end
                    else None
                | [] => None
                end
            | None => None
            end
          else None
      | [] => None
      end
  end
with jsonElements (fuel : nat) (s : jstr) (acc : list jsval) : option (jsval * jstr) :=
  match fuel with
  | O => None
  | S f =>
      match jsonValue f s with
      | Some (v, s1) =>
          match skipWhite s1 with
          | d :: s2 =>
              if (d =? ch ",")%N then jsonElements f s2 (acc ++ [v])
              else if (d =? ch "]")%N then Some (VArr (acc ++ [v]), s2)
              else None
          | [] => None
          end
      | None => None
      end
  end.

Definition jsonParse (s : jstr) : option jsval :=
  match jsonValue (S (List.length s)) s with
  | Some (v, rest) => if isEmpty (skipWhite rest) then Some v else None
  | None => None
  end.

(** [Number(s)] for a decimal text: exact when the fraction is absent or
    all zeros, the text itself otherwise. *)
Definition numberDecimal (s : jstr) : jsnum :=
  let dot := indexOf (js ".") s in
  let int := if 0 <=? dot then slice s 0 dot else s in
  let frac := if 0 <=? dot then sliceFrom s (dot + 1) else [] in
  if forallb (fun c => (c =? ch "0")%N) frac then
    match JS.parseInt int with
    | Some z => toDouble z
    | None => NaN
    end
  else NOther s.

#[export] Instance builtins : Builtins := {|
  toLowerCase := toLowerCaseAscii;
  JSON_parse := jsonParse;
  Number_decimal := numberDecimal;
  bigIntText := Z_toString;
  toLowerCase_empty := eq_refl
|}.

End Engine.

(* ================================================================== *)
(** ** What the claims say, in terms of the definitions above *)
(* ================================================================== *)

Module Spec.
Import JS Codec Val Utils Eff Common Dispatcher.

(** A computation returns a value that satisfies [P], whatever the
    warnings before it: in particular it does not throw. *)
Definition returns {A} (m : M A) (P : A -> Prop) : Prop :=
  forall ws, exists a ws', m ws = (inr a, ws') /\ P a.

Definition protocolName (p : protocol) : string :=
  match p with
  | vless => "vless"
  | vmess => "vmess"
  | ss => "ss"
  | trojan => "trojan"
  | hysteria2 => "hysteria2"
  | ssr => "ssr"
  | hysteria => "hysteria"
  | tuic => "tuic"
  end.

Definition portInRange (n : Z) : Prop := n = 0 \/ 1 <= n <= 65535.

(** A printable ASCII character other than the space. *)
Definition plain (c : N) : Prop := (32 < c < 127)%N.

(** The values of six bits. *)
Definition sextets : list N := map N.of_nat (seq 0 64).

(** The port invariant: an integer that is 0 or lies in 1..65535. *)
Definition portOk (node : jsval) : Prop :=
  exists p, field "port" node = ofInt p /\ (p = 0 \/ 1 <= p <= 65535).

(** [node.extras] is an object whose [rawUrl] is [v]. *)
Definition rawUrlIs (v : jsval) (node : jsval) : Prop :=
  exists e, field "extras" node = VObj e /\ getProp (js "rawUrl") e = v.

(** The common fields of a Normalized Proxy Record are present, each of
    its type. *)
Definition shaped (p : protocol) (node : jsval) : Prop :=
  field "source" node = VStr (js (protocolName p))
  /\ field "type" node = VStr (js (protocolName p))
  /\ (exists s, field "name" node = VStr s)
  /\ (exists s, field "server" node = VStr s)
  /\ (exists n, field "port" node = ofInt n)
  /\ (exists e, field "extras" node = VObj e)
  /\ (exists ws, field "warnings" node = ofStrs ws).

(** The record of a [catch] block: empty server, port 0, the raw URL in
    [extras] and the given warnings. *)
Definition zeroedRecord (p : protocol) (url : jstr) (ws : list jstr)
    (node : jsval) : Prop :=
  field "source" node = VStr (js (protocolName p))
  /\ field "type" node = VStr (js (protocolName p))
  /\ field "name" node = VStr (js (protocolName p))
  /\ field "server" node = VStr []
  /\ field "port" node = ofInt 0
  /\ field "extras" node = VObj [ (js "rawUrl", VStr url) ]
  /\ field "warnings" node = ofStrs ws.

(** [tls.enabled === true] and [tls.security === "tls"]. *)
Definition tlsOn (node : jsval) : Prop :=
  field "enabled" (field "tls" node) = VBool true
  /\ field "security" (field "tls" node) = VStr (js "tls").

(** The [host:port] part of an authority: what follows the last [@],
    trimmed ([hp] in [parseAuthority]). *)
Definition hostportOf (authority : jstr) : jstr :=
  let raw := trim authority in
  let input := if startsWith (js "//") raw then sliceFrom raw 2 else raw in
  let at_ := lastIndexOf (js "@") input in
  trim (if 0 <=? at_ then sliceFrom input (at_ + 1) else input).

(** The text is a port number: one to five digits, of value 1..65535. *)
Definition isPortText (s : jstr) : bool :=
  isDigits1to5 s && (1 <=? digitsValue 0 s) && (digitsValue 0 s <=? 65535).

(** *** Base64 encoding (RFC 4648), the inverse that the claims refer to *)

Definition b64char (v : N) : N :=
  if (v <? 26)%N then (v + 65)%N
  else if (v <? 52)%N then (v + 71)%N
  else if (v <? 62)%N then (v - 4)%N
  else if (v =? 62)%N then ch "+"
  else ch "/".

(** The Base64 text of a list of octets. *)
Fixpoint base64Encode (bs : list N) : jstr :=
  match bs with
  | a :: b :: c :: rest =>
      b64char (a / 4) :: b64char ((a mod 4) * 16 + b / 16)
        :: b64char ((b mod 16) * 4 + c / 64) :: b64char (c mod 64)
        :: base64Encode rest
  | [a; b] =>
      [b64char (a / 4); b64char ((a mod 4) * 16 + b / 16);
       b64char ((b mod 16) * 4); ch "="]
  | [a] => [b64char (a / 4); b64char ((a mod 4) * 16); ch "="; ch "="]
  | [] => []
  end%N.

(** *** Warnings that stay *)

(** From warnings that contain [w], the computation returns a value that
    satisfies [P], and [w] is still among the warnings. *)
Definition keeps {A} (w : jstr) (m : M A) (P : A -> Prop) : Prop :=
  forall ws, In w ws ->
    exists a ws', m ws = (inr a, ws') /\ In w ws' /\ P a.

(** Whatever the warnings before it, the computation returns a value that
    satisfies [P] and leaves [w] among the warnings. *)
Definition warnsAndReturns {A} (w : jstr) (m : M A) (P : A -> Prop) : Prop :=
  forall ws, exists a ws', m ws = (inr a, ws') /\ In w ws' /\ P a.

(** The record has the UUID [u], and [w] is one of its warnings. *)
Definition uuidWithWarning (u w : jstr) (node : jsval) : Prop :=
  field "uuid" node = VStr u
  /\ exists ws, field "warnings" node = ofStrs ws /\ In w ws.

(** The userinfo that the VLESS parser reads from a link. *)
Definition userinfoOfVLESS (url : jstr) : option jstr :=
  userinfo (parseAuthority
              (Some (asStr (authority (splitUrlLoosely (trim url)))))).

(** The same for the TUIC parser, which reads the path of a link without
    an authority. *)
Definition userinfoOfTUIC (url : jstr) : option jstr :=
  let parts := splitUrlLoosely (trim url) in
  userinfo (parseAuthority
              (Some (match authority parts with
                     | Some x => x
                     | None => path parts
                     end))).

(** *** UUID texts *)



(** *** Plugin values of Shadowsocks links *)

(** No white space at either end. *)
Definition firstOk (s : jstr) : Prop :=
  match s with c :: _ => isWhite c = false | [] => True end.
Definition noOuterWhite (s : jstr) : Prop := firstOk s /\ firstOk (rev s).

(** [key=value] *)
Definition optionText (kv : jstr * jstr) : jstr := fst kv ++ js "=" ++ snd kv.

(** [name;key=value;...;key=value] *)
Definition pluginText (name : jstr) (opts : list (jstr * jstr)) : jstr :=
  join (js ";") (name :: map optionText opts).

(** The object of the sub-options, a later value replacing an earlier
    one for the same key; [undefined] when there is none. *)
Definition expectedOpts (opts : list (jstr * jstr)) : jsval :=
  match opts with
  | [] => VUndef
  | _ => VObj (fold_left (fun o kv => setProp (fst kv) (VStr (snd kv)) o) opts [])
  end.

(** A plugin name, a key and a value; [percent] tells whether a percent
    sign may occur. *)
Definition isName (percent : bool) (s : jstr) : Prop :=
  s <> [] /\ noOuterWhite s /\ ~ In (ch ";") s
  /\ (percent = false -> ~ In (ch "%") s).
Definition isKey (percent : bool) (s : jstr) : Prop :=
  isName percent s /\ ~ In (ch "=") s.
Definition isValue (percent : bool) (s : jstr) : Prop :=
  noOuterWhite s /\ ~ In (ch ";") s /\ (percent = false -> ~ In (ch "%") s).

(** What holds of every segment of such a text. *)
Definition segmentTidy (p : jstr) : Prop :=
  p <> [] /\ noOuterWhite p /\ ~ In (ch ";") p.

(** Decoding the text [name;key=value;...] once more leaves it as it is. *)
Definition decodedOnce (name : jstr) (opts : list (jstr * jstr)) : Prop :=
  safeDecodeURIComponent (pluginText name opts) = pluginText name opts.

(** The decoded key of a query parameter [key=value], or [key]. *)
Definition paramKey (part : jstr) : jstr :=
  let eq := indexOf (js "=") part in
  safeDecodeURIComponent (if 0 <=? eq then slice part 0 eq else part).

(** A query parameter that is not named [plugin]. *)
Definition otherParam (part : jstr) : Prop :=
  ~ In (ch "&") part /\ (part = [] \/ paramKey part <> js "plugin").

(** Among the parameters of the query of a link, separated by [&], the
    first one named [plugin] is [plugin=enc], and [enc] decodes to
    [name;key=value;...]. *)
Definition carriesPlugin (percent : bool) (link enc : jstr) (name : jstr)
    (opts : list (jstr * jstr)) : Prop :=
  (exists q before after,
     query (splitUrlLoosely (trim link)) = Some q
     /\ dropQuestionMark q
        = join (js "&") (before ++ (js "plugin=" ++ enc) :: after)
     /\ Forall otherParam before)
  /\ ~ In (ch "&") enc
  /\ safeDecodeURIComponent enc = pluginText name opts
  /\ isName percent name
  /\ Forall (fun kv => isKey percent (fst kv) /\ isValue percent (snd kv)) opts.

Section WithBuiltins.
Context {B : Builtins}.

(** The [try] block and the [catch] block of each parser. *)
Definition tryOf (p : protocol) : jstr -> M jsval :=
  match p with
  | vless => VLESS.parseBody
  | vmess => VMess.parseBody
  | ss => SS.parseBody
  | trojan => Trojan.parseBody
  | hysteria2 => Hysteria2.parseBody
  | ssr => SSR.parseBody
  | hysteria => Hysteria.parseBody
  | tuic => TUIC.parseBody
  end.

Definition catchOf (p : protocol) : jstr -> exn -> M jsval :=
  match p with
  | vless => VLESS.parseCatch
  | vmess => VMess.parseCatch
  | ss => SS.parseCatch
  | trojan => Trojan.parseCatch
  | hysteria2 => Hysteria2.parseCatch
  | ssr => SSR.parseCatch
  | hysteria => Hysteria.parseCatch
  | tuic => TUIC.parseCatch
  end.

(** What [extras.rawUrl] holds after the [try] block: the trimmed input,
    except that the VLESS parser writes [rawUrl || undefined]. *)
Definition rawUrlOf (p : protocol) (url : jstr) : jsval :=
  match p with
  | vless => strOrUndef (trim url)
  | _ => VStr (trim url)
  end.

(** What a parser establishes on every input. *)
Definition wellFormed (p : protocol) (url : jstr) (node : jsval) : Prop :=
  shaped p node /\ portOk node /\ rawUrlIs (rawUrlOf p url) node.

(** Hysteria and TUIC: the [try] block returns a record with TLS on. *)
Definition tlsAlwaysOn (url : jstr) : Prop :=
  (exists node ws,
     Hysteria.parseBody url [] = (inr node, ws)
     /\ Hysteria.parse url = inr node /\ tlsOn node)
  /\ (exists node ws,
        TUIC.parseBody url [] = (inr node, ws)
        /\ TUIC.parse url = inr node /\ tlsOn node).

(** [normalizeUuid] returns [uuid] and appends the one warning [w]. *)
Definition yields (m : M jstr) (uuid w : jstr) : Prop :=
  forall ws, m ws = (inr uuid, ws ++ [w]).

(** The Base64 text of [u] is decoded to [u], with a warning. *)
Definition base64UuidRecovered (u : jstr) : Prop :=
  yields (VLESS.normalizeUuid (base64Encode u)) u
         (js "检测到非标准 Base64 UUID，已成功解码为标准 UUID")
  /\ yields (TUIC.normalizeUuid (base64Encode u)) u
            (js "检测到非标准 Base64 UUID：已成功解码为标准 UUID")
  /\ yields (VMess.normalizeUuid (VStr (base64Encode u))) u
            (js "检测到非标准 Base64 UUID（id），已成功解码为标准 UUID").

(** The same in the record of a link: the userinfo of a VLESS link is the
    Base64 text of [u]; the userinfo of a TUIC link is that text, a colon
    and a password. *)
Definition base64UuidInRecord (u : jstr) : Prop :=
  (forall url,
     userinfoOfVLESS url = Some (base64Encode u) ->
     exists node,
       VLESS.parse url = inr node
       /\ uuidWithWarning u
            (js "检测到非标准 Base64 UUID，已成功解码为标准 UUID") node)
  /\ (forall url password,
        userinfoOfTUIC url = Some (base64Encode u ++ js ":" ++ password) ->
        ~ In (ch "%") password -> firstOk (rev password) ->
        exists node,
          TUIC.parse url = inr node
          /\ uuidWithWarning u
               (js "检测到非标准 Base64 UUID：已成功解码为标准 UUID") node).


(** The record of a Shadowsocks link has the plugin [name] and the
    sub-options [opts]. *)
Definition pluginIs (link name : jstr) (opts : list (jstr * jstr)) : Prop :=
  exists node,
    SS.parse link = inr node
    /\ field "plugin" node = VStr name
    /\ field "pluginOpts" node = expectedOpts opts.

(** *** Batch parsing, as the specification words it *)

Variable convert : protocol -> jsval -> jsval.

(** A line takes part when it is not blank and contains [://]. *)
Definition qualifies (line : jstr) : bool :=
  truthy (trim line) && includes (js "://") (trim line).

(** The proxies of the lines that parse, in the order of the lines. *)
Definition expectedProxies (lines : list jstr) : list jsval :=
  flat_map
    (fun line =>
       if qualifies line then
         match parseProxyLink convert (trim line) with
         | Success proxy _ => [proxy]
         | Failure _ => []
         end
       else [])
    lines.

(** One entry for each line that takes part and is rejected; [position]
    is the 1-based position of the first line of [lines] in the input. *)
Fixpoint expectedErrors (lines : list jstr) (position : Z) : list BatchError :=
  match lines with
  | [] => []
  | line :: rest =>
      (if qualifies line then
         match parseProxyLink convert (trim line) with
         | Success _ _ => []
         | Failure err => [mkBatchError position (shorten (trim line)) err]
         end
       else [])
      ++ expectedErrors rest (position + 1)
  end.

End WithBuiltins.

(** *** Inputs of the examples *)

(** A link with the plugin parameter of the specification. *)
Definition pluginLink : jstr :=
  js "ss://YWVzLTI1Ni1nY206cGFzc3dvcmQ=@example.com:8388?plugin=obfs-local%3Bobfs%3Dhttp%3Bobfs-host%3Dexample.com#node".

(** A link whose plugin value decodes to [x%41;k=v]. *)
Definition percentLink : jstr :=
  js "ss://YWVzLTI1Ni1nY206cGFzc3dvcmQ=@example.com:8388?plugin=x%2541%3Bk%3Dv".

(** Links whose plugin value decodes to [100%;k=5%] and to [x%E4;k=v]. *)
Definition strayPercentLink : jstr :=
  js "ss://YWVzLTI1Ni1nY206cGFzc3dvcmQ=@example.com:8388?plugin=100%25%3Bk%3D5%25".
Definition brokenEscapeLink : jstr :=
  js "ss://YWVzLTI1Ni1nY206cGFzc3dvcmQ=@example.com:8388?plugin=x%25E4%3Bk%3Dv".


Definition someUuid : jstr := js "11111111-2222-4333-8444-555555555555".

(** Links whose UUID is written in Base64. *)
Definition vlessBase64Link : jstr :=
  js "vless://" ++ base64Encode someUuid ++ js "@example.com:443?security=tls#node".
Definition tuicBase64Link : jstr :=
  js "tuic://" ++ base64Encode someUuid ++ js ":secret@example.com:443#node".

(** The claim on plugin values; [percent] tells whether the decoded value
    may contain percent signs, as the wording of the claim allows. *)
Definition pluginPreserved (percent : bool) : Prop :=
  forall (B : Builtins) (link enc name : jstr) (opts : list (jstr * jstr)),
    carriesPlugin percent link enc name opts -> pluginIs link name opts.

End Spec.

(* ================================================================== *)
(** ** Further properties: what they are stated with *)
(* ================================================================== *)

Module Props.
Import JS Codec Val Utils Eff Common Dispatcher Spec.

(** *** URLs *)

(** A URL written from its parts: [scheme:], [//authority], the path,
    [?query] and [#fragment], each when it is there. *)
Definition joinUrl (p : UrlParts) : jstr :=
  (match scheme p with Some s => s ++ js ":" | None => [] end)
  ++ (match authority p with Some a => js "//" ++ a | None => [] end)
  ++ path p
  ++ (match query p with Some q => js "?" ++ q | None => [] end)
  ++ (match fragment p with Some f => js "#" ++ f | None => [] end).

(** The text of an optional part does not contain [c]. *)
Definition lacks (c : N) (part : option jstr) : Prop :=
  match part with Some s => ~ In c s | None => True end.

(** *** Query strings *)

(** The key and the value of a query parameter [key=value]: what is
    before and after the first [=], with [+] read as a space, decoded. *)
Definition queryKey (part : jstr) : jstr :=
  let eq := indexOf (js "=") part in
  safeDecodeURIComponent
    (replaceChar (ch "+") (ch " ") (if 0 <=? eq then slice part 0 eq else part)).

Definition queryValue (part : jstr) : jstr :=
  let eq := indexOf (js "=") part in
  safeDecodeURIComponent
    (replaceChar (ch "+") (ch " ")
       (if 0 <=? eq then sliceFrom part (eq + 1) else [])).

(** The same without the reading of [+] as a space
    ([getRawQueryFirstParam]). *)
Definition rawKey (part : jstr) : jstr :=
  let eq := indexOf (js "=") part in
  safeDecodeURIComponent (if 0 <=? eq then slice part 0 eq else part).

Definition rawValue (part : jstr) : jstr :=
  let eq := indexOf (js "=") part in
  safeDecodeURIComponent (if 0 <=? eq then sliceFrom part (eq + 1) else []).

Definition rawValuesOf (key : jstr) (parts : list jstr) : list jstr :=
  map rawValue (filter (fun part => str_eqb (rawKey part) key) parts).

(** The body of the loop of [parseQuery]. *)
Definition queryStep (out : obj) (part : jstr) : obj :=
  if isEmpty part then out
  else if isEmpty (queryKey part) then out
  else queryAdd (queryKey part) (queryValue part) out.

(** The parameters of a query: its parts between [&] and [;]. *)
Definition queryParts (q : jstr) : list jstr :=
  splitClass isQuerySep (dropQuestionMark q).

(** The values of the parameters named [key], in the order of the query. *)
Definition valuesOf (key : jstr) (parts : list jstr) : list jstr :=
  map queryValue (filter (fun part => str_eqb (queryKey part) key) parts).

(** What an object holds for a key with these values: nothing, the one
    value, or the array of the values. *)
Definition stored (values : list jstr) : jsval :=
  match values with
  | [] => VUndef
  | [v] => VStr v
  | _ => VArr (map VStr values)
  end.

(** *** Percent-encoding *)

(** No [%] of the text starts an escape [%XX]. *)
Fixpoint noEscape (s : jstr) : bool :=
  match s with
  | [] => true
  | c :: rest =>
      (if (c =? ch "%")%N then
         match rest with
         | h1 :: h2 :: _ => negb (isHex h1 && isHex h2)
         | _ => true
         end
       else true)
      && noEscape rest
  end.

(** The hexadecimal digit of a value below 16, in upper case. *)
Definition hexDigit (v : N) : N := if (v <? 10)%N then (48 + v)%N else (55 + v)%N.

(** ASCII text with the characters outside [keep] written [%XX]. *)
Definition percentEncode (keep : N -> bool) (t : jstr) : jstr :=
  flat_map (fun c => if keep c then [c]
                     else [ch "%"; hexDigit (c / 16); hexDigit (c mod 16)]%N) t.

(** *** Base64 *)

(** The Base64 text of a list of octets without its padding. *)
Fixpoint base64Body (bs : list N) : jstr :=
  match bs with
  | a :: b :: c :: rest =>
      b64char (a / 4) :: b64char ((a mod 4) * 16 + b / 16)
        :: b64char ((b mod 16) * 4 + c / 64) :: b64char (c mod 64)
        :: base64Body rest
  | [a; b] =>
      [b64char (a / 4); b64char ((a mod 4) * 16 + b / 16);
       b64char ((b mod 16) * 4)]
  | [a] => [b64char (a / 4); b64char ((a mod 4) * 16)]
  | [] => []
  end%N.

(** The padding of the Base64 text of [n] octets. *)
Definition base64Pad (n : nat) : jstr :=
  match (n mod 3)%nat with
  | O => []
  | S O => js "=="
  | _ => js "="
  end.

(** The URL-safe alphabet (RFC 4648, section 5). *)
Definition base64Url (s : jstr) : jstr :=
  replaceChar (ch "/") (ch "_") (replaceChar (ch "+") (ch "-") s).

(** The text without its white space. *)
Definition compact (s : jstr) : jstr := filter (fun c => negb (isWhite c)) s.

(** A character that Base64 text may contain, in either alphabet. *)
Definition base64Char (c : N) : bool :=
  isB64 c || (c =? ch "=")%N || (c =? ch "-")%N || (c =? ch "_")%N.

(** *** UUIDs *)

(** A text of [n] hexadecimal digits. *)
Definition hexText (n : nat) (s : jstr) : Prop :=
  List.length s = n /\ forallb isHex s = true.

(** The text has the form 8-4-4-4-12 of hexadecimal digits, the third
    group starting with a version from 1 to 5 and the fourth with a variant
    digit 8, 9, a or b. *)
Definition uuidShape (v : jstr) : Prop :=
  exists a b c d e version variant,
    v = a ++ js "-" ++ b ++ js "-" ++ version :: c ++ js "-"
          ++ variant :: d ++ js "-" ++ e
    /\ hexText 8 a /\ hexText 4 b /\ hexText 3 c /\ hexText 3 d
    /\ hexText 12 e
    /\ (ch "1" <= version <= ch "5")%N
    /\ In variant (js "89abAB").

(** *** Dispatcher *)



(** *** Shadowsocks links *)

(** The authority that the Shadowsocks parser reads: that of the link, or
    its path when it has none. *)
Definition authorityOfSS (url : jstr) : Authority :=
  let parts := splitUrlLoosely (trim url) in
  parseAuthority
    (Some (match authority parts with Some x => x | None => path parts end)).

(** The warnings of [parseMethodPassword] for a method and a password. *)
Definition credsWarnings (method password : jstr) : list jstr :=
  (if isEmpty method then [js "缺少加密方法（cipher/method）"] else [])
  ++ (if isEmpty password then [js "缺少密码（password）"] else []).

(** The record of a Shadowsocks link: server, port, cipher, password and
    the format that was recognized. *)
Definition ssRecord (server : jstr) (port : Z) (cipher password format : jstr)
    (node : jsval) : Prop :=
  field "server" node = VStr server
  /\ field "port" node = VNum (NInt port)
  /\ field "cipher" node = VStr cipher
  /\ field "password" node = VStr password
  /\ field "format" (field "extras" node) = VStr format.

(** *** Warnings *)

(** The computation returns, and only appends to the warnings. *)
Definition grows {A} (m : M A) : Prop :=
  forall ws, exists a d, m ws = (inr a, ws ++ d).

(** The computation returns and only appends to the warnings; when it
    appends nothing, the value and the warnings satisfy [P]. *)
Definition quiet {A} (m : M A) (P : A -> list jstr -> Prop) : Prop :=
  forall ws, exists a d, m ws = (inr a, ws ++ d) /\ (d = [] -> P a ws).

(** The computation returns a value that satisfies [P] with the warnings
    that it leaves. *)
Definition returnsAt {A} (m : M A) (P : A -> list jstr -> Prop) : Prop :=
  forall ws, exists a ws', m ws = (inr a, ws') /\ P a ws'.

(** *** Records *)

(** The record has a server and a port that a client can connect to. *)
Definition complete (node : jsval) : Prop :=
  (exists server, field "server" node = VStr server /\ server <> [])
  /\ (exists port, field "port" node = VNum (NInt port) /\ 1 <= port <= 65535).

(** The name, the server and the password of the record are trimmed
    strings, the name is not empty, and the port is an integer. *)
Definition tidy (node : jsval) : Prop :=
  (exists name, field "name" node = VStr name
                /\ noOuterWhite name /\ name <> [])
  /\ (exists server, field "server" node = VStr server /\ noOuterWhite server)
  /\ (exists port, field "port" node = VNum (NInt port))
  /\ (exists password, field "password" node = VStr password
                       /\ noOuterWhite password).

(** The proxy has the name, the server, the port and the password of the
    record, and the given type. *)
Definition carriesOver (type : string) (node proxy : jsval) : Prop :=
  field "type" proxy = VStr (js type)
  /\ field "name" proxy = field "name" node
  /\ field "server" proxy = field "server" node
  /\ field "port" proxy = field "port" node
  /\ field "password" proxy = field "password" node
  /\ field "udp" proxy = VBool true.

(** What the helpers of the Shadowsocks parser return is trimmed. *)
Definition trimmedPair (mp : jstr * jstr) : Prop :=
  noOuterWhite (fst mp) /\ noOuterWhite (snd mp).

Definition trimmedCreds (c : SS.Creds) : Prop :=
  noOuterWhite (SS.method c) /\ noOuterWhite (SS.password c).

Definition trimmedMain (main : SS.Main) : Prop :=
  noOuterWhite (SS.m_server main) /\ noOuterWhite (SS.m_method main)
  /\ noOuterWhite (SS.m_password main).

(** A tidy record of a Shadowsocks link, whose cipher is trimmed too. *)
Definition tidySS (node : jsval) : Prop :=
  tidy node
  /\ exists cipher, field "cipher" node = VStr cipher /\ noOuterWhite cipher.

Definition isObject (v : jsval) : bool :=
  match v with VObj _ => true | _ => false end.

(** The network of the record is one of the given ones, and of the
    sub-objects of [transport] exactly the one of that network is there
    ([tcp] has none). *)
Definition transportOf (names : list string) (node : jsval) : Prop :=
  exists n, field "network" (field "transport" node) = VStr n
            /\ In n (map js names)
            /\ forall k, In k names -> k <> "tcp"%string ->
                 isObject (field k (field "transport" node)) = str_eqb n (js k).

(** The transport of the record of a Trojan link: none, or one of the
    three networks, with a path for [ws]. *)
Definition trojanTransport (node : jsval) : Prop :=
  field "transport" node = VUndef
  \/ exists t,
       field "transport" node = VObj t
       /\ (getProp (js "network") t = VStr (js "tcp")
           \/ (getProp (js "network") t = VStr (js "ws")
               /\ exists p, field "path" (getProp (js "ws") t) = VStr p
                            /\ noOuterWhite p /\ p <> [])
           \/ getProp (js "network") t = VStr (js "grpc")).

(** The network of a proxy: none (that is [tcp]) and no options; [ws]
    with options that have a path, and no others; [grpc] and no options
    of [ws]. *)
Definition proxyNetwork (proxy : jsval) : Prop :=
  (field "network" proxy = VUndef
   /\ field "ws-opts" proxy = VUndef /\ field "grpc-opts" proxy = VUndef)
  \/ (field "network" proxy = VStr (js "ws")
      /\ (exists p, field "path" (field "ws-opts" proxy) = VStr p /\ p <> [])
      /\ field "grpc-opts" proxy = VUndef)
  \/ (field "network" proxy = VStr (js "grpc")
      /\ field "ws-opts" proxy = VUndef).

(** The record of a VLESS link: name, server and UUID are trimmed
    strings, the name is not empty, and the port is an integer. *)
Definition tidyVLESS (node : jsval) : Prop :=
  (exists name, field "name" node = VStr name
                /\ noOuterWhite name /\ name <> [])
  /\ (exists server, field "server" node = VStr server /\ noOuterWhite server)
  /\ (exists port, field "port" node = VNum (NInt port))
  /\ (exists uuid, field "uuid" node = VStr uuid /\ noOuterWhite uuid).

(** The proxy has the name, the server, the port and the UUID of the
    record. *)
Definition carriesUuid (node proxy : jsval) : Prop :=
  field "type" proxy = VStr (js "vless")
  /\ field "name" proxy = field "name" node
  /\ field "server" proxy = field "server" node
  /\ field "port" proxy = field "port" node
  /\ field "uuid" proxy = field "uuid" node
  /\ field "udp" proxy = VBool true.

(** The path of the sub-object [k] of a transport. *)
Definition hasPath (k : string) (t : obj) : Prop :=
  exists p, field "path" (getProp (js k) t) = VStr p
            /\ noOuterWhite p /\ p <> [].

(** The transport of the record of a VLESS link: one of the four
    networks, with a path for [ws] and for [http]. *)
Definition vlessTransport (node : jsval) : Prop :=
  exists t,
    field "transport" node = VObj t
    /\ (getProp (js "network") t = VStr (js "tcp")
        \/ (getProp (js "network") t = VStr (js "ws") /\ hasPath "ws" t)
        \/ getProp (js "network") t = VStr (js "grpc")
        \/ (getProp (js "network") t = VStr (js "http") /\ hasPath "http" t)).

(** The options of a proxy for the network [k] have a path. *)
Definition optsPath (k : string) (proxy : jsval) : Prop :=
  exists p, field "path" (field k proxy) = VStr p /\ p <> [].

(** The network of the proxy of a VLESS link: none (that is [tcp]), [ws]
    or [http] with options that have a path, or [grpc]; the options of
    the other networks are absent. *)
Definition proxyNetworkVLESS (proxy : jsval) : Prop :=
  (field "network" proxy = VUndef
   /\ field "ws-opts" proxy = VUndef /\ field "grpc-opts" proxy = VUndef
   /\ field "http-opts" proxy = VUndef)
  \/ (field "network" proxy = VStr (js "ws") /\ optsPath "ws-opts" proxy
      /\ field "grpc-opts" proxy = VUndef /\ field "http-opts" proxy = VUndef)
  \/ (field "network" proxy = VStr (js "grpc")
      /\ field "ws-opts" proxy = VUndef /\ field "http-opts" proxy = VUndef)
  \/ (field "network" proxy = VStr (js "http") /\ optsPath "http-opts" proxy
      /\ field "ws-opts" proxy = VUndef /\ field "grpc-opts" proxy = VUndef).

(** The TLS part of the record of a VLESS link says whether TLS is on;
    when it is off, there is no security and no Reality object. *)
Definition vlessTls (enabled : bool) (node : jsval) : Prop :=
  exists t,
    field "tls" node = VObj t
    /\ getProp (js "enabled") t = VBool enabled
    /\ (enabled = false ->
        getProp (js "security") t = VNull
        /\ getProp (js "reality") t = VUndef).

(** The proxy has [tls] as the record says, and options of Reality only
    with [tls: true]. *)
Definition proxyTls (enabled : bool) (proxy : jsval) : Prop :=
  field "tls" proxy = VBool enabled
  /\ (field "reality-opts" proxy = VUndef \/ enabled = true).

(** The object has the key. *)
Definition hasKey (k : jstr) (o : obj) : bool :=
  existsb (fun e => str_eqb k (fst e)) o.

(** The record has no warning. *)
Definition silent (node : jsval) : Prop := field "warnings" node = ofStrs [].

(** The record has a name that is not empty. *)
Definition named (node : jsval) : Prop :=
  exists name, field "name" node = VStr name /\ name <> [].

End Props.

(* ================================================================== *)
(** ** Candidate UUIDs that are not UUIDs *)
(* ================================================================== *)

Module KeptUuids.
Import JS Codec Val Utils Eff Common Dispatcher Spec Props.




Section WithBuiltins.
Context {B : Builtins}.





End WithBuiltins.


End KeptUuids.

(* ================================================================== *)
(** ** Converters ([converters/*.js], [index.js]) *)
(* ================================================================== *)

(** A converter turns the record of a parser into the object of a proxy
    of a Clash configuration.  Its body is one [try] block; on the values
    of this embedding (plain data: no getters, no [toString] of their own)
    none of its operations throws, so that the object of the [catch] block
    is never returned. *)
Module Converters.
Import JS Codec Val Utils Eff Common.

Section WithBuiltins.
Context {B : Builtins}.

(** [Number(s)] for a string: the numeric literal grammar of the language
    is outside the repository. *)
Variable Number_text : jstr -> jsnum.

(** [pick(obj, key)]: the own property [key] of [obj], or [undefined].
    The keys that the converters read are names, none of them [length] or
    an index, the own properties that a string or an array has. *)
Definition pick (v : jsval) (key : string) : jsval :=
  match v with
  | VObj o => getProp (js key) o
  | _ => VUndef
  end.

(** [v || {}] *)
Definition orObject (v : jsval) : jsval := if truthyV v then v else VObj [].

(** [Number(v)] *)
Definition Number (v : jsval) : jsnum :=
  match v with
  | VUndef => NaN
  | VNull => NInt 0
  | VBool b => NInt (if b then 1 else 0)
  | VNum n => n
  | VStr s => Number_text s
  | VArr _ => Number_text (toString v)
  | VObj _ => NaN
  end.

(** [n || 0] *)
Definition orZero (n : jsnum) : jsnum := if truthyV (VNum n) then n else NInt 0.

(** [Number.isFinite(n) && n > 0] *)
Definition isPositive (n : jsnum) : bool :=
  isFinite n
  && match n with
     | NInt z => 0 <? z
     | NOther t => negb (startsWith (js "-") t)
     end.

(** A property that is set under a condition. *)
Definition setIf (c : bool) (key : string) (v : jsval) : obj :=
  if c then [(js key, v)] else [].

(** [if (Array.isArray(alpn) && alpn.length)
       out.alpn = alpn.map((x) => asString(x)).filter(Boolean)] *)
Definition alpnOf (alpn : jsval) : obj :=
  match alpn with
  | VArr (x :: l) =>
      [(js "alpn", ofStrs (filter truthy (map asString (x :: l))))]
  | _ => []
  end.

(** [if (smux && typeof smux === "object" && !Array.isArray(smux)
         && Object.keys(smux).length) out.smux = smux] *)
Definition smuxOf (smux : jsval) : obj :=
  match smux with
  | VObj (e :: o) => [(js "smux", smux)]
  | _ => []
  end.

(** [const x = Number(pick(node, key));
     if (Number.isFinite(x) && x > 0) out[name] = x] *)
Definition positiveOf (node : jsval) (key name : string) : obj :=
  let x := Number (pick node key) in
  setIf (isPositive x) name (VNum x).

(** [Hysteria2Converter.convert(node)] ([index.js]) *)
Definition Hysteria2_convert (node : jsval) : jsval :=
  let name := orElse (trim (asString (pick node "name"))) (js "hysteria2") in
  let server := orElse (trim (asString (pick node "server"))) [] in
  let port := orZero (Number (pick node "port")) in
  let password := orElse (trim (asString (pick node "password"))) [] in
  let tls := orObject (pick node "tls") in
  let sni := trim (asString (pick tls "sni")) in
  let alpn := pick tls "alpn" in
  let insecure := truthyV (pick tls "insecure") in
  let obfs := trim (asString (pick node "obfs")) in
  let obfsPassword := trim (asString (pick node "obfsPassword")) in
  let fastOpen := pick node "fastOpen" in
  VObj ([ (js "name", VStr name);
          (js "type", VStr (js "hysteria2"));
          (js "server", VStr server);
          (js "port", VNum port);
          (js "password", VStr password);
          (js "udp", VBool true) ]
        ++ setIf (truthy sni) "sni" (VStr sni)
        ++ alpnOf alpn
        ++ setIf insecure "skip-cert-verify" (VBool true)
        ++ setIf (truthy obfs) "obfs" (VStr obfs)
        ++ setIf (truthy obfsPassword) "obfs-password" (VStr obfsPassword)
        ++ setIf (match fastOpen with VBool true => true | _ => false end)
                 "fast-open" (VBool true)
        ++ positiveOf node "recvWindowConn" "recv-window-conn"
        ++ positiveOf node "recvWindow" "recv-window"
        ++ positiveOf node "maxConn" "max-conn"
        ++ smuxOf (pick node "smux")).

(** [Object.keys(o).length ? out[key] = o : nothing] *)
Definition objectOf (key : string) (o : obj) : obj :=
  match o with [] => [] | _ => [(js key, VObj o)] end.

(** [TrojanConverter.convert(node)] ([converters/trojan-converter.js]) *)
Definition Trojan_convert (node : jsval) : jsval :=
  let name := orElse (trim (asString (pick node "name"))) (js "trojan") in
  let server := orElse (trim (asString (pick node "server"))) [] in
  let port := orZero (Number (pick node "port")) in
  let password := orElse (trim (asString (pick node "password"))) [] in
  let tls := orObject (pick node "tls") in
  let tlsEnabled := truthyV (pick tls "enabled") in
  let sni := trim (asString (pick tls "sni")) in
  let alpn := pick tls "alpn" in
  let insecure := truthyV (pick tls "insecure") in
  let transport := orObject (pick node "transport") in
  let network := trim (asString (pick transport "network")) in
  let options :=
    if str_eqb network (js "ws") then
      let ws := orObject (pick transport "ws") in
      let path := trim (asString (pick ws "path")) in
      let hostHeader := trim (asString (pick ws "host")) in
      objectOf "ws-opts"
        (setIf (truthy path) "path" (VStr path)
         ++ setIf (truthy hostHeader) "headers"
                  (VObj [(js "Host", VStr hostHeader)]))
    else if str_eqb network (js "grpc") then
      let grpc := orObject (pick transport "grpc") in
      let serviceName := trim (asString (pick grpc "serviceName")) in
      let mode := trim (asString (pick grpc "mode")) in
      objectOf "grpc-opts"
        (setIf (truthy serviceName) "grpc-service-name" (VStr serviceName)
         ++ setIf (truthy mode) "mode" (VStr mode))
    else [] in
  VObj ([ (js "name", VStr name);
          (js "type", VStr (js "trojan"));
          (js "server", VStr server);
          (js "port", VNum port);
          (js "password", VStr password);
          (js "udp", VBool true);
          (js "tls", VBool tlsEnabled) ]
        ++ setIf (truthy sni) "sni" (VStr sni)
        ++ alpnOf alpn
        ++ setIf insecure "skip-cert-verify" (VBool true)
        ++ setIf (truthy network && negb (str_eqb network (js "tcp")))
                 "network" (VStr network)
        ++ options
        ++ smuxOf (pick node "smux")).

(** [a ?? b] *)
Definition orNullish (a b : jsval) : jsval := if isNullish a then b else a.

(** [parseBooleanish(v)] of ss-converter.js *)
Definition SS_parseBooleanish (v : jsval) : bool :=
  let s := toLowerCase (trim (asString v)) in
  if isEmpty s then false
  else setHas ["1"; "true"; "yes"; "y"; "on"]%string s.

(** [normalizePluginName(raw)] *)
Definition SS_normalizePluginName (raw : jsval) : jstr :=
  let p := trim (asString raw) in
  let pl := toLowerCase p in
  if isEmpty p then []
  else if str_eqb pl (js "obfs-local") || str_eqb pl (js "simple-obfs")
          || str_eqb pl (js "obfs") then js "obfs"
  else if str_eqb pl (js "v2ray-plugin") then js "v2ray-plugin"
  else p.

(** [Object.keys(out).length ? out : null] *)
Definition nonEmptyOrNull (out : obj) : option obj :=
  match out with [] => None | _ => Some out end.

(** [buildPluginOpts(plugin, pluginOptsRaw)]; [None] is [null].
    [isPlainObject(pluginOptsRaw)] holds of the objects, and of neither
    [null] nor an array nor a value of another type. *)
Definition SS_buildPluginOpts (plugin pluginOptsRaw : jsval) : option obj :=
  let p := SS_normalizePluginName plugin in
  match pluginOptsRaw with
  | VObj opts =>
      if isEmpty p then None
      else if str_eqb p (js "obfs") then
        let mode :=
          trim (asString (orNullish (pick pluginOptsRaw "obfs")
                                   (pick pluginOptsRaw "mode"))) in
        let host :=
          trim (asString (orNullish (pick pluginOptsRaw "obfs-host")
                                   (pick pluginOptsRaw "host"))) in
        nonEmptyOrNull (setIf (truthy mode) "mode" (VStr mode)
                        ++ setIf (truthy host) "host" (VStr host))
      else if str_eqb p (js "v2ray-plugin") then
        let mode := trim (asString (pick pluginOptsRaw "mode")) in
        let host := trim (asString (pick pluginOptsRaw "host")) in
        let path := trim (asString (pick pluginOptsRaw "path")) in
        let tlsRaw := pick pluginOptsRaw "tls" in
        let tls :=
          (match tlsRaw with VBool true => true | _ => false end)
          || SS_parseBooleanish tlsRaw in
        nonEmptyOrNull (setIf (truthy mode) "mode" (VStr mode)
                        ++ setIf tls "tls" (VBool true)
                        ++ setIf (truthy host) "host" (VStr host)
                        ++ setIf (truthy path) "path" (VStr path))
      else Some opts
  | _ => None
  end.

(** [SSConverter.convert(node)] ([converters/ss-converter.js]) *)
Definition SS_convert (node : jsval) : jsval :=
  let name := orElse (trim (asString (pick node "name"))) (js "ss") in
  let server := orElse (trim (asString (pick node "server"))) [] in
  let port := orZero (Number (pick node "port")) in
  let cipher :=
    orElse (trim (asString (orNullish (pick node "cipher") (pick node "method"))))
           [] in
  let password := orElse (trim (asString (pick node "password"))) [] in
  let pluginRaw := trim (asString (pick node "plugin")) in
  let plugin := SS_normalizePluginName (VStr pluginRaw) in
  let pluginOpts := SS_buildPluginOpts (VStr pluginRaw) (pick node "pluginOpts") in
  VObj ([ (js "name", VStr name);
          (js "type", VStr (js "ss"));
          (js "server", VStr server);
          (js "port", VNum port);
          (js "cipher", VStr cipher);
          (js "password", VStr password);
          (js "udp", VBool true) ]
        ++ setIf (truthy plugin) "plugin" (VStr plugin)
        ++ (if truthy plugin then
              match pluginOpts with
              | Some (e :: o) => [(js "plugin-opts", VObj (e :: o))]
              | _ => []
              end
            else [])).

(** [VLESSConverter.convert(node)] ([converters/vless-converter.js]).
    [out.tls] is assigned a second time, [true], when there are options of
    Reality; the property keeps its place among the keys. *)
Definition VLESS_convert (node : jsval) : jsval :=
  let name := orElse (trim (asString (pick node "name"))) (js "vless") in
  let server := orElse (trim (asString (pick node "server"))) [] in
  let port := orZero (Number (pick node "port")) in
  let uuid := orElse (trim (asString (pick node "uuid"))) [] in
  let extras := orObject (pick node "extras") in
  let flow := trim (asString (pick extras "flow")) in
  let tls := orObject (pick node "tls") in
  let tlsEnabled :=
    truthyV (pick tls "enabled")
    || str_eqb (trim (asString (pick tls "security"))) (js "reality") in
  let sni := trim (asString (pick tls "sni")) in
  let alpn := pick tls "alpn" in
  let fingerprint := trim (asString (pick tls "fingerprint")) in
  let clientFp := trim (asString (pick tls "clientFingerprint")) in
  let insecure := truthyV (pick tls "insecure") in
  let reality := orObject (pick tls "reality") in
  let pbk := trim (asString (pick reality "pbk")) in
  let sid := trim (asString (pick reality "sid")) in
  let hasReality := truthy pbk || truthy sid in
  let transport := orObject (pick node "transport") in
  let network := trim (asString (pick transport "network")) in
  let options :=
    if str_eqb network (js "ws") then
      let ws := orObject (pick transport "ws") in
      let path := trim (asString (pick ws "path")) in
      let hostHeader := trim (asString (pick ws "host")) in
      objectOf "ws-opts"
        (setIf (truthy path) "path" (VStr path)
         ++ setIf (truthy hostHeader) "headers"
                  (VObj [(js "Host", VStr hostHeader)]))
    else if str_eqb network (js "grpc") then
      let grpc := orObject (pick transport "grpc") in
      let serviceName := trim (asString (pick grpc "serviceName")) in
      let mode := trim (asString (pick grpc "mode")) in
      objectOf "grpc-opts"
        (setIf (truthy serviceName) "grpc-service-name" (VStr serviceName)
         ++ setIf (truthy mode) "mode" (VStr mode))
    else if str_eqb network (js "http") then
      let http := orObject (pick transport "http") in
      let path := trim (asString (pick http "path")) in
      let hostHeader := trim (asString (pick http "host")) in
      objectOf "http-opts"
        (setIf (truthy path) "path" (VStr path)
         ++ setIf (truthy hostHeader) "headers"
                  (VObj [(js "Host", VStr hostHeader)]))
    else [] in
  VObj ([ (js "name", VStr name);
          (js "type", VStr (js "vless"));
          (js "server", VStr server);
          (js "port", VNum port);
          (js "uuid", VStr uuid);
          (js "udp", VBool true) ]
        ++ setIf (truthy flow) "flow" (VStr flow)
        ++ [ (js "tls", VBool (tlsEnabled || hasReality)) ]
        ++ setIf (truthy sni) "sni" (VStr sni)
        ++ alpnOf alpn
        ++ setIf (truthy fingerprint) "fingerprint" (VStr fingerprint)
        ++ setIf (truthy clientFp) "client-fingerprint" (VStr clientFp)
        ++ setIf insecure "skip-cert-verify" (VBool true)
        ++ setIf hasReality "reality-opts"
             (VObj (setIf (truthy pbk) "public-key" (VStr pbk)
                    ++ setIf (truthy sid) "short-id" (VStr sid)))
        ++ setIf (truthy network && negb (str_eqb network (js "tcp")))
                 "network" (VStr network)
        ++ options).

End WithBuiltins.
End Converters.

(* ================================================================== *)
(** ** Reasoning about computations that warn *)
(* ================================================================== *)

Module Returns.
Import JS Val Eff Spec.
Local Open Scope eff_scope.

Lemma returns_ret {A} (a : A) (P : A -> Prop) : P a -> returns (ret a) P.
Proof. intros H ws. exists a, ws. split; [reflexivity | exact H]. Qed.

Lemma returns_bind {A C} (m : M A) (k : A -> M C) (Q : A -> Prop) (P : C -> Prop) :
  returns m Q -> (forall a, Q a -> returns (k a) P) -> returns (bind m k) P.
Proof.
  intros Hm Hk ws. destruct (Hm ws) as (a & ws1 & E & Ha).
  destruct (Hk a Ha ws1) as (b & ws2 & E2 & Hb).
  exists b, ws2. unfold bind. rewrite E. split; assumption.
Qed.

Lemma returns_warn (w : jstr) : returns (warn w) (fun _ => True).
Proof. intros ws. exists tt, (ws ++ [w]). split; [reflexivity | exact I]. Qed.

Lemma returns_when (c : bool) (m : M unit) :
  returns m (fun _ => True) -> returns (when c m) (fun _ => True).
Proof. intros H. destruct c; [exact H | apply returns_ret; exact I]. Qed.

Lemma returns_warnings (P : list jstr -> Prop) :
  (forall ws, P ws) -> returns warnings P.
Proof. intros H ws. exists ws, ws. split; [reflexivity | apply H]. Qed.

Lemma returns_weaken {A} (m : M A) (P Q : A -> Prop) :
  returns m P -> (forall a, P a -> Q a) -> returns m Q.
Proof.
  intros H HPQ ws. destruct (H ws) as (a & ws' & E & Ha).
  exists a, ws'. split; [exact E | apply HPQ; exact Ha].
Qed.

Lemma returns_tryCatch {A} (m : M A) (h : exn -> M A) (P : A -> Prop) :
  returns m P -> returns (tryCatch m h) P.
Proof.
  intros H ws. destruct (H ws) as (a & ws' & E & Ha).
  exists a, ws'. unfold tryCatch. rewrite E. split; [reflexivity | exact Ha].
Qed.

(** A step whose value is [tt] and of which nothing needs to be known. *)
Lemma returns_seq {C} (m : M unit) (k : unit -> M C) (P : C -> Prop) :
  returns m (fun _ => True) -> returns (k tt) P -> returns (bind m k) P.
Proof.
  intros Hm Hk. apply returns_bind with (Q := fun _ => True); [exact Hm |].
  intros [] _. exact Hk.
Qed.

(** A step whose value may be anything. *)
Lemma returns_any {A C} (m : M A) (k : A -> M C) (P : C -> Prop) :
  returns m (fun _ => True) -> (forall a, returns (k a) P) -> returns (bind m k) P.
Proof.
  intros Hm Hk. apply returns_bind with (Q := fun _ => True); [exact Hm |].
  intros a _. apply Hk.
Qed.

(** The last two steps of a parser: read [warnings], return the record. *)
Lemma returns_node (f : list jstr -> jsval) (P : jsval -> Prop) :
  (forall ws, P (f ws)) -> returns (ws <- warnings ;; ret (f ws)) P.
Proof.
  intros H. apply returns_any; [apply returns_warnings; trivial |].
  intros ws. apply returns_ret. apply H.
Qed.

Lemma returns_tryCatch_throw {A} (e : exn) (h : exn -> M A) (P : A -> Prop) :
  returns (h e) P -> returns (tryCatch (throw e) h) P.
Proof. intros H ws. exact (H ws). Qed.

(** A parser whose [try] block returns never reaches its [catch] block. *)
Lemma returns_parse {A} (m : M A) (h : exn -> M A) (P : A -> Prop) :
  returns m P ->
  exists a ws, m [] = (inr a, ws) /\ run (tryCatch m h) = inr a /\ P a.
Proof.
  intros H. destruct (H []) as (a & ws' & E & Ha).
  exists a, ws'. unfold run, tryCatch. rewrite E. auto.
Qed.

End Returns.

(** Computations of which only the absence of a throw matters. *)
Create HintDb returns.

Ltac returns_true :=
  cbv zeta;
  lazymatch goal with
  | |- Spec.returns (Eff.ret _) _ => apply Returns.returns_ret; exact I
  | |- Spec.returns (Eff.warn _) _ => apply Returns.returns_warn
  | |- Spec.returns (Eff.when _ _) _ => apply Returns.returns_when; returns_true
  | |- Spec.returns (Eff.bind _ _) _ =>
      eapply Returns.returns_any; [returns_true | intros ?; returns_true]
  | |- Spec.returns (Eff.tryCatch (Eff.throw _) _) _ =>
      apply Returns.returns_tryCatch_throw; returns_true
  | |- Spec.returns (Eff.tryCatch (match ?c with _ => _ end) _) _ =>
      destruct c; returns_true
  | |- Spec.returns (Eff.tryCatch _ _) _ =>
      apply Returns.returns_tryCatch; returns_true
  | |- Spec.returns (match ?x with _ => _ end) _ => destruct x; returns_true
  | |- Spec.returns _ _ => solve [auto with returns]
  end.

(** One step of a parser body: a step that only warns, or a call whose
    value may be anything. *)
Ltac body_step :=
  lazymatch goal with
  | |- Spec.returns (Eff.bind Eff.warnings _) _ => fail
  | |- Spec.returns (Eff.bind _ _) _ =>
      eapply Returns.returns_any; [solve [returns_true] | intros ?]
  end.

Ltac node_fields :=
  repeat split; try (eexists; reflexivity); try reflexivity.

(** The record at the end of a parser body. *)
Ltac node_ok port_lemma :=
  apply Returns.returns_node; intros ?;
  split; [node_fields |];
  split; [eexists; split; [reflexivity | port_lemma]
         | eexists; split; reflexivity].

(** The branch of a parser for an input that is empty once trimmed. *)
Ltac empty_branch Et :=
  repeat body_step; apply Returns.returns_node; intros ?;
  unfold Spec.wellFormed, Spec.rawUrlOf; rewrite Et;
  split; [node_fields |];
  split; [exists 0; split; [reflexivity | lia] | eexists; split; reflexivity].

Module ParserFacts.
Import JS Codec Val Utils Eff Common Dispatcher Spec Returns.
Local Open Scope eff_scope.

Section WithBuiltins.
Context {B : Builtins}.

Lemma isPort_range z : isPort (ofInt z) = true -> 1 <= z <= 65535.
Proof. unfold isPort, ofInt. intros H. apply andb_true_iff in H. lia. Qed.

Lemma portNum_ok (p : option Z) :
  let n := if isPort (ofIntN p) then asPort p else 0 in
  n = 0 \/ 1 <= n <= 65535.
Proof.
  destruct p as [z|]; cbn -[isPort].
  - destruct (isPort (ofInt z)) eqn:E;
      [right; apply isPort_range; exact E | left; reflexivity].
  - left. reflexivity.
Qed.

Lemma portOrNull_range (pn : jsnum) :
  match portOrNull pn with
  | Some p => 1 <= p <= 65535
  | None => True
  end.
Proof.
  unfold portOrNull. destruct (isPort (VNum pn)) eqn:E; [| exact I].
  destruct pn; [apply isPort_range; exact E | exact I].
Qed.

Lemma portOrNull_ok (pn : jsnum) :
  let n := if isPort (VNum pn) then asPort (portOrNull pn) else 0 in
  n = 0 \/ 1 <= n <= 65535.
Proof.
  cbv zeta. pose proof (portOrNull_range pn) as H. unfold portOrNull in *.
  destruct (isPort (VNum pn)); [| left; reflexivity].
  destruct pn; [right; exact H | left; reflexivity].
Qed.

Lemma parseAuthority_port (a : option jstr) :
  match port (parseAuthority a) with
  | Some p => 1 <= p <= 65535
  | None => True
  end.
Proof.
  unfold parseAuthority. cbv zeta.
  repeat lazymatch goal with
         | |- match port (if ?c then _ else _) with _ => _ end => destruct c
         end; cbn [port];
  lazymatch goal with
  | |- True => exact I
  | _ => apply portOrNull_range
  end.
Qed.

(** *** The helpers that take [warnings] *)

Lemma VLESS_normalizeUuid_returns r :
  returns (VLESS.normalizeUuid r) (fun _ => True).
Proof. unfold VLESS.normalizeUuid, VLESS.normalizeUuidPlain. returns_true. Qed.

Lemma TUIC_normalizeUuid_returns r :
  returns (TUIC.normalizeUuid r) (fun _ => True).
Proof. unfold TUIC.normalizeUuid. returns_true. Qed.

Lemma VMess_normalizeUuid_returns r :
  returns (VMess.normalizeUuid r) (fun _ => True).
Proof. unfold VMess.normalizeUuid. returns_true. Qed.

Lemma VMess_parseJsonLoosely_returns t :
  returns (VMess.parseJsonLoosely t) (fun _ => True).
Proof. unfold VMess.parseJsonLoosely. returns_true. Qed.

Lemma SS_parseMethodPassword_returns t :
  returns (SS.parseMethodPassword t) (fun _ => True).
Proof. unfold SS.parseMethodPassword. returns_true. Qed.

Hint Resolve SS_parseMethodPassword_returns : returns.

Lemma SS_parseUserinfoToCreds_returns u :
  returns (SS.parseUserinfoToCreds u) (fun _ => True).
Proof. unfold SS.parseUserinfoToCreds. returns_true. Qed.

Lemma SS_parsePlugin_returns v :
  returns (SS.parsePlugin v) (fun _ => True).
Proof. unfold SS.parsePlugin. returns_true. Qed.

Lemma SSR_decodeBase64ToTextMaybe_returns b l :
  returns (SSR.decodeBase64ToTextMaybe b l) (fun _ => True).
Proof. unfold SSR.decodeBase64ToTextMaybe. returns_true. Qed.

Hint Resolve VLESS_normalizeUuid_returns TUIC_normalizeUuid_returns
  VMess_normalizeUuid_returns VMess_parseJsonLoosely_returns
  SS_parseUserinfoToCreds_returns SS_parsePlugin_returns
  SSR_decodeBase64ToTextMaybe_returns : returns.

Lemma SSR_decodeParam_returns b l :
  returns (SSR.decodeParam b l) (fun _ => True).
Proof. unfold SSR.decodeParam. returns_true. Qed.

Hint Resolve SSR_decodeParam_returns : returns.

Lemma SS_parseMain_port a1 :
  returns (SS.parseMain a1) (fun main => portInRange (SS.m_port main)).
Proof.
  unfold SS.parseMain. cbv zeta.
  repeat lazymatch goal with
         | |- returns (if ?c then _ else _) _ => destruct c
         | |- returns (match ?x with _ => _ end) _ => destruct x
         end.
  - body_step. body_step. apply returns_ret. apply portNum_ok.
  - body_step. body_step. body_step. body_step. apply returns_ret. apply portNum_ok.
  - body_step. apply returns_ret. left. reflexivity.
  - body_step. apply returns_ret. left. reflexivity.
Qed.

Lemma SSR_parseSsrMain_port m :
  returns (SSR.parseSsrMain m) (fun main => portInRange (SSR.port main)).
Proof.
  unfold SSR.parseSsrMain. cbv zeta.
  destruct (isEmpty (trim m)).
  - body_step. apply returns_ret. left. reflexivity.
  - repeat lazymatch goal with
           | |- returns (tryCatch (if ?c then _ else _) _) _ => destruct c
           end;
    lazymatch goal with
    | |- returns (tryCatch (throw _) _) _ =>
        apply returns_tryCatch_throw; body_step; apply returns_ret;
        left; reflexivity
    | |- _ =>
        apply returns_tryCatch; body_step; apply returns_ret;
        apply portOrNull_ok
    end.
Qed.

(** *** The [try] block of each parser *)

Lemma VLESS_wellFormed url :
  returns (VLESS.parseBody url) (wellFormed vless url).
Proof.
  unfold VLESS.parseBody. cbv zeta.
  repeat body_step. apply returns_node. intros ws.
  split; [node_fields |].
  split; [| eexists; split; reflexivity].
  eexists. split; [reflexivity |].
  pose proof (parseAuthority_port
                (Some (asStr (authority (splitUrlLoosely (trim url)))))) as H.
  destruct (port _); [right; exact H | left; reflexivity].
Qed.

Lemma Trojan_wellFormed url :
  returns (Trojan.parseBody url) (wellFormed trojan url).
Proof.
  unfold Trojan.parseBody. cbv zeta.
  destruct (isEmpty (trim url)) eqn:E.
  - destruct (trim url) eqn:Et; [| discriminate E]. empty_branch Et.
  - repeat body_step. node_ok ltac:(apply portNum_ok).
Qed.

Lemma Hysteria_wellFormed url :
  returns (Hysteria.parseBody url) (wellFormed hysteria url).
Proof.
  unfold Hysteria.parseBody. cbv zeta.
  destruct (isEmpty (trim url)) eqn:E.
  - destruct (trim url) eqn:Et; [| discriminate E]. empty_branch Et.
  - repeat body_step. node_ok ltac:(apply portNum_ok).
Qed.

Lemma Hysteria2_wellFormed url :
  returns (Hysteria2.parseBody url) (wellFormed hysteria2 url).
Proof.
  unfold Hysteria2.parseBody. cbv zeta.
  destruct (isEmpty (trim url)) eqn:E.
  - destruct (trim url) eqn:Et; [| discriminate E]. empty_branch Et.
  - repeat body_step. node_ok ltac:(apply portNum_ok).
Qed.

Lemma TUIC_wellFormed url :
  returns (TUIC.parseBody url) (wellFormed tuic url).
Proof.
  unfold TUIC.parseBody. cbv zeta.
  destruct (isEmpty (trim url)) eqn:E.
  - destruct (trim url) eqn:Et; [| discriminate E]. empty_branch Et.
  - repeat body_step. node_ok ltac:(apply portNum_ok).
Qed.

Lemma SS_wellFormed url :
  returns (SS.parseBody url) (wellFormed ss url).
Proof.
  unfold SS.parseBody. cbv zeta.
  destruct (isEmpty (trim url)) eqn:E.
  - destruct (trim url) eqn:Et; [| discriminate E]. empty_branch Et.
  - body_step. body_step.
    eapply returns_bind; [apply SS_parseMain_port |]. intros main Hmain.
    repeat body_step. node_ok ltac:(exact Hmain).
Qed.

Lemma SSR_wellFormed url :
  returns (SSR.parseBody url) (wellFormed ssr url).
Proof.
  unfold SSR.parseBody. cbv zeta.
  destruct (isEmpty (trim url)) eqn:E.
  - destruct (trim url) eqn:Et; [| discriminate E]. empty_branch Et.
  - body_step.
    lazymatch goal with
    | |- returns (if ?c then _ else _) _ =>
        destruct c; [body_step; node_ok ltac:(left; reflexivity) |]
    end.
    lazymatch goal with
    | |- returns (match ?x with _ => _ end) _ =>
        destruct x; [| body_step; node_ok ltac:(left; reflexivity)]
    end.
    lazymatch goal with
    | |- returns (if ?c then _ else _) _ =>
        destruct c; [body_step; node_ok ltac:(left; reflexivity) |]
    end.
    eapply returns_bind; [apply SSR_parseSsrMain_port |]. intros main Hmain.
    repeat body_step. node_ok ltac:(exact Hmain).
Qed.

Lemma VMess_portNum_ok (n : jsnum) :
  let p := if isInteger n && isPort (VNum n)
           then asPort (portOrNull n) else 0 in
  p = 0 \/ 1 <= p <= 65535.
Proof.
  cbv zeta. destruct (isInteger n); cbn [andb]; [| left; reflexivity].
  apply portOrNull_ok.
Qed.

Lemma VMess_wellFormed url :
  returns (VMess.parseBody url) (wellFormed vmess url).
Proof.
  unfold VMess.parseBody. cbv zeta.
  destruct (isEmpty (trim url)) eqn:E.
  - destruct (trim url) eqn:Et; [| discriminate E]. empty_branch Et.
  - repeat body_step. node_ok ltac:(apply VMess_portNum_ok).
Qed.

(** Every [try] block returns a well-formed record. *)
Lemma tryOf_wellFormed (p : protocol) (url : jstr) :
  returns (tryOf p url) (wellFormed p url).
Proof.
  destruct p; cbn [tryOf].
  - apply VLESS_wellFormed.
  - apply VMess_wellFormed.
  - apply SS_wellFormed.
  - apply Trojan_wellFormed.
  - apply Hysteria2_wellFormed.
  - apply SSR_wellFormed.
  - apply Hysteria_wellFormed.
  - apply TUIC_wellFormed.
Qed.

Lemma parserOf_run (p : protocol) (url : jstr) :
  parserOf p url = run (tryCatch (tryOf p url) (catchOf p url)).
Proof. destruct p; reflexivity. Qed.

(** Every parser returns the record of its [try] block. *)
Lemma parserOf_wellFormed (p : protocol) (url : jstr) :
  exists node ws,
    tryOf p url [] = (inr node, ws)
    /\ parserOf p url = inr node
    /\ wellFormed p url node.
Proof.
  rewrite parserOf_run. apply returns_parse. apply tryOf_wellFormed.
Qed.

(** The [catch] block of every parser. *)
Lemma catchOf_zeroed (p : protocol) (url : jstr) (e : exn) (ws : list jstr) :
  let caught := js "解析异常（已捕获）：" ++ exnText e in
  exists node,
    catchOf p url e ws = (inr node, ws ++ [caught])
    /\ zeroedRecord p url (ws ++ [caught]) node.
Proof.
  destruct p; (eexists; split; [reflexivity | repeat split]).
Qed.

(** *** TLS of the Hysteria and TUIC parsers *)

Lemma Hysteria_tlsOn url :
  trim url <> [] -> returns (Hysteria.parseBody url) tlsOn.
Proof.
  intros Hne. unfold Hysteria.parseBody. cbv zeta.
  destruct (trim url) eqn:Et; [contradiction |]. cbn [isEmpty].
  repeat body_step. apply returns_node. intros ws. split; reflexivity.
Qed.

Lemma TUIC_tlsOn url :
  trim url <> [] -> returns (TUIC.parseBody url) tlsOn.
Proof.
  intros Hne. unfold TUIC.parseBody. cbv zeta.
  destruct (trim url) eqn:Et; [contradiction |]. cbn [isEmpty].
  repeat body_step. apply returns_node. intros ws. split; reflexivity.
Qed.

End WithBuiltins.
End ParserFacts.

Module DispatcherFacts.
Import JS Codec Val Utils Eff Common Dispatcher Spec Returns ParserFacts.

Section WithBuiltins.
Context {B : Builtins}.
Variable convert : protocol -> jsval -> jsval.



Lemma forEach_batch (lines : list jstr) (index : Z) (acc : BatchResult) :
  forEach (batchLine convert) lines index acc
  = mkBatchResult (proxies acc ++ expectedProxies convert lines)
                  (errors acc ++ expectedErrors convert lines (index + 1)).
Proof.
  revert index acc. induction lines as [| line rest IH]; intros index acc.
  - cbn. rewrite !app_nil_r. destruct acc; reflexivity.
  - cbn [forEach expectedProxies flat_map expectedErrors]. rewrite IH.
    unfold batchLine, qualifies, truthy. cbv zeta.
    destruct (isEmpty (trim line)); cbn [negb andb orb].
    + reflexivity.
    + destruct (includes (js "://") (trim line)); cbn [negb].
      * destruct (parseProxyLink convert (trim line)); cbn [proxies errors];
          rewrite <- ?app_assoc; reflexivity.
      * reflexivity.
Qed.

Lemma expectedErrors_in (lines : list jstr) (position : Z) (e : BatchError) :
  In e (expectedErrors convert lines position) ->
  exists i l,
    nth_error lines i = Some l
    /\ line e = Z.of_nat i + position
    /\ qualifies l = true
    /\ link e = shorten (trim l)
    /\ parseProxyLink convert (trim l) = Failure (error e).
Proof.
  revert position. induction lines as [| l rest IH]; intros position H.
  - destruct H.
  - cbn [expectedErrors] in H. apply in_app_or in H. destruct H as [H | H].
    + destruct (qualifies l) eqn:Eq; [| destruct H].
      destruct (parseProxyLink convert (trim l)) eqn:Ep; [destruct H |].
      destruct H as [<- | []]. exists O, l. cbn. auto.
    + destruct (IH _ H) as (i & l' & H1 & H2 & H3).
      exists (S i), l'. split; [exact H1 |].
      split; [rewrite H2; lia | exact H3].
Qed.

End WithBuiltins.
End DispatcherFacts.

Module StrFacts.
Import JS.

Lemma str_eqb_eq (a b : jstr) : str_eqb a b = true <-> a = b.
Proof.
  revert b. induction a as [| x a IH]; intros [| y b]; cbn; split; intros H;
    try reflexivity; try discriminate.
  - apply andb_true_iff in H. destruct H as [H1 H2].
    apply N.eqb_eq in H1. apply IH in H2. subst. reflexivity.
  - injection H as -> ->. rewrite N.eqb_refl. cbn. apply IH. reflexivity.
Qed.

Lemma str_eqb_refl (a : jstr) : str_eqb a a = true.
Proof. apply str_eqb_eq. reflexivity. Qed.

Lemma len_app (a b : jstr) : len (a ++ b) = len a + len b.
Proof. unfold len. rewrite length_app. lia. Qed.

Lemma len_nonneg (a : jstr) : 0 <= len a.
Proof. unfold len. lia. Qed.

Lemma startsWith_app (p s : jstr) : startsWith p (p ++ s) = true.
Proof. induction p as [| x p IH]; cbn; [reflexivity |]. rewrite N.eqb_refl. exact IH. Qed.

(** [indexOf] of a single code unit. *)
Lemma indexOf_char_absent (c : N) (s : jstr) :
  ~ In c s -> indexOf [c] s = -1.
Proof.
  induction s as [| x s IH]; intros Hn; cbn; [reflexivity |].
  destruct (c =? x)%N eqn:E.
  - apply N.eqb_eq in E. subst. exfalso. apply Hn. left. reflexivity.
  - cbn. rewrite IH; [reflexivity |]. intros Hi. apply Hn. right. exact Hi.
Qed.

Lemma indexOf_char_first (c : N) (l r : jstr) :
  ~ In c l -> indexOf [c] (l ++ c :: r) = len l.
Proof.
  induction l as [| x l IH]; intros Hn.
  - cbn. rewrite N.eqb_refl. reflexivity.
  - cbn [app indexOf startsWith].
    destruct (c =? x)%N eqn:E.
    + apply N.eqb_eq in E. subst. exfalso. apply Hn. left. reflexivity.
    + cbn [andb]. rewrite IH by (intros Hi; apply Hn; right; exact Hi).
      pose proof (len_nonneg l) as Hl.
      destruct (len l <? 0) eqn:E2; [lia |]. unfold len. cbn [List.length]. lia.
Qed.

Lemma indexOf_char_present (c : N) (s : jstr) :
  In c s -> 0 <= indexOf [c] s.
Proof.
  intros Hin. apply in_split in Hin. destruct Hin as (l & r & ->).
  assert (H : exists l' r', l ++ c :: r = l' ++ c :: r' /\ ~ In c l').
  { clear. induction l as [| x l IH].
    - exists [], r. split; [reflexivity | intros []].
    - destruct (N.eq_dec c x) as [-> | Hne].
      + exists [], (l ++ x :: r). split; [reflexivity | intros []].
      + destruct IH as (l' & r' & E & Hn). exists (x :: l'), r'. cbn. rewrite E.
        split; [reflexivity |]. intros [H | H]; [congruence | contradiction]. }
  destruct H as (l' & r' & -> & Hn). rewrite indexOf_char_first by exact Hn.
  apply len_nonneg.
Qed.

Lemma lastIndexOf_char_absent (c : N) (s : jstr) :
  ~ In c s -> lastIndexOf [c] s = -1.
Proof.
  induction s as [| x s IH]; intros Hn; cbn; [reflexivity |].
  rewrite IH by (intros Hi; apply Hn; right; exact Hi). cbn.
  destruct (c =? x)%N eqn:E; [| reflexivity].
  apply N.eqb_eq in E. subst. exfalso. apply Hn. left. reflexivity.
Qed.

Lemma lastIndexOf_char_last (c : N) (l r : jstr) :
  ~ In c r -> lastIndexOf [c] (l ++ c :: r) = len l.
Proof.
  intros Hn. induction l as [| x l IH].
  - cbn. rewrite lastIndexOf_char_absent by exact Hn. cbn.
    rewrite N.eqb_refl. reflexivity.
  - cbn [app lastIndexOf]. rewrite IH.
    pose proof (len_nonneg l) as Hl.
    destruct (0 <=? len l) eqn:E; [| lia]. unfold len. cbn [List.length]. lia.
Qed.

Lemma slice_prefix (l r : jstr) : slice (l ++ r) 0 (len l) = l.
Proof.
  unfold slice, clampIndex. cbn [Z.ltb Z.compare].
  pose proof (len_nonneg l) as Hl. pose proof (len_nonneg r) as Hr.
  rewrite len_app.
  destruct (len l <? 0) eqn:E; [lia |].
  rewrite Z.min_l by lia. rewrite Z.min_l by lia.
  cbn [Z.to_nat skipn]. rewrite Z.sub_0_r. unfold len. rewrite Nat2Z.id.
  rewrite firstn_app, Nat.sub_diag, firstn_all. cbn. apply app_nil_r.
Qed.

Lemma sliceFrom_suffix (l r : jstr) : sliceFrom (l ++ r) (len l) = r.
Proof.
  unfold sliceFrom, clampIndex.
  pose proof (len_nonneg l) as Hl. pose proof (len_nonneg r) as Hr.
  rewrite len_app.
  destruct (len l <? 0) eqn:E; [lia |].
  rewrite Z.min_l by lia. unfold len. rewrite Nat2Z.id.
  rewrite skipn_app, skipn_all, Nat.sub_diag. reflexivity.
Qed.

Lemma sliceFrom_suffix1 (l : jstr) (c : N) (r : jstr) :
  sliceFrom (l ++ c :: r) (len l + 1) = r.
Proof.
  replace (l ++ c :: r) with ((l ++ [c]) ++ r) by (rewrite <- app_assoc; reflexivity).
  replace (len l + 1) with (len (l ++ [c])) by (rewrite len_app; reflexivity).
  apply sliceFrom_suffix.
Qed.

Lemma countChar_app (c : N) (a b : jstr) :
  countChar c (a ++ b) = countChar c a + countChar c b.
Proof. unfold countChar. rewrite filter_app, length_app. lia. Qed.

Lemma countChar_zero (c : N) (s : jstr) : countChar c s = 0 <-> ~ In c s.
Proof.
  unfold countChar. induction s as [| x s IH]; cbn.
  - split; [intros _ [] | reflexivity].
  - destruct (x =? c)%N eqn:E.
    + apply N.eqb_eq in E. subst. cbn [List.length]. split; [lia |].
      intros H. exfalso. apply H. left. reflexivity.
    + apply N.eqb_neq in E. rewrite IH. split; intros H.
      * intros [H1 | H1]; [congruence | contradiction].
      * intros H1. apply H. right. exact H1.
Qed.

(** Digits *)

Lemma digitsValue_bound (s : jstr) (acc : Z) :
  forallb isDigit s = true -> 0 <= acc ->
  acc * 10 ^ len s <= digitsValue acc s < (acc + 1) * 10 ^ len s.
Proof.
  revert acc. induction s as [| c s IH]; intros acc Hd Ha.
  - cbn. lia.
  - cbn [forallb] in Hd. apply andb_true_iff in Hd. destruct Hd as [Hc Hs].
    cbn [digitsValue]. rewrite Hc.
    assert (Hc' : 0 <= Z.of_N (c - 48) <= 9).
    { unfold isDigit, in_range in Hc. apply andb_true_iff in Hc.
      destruct Hc as [H1 H2]. apply N.leb_le in H1, H2. lia. }
    specialize (IH (acc * 10 + Z.of_N (c - 48)) Hs ltac:(lia)).
    replace (len (c :: s)) with (len s + 1) by (unfold len; cbn [List.length]; lia).
    pose proof (len_nonneg s) as Hl.
    rewrite Z.pow_add_r by lia. nia.
Qed.

End StrFacts.

Module AuthorityFacts.
Import JS Codec Val Utils Spec StrFacts.

Lemma indexOf_after_first (c1 c2 : N) (s : jstr) :
  startsWith [c1] s = true -> c1 <> c2 -> In c2 s -> 0 < indexOf [c2] s.
Proof.
  intros Hs Hne Hin. destruct s as [| x s']; [discriminate Hs |].
  cbn in Hs. apply andb_true_iff in Hs. destruct Hs as [Hx _].
  apply N.eqb_eq in Hx. subst x.
  destruct Hin as [Hin | Hin]; [congruence |].
  cbn [indexOf startsWith].
  destruct (c2 =? c1)%N eqn:E; [apply N.eqb_eq in E; congruence |].
  cbn [andb]. pose proof (indexOf_char_present c2 s' Hin) as Hp.
  destruct (indexOf [c2] s' <? 0) eqn:E2; lia.
Qed.

(** A printable ASCII character is not white space. *)
Lemma ascii_not_white (c : N) : (32 < c < 127)%N -> isWhite c = false.
Proof.
  intros Hc.
  assert (Hr : forall lo hi, (hi < 33 \/ 126 < lo)%N -> in_range lo hi c = false).
  { intros lo hi H. unfold in_range. apply andb_false_iff.
    destruct H; [right; apply N.leb_gt | left; apply N.leb_gt]; lia. }
  assert (He : forall k, (k < 33 \/ 126 < k)%N -> (c =? k)%N = false).
  { intros k H. apply N.eqb_neq. lia. }
  unfold isWhite.
  rewrite !Hr by lia. rewrite !He by lia. reflexivity.
Qed.

Lemma parseInt_digits (s : jstr) :
  isDigits1to5 s = true -> parseInt s = NInt (digitsValue 0 s).
Proof.
  unfold isDigits1to5. intros H.
  apply andb_true_iff in H. destruct H as [H H5].
  apply andb_true_iff in H. destruct H as [Hd H1].
  destruct s as [| c s']; [cbn in H1; discriminate H1 |].
  pose proof (digitsValue_bound (c :: s') 0 Hd ltac:(lia)) as Hb.
  cbn [forallb] in Hd. apply andb_true_iff in Hd. destruct Hd as [Hc Hs'].
  assert (Hw : isWhite c = false).
  { apply ascii_not_white. unfold isDigit, in_range in Hc.
    apply andb_true_iff in Hc. destruct Hc as [Ha Hb'].
    apply N.leb_le in Ha, Hb'. lia. }
  unfold parseInt, JS.parseInt. cbn [trimStart]. rewrite Hw.
  assert (Hm : (c =? ch "-")%N = false /\ (c =? ch "+")%N = false).
  { unfold isDigit, in_range in Hc. apply andb_true_iff in Hc.
    destruct Hc as [Ha Hb']. apply N.leb_le in Ha, Hb'.
    split; apply N.eqb_neq; cbn; lia. }
  destruct Hm as [-> ->]. rewrite Hc.
  unfold toDouble.
  apply Z.leb_le in H5.
  assert (Hlt : digitsValue 0 (c :: s') < 10 ^ 5).
  { destruct Hb as [_ Hb]. eapply Z.lt_le_trans; [exact Hb |].
    rewrite Z.mul_1_l. apply Z.pow_le_mono_r; lia. }
  destruct Hb as [Hge _].
  assert (Hpos : 0 <= digitsValue 0 (c :: s')).
  { eapply Z.le_trans; [| exact Hge]. cbn. lia. }
  rewrite Z.abs_eq by exact Hpos.
  destruct (digitsValue 0 (c :: s') <? 2 ^ 53) eqn:E; [reflexivity |].
  apply Z.ltb_ge in E. exfalso.
  assert (10 ^ 5 < 2 ^ 53) by (cbn; lia). lia.
Qed.

(** The four cases of [parseAuthority] on its [host:port] part. *)
Lemma parseAuthority_cases (a : jstr) :
  let hp := hostportOf a in
  let r := parseAuthority (Some a) in
  (startsWith (js "[") hp = true ->
     let close := indexOf (js "]") hp in
     (In (ch "]") hp ->
        0 < close
        /\ host r = Some (slice hp 1 close)
        /\ port r =
             (let rest := sliceFrom hp (close + 1) in
              if startsWith (js ":") rest
              then portOrNull (parseInt (sliceFrom rest 1))
              else None))
     /\ (~ In (ch "]") hp -> host r = Some hp /\ port r = None))
  /\ (startsWith (js "[") hp = false -> 1 < countChar (ch ":") hp ->
        host r = Some hp /\ port r = None)
  /\ (startsWith (js "[") hp = false -> countChar (ch ":") hp = 0 ->
        hp <> [] -> host r = Some hp /\ port r = None)
  /\ (forall left right,
        hp = left ++ js ":" ++ right ->
        startsWith (js "[") hp = false ->
        ~ In (ch ":") left -> ~ In (ch ":") right ->
        if isPortText right
        then host r = strOrNone left /\ port r = Some (digitsValue 0 right)
        else host r = Some hp /\ port r = None).
Proof.
  unfold hostportOf, parseAuthority. cbv zeta.
  set (hp := trim _).
  set (ui := if 0 <=? _ then Some _ else None).
  clearbody hp ui.
  assert (Hbr : ch "[" <> ch "]") by (cbn; discriminate).
  change (js "[") with [ch "["]. change (js "]") with [ch "]"].
  repeat split.
  - eapply indexOf_after_first; [exact H | exact Hbr | exact H0].
  - destruct hp as [| c0 hp'] eqn:Ehp; [discriminate H |]. cbn [isEmpty].
    rewrite H.
    pose proof (indexOf_after_first _ _ _ H Hbr H0) as Hc.
    apply Z.ltb_lt in Hc. rewrite Hc.
    destruct (startsWith (js ":") _); reflexivity.
  - destruct hp as [| c0 hp'] eqn:Ehp; [discriminate H |]. cbn [isEmpty].
    rewrite H.
    pose proof (indexOf_after_first _ _ _ H Hbr H0) as Hc.
    apply Z.ltb_lt in Hc. rewrite Hc.
    destruct (startsWith (js ":") _); reflexivity.
  - destruct hp as [| c0 hp'] eqn:Ehp; [discriminate H |]. cbn [isEmpty].
    rewrite H.
    rewrite indexOf_char_absent by exact H0.
    reflexivity.
  - destruct hp as [| c0 hp'] eqn:Ehp; [discriminate H |]. cbn [isEmpty].
    rewrite H.
    rewrite indexOf_char_absent by exact H0.
    reflexivity.
  - destruct hp as [| c0 hp'] eqn:Ehp; [cbn in H0; lia |]. cbn [isEmpty].
    rewrite H.
    apply Z.ltb_lt in H0. rewrite H0. reflexivity.
  - destruct hp as [| c0 hp'] eqn:Ehp; [cbn in H0; lia |]. cbn [isEmpty].
    rewrite H.
    apply Z.ltb_lt in H0. rewrite H0. reflexivity.
  - destruct hp as [| c0 hp'] eqn:Ehp; [contradiction |]. cbn [isEmpty].
    rewrite H, H0. reflexivity.
  - destruct hp as [| c0 hp'] eqn:Ehp; [contradiction |]. cbn [isEmpty].
    rewrite H, H0. reflexivity.
  - intros left right Hhp Hb Hl Hr.
    assert (Hcount : countChar (ch ":") hp = 1).
    { rewrite Hhp. change (js ":") with [ch ":"].
      rewrite !countChar_app.
      apply countChar_zero in Hl, Hr. rewrite Hl, Hr. reflexivity. }
    assert (Hne : isEmpty hp = false).
    { rewrite Hhp. destruct left; reflexivity. }
    rewrite Hne, Hb, Hcount. cbn [Z.ltb Z.eqb Z.compare Pos.compare Pos.compare_cont Pos.eqb].
    assert (Hlast : lastIndexOf (js ":") hp = len left).
    { rewrite Hhp. change (js ":" ++ right) with (ch ":" :: right).
      apply lastIndexOf_char_last. exact Hr. }
    rewrite Hlast.
    assert (Hright : sliceFrom hp (len left + 1) = right).
    { rewrite Hhp. change (js ":" ++ right) with (ch ":" :: right).
      apply sliceFrom_suffix1. }
    assert (Hleft : slice hp 0 (len left) = left).
    { rewrite Hhp. apply slice_prefix. }
    rewrite Hright, Hleft. unfold isPortText.
    destruct (isDigits1to5 right) eqn:Ed; cbn [andb]; [| split; reflexivity].
    rewrite (parseInt_digits right Ed). unfold portOrNull.
    change (isPort (VNum (NInt (digitsValue 0 right))))
      with ((1 <=? digitsValue 0 right) && (digitsValue 0 right <=? 65535)).
    destruct ((1 <=? digitsValue 0 right) && (digitsValue 0 right <=? 65535));
      split; reflexivity.
Qed.

End AuthorityFacts.

Module Base64Facts.
Import JS Codec Val Utils Spec StrFacts AuthorityFacts.

Lemma trimStart_id (s : jstr) :
  (forall c s', s = c :: s' -> isWhite c = false) -> trimStart s = s.
Proof.
  intros H. destruct s as [| c s']; [reflexivity |]. cbn.
  rewrite (H c s' eq_refl). reflexivity.
Qed.

Lemma trim_id (s : jstr) : Forall (fun c => isWhite c = false) s -> trim s = s.
Proof.
  intros H. unfold trim, trimEnd.
  rewrite (trimStart_id s).
  - rewrite (trimStart_id (rev s)); [apply rev_involutive |].
    intros c s' E. rewrite Forall_forall in H. apply H.
    apply in_rev. rewrite E. left. reflexivity.
  - intros c s' E. subst. inversion H. assumption.
Qed.

Lemma plain_trim (s : jstr) : Forall plain s -> trim s = s.
Proof.
  intros H. apply trim_id. eapply Forall_impl; [| exact H].
  intros c Hc. apply ascii_not_white. exact Hc.
Qed.

Lemma filter_id {A} (f : A -> bool) (l : list A) :
  Forall (fun x => f x = true) l -> filter f l = l.
Proof.
  induction 1 as [| x l Hx _ IH]; [reflexivity |]. cbn. rewrite Hx, IH. reflexivity.
Qed.

Lemma replaceChar_id (c d : N) (s : jstr) :
  ~ In c s -> replaceChar c d s = s.
Proof.
  unfold replaceChar. induction s as [| x s IH]; intros H; [reflexivity |].
  cbn. destruct (x =? c)%N eqn:E.
  - apply N.eqb_eq in E. subst. exfalso. apply H. left. reflexivity.
  - rewrite IH; [reflexivity |]. intros Hi. apply H. right. exact Hi.
Qed.

(** The characters of the Base64 alphabet. *)
Lemma isB64_plain (c : N) :
  isB64 c = true ->
  plain c /\ c <> ch "-" /\ c <> ch "_" /\ c <> ch "=" /\ c <> ch ":"
  /\ c <> ch "%".
Proof.
  unfold isB64, b64val, isUpper, isLower, isDigit, in_range, plain.
  intros H.
  destruct ((65 <=? c)%N && (c <=? 90)%N) eqn:E1.
  { apply andb_true_iff in E1. destruct E1 as [H1 H2].
    apply N.leb_le in H1, H2. cbn. repeat split; lia. }
  destruct ((97 <=? c)%N && (c <=? 122)%N) eqn:E2.
  { apply andb_true_iff in E2. destruct E2 as [H1 H2].
    apply N.leb_le in H1, H2. cbn. repeat split; lia. }
  destruct ((48 <=? c)%N && (c <=? 57)%N) eqn:E3.
  { apply andb_true_iff in E3. destruct E3 as [H1 H2].
    apply N.leb_le in H1, H2. cbn. repeat split; lia. }
  destruct (c =? ch "+")%N eqn:E4.
  { apply N.eqb_eq in E4. subst. cbn. repeat split; lia. }
  destruct (c =? ch "/")%N eqn:E5.
  { apply N.eqb_eq in E5. subst. cbn. repeat split; lia. }
  discriminate H.
Qed.

Lemma sextet_in (v : N) : (v < 64)%N -> In v sextets.
Proof.
  intros H. unfold sextets. apply in_map_iff. exists (N.to_nat v).
  split; [apply N2Nat.id | apply in_seq; lia].
Qed.

Lemma b64val_b64char (v : N) : (v < 64)%N -> b64val (b64char v) = Some v.
Proof.
  intros H. apply sextet_in in H. revert v H. apply Forall_forall.
  unfold sextets. cbn [seq map N.of_nat]. repeat constructor.
Qed.

Lemma b64sextet_b64char (v : N) : (v < 64)%N -> b64sextet (b64char v) = v.
Proof. intros H. unfold b64sextet. rewrite b64val_b64char by exact H. reflexivity. Qed.

Lemma isB64_b64char (v : N) : (v < 64)%N -> isB64 (b64char v) = true.
Proof. intros H. unfold isB64. rewrite b64val_b64char by exact H. reflexivity. Qed.

(** Induction over a list three elements at a time. *)
Lemma list_ind3 {A} (P : list A -> Prop) :
  P [] ->
  (forall a b c l, P l -> P (a :: b :: c :: l)) ->
  forall n l, List.length l = (3 * n)%nat -> P l.
Proof.
  intros H0 H3. induction n as [| n IH]; intros l Hl.
  - destruct l; [exact H0 | discriminate Hl].
  - destruct l as [| a [| b [| c l]]]; try (cbn in Hl; lia).
    apply H3. apply IH. cbn in Hl. lia.
Qed.

Lemma octet_sextets (a b c : N) :
  (a < 256)%N -> (b < 256)%N -> (c < 256)%N ->
  (a / 4 < 64 /\ (a mod 4) * 16 + b / 16 < 64
   /\ (b mod 16) * 4 + c / 64 < 64 /\ c mod 64 < 64
   /\ (a / 4) * 4 + ((a mod 4) * 16 + b / 16) / 16 = a
   /\ (((a mod 4) * 16 + b / 16) mod 16) * 16 + ((b mod 16) * 4 + c / 64) / 4 = b
   /\ (((b mod 16) * 4 + c / 64) mod 4) * 64 + c mod 64 = c)%N.
Proof.
  intros Ha Hb Hc.
  repeat split; Zify.zify; Z.to_euclidean_division_equations; lia.
Qed.

(** Decoding the encoding of whole groups of three octets. *)
Lemma base64_roundtrip (n : nat) (bs : list N) :
  List.length bs = (3 * n)%nat -> Forall (fun b => (b < 256)%N) bs ->
  Forall (fun c => isB64 c = true) (base64Encode bs)
  /\ List.length (base64Encode bs) = (4 * n)%nat
  /\ b64_octets (map b64sextet (base64Encode bs)) = bs.
Proof.
  intros Hl. revert n Hl.
  assert (H : forall n l, List.length l = (3 * n)%nat ->
              Forall (fun b => (b < 256)%N) l ->
              Forall (fun c => isB64 c = true) (base64Encode l)
              /\ List.length (base64Encode l) = (4 * (List.length l / 3))%nat
              /\ b64_octets (map b64sextet (base64Encode l)) = l).
  { apply (list_ind3 (fun l => Forall (fun b => (b < 256)%N) l ->
              Forall (fun c => isB64 c = true) (base64Encode l)
              /\ List.length (base64Encode l) = (4 * (List.length l / 3))%nat
              /\ b64_octets (map b64sextet (base64Encode l)) = l)).
    - intros _. cbn. repeat split. constructor.
    - intros a b c l IH Hf.
      inversion Hf as [| ? ? Ha Hf1]; subst.
      inversion Hf1 as [| ? ? Hb Hf2]; subst.
      inversion Hf2 as [| ? ? Hc Hf3]; subst.
      destruct (IH Hf3) as (I1 & I2 & I3).
      destruct (octet_sextets a b c Ha Hb Hc)
        as (S1 & S2 & S3 & S4 & D1 & D2 & D3).
      cbn [base64Encode map b64_octets List.length].
      rewrite !b64sextet_b64char by assumption.
      rewrite D1, D2, D3, I3. repeat split.
      + repeat (constructor; [apply isB64_b64char; assumption |]). exact I1.
      + rewrite I2.
        change (S (S (S (List.length l)))) with (3 + List.length l)%nat.
        replace ((3 + List.length l) / 3)%nat with (1 + List.length l / 3)%nat.
        * lia.
        * symmetry. change (3 + List.length l)%nat with (1 * 3 + List.length l)%nat.
          rewrite Nat.div_add_l by lia. reflexivity. }
  intros n Hl Hf. destruct (H n bs Hl Hf) as (H1 & H2 & H3).
  repeat split; [exact H1 | | exact H3].
  rewrite H2, Hl. replace (3 * n / 3)%nat with n; [reflexivity |].
  symmetry. rewrite (Nat.mul_comm 3 n). apply Nat.div_mul. lia.
Qed.

(** Decoding ASCII octets as UTF-8. *)
Lemma utf8_ascii (bs : list N) :
  Forall (fun b => (b < 128)%N) bs -> utf8_decode bs = bs.
Proof.
  unfold utf8_decode. induction 1 as [| b bs Hb _ IH]; [reflexivity |].
  cbn [utf8_run]. unfold utf8_step, utf8_lead. cbn [u_need utf8_idle].
  assert (E : (b <=? 127)%N = true) by (apply N.leb_le; lia).
  rewrite E. cbn. rewrite IH. reflexivity.
Qed.

Lemma TextDecoder_ascii (bs : list N) :
  Forall (fun b => (b < 128)%N) bs -> TextDecoder_decode bs = bs.
Proof.
  intros H. unfold TextDecoder_decode.
  destruct bs as [| b1 bs]; [reflexivity |].
  inversion H as [| ? ? Hb _]; subst.
  assert (E : b1 <> 239%N) by lia.
  destruct b1 as [| p]; [apply utf8_ascii; exact H |].
  repeat (destruct p as [p | p |]; try (apply utf8_ascii; exact H)); congruence.
Qed.

Lemma dropPadding_id (r : jstr) :
  (forall c r', r = c :: r' -> c <> ch "=") -> dropPadding r = r.
Proof.
  intros H. destruct r as [| c r']; [reflexivity |]. cbn.
  destruct (c =? 61)%N eqn:E; [| reflexivity].
  apply N.eqb_eq in E. exfalso. apply (H c r' eq_refl). exact E.
Qed.

(** [base64DecodeUtf8] on Base64 text without padding. *)
Lemma base64DecodeUtf8_text (n : nat) (s : jstr) :
  n <> O -> List.length s = (4 * n)%nat ->
  Forall (fun c => isB64 c = true) s ->
  base64DecodeUtf8 s
  = Some (TextDecoder_decode
            (map (fun c => N.land c 255) (b64_octets (map b64sextet s)))).
Proof.
  intros Hn Hl Hs.
  assert (Hp : Forall plain s).
  { eapply Forall_impl; [| exact Hs]. intros c Hc. apply isB64_plain. exact Hc. }
  assert (Hlen : len s mod 4 = 0).
  { unfold len. rewrite Hl. rewrite Nat2Z.inj_mul. cbn [Z.of_nat].
    rewrite Z.mul_comm. apply Z.mod_mul. lia. }
  assert (Hne : isEmpty s = false).
  { destruct s; [cbn in Hl; lia | reflexivity]. }
  assert (Hnorm : _normalizeBase64Input s = s).
  { unfold _normalizeBase64Input. cbv zeta. rewrite (plain_trim s Hp), Hne.
    rewrite filter_id.
    2:{ eapply Forall_impl; [| exact Hp]. intros c Hc.
        rewrite (ascii_not_white c Hc). reflexivity. }
    rewrite (replaceChar_id (ch "-")).
    2:{ intros Hi. rewrite Forall_forall in Hs. apply Hs in Hi.
        apply isB64_plain in Hi. destruct Hi as (_ & Hi & _). congruence. }
    rewrite (replaceChar_id (ch "_")).
    2:{ intros Hi. rewrite Forall_forall in Hs. apply Hs in Hi.
        apply isB64_plain in Hi. destruct Hi as (_ & _ & Hi & _). congruence. }
    rewrite Hlen. reflexivity. }
  unfold base64DecodeUtf8. cbv zeta. rewrite Hnorm, Hne.
  assert (Hnon : hasNonBase64Char s = false).
  { unfold hasNonBase64Char. clear - Hs.
    induction Hs as [| c s Hc _ IH]; [reflexivity |].
    cbn [existsb]. rewrite Hc. cbn [orb negb]. exact IH. }
  rewrite Hnon, Hlen. cbn [Z.eqb].
  unfold atob. cbv zeta.
  rewrite filter_id.
  2:{ eapply Forall_impl; [| exact Hp]. intros c Hc. unfold isAsciiWhite.
      unfold plain in Hc.
      repeat match goal with
             | |- context [(c =? ?k)%N] =>
                 replace (c =? k)%N with false by (symmetry; apply N.eqb_neq; lia)
             end. reflexivity. }
  rewrite Hlen. cbn [Z.eqb].
  rewrite dropPadding_id.
  2:{ intros c r' E. rewrite Forall_forall in Hs.
      assert (Hi : In c s) by (apply in_rev; rewrite E; left; reflexivity).
      apply Hs in Hi. apply isB64_plain in Hi.
      destruct Hi as (_ & _ & _ & Hi & _). exact Hi. }
  rewrite rev_involutive, Hlen. cbn [Z.eqb].
  rewrite (proj2 (forallb_forall isB64 s)).
  2:{ rewrite Forall_forall in Hs. exact Hs. }
  reflexivity.
Qed.

(** The encoding of ASCII text of a length that is a multiple of three
    decodes to that text. *)
Lemma base64DecodeUtf8_encode (n : nat) (u : jstr) :
  n <> O -> List.length u = (3 * n)%nat -> Forall (fun b => (b < 128)%N) u ->
  base64DecodeUtf8 (base64Encode u) = Some u.
Proof.
  intros Hn Hl Hu.
  assert (Hu' : Forall (fun b => (b < 256)%N) u).
  { eapply Forall_impl; [| exact Hu]. intros; cbn in *; lia. }
  destruct (base64_roundtrip n u Hl Hu') as (H1 & H2 & H3).
  rewrite (base64DecodeUtf8_text n _ Hn H2 H1). rewrite H3.
  assert (Hland : map (fun c => N.land c 255) u = u).
  { clear - Hu'. induction Hu' as [| b l Hb _ IH]; [reflexivity |].
    cbn [map]. rewrite IH. f_equal.
    change 255%N with (N.ones 8). rewrite N.land_ones.
    apply N.mod_small. exact Hb. }
  rewrite Hland, TextDecoder_ascii by exact Hu. reflexivity.
Qed.

End Base64Facts.

Module UuidFacts.
Import JS Codec Val Utils Eff Common Spec StrFacts AuthorityFacts Base64Facts.

Lemma matchClasses_length (pat : list (N -> bool)) (s : jstr) :
  matchClasses pat s = true -> List.length s = List.length pat.
Proof.
  revert s. induction pat as [| p pat IH]; intros [| c s] H; cbn in *;
    try reflexivity; try discriminate.
  apply andb_true_iff in H. destruct H as [_ H]. f_equal. apply IH. exact H.
Qed.

Lemma matchClasses_Forall (P : N -> Prop) (pat : list (N -> bool)) (s : jstr) :
  Forall (fun p => forall c, p c = true -> P c) pat ->
  matchClasses pat s = true -> Forall P s.
Proof.
  intros Hpat. revert s. induction Hpat as [| p pat Hp _ IH]; intros [| c s] H;
    cbn in H; try discriminate; constructor.
  - apply andb_true_iff in H. destruct H as [H _]. apply Hp. exact H.
  - apply andb_true_iff in H. destruct H as [_ H]. apply IH. exact H.
Qed.

Lemma in_range_bounds (lo hi c : N) :
  in_range lo hi c = true -> (lo <= c <= hi)%N.
Proof.
  unfold in_range. intros H. apply andb_true_iff in H. destruct H as [H1 H2].
  apply N.leb_le in H1, H2. lia.
Qed.

Lemma isHex_plain (c : N) : isHex c = true -> plain c.
Proof.
  unfold isHex, isDigit, plain. intros H.
  apply orb_true_iff in H. destruct H as [H | H];
    [apply orb_true_iff in H; destruct H as [H | H] |];
    apply in_range_bounds in H; lia.
Qed.

Lemma uuidPattern_plain :
  Forall (fun p : N -> bool => forall c, p c = true -> plain c) uuidPattern.
Proof.
  assert (Hdash : forall c, isDash c = true -> plain c).
  { unfold isDash, plain. intros c H. apply N.eqb_eq in H. subst. cbn. lia. }
  assert (Hver : forall c, isVersion c = true -> plain c).
  { unfold isVersion, plain. intros c H. apply in_range_bounds in H. lia. }
  assert (Hvar : forall c, isVariant c = true -> plain c).
  { unfold isVariant, plain. intros c H.
    repeat (apply orb_true_iff in H; destruct H as [H | H]);
      apply N.eqb_eq in H; subst; cbn; lia. }
  unfold uuidPattern. cbn [repeat app].
  repeat (constructor; [first [exact isHex_plain | exact Hdash | exact Hver | exact Hvar] |]).
  constructor.
Qed.

(** A string that matches the UUID pattern: 36 printable ASCII
    characters. *)
Lemma uuidRegex_shape (u : jstr) :
  uuidRegex u = true -> List.length u = 36%nat /\ Forall plain u.
Proof.
  intros H. split.
  - apply matchClasses_length in H. exact H.
  - eapply matchClasses_Forall; [exact uuidPattern_plain | exact H].
Qed.

Lemma isUuid_of_regex (u : jstr) : uuidRegex u = true -> isUuid u = true.
Proof.
  intros H. destruct (uuidRegex_shape u H) as [Hl Hp].
  unfold isUuid. rewrite (plain_trim u Hp).
  destruct u; [discriminate Hl | exact H].
Qed.

Lemma isUuid_length (s : jstr) :
  Forall plain s -> List.length s <> 36%nat -> isUuid s = false.
Proof.
  intros Hp Hl. unfold isUuid. rewrite (plain_trim s Hp).
  destruct (isEmpty s); [reflexivity |].
  destruct (uuidRegex s) eqn:E; [| reflexivity].
  apply matchClasses_length in E. contradiction.
Qed.

Lemma hasUuidPrefix_b64 (s : jstr) :
  Forall (fun c => isB64 c = true) s -> VLESS.hasUuidPrefix s = false.
Proof.
  intros H. unfold VLESS.hasUuidPrefix.
  destruct s as [| c1 [| c2 [| c3 [| c4 [| c5 s]]]]]; try reflexivity.
  assert (H5 : isB64 c5 = true).
  { rewrite Forall_forall in H. apply H. cbn. tauto. }
  apply isB64_plain in H5. destruct H5 as (_ & _ & _ & _ & H5 & _).
  replace (c5 =? ch ":")%N with false by (symmetry; apply N.eqb_neq; exact H5).
  rewrite !andb_false_r. reflexivity.
Qed.

(** What the three [normalizeUuid] functions need about the Base64 text
    of a UUID. *)
Lemma uuid_base64 (u : jstr) :
  uuidRegex u = true ->
  let enc := base64Encode u in
  trim enc = enc /\ isEmpty enc = false /\ isUuid enc = false
  /\ VLESS.hasUuidPrefix enc = false
  /\ base64DecodeUtf8 enc = Some u
  /\ trim u = u /\ truthy u = true /\ isUuid u = true.
Proof.
  intros H. cbv zeta. destruct (uuidRegex_shape u H) as [Hl Hp].
  assert (H256 : Forall (fun b => (b < 256)%N) u).
  { eapply Forall_impl; [| exact Hp]. unfold plain. intros; lia. }
  assert (H128 : Forall (fun b => (b < 128)%N) u).
  { eapply Forall_impl; [| exact Hp]. unfold plain. intros; lia. }
  destruct (base64_roundtrip 12 u Hl H256) as (E1 & E2 & E3).
  assert (Ep : Forall plain (base64Encode u)).
  { eapply Forall_impl; [| exact E1]. intros c Hc. apply isB64_plain. exact Hc. }
  repeat split.
  - apply plain_trim. exact Ep.
  - destruct (base64Encode u); [discriminate E2 | reflexivity].
  - apply isUuid_length; [exact Ep | rewrite E2; discriminate].
  - apply hasUuidPrefix_b64. exact E1.
  - apply (base64DecodeUtf8_encode 12); [discriminate | exact Hl | exact H128].
  - apply plain_trim. exact Hp.
  - destruct u; [discriminate Hl | reflexivity].
  - apply isUuid_of_regex. exact H.
Qed.

Section WithBuiltins.
Context {B : Builtins}.

Lemma VLESS_normalizeUuid_base64 (u : jstr) (ws : list jstr) :
  uuidRegex u = true ->
  VLESS.normalizeUuid (base64Encode u) ws
  = (inr u, ws ++ [js "检测到非标准 Base64 UUID，已成功解码为标准 UUID"]).
Proof.
  intros H. destruct (uuid_base64 u H) as (T & Ne & NU & NP & D & Tu & Nu & U).
  unfold VLESS.normalizeUuid, VLESS.normalizeUuidPlain. cbv zeta.
  rewrite T, Ne, NP, NU, D. cbn [asStr]. rewrite Tu, Nu, U. reflexivity.
Qed.

Lemma TUIC_normalizeUuid_base64 (u : jstr) (ws : list jstr) :
  uuidRegex u = true ->
  TUIC.normalizeUuid (base64Encode u) ws
  = (inr u, ws ++ [js "检测到非标准 Base64 UUID：已成功解码为标准 UUID"]).
Proof.
  intros H. destruct (uuid_base64 u H) as (T & Ne & NU & NP & D & Tu & Nu & U).
  unfold TUIC.normalizeUuid. cbv zeta.
  rewrite T, Ne, NU, D. cbn [asStr]. rewrite Tu, Nu, U. reflexivity.
Qed.

Lemma VMess_normalizeUuid_base64 (u : jstr) (ws : list jstr) :
  uuidRegex u = true ->
  VMess.normalizeUuid (VStr (base64Encode u)) ws
  = (inr u, ws ++ [js "检测到非标准 Base64 UUID（id），已成功解码为标准 UUID"]).
Proof.
  intros H. destruct (uuid_base64 u H) as (T & Ne & NU & NP & D & Tu & Nu & U).
  unfold VMess.normalizeUuid. cbv zeta.
  change (asString (VStr (base64Encode u))) with (base64Encode u).
  rewrite T, Ne, NU, D. cbn [asStr]. rewrite Tu, Nu, U. reflexivity.
Qed.

End WithBuiltins.
End UuidFacts.

Module InvalidUuidFacts.
Import JS Codec Val Utils Eff Common Spec StrFacts.

Section WithBuiltins.
Context {B : Builtins}.





End WithBuiltins.
End InvalidUuidFacts.

Module PluginFacts.
Import JS Codec Val Utils Eff Common Spec StrFacts Returns ParserFacts.
Local Open Scope eff_scope.

(** *** Percent-decoding a text without percent signs *)

Lemma uri_tokens_plain (s : jstr) :
  ~ In (ch "%") s -> uri_tokens s = Some (map TChar s).
Proof.
  induction s as [| c s IH]; intros H; [reflexivity |].
  cbn [uri_tokens map].
  destruct (c =? ch "%")%N eqn:E.
  - apply N.eqb_eq in E. exfalso. apply H. left. exact E.
  - rewrite IH; [reflexivity |]. intros Hi. apply H. right. exact Hi.
Qed.

Lemma uri_utf8_chars (s : jstr) : uri_utf8 utf8_idle (map TChar s) = Some s.
Proof.
  induction s as [| c s IH]; [reflexivity |].
  cbn [map uri_utf8 u_need utf8_idle]. fold utf8_idle. rewrite IH. reflexivity.
Qed.

Lemma safeDecode_plain (s : jstr) :
  ~ In (ch "%") s -> safeDecodeURIComponent s = s.
Proof.
  intros H. unfold safeDecodeURIComponent, decodeURIComponent. cbv zeta.
  rewrite uri_tokens_plain by exact H. rewrite uri_utf8_chars. reflexivity.
Qed.

(** *** Trimming *)

Lemma trim_noOuterWhite (s : jstr) : noOuterWhite s -> trim s = s.
Proof.
  intros [H1 H2]. unfold trim, trimEnd.
  assert (E : forall t, firstOk t -> trimStart t = t).
  { intros [| c t] Ht; [reflexivity |]. cbn in *. rewrite Ht. reflexivity. }
  rewrite (E s H1), (E (rev s) H2). apply rev_involutive.
Qed.

Lemma firstOk_app (a b : jstr) : a <> [] -> firstOk a -> firstOk (a ++ b).
Proof. destruct a; [contradiction | intros _ H; exact H]. Qed.

Lemma lastOk_app (a b : jstr) :
  b <> [] -> firstOk (rev b) -> firstOk (rev (a ++ b)).
Proof.
  intros Hb H. rewrite rev_app_distr. apply firstOk_app; [| exact H].
  intros E. apply Hb. rewrite <- (rev_involutive b), E. reflexivity.
Qed.

(** *** Splitting at one code unit *)

Lemma split_go_last (c : N) (t cur : jstr) :
  ~ In c t -> split_go [c] t 0 cur = [cur ++ t].
Proof.
  revert cur. induction t as [| x t IH]; intros cur H.
  - cbn. rewrite app_nil_r. reflexivity.
  - cbn [split_go startsWith].
    destruct (c =? x)%N eqn:E.
    + apply N.eqb_eq in E. exfalso. apply H. left. symmetry. exact E.
    + cbn [andb]. rewrite IH by (intros Hi; apply H; right; exact Hi).
      rewrite <- app_assoc. reflexivity.
Qed.

Lemma split_go_next (c : N) (t r cur : jstr) :
  ~ In c t ->
  split_go [c] (t ++ c :: r) 0 cur = (cur ++ t) :: split_go [c] r 0 [].
Proof.
  revert cur. induction t as [| x t IH]; intros cur H.
  - cbn. rewrite N.eqb_refl. cbn. rewrite app_nil_r. reflexivity.
  - cbn [app split_go startsWith].
    destruct (c =? x)%N eqn:E.
    + apply N.eqb_eq in E. exfalso. apply H. left. symmetry. exact E.
    + cbn [andb]. rewrite IH by (intros Hi; apply H; right; exact Hi).
      rewrite <- app_assoc. reflexivity.
Qed.

Lemma split_join (c : N) (x : jstr) (l : list jstr) :
  Forall (fun p => ~ In c p) (x :: l) -> split [c] (join [c] (x :: l)) = x :: l.
Proof.
  unfold split. revert x. induction l as [| y l IH]; intros x H.
  - cbn [join]. inversion H; subst. apply split_go_last. assumption.
  - inversion H as [| ? ? Hx Hl]; subst.
    change (join [c] (x :: y :: l)) with (x ++ c :: join [c] (y :: l)).
    rewrite split_go_next by exact Hx. cbn [app]. f_equal. apply IH. exact Hl.
Qed.

(** *** The text [name;key=value;...] *)

Lemma optionText_tidy (b : bool) (kv : jstr * jstr) :
  isKey b (fst kv) /\ isValue b (snd kv) -> segmentTidy (optionText kv).
Proof.
  destruct kv as [k v]. cbn [fst snd].
  intros [[(Hk0 & [Hk1 Hk2] & Hk3 & _) Hk5] ([Hv1 Hv2] & Hv3 & _)].
  unfold optionText. cbn [fst snd]. change (js "=") with [ch "="].
  repeat split.
  - destruct k; [contradiction | discriminate].
  - apply firstOk_app; assumption.
  - destruct v as [| c v].
    + rewrite app_nil_r. rewrite rev_app_distr. cbn. reflexivity.
    + rewrite app_assoc. apply lastOk_app; [discriminate | exact Hv2].
  - intros Hi. apply in_app_or in Hi. destruct Hi as [Hi | Hi]; [contradiction |].
    apply in_app_or in Hi. destruct Hi as [Hi | Hi]; [| contradiction].
    destruct Hi as [Hi | []]. discriminate Hi.
Qed.

Lemma segments_tidy (b : bool) (name : jstr) (opts : list (jstr * jstr)) :
  isName b name ->
  Forall (fun kv => isKey b (fst kv) /\ isValue b (snd kv)) opts ->
  Forall segmentTidy (name :: map optionText opts).
Proof.
  intros Hname Hopts. constructor.
  - destruct Hname as (H0 & H1 & H2 & _). repeat split; try assumption;
      apply H1.
  - induction Hopts as [| kv l Hkv _ IH]; [constructor |].
    cbn [map]. constructor; [apply (optionText_tidy b); exact Hkv | exact IH].
Qed.

Lemma join_tidy (c : N) (x : jstr) (l : list jstr) :
  isWhite c = false ->
  Forall segmentTidy (x :: l) ->
  join [c] (x :: l) <> [] /\ noOuterWhite (join [c] (x :: l)).
Proof.
  intros Hw. revert x. induction l as [| y l IH]; intros x H.
  - inversion H as [| ? ? (H0 & H1 & H2) _]; subst. cbn [join]. auto.
  - inversion H as [| ? ? (H0 & [H1 H1'] & H2) Hl]; subst.
    destruct (IH y Hl) as (I0 & [I1 I1']).
    change (join [c] (x :: y :: l)) with (x ++ [c] ++ join [c] (y :: l)).
    repeat split.
    + destruct x; [contradiction | discriminate].
    + apply firstOk_app; assumption.
    + rewrite app_assoc. apply lastOk_app; assumption.
Qed.

Lemma pluginText_tidy (b : bool) (name : jstr) (opts : list (jstr * jstr)) :
  isName b name ->
  Forall (fun kv => isKey b (fst kv) /\ isValue b (snd kv)) opts ->
  let text := pluginText name opts in
  isEmpty text = false /\ trim text = text
  /\ trimmedParts (split (js ";") text) = name :: map optionText opts.
Proof.
  intros Hname Hopts. cbv zeta.
  pose proof (segments_tidy b name opts Hname Hopts) as Hseg.
  destruct (join_tidy (ch ";") name (map optionText opts)) as (H0 & H1);
    [reflexivity | exact Hseg |].
  unfold pluginText. change (js ";") with [ch ";"].
  repeat split.
  - destruct (join _ _); [contradiction | reflexivity].
  - apply trim_noOuterWhite. exact H1.
  - rewrite split_join.
    2:{ eapply Forall_impl; [| exact Hseg]. intros p (_ & _ & Hp). exact Hp. }
    unfold trimmedParts.
    assert (E : forall l, Forall segmentTidy l -> filter truthy (map trim l) = l).
    { induction 1 as [| p l (P0 & P1 & _) _ IH]; [reflexivity |].
      cbn [map filter]. rewrite (trim_noOuterWhite p P1), IH.
      destruct p; [contradiction | reflexivity]. }
    apply E. exact Hseg.
Qed.

(** A text without a percent sign is decoded to itself. *)
Lemma pluginText_plain (name : jstr) (opts : list (jstr * jstr)) :
  isName false name ->
  Forall (fun kv => isKey false (fst kv) /\ isValue false (snd kv)) opts ->
  decodedOnce name opts.
Proof.
  intros Hname Hopts. apply safeDecode_plain. unfold pluginText.
  destruct Hname as (_ & _ & _ & Hn). specialize (Hn eq_refl).
  change (js ";") with [ch ";"].
  revert name Hn. induction Hopts as [| kv l Hkv _ IH]; intros name Hn.
  - exact Hn.
  - cbn [map].
    change (join [ch ";"] (name :: optionText kv :: map optionText l))
      with (name ++ [ch ";"] ++ join [ch ";"] (optionText kv :: map optionText l)).
    intros Hi. apply in_app_or in Hi. destruct Hi as [Hi | Hi]; [exact (Hn Hi) |].
    apply in_app_or in Hi. destruct Hi as [Hi | Hi].
    + destruct Hi as [Hi | []]. discriminate Hi.
    + revert Hi. apply IH.
      destruct kv as [k v]. destruct Hkv as [[(_ & _ & _ & Hk) _] (_ & _ & Hv)].
      cbn [fst snd] in *. unfold optionText. cbn [fst snd].
      intros Hi. apply in_app_or in Hi. destruct Hi as [Hi | Hi];
        [exact (Hk eq_refl Hi) |].
      apply in_app_or in Hi. destruct Hi as [Hi | Hi]; [| exact (Hv eq_refl Hi)].
      vm_compute in Hi. intuition discriminate.
Qed.

(** The loop over the sub-options. *)
Lemma pluginOpt_pair (b : bool) (o : obj) (kv : jstr * jstr) :
  isKey b (fst kv) /\ isValue b (snd kv) ->
  SS.pluginOpt o (optionText kv) = setProp (fst kv) (VStr (snd kv)) o.
Proof.
  intros H. pose proof (optionText_tidy b kv H) as (S0 & S1 & _).
  destruct kv as [k v]. cbn [fst snd] in *.
  destruct H as [[(Hk0 & Hk1 & _) Hk5] (Hv1 & _)].
  unfold SS.pluginOpt. cbv zeta. rewrite (trim_noOuterWhite _ S1).
  replace (isEmpty (optionText (k, v))) with false
    by (destruct (optionText (k, v)); [contradiction | reflexivity]).
  unfold optionText. cbn [fst snd]. change (js "=") with [ch "="].
  change (k ++ [ch "="] ++ v) with (k ++ ch "=" :: v).
  rewrite indexOf_char_first by exact Hk5.
  pose proof (len_nonneg k) as Hl.
  replace (len k <? 0) with false by (symmetry; apply Z.ltb_ge; lia).
  rewrite slice_prefix, sliceFrom_suffix1.
  rewrite (trim_noOuterWhite k Hk1), (trim_noOuterWhite v Hv1).
  destruct k; [contradiction | reflexivity].
Qed.

Lemma fold_pluginOpt_pairs (b : bool) (opts : list (jstr * jstr)) (o : obj) :
  Forall (fun kv => isKey b (fst kv) /\ isValue b (snd kv)) opts ->
  fold_left SS.pluginOpt (map optionText opts) o
  = fold_left (fun o kv => setProp (fst kv) (VStr (snd kv)) o) opts o.
Proof.
  intros H. revert o. induction H as [| kv l Hkv _ IH]; intros o; [reflexivity |].
  cbn [map fold_left]. rewrite (pluginOpt_pair b) by exact Hkv. apply IH.
Qed.

Lemma setProp_nonempty (k : jstr) (v : jsval) (o : obj) : setProp k v o <> [].
Proof. destruct o as [| [k' v'] o]; cbn; [| destruct (str_eqb k k')]; discriminate. Qed.

Lemma fold_setProp_nonempty (opts : list (jstr * jstr)) (o : obj) :
  o <> [] ->
  fold_left (fun o kv => setProp (fst kv) (VStr (snd kv)) o) opts o <> [].
Proof.
  revert o. induction opts as [| kv l IH]; intros o H; [exact H |].
  cbn [fold_left]. apply IH. apply setProp_nonempty.
Qed.

Section WithBuiltins.
Context {B : Builtins}.

(** [parsePlugin] on such a text: no warning, the name and the options. *)
Lemma parsePlugin_decodedOnce (b : bool) (name : jstr)
    (opts : list (jstr * jstr)) (ws : list jstr) :
  isName b name ->
  Forall (fun kv => isKey b (fst kv) /\ isValue b (snd kv)) opts ->
  decodedOnce name opts ->
  SS.parsePlugin (Some (pluginText name opts)) ws
  = (inr (SS.mkPlugin name (expectedOpts opts) (pluginText name opts)), ws).
Proof.
  intros Hname Hopts T2.
  destruct (pluginText_tidy b name opts Hname Hopts) as (T0 & T1 & T3).
  unfold decodedOnce in T2.
  unfold SS.parsePlugin. cbv zeta. cbn [asStr].
  rewrite T1, T0, T2, T1, T0, T3.
  rewrite (fold_pluginOpt_pairs b) by exact Hopts.
  destruct Hname as (N0 & _).
  replace (isEmpty name) with false by (destruct name; [contradiction | reflexivity]).
  cbn [when]. unfold bind, ret. cbn.
  unfold expectedOpts. destruct opts as [| kv l]; [reflexivity |].
  cbn [fold_left].
  pose proof (fold_setProp_nonempty l (setProp (fst kv) (VStr (snd kv)) [])
                (setProp_nonempty _ _ _)) as Hne.
  destruct (fold_left _ l _); [contradiction | reflexivity].
Qed.

(** The raw extraction of the first parameter [plugin=enc]. *)
Lemma join_cons (sep x : jstr) (l : list jstr) :
  l <> [] -> join sep (x :: l) = x ++ sep ++ join sep l.
Proof. destruct l; [contradiction | reflexivity]. Qed.

Lemma split_join_prefix (c : N) (x : jstr) (before after : list jstr) :
  Forall (fun p => ~ In c p) before -> ~ In c x ->
  exists tail,
    split [c] (join [c] (before ++ x :: after)) = before ++ x :: tail.
Proof.
  intros Hb Hx. unfold split.
  induction Hb as [| b bs Hb0 Hbs IH].
  - destruct after as [| y l].
    + exists []. cbn [app join]. apply split_go_last. exact Hx.
    + eexists. cbn [app]. rewrite join_cons by discriminate.
      cbn [app]. rewrite split_go_next by exact Hx. reflexivity.
  - destruct IH as (tail & IH). exists tail.
    cbn [app]. rewrite join_cons by (destruct bs; discriminate).
    cbn [app]. rewrite split_go_next by exact Hb0. rewrite IH. reflexivity.
Qed.

Lemma join_nonempty (sep x : jstr) (before after : list jstr) :
  x <> [] -> join sep (before ++ x :: after) <> [].
Proof.
  intros Hx. induction before as [| b bs IH].
  - destruct after; cbn [app join]; [exact Hx |].
    destruct x; [contradiction | discriminate].
  - cbn [app]. rewrite join_cons by (destruct bs; discriminate).
    intros E. apply app_eq_nil in E. destruct E as (_ & E).
    apply app_eq_nil in E. destruct E as (_ & E). contradiction.
Qed.

(** The parameters before the first one named [plugin] are passed over. *)
Lemma firstParamIn_skip (before rest : list jstr) :
  Forall otherParam before ->
  firstParamIn (js "plugin") (before ++ rest)
  = firstParamIn (js "plugin") rest.
Proof.
  induction 1 as [| p ps (_ & Hp) _ IH]; [reflexivity |].
  cbn [app firstParamIn]. cbv zeta.
  destruct Hp as [-> | Hk]; [exact IH |].
  destruct (isEmpty p); [exact IH |].
  unfold paramKey in Hk. cbv zeta in Hk.
  destruct (str_eqb _ (js "plugin")) eqn:E; [| exact IH].
  apply str_eqb_eq in E. contradiction.
Qed.

Lemma getRaw_plugin (q enc : jstr) (before after : list jstr) :
  dropQuestionMark q = join (js "&") (before ++ (js "plugin=" ++ enc) :: after) ->
  Forall otherParam before -> ~ In (ch "&") enc ->
  SS.getRawQueryFirstParamNoSemicolon (Some q) "plugin"
  = Some (safeDecodeURIComponent enc).
Proof.
  intros Hq Hb Henc. unfold SS.getRawQueryFirstParamNoSemicolon. cbv zeta.
  cbn [asStr]. rewrite Hq.
  assert (Hfree : ~ In (ch "&") (js "plugin=" ++ enc)).
  { intros Hi. apply in_app_or in Hi. destruct Hi as [Hi | Hi]; [| contradiction].
    vm_compute in Hi. intuition discriminate. }
  assert (Hne : js "plugin=" ++ enc <> []) by discriminate.
  assert (Hj : isEmpty (join (js "&") (before ++ (js "plugin=" ++ enc) :: after))
               = false).
  { pose proof (join_nonempty (js "&") _ before after Hne) as Hn.
    destruct (join _ _); [contradiction | reflexivity]. }
  rewrite Hj.
  destruct (split_join_prefix (ch "&") (js "plugin=" ++ enc) before after)
    as (tail & Hsplit); [| exact Hfree |].
  { eapply Forall_impl; [| exact Hb]. intros p (Hp & _). exact Hp. }
  transitivity (firstParamIn (js "plugin")
                  (before ++ (js "plugin=" ++ enc) :: tail));
    [f_equal; exact Hsplit |].
  rewrite firstParamIn_skip by exact Hb. cbn [firstParamIn].
  change (isEmpty (js "plugin=" ++ enc)) with false. cbv iota.
  change (js "plugin=" ++ enc) with (js "plugin" ++ ch "=" :: enc).
  change (js "=") with [ch "="].
  rewrite indexOf_char_first by (vm_compute; intuition discriminate).
  change (0 <=? len (js "plugin")) with true. cbv iota.
  rewrite slice_prefix, sliceFrom_suffix1.
  change (str_eqb (safeDecodeURIComponent (js "plugin")) (js "plugin")) with true.
  reflexivity.
Qed.

Lemma SS_parseMain_returns a1 : returns (SS.parseMain a1) (fun _ => True).
Proof.
  eapply returns_weaken; [apply SS_parseMain_port | trivial].
Qed.

Hint Resolve SS_parseMain_returns : returns.

(** The record of a link that carries such a plugin parameter. *)
Lemma SS_parseBody_decodedOnce (b : bool) (link enc name : jstr)
    (opts : list (jstr * jstr)) :
  carriesPlugin b link enc name opts -> decodedOnce name opts ->
  returns (SS.parseBody link)
    (fun node => field "plugin" node = VStr name
                 /\ field "pluginOpts" node = expectedOpts opts).
Proof.
  intros ((q & before & after & Hq & Hs & Hb) & Henc & Hdec & Hname & Hopts) Hd.
  unfold SS.parseBody. cbv zeta.
  destruct (isEmpty (trim link)) eqn:E.
  { destruct (trim link); [| discriminate E].
    change (query (splitUrlLoosely [])) with (@None jstr) in Hq.
    discriminate Hq. }
  rewrite Hq. body_step.
  rewrite (getRaw_plugin q enc before after Hs Hb Henc), Hdec.
  eapply returns_bind
    with (Q := fun pp => pp = SS.mkPlugin name (expectedOpts opts)
                                          (pluginText name opts)).
  { intros ws. eexists. eexists. split;
      [apply (parsePlugin_decodedOnce b); assumption | reflexivity]. }
  intros pp ->. repeat body_step. apply returns_node. intros ws.
  destruct Hname as (N0 & _). split; [| reflexivity].
  change (field "plugin" ?n) with (strOrUndef name).
  unfold strOrUndef, truthy. destruct name; [contradiction | reflexivity].
Qed.

(** The same when no percent sign is left. *)
Lemma SS_parseBody_plugin (link enc name : jstr) (opts : list (jstr * jstr)) :
  carriesPlugin false link enc name opts ->
  returns (SS.parseBody link)
    (fun node => field "plugin" node = VStr name
                 /\ field "pluginOpts" node = expectedOpts opts).
Proof.
  intros H. apply (SS_parseBody_decodedOnce false link enc); [exact H |].
  destruct H as (_ & _ & _ & Hname & Hopts).
  apply pluginText_plain; assumption.
Qed.

End WithBuiltins.
End PluginFacts.

(* ================================================================== *)
(** ** The UUID and its warning in the record *)
(* ================================================================== *)

Module KeepsFacts.
Import JS Val Eff Spec.
Local Open Scope eff_scope.

Lemma keeps_ret {A} (w : jstr) (a : A) (P : A -> Prop) :
  P a -> keeps w (ret a) P.
Proof. intros H ws Hw. exists a, ws. auto. Qed.

Lemma keeps_bind {A C} (w : jstr) (m : M A) (k : A -> M C)
    (Q : A -> Prop) (P : C -> Prop) :
  keeps w m Q -> (forall a, Q a -> keeps w (k a) P) -> keeps w (bind m k) P.
Proof.
  intros Hm Hk ws Hw. destruct (Hm ws Hw) as (a & ws1 & E & Hw1 & Ha).
  destruct (Hk a Ha ws1 Hw1) as (b & ws2 & E2 & Hw2 & Hb).
  exists b, ws2. unfold bind. rewrite E. auto.
Qed.

Lemma keeps_warn (w w' : jstr) : keeps w (warn w') (fun _ => True).
Proof.
  intros ws Hw. exists tt, (ws ++ [w']).
  split; [reflexivity |]. split; [apply in_or_app; left; exact Hw | exact I].
Qed.

Lemma keeps_when (w : jstr) (c : bool) (m : M unit) :
  keeps w m (fun _ => True) -> keeps w (when c m) (fun _ => True).
Proof. intros H. destruct c; [exact H | apply keeps_ret; exact I]. Qed.

Lemma keeps_any {A C} (w : jstr) (m : M A) (k : A -> M C) (P : C -> Prop) :
  keeps w m (fun _ => True) -> (forall a, keeps w (k a) P) ->
  keeps w (bind m k) P.
Proof.
  intros Hm Hk. apply keeps_bind with (Q := fun _ => True); [exact Hm |].
  intros a _. apply Hk.
Qed.

(** The last two steps of a parser, when [w] has been pushed. *)
Lemma keeps_node (w : jstr) (f : list jstr -> jsval) (P : jsval -> Prop) :
  (forall ws, In w ws -> P (f ws)) -> keeps w (ws <- warnings ;; ret (f ws)) P.
Proof. intros H ws Hw. exists (f ws), ws. auto. Qed.

(** The steps before the one that pushes [w]. *)
Lemma warnsAndReturns_after {A C} (w : jstr) (m : M A) (k : A -> M C)
    (P : C -> Prop) :
  returns m (fun _ => True) -> (forall a, warnsAndReturns w (k a) P) ->
  warnsAndReturns w (bind m k) P.
Proof.
  intros Hm Hk ws. destruct (Hm ws) as (a & ws1 & E & _).
  destruct (Hk a ws1) as (b & ws2 & E2 & H2).
  exists b, ws2. unfold bind. rewrite E. auto.
Qed.

(** The step that pushes [w]. *)
Lemma warnsAndReturns_push {A C} (w : jstr) (m : M A) (a : A) (k : A -> M C)
    (P : C -> Prop) :
  (forall ws, m ws = (inr a, ws ++ [w])) -> keeps w (k a) P -> warnsAndReturns w (bind m k) P.
Proof.
  intros Hm Hk ws.
  destruct (Hk (ws ++ [w])) as (b & ws2 & E2 & H2);
    [apply in_or_app; right; left; reflexivity |].
  exists b, ws2. unfold bind. rewrite (Hm ws). auto.
Qed.

Lemma warnsAndReturns_parse {A} (w : jstr) (m : M A) (h : exn -> M A)
    (P : A -> Prop) :
  warnsAndReturns w m P -> exists a, run (tryCatch m h) = inr a /\ P a.
Proof.
  intros H. destruct (H []) as (a & ws' & E & _ & Ha).
  exists a. unfold run, tryCatch. rewrite E. auto.
Qed.

End KeepsFacts.

Ltac keeps_true :=
  cbv zeta;
  lazymatch goal with
  | |- Spec.keeps _ (Eff.ret _) _ => apply KeepsFacts.keeps_ret; exact I
  | |- Spec.keeps _ (Eff.warn _) _ => apply KeepsFacts.keeps_warn
  | |- Spec.keeps _ (Eff.when _ _) _ => apply KeepsFacts.keeps_when; keeps_true
  | |- Spec.keeps _ (Eff.bind _ _) _ =>
      eapply KeepsFacts.keeps_any; [keeps_true | intros ?; keeps_true]
  | |- Spec.keeps _ (match ?x with _ => _ end) _ => destruct x; keeps_true
  end.

Ltac keeps_step :=
  lazymatch goal with
  | |- Spec.keeps _ (Eff.bind Eff.warnings _) _ => fail
  | |- Spec.keeps _ (Eff.bind _ _) _ =>
      eapply KeepsFacts.keeps_any; [solve [keeps_true] | intros ?]
  end.

Ltac before_step :=
  lazymatch goal with
  | |- Spec.warnsAndReturns _ (Eff.bind (Eff.when _ _) _) _ =>
      eapply KeepsFacts.warnsAndReturns_after; [solve [returns_true] | intros ?]
  end.

Module RecordFacts.
Import JS Codec Val Utils Eff Common Spec.
Import StrFacts AuthorityFacts Base64Facts UuidFacts PluginFacts KeepsFacts.
Local Open Scope eff_scope.

(** The Base64 text of a UUID as a userinfo. *)
Lemma uuid_base64_chars (u : jstr) :
  uuidRegex u = true ->
  let enc := base64Encode u in
  enc <> [] /\ Forall plain enc /\ ~ In (ch ":") enc /\ ~ In (ch "%") enc.
Proof.
  intros H. cbv zeta. destruct (uuidRegex_shape u H) as [Hl Hp].
  assert (H256 : Forall (fun b => (b < 256)%N) u).
  { eapply Forall_impl; [| exact Hp]. unfold plain. intros; lia. }
  destruct (base64_roundtrip 12 u Hl H256) as (E1 & E2 & _).
  rewrite Forall_forall in E1.
  split; [destruct (base64Encode u); [discriminate E2 | discriminate] |].
  split; [apply Forall_forall; intros c Hc; apply isB64_plain, E1, Hc |].
  split; intros Hi; apply E1, isB64_plain in Hi; tauto.
Qed.

(** What the TUIC parser reads in the userinfo [uuid:password] when the
    UUID is in Base64. *)
Lemma TUIC_userinfo_base64 (u password : jstr) :
  uuidRegex u = true -> ~ In (ch "%") password -> firstOk (rev password) ->
  let enc := base64Encode u in
  let ui := enc ++ js ":" ++ password in
  trim (safeDecodeURIComponent ui) = ui
  /\ truthy ui = true
  /\ indexOf (js ":") ui = len enc
  /\ (0 <=? len enc) = true
  /\ trim (slice ui 0 (len enc)) = enc
  /\ (forall x, orElse enc x = enc).
Proof.
  intros Hu Hpw Hend. cbv zeta.
  destruct (uuid_base64_chars u Hu) as (Hne & Hpl & Hcolon & Hpc).
  assert (Hdec : safeDecodeURIComponent (base64Encode u ++ js ":" ++ password)
                 = base64Encode u ++ js ":" ++ password).
  { apply safeDecode_plain. intros Hi.
    apply in_app_or in Hi. destruct Hi as [Hi | Hi]; [exact (Hpc Hi) |].
    destruct Hi as [Hi | Hi]; [discriminate Hi | exact (Hpw Hi)]. }
  assert (Htrim : trim (base64Encode u ++ js ":" ++ password)
                  = base64Encode u ++ js ":" ++ password).
  { apply trim_noOuterWhite. split.
    - apply firstOk_app; [exact Hne |].
      destruct (base64Encode u) as [| c r]; [contradiction |].
      inversion Hpl; subst. cbn. apply ascii_not_white. assumption.
    - apply lastOk_app; [discriminate |].
      change (js ":" ++ password) with (ch ":" :: password). cbn [rev].
      destruct (rev password) as [| c r]; [reflexivity | exact Hend]. }
  rewrite Hdec, Htrim.
  split; [reflexivity |].
  split; [destruct (base64Encode u); [contradiction | reflexivity] |].
  split; [apply indexOf_char_first; exact Hcolon |].
  split; [apply Z.leb_le, len_nonneg |].
  split; [rewrite slice_prefix; apply plain_trim; exact Hpl |].
  intros x. unfold orElse. destruct (base64Encode u); [contradiction | reflexivity].
Qed.

Section WithBuiltins.
Context {B : Builtins}.

Lemma userinfoOfTUIC_nonempty (url x : jstr) :
  userinfoOfTUIC url = Some x -> isEmpty (trim url) = false.
Proof.
  unfold userinfoOfTUIC. cbv zeta. intros H.
  destruct (trim url); [vm_compute in H; discriminate H | reflexivity].
Qed.

Lemma VLESS_parseBody_base64 (url u : jstr) :
  uuidRegex u = true ->
  userinfoOfVLESS url = Some (base64Encode u) ->
  warnsAndReturns (js "检测到非标准 Base64 UUID，已成功解码为标准 UUID")
    (VLESS.parseBody url)
    (uuidWithWarning u (js "检测到非标准 Base64 UUID，已成功解码为标准 UUID")).
Proof.
  intros Hu Hui. destruct (uuid_base64_chars u Hu) as (_ & _ & _ & Hpc).
  unfold userinfoOfVLESS in Hui.
  apply (f_equal asStr) in Hui. cbn [asStr] in Hui.
  unfold VLESS.parseBody. cbv zeta. before_step.
  rewrite Hui. rewrite (safeDecode_plain _ Hpc).
  eapply warnsAndReturns_push.
  { intros ws. apply VLESS_normalizeUuid_base64. exact Hu. }
  repeat keeps_step. apply keeps_node. intros ws Hw.
  split; [reflexivity | exists ws; split; [reflexivity | exact Hw]].
Qed.

Lemma TUIC_parseBody_base64 (url u password : jstr) :
  uuidRegex u = true ->
  userinfoOfTUIC url = Some (base64Encode u ++ js ":" ++ password) ->
  ~ In (ch "%") password -> firstOk (rev password) ->
  warnsAndReturns (js "检测到非标准 Base64 UUID：已成功解码为标准 UUID")
    (TUIC.parseBody url)
    (uuidWithWarning u (js "检测到非标准 Base64 UUID：已成功解码为标准 UUID")).
Proof.
  intros Hu Hui Hpw Hend.
  destruct (TUIC_userinfo_base64 u password Hu Hpw Hend)
    as (Hdec & Ht & Hidx & Hpos & Hslice & Hor).
  pose proof (userinfoOfTUIC_nonempty url _ Hui) as E.
  unfold userinfoOfTUIC in Hui. cbv zeta in Hui.
  apply (f_equal asStr) in Hui. cbn [asStr] in Hui.
  unfold TUIC.parseBody. cbv zeta. rewrite E.
  before_step. rewrite Hui.
  rewrite Hdec, Ht, Hidx, Hpos, Hslice, Hor.
  before_step.
  eapply warnsAndReturns_push.
  { intros ws. apply TUIC_normalizeUuid_base64. exact Hu. }
  repeat keeps_step. apply keeps_node. intros ws Hw.
  split; [reflexivity | exists ws; split; [reflexivity | exact Hw]].
Qed.

End WithBuiltins.
End RecordFacts.

(* ================================================================== *)
(** ** Text utilities ([core/utils.js]) *)
(* ================================================================== *)

Module TextFacts.
Import JS Codec Val Utils Spec Props StrFacts AuthorityFacts Base64Facts PluginFacts.

Lemma indexOf_char_in (c : N) (s : jstr) : 0 <= indexOf [c] s -> In c s.
Proof.
  intros H. destruct (In_dec N.eq_dec c s) as [Hi | Hn]; [exact Hi |].
  rewrite (indexOf_char_absent c s Hn) in H. lia.
Qed.

Lemma first_occurrence (c : N) (s : jstr) :
  In c s -> exists l r, s = l ++ c :: r /\ ~ In c l.
Proof.
  induction s as [| x s IH]; intros H; [contradiction |].
  destruct (N.eq_dec x c) as [-> | Hx].
  - exists [], s. split; [reflexivity | intros []].
  - destruct H as [H | H]; [contradiction |].
    destruct (IH H) as (l & r & -> & Hl).
    exists (x :: l), r. split; [reflexivity |].
    intros [E | E]; [contradiction | exact (Hl E)].
Qed.

(** A string is cut at the first occurrence of a code unit. *)
Lemma indexOf_cut (c : N) (s : jstr) :
  0 <= indexOf [c] s ->
  s = slice s 0 (indexOf [c] s) ++ c :: sliceFrom s (indexOf [c] s + 1)
  /\ ~ In c (slice s 0 (indexOf [c] s)).
Proof.
  intros H. apply indexOf_char_in in H.
  destruct (first_occurrence c s H) as (l & r & -> & Hl).
  rewrite (indexOf_char_first c l r Hl), slice_prefix, sliceFrom_suffix1.
  split; [reflexivity | exact Hl].
Qed.

Lemma takeWhile_skipn (p : N -> bool) (s : jstr) :
  s = takeWhile p s ++ skipn (List.length (takeWhile p s)) s.
Proof.
  induction s as [| c s IH]; [reflexivity |].
  cbn [takeWhile]. destruct (p c); [| reflexivity].
  cbn [List.length skipn app]. f_equal. exact IH.
Qed.

Lemma takeWhile_all (p : N -> bool) (s : jstr) :
  Forall (fun c => p c = true) (takeWhile p s).
Proof.
  induction s as [| c s IH]; [constructor |].
  cbn [takeWhile]. destruct (p c) eqn:E; constructor; assumption.
Qed.

(** The scheme pattern: the text is the scheme, a colon and the rest. *)
Lemma matchScheme_cut (s m : jstr) :
  matchScheme s = Some m ->
  s = m ++ ch ":" :: sliceFrom s (len m + 1)
  /\ Forall (fun c => isAlpha c || isSchemeChar c = true) m /\ m <> [].
Proof.
  unfold matchScheme. destruct s as [| c rest]; [discriminate |].
  destruct (isAlpha c) eqn:Ea; [| discriminate].
  pose proof (takeWhile_skipn isSchemeChar rest) as Hcut.
  pose proof (takeWhile_all isSchemeChar rest) as Hall.
  destruct (skipn _ rest) as [| d tl] eqn:Es; [discriminate |].
  destruct (d =? ch ":")%N eqn:Ed; [| discriminate].
  intros E. injection E as <-. apply N.eqb_eq in Ed. subst d.
  set (run := takeWhile isSchemeChar rest) in *.
  assert (Hs : c :: rest = (c :: run) ++ ch ":" :: tl).
  { cbn [app]. f_equal. exact Hcut. }
  split; [| split; [| discriminate]].
  - rewrite Hs at 2. rewrite sliceFrom_suffix1. exact Hs.
  - constructor; [rewrite Ea; reflexivity |].
    eapply Forall_impl; [| exact Hall]. cbn. intros a ->. apply orb_true_r.
Qed.

Lemma startsWith_cut (p s : jstr) :
  startsWith p s = true -> s = p ++ skipn (List.length p) s.
Proof.
  revert s. induction p as [| x p IH]; intros s H; [reflexivity |].
  destruct s as [| y s]; [discriminate H |].
  cbn [startsWith] in H. apply andb_true_iff in H. destruct H as [E H].
  apply N.eqb_eq in E. subst y. cbn [List.length skipn app]. f_equal.
  apply IH. exact H.
Qed.

Lemma sliceFrom_skipn (s : jstr) (n : nat) :
  (n <= List.length s)%nat -> sliceFrom s (Z.of_nat n) = skipn n s.
Proof.
  intros H. unfold sliceFrom, clampIndex, len.
  destruct (Z.of_nat n <? 0) eqn:E; [lia |].
  rewrite Z.min_l by lia. rewrite Nat2Z.id. reflexivity.
Qed.

(** A string and the first occurrence of a code unit in it: what is
    before, and what is after when there is one. *)
Lemma cut_char (c : N) (s : jstr) :
  let i := indexOf [c] s in
  let before := if 0 <=? i then slice s 0 i else s in
  let after := if 0 <=? i then Some (sliceFrom s (i + 1)) else None in
  s = before ++ (match after with Some a => c :: a | None => [] end)
  /\ ~ In c before.
Proof.
  cbv zeta. destruct (0 <=? indexOf [c] s) eqn:E.
  - apply Z.leb_le in E. apply indexOf_cut. exact E.
  - rewrite app_nil_r. split; [reflexivity |].
    intros Hi. apply indexOf_char_present in Hi. apply Z.leb_gt in E. lia.
Qed.

Lemma schemeChar_not (c d : N) :
  isAlpha c || isSchemeChar c = true ->
  isAlnum d = false -> d <> ch "+" -> d <> ch "." -> d <> ch "-" -> c <> d.
Proof.
  intros H Hd H1 H2 H3 ->. unfold isSchemeChar in H.
  assert (Ha : isAlpha d = false).
  { unfold isAlnum in Hd. apply orb_false_iff in Hd. tauto. }
  rewrite Ha, Hd in H. cbn [orb] in H.
  apply orb_true_iff in H. destruct H as [H | H];
    [apply orb_true_iff in H; destruct H as [H | H] |];
    apply N.eqb_eq in H; contradiction.
Qed.

End TextFacts.

Module UrlFacts.
Import JS Codec Val Utils Spec Props StrFacts AuthorityFacts Base64Facts PluginFacts TextFacts.

(** [splitUrlLoosely] loses nothing: the parts, written back with their
    separators, are the trimmed input; and each part is free of the
    separator that ends it. *)
Lemma splitUrlLoosely_parts (url : jstr) :
  let p := splitUrlLoosely url in
  joinUrl p = trim url
  /\ lacks (ch ":") (scheme p)
  /\ (lacks (ch "/") (authority p) /\ lacks (ch "?") (authority p)
      /\ lacks (ch "#") (authority p))
  /\ (~ In (ch "?") (path p) /\ ~ In (ch "#") (path p))
  /\ lacks (ch "#") (query p)
  /\ (authority p <> None ->
      scheme p <> None /\ (path p = [] \/ startsWith (js "/") (path p) = true)).
Proof.
  cbv zeta. unfold splitUrlLoosely. cbv zeta.
  set (s := trim url).
  change (js "#") with [ch "#"]. change (js "?") with [ch "?"].
  change (js "/") with [ch "/"].
  destruct (cut_char (ch "#") s) as (Hs & Hbh). cbv zeta in Hs, Hbh.
  set (bh := if 0 <=? indexOf [ch "#"] s then slice s 0 (indexOf [ch "#"] s) else s) in *.
  set (fragment := if 0 <=? indexOf [ch "#"] s
                   then Some (sliceFrom s (indexOf [ch "#"] s + 1)) else None) in *.
  destruct (cut_char (ch "?") bh) as (Hq & Hbq). cbv zeta in Hq, Hbq.
  set (bq := if 0 <=? indexOf [ch "?"] bh then slice bh 0 (indexOf [ch "?"] bh) else bh) in *.
  set (query := if 0 <=? indexOf [ch "?"] bh
                then Some (sliceFrom bh (indexOf [ch "?"] bh + 1)) else None) in *.
  clearbody bh fragment bq query.
  assert (Hbq' : ~ In (ch "#") bq).
  { intros Hi. apply Hbh. rewrite Hq. apply in_or_app. left. exact Hi. }
  assert (Hquery : lacks (ch "#") query).
  { destruct query as [q |]; [| exact I]. cbn. intros Hi. apply Hbh.
    rewrite Hq. apply in_or_app. right. right. exact Hi. }
  assert (Hjoin : forall scheme authority path,
            (match scheme with Some x => x ++ js ":" | None => [] end)
            ++ (match authority with Some a => js "//" ++ a | None => [] end)
            ++ path = bq ->
            joinUrl (mkUrlParts scheme authority path query fragment) = s).
  { intros sc au pa E. unfold joinUrl. cbn [scheme authority path Utils.query Utils.fragment].
    rewrite Hs, Hq. rewrite <- E. rewrite <- !app_assoc.
    destruct query, fragment; reflexivity. }
  destruct (matchScheme bq) as [m1 |] eqn:Em.
  2:{ cbn [scheme authority path Utils.query].
      refine (conj _ (conj I (conj (conj I (conj I I))
                (conj (conj Hbq Hbq') (conj Hquery _))))).
      - apply Hjoin. reflexivity.
      - intros Hx. contradiction. }
  destruct (matchScheme_cut bq m1 Em) as (Hcut & Hm & Hne).
  set (rest := sliceFrom bq (len m1 + 1)) in *. clearbody rest.
  assert (Hscheme : ~ In (ch ":") m1).
  { intros Hi. rewrite Forall_forall in Hm. apply Hm in Hi.
    exact (schemeChar_not _ (ch ":") Hi eq_refl ltac:(discriminate)
             ltac:(discriminate) ltac:(discriminate) eq_refl). }
  assert (Hrest : forall c, In c rest -> In c bq).
  { intros c Hi. rewrite Hcut. apply in_or_app. right. right. exact Hi. }
  destruct (startsWith (js "//") rest) eqn:Ess.
  2:{ cbn [scheme authority path Utils.query].
      refine (conj _ (conj Hscheme (conj (conj I (conj I I))
                (conj (conj _ _) (conj Hquery _))))).
      - apply Hjoin. cbn [app]. rewrite <- app_assoc. symmetry. exact Hcut.
      - intros Hi. apply Hbq. apply Hrest. exact Hi.
      - intros Hi. apply Hbq'. apply Hrest. exact Hi.
      - intros Hx. contradiction. }
  apply startsWith_cut in Ess. change (List.length (js "//")) with 2%nat in Ess.
  assert (Hr2 : sliceFrom rest 2 = skipn 2 rest).
  { apply (sliceFrom_skipn rest 2). rewrite Ess. cbn. lia. }
  rewrite Hr2. set (rest2 := skipn 2 rest) in *. clearbody rest2.
  assert (Hrest2 : forall c, In c rest2 -> In c bq).
  { intros c Hi. apply Hrest. rewrite Ess. apply in_or_app. right. exact Hi. }
  destruct (cut_char (ch "/") rest2) as (Hc & Hauth). cbv zeta in Hc, Hauth.
  destruct (0 <=? indexOf [ch "/"] rest2) eqn:Esl.
  - cbn [scheme authority path Utils.query].
    assert (Hpath : sliceFrom rest2 (indexOf [ch "/"] rest2)
                    = ch "/" :: sliceFrom rest2 (indexOf [ch "/"] rest2 + 1)).
    { apply Z.leb_le in Esl. apply indexOf_char_in in Esl.
      destruct (first_occurrence _ _ Esl) as (l & r & E & Hl).
      rewrite E. rewrite (indexOf_char_first _ l r Hl).
      rewrite sliceFrom_suffix, sliceFrom_suffix1. reflexivity. }
    rewrite Hpath.
    set (auth := slice rest2 0 (indexOf [ch "/"] rest2)) in *.
    set (tl := sliceFrom rest2 (indexOf [ch "/"] rest2 + 1)) in *.
    clearbody auth tl.
    assert (Hin : forall c, In c auth \/ In c tl -> In c bq).
    { intros c Hi. apply Hrest2. rewrite Hc. apply in_or_app.
      destruct Hi; [left | right; right]; assumption. }
    refine (conj _ (conj Hscheme (conj (conj Hauth (conj _ _))
              (conj (conj _ _) (conj Hquery _))))).
    + apply Hjoin. rewrite Hcut, Ess, Hc. cbn [app].
      rewrite <- !app_assoc. reflexivity.
    + intros Hi. apply Hbq. apply Hin. left. exact Hi.
    + intros Hi. apply Hbq'. apply Hin. left. exact Hi.
    + intros [Hi | Hi]; [discriminate Hi |]. apply Hbq. apply Hin. right. exact Hi.
    + intros [Hi | Hi]; [discriminate Hi |]. apply Hbq'. apply Hin. right. exact Hi.
    + intros _. split; [discriminate | right; reflexivity].
  - cbn [scheme authority path Utils.query]. rewrite app_nil_r in Hc.
    refine (conj _ (conj Hscheme (conj (conj Hauth (conj _ _))
              (conj (conj _ _) (conj Hquery _))))).
    + apply Hjoin. rewrite Hcut, Ess. cbn [app].
      rewrite <- !app_assoc, app_nil_r. reflexivity.
    + intros Hi. apply Hbq. apply Hrest2. exact Hi.
    + intros Hi. apply Hbq'. apply Hrest2. exact Hi.
    + intros [].
    + intros [].
    + intros _. split; [discriminate | left; reflexivity].
Qed.

End UrlFacts.

Module AuthorityFacts2.
Import JS Codec Val Utils Spec Props StrFacts AuthorityFacts Base64Facts PluginFacts TextFacts.
Import ParserFacts.

(** The userinfo does not depend on how host and port are read. *)
Lemma parseAuthority_userinfo_eq (a : jstr) :
  userinfo (parseAuthority (Some a))
  = (let raw := trim a in
     let input := if startsWith (js "//") raw then sliceFrom raw 2 else raw in
     let at_ := lastIndexOf (js "@") input in
     if 0 <=? at_ then Some (slice input 0 at_) else None).
Proof.
  unfold parseAuthority. cbv zeta.
  repeat lazymatch goal with
         | |- userinfo (if ?c then _ else _) = _ => destruct c
         end; reflexivity.
Qed.

Lemma parseAuthority_userinfo (a : jstr) :
  let raw := trim a in
  let input := if startsWith (js "//") raw then sliceFrom raw 2 else raw in
  (~ In (ch "@") input -> userinfo (parseAuthority (Some a)) = None)
  /\ (forall ui hp,
        input = ui ++ js "@" ++ hp -> ~ In (ch "@") hp ->
        userinfo (parseAuthority (Some a)) = Some ui
        /\ hostportOf a = trim hp).
Proof.
  cbv zeta. rewrite parseAuthority_userinfo_eq. cbv zeta.
  unfold hostportOf. cbv zeta.
  set (input := if startsWith (js "//") (trim a)
                then sliceFrom (trim a) 2 else trim a).
  clearbody input. change (js "@") with [ch "@"]. split.
  - intros H. rewrite (lastIndexOf_char_absent _ _ H). reflexivity.
  - intros ui hp -> Hhp. cbn [app].
    rewrite (lastIndexOf_char_last _ ui hp Hhp).
    pose proof (len_nonneg ui) as Hl.
    replace (0 <=? len ui) with true by (symmetry; apply Z.leb_le; lia).
    rewrite slice_prefix, sliceFrom_suffix1. split; reflexivity.
Qed.

End AuthorityFacts2.

(* ================================================================== *)
(** ** Percent-decoding ([safeDecodeURIComponent]) *)
(* ================================================================== *)

Module PercentFacts.
Import JS Codec Val Utils Spec Props StrFacts AuthorityFacts Base64Facts PluginFacts TextFacts.

(** A text whose percent signs start no escape: [decodeURIComponent]
    throws when there is one, and the repaired text decodes to the text. *)
Lemma uri_tokens_fixed (s : jstr) :
  noEscape s = true ->
  uri_tokens (escapeStrayPercent s)
  = Some (map (fun c => if (c =? ch "%")%N then TByte 37 else TChar c) s).
Proof.
  induction s as [| c rest IH]; intros H; [reflexivity |].
  cbn [noEscape] in H. apply andb_true_iff in H. destruct H as [Hc Hr].
  specialize (IH Hr). cbn [escapeStrayPercent map].
  destruct (c =? ch "%")%N eqn:E.
  - assert (Hfix : escapeStrayPercent (c :: rest)
                   = js "%25" ++ escapeStrayPercent rest).
    { cbn [escapeStrayPercent]. rewrite E.
      destruct rest as [| h1 [| h2 r]]; try reflexivity.
      destruct (isHex h1 && isHex h2); [discriminate Hc | reflexivity]. }
    cbn [escapeStrayPercent] in Hfix. rewrite E in Hfix. rewrite Hfix.
    change (js "%25" ++ escapeStrayPercent rest)
      with (ch "%" :: ch "2" :: ch "5" :: escapeStrayPercent rest).
    cbn [uri_tokens]. change (ch "%" =? ch "%")%N with true. cbv iota.
    change (isHex (ch "2") && isHex (ch "5")) with true. cbv iota.
    rewrite IH. reflexivity.
  - cbn [uri_tokens]. rewrite E, IH. reflexivity.
Qed.

Lemma uri_utf8_fixed (s : jstr) :
  uri_utf8 utf8_idle
    (map (fun c => if (c =? ch "%")%N then TByte 37 else TChar c) s)
  = Some s.
Proof.
  induction s as [| c s IH]; [reflexivity |].
  cbn [map]. destruct (c =? ch "%")%N eqn:E.
  - apply N.eqb_eq in E. subst c.
    cbn [uri_utf8 u_need utf8_idle]. fold utf8_idle.
    change (utf8_lead 37) with (Some ([37%N], utf8_idle)). cbv iota beta.
    rewrite IH. reflexivity.
  - cbn [uri_utf8 u_need utf8_idle]. fold utf8_idle. rewrite IH. reflexivity.
Qed.

Lemma uri_tokens_stray (s : jstr) :
  noEscape s = true ->
  uri_tokens s = if existsb (fun c => (c =? ch "%")%N) s then None
                 else Some (map TChar s).
Proof.
  induction s as [| c rest IH]; intros H; [reflexivity |].
  cbn [noEscape] in H. apply andb_true_iff in H. destruct H as [Hc Hr].
  specialize (IH Hr). cbn [uri_tokens existsb map].
  destruct (c =? ch "%")%N eqn:E; cbn [orb].
  - destruct rest as [| h1 [| h2 r]]; try reflexivity.
    destruct (isHex h1 && isHex h2); [discriminate Hc | reflexivity].
  - rewrite IH. destruct (existsb _ rest); reflexivity.
Qed.

Lemma safeDecode_noEscape (s : jstr) :
  noEscape s = true -> safeDecodeURIComponent s = s.
Proof.
  intros H. unfold safeDecodeURIComponent, decodeURIComponent. cbv zeta.
  rewrite (uri_tokens_stray s H).
  destruct (existsb _ s).
  - rewrite (uri_tokens_fixed s H), uri_utf8_fixed. reflexivity.
  - rewrite uri_utf8_chars. reflexivity.
Qed.

(** *** Escapes of ASCII characters *)

Lemma hexDigit_ok (v : N) :
  (v < 16)%N -> isHex (hexDigit v) = true /\ hexVal (hexDigit v) = v.
Proof.
  intros H. unfold hexDigit, isHex, hexVal, isDigit, in_range.
  destruct (v <? 10)%N eqn:E.
  - apply N.ltb_lt in E.
    assert (E1 : (48 <=? 48 + v)%N = true) by (apply N.leb_le; lia).
    assert (E2 : (48 + v <=? 57)%N = true) by (apply N.leb_le; lia).
    rewrite E1, E2. cbn [andb orb]. split; [reflexivity | lia].
  - apply N.ltb_ge in E.
    assert (E1 : (48 <=? 55 + v)%N = true) by (apply N.leb_le; lia).
    assert (E2 : (55 + v <=? 57)%N = false) by (apply N.leb_gt; lia).
    assert (E3 : (65 <=? 55 + v)%N = true) by (apply N.leb_le; lia).
    assert (E4 : (55 + v <=? 70)%N = true) by (apply N.leb_le; lia).
    rewrite E1, E2, E3, E4. cbn [andb orb]. split; [reflexivity | lia].
Qed.

Lemma percentEncode_tokens (keep : N -> bool) (t : jstr) :
  keep (ch "%") = false -> Forall (fun c => (c < 128)%N) t ->
  uri_tokens (percentEncode keep t)
  = Some (map (fun c => if keep c then TChar c else TByte c) t).
Proof.
  intros Hk. induction 1 as [| c t Hc _ IH]; [reflexivity |].
  unfold percentEncode in *. cbn [flat_map map].
  destruct (keep c) eqn:E.
  - cbn [app uri_tokens].
    assert (Hn : (c =? ch "%")%N = false).
    { apply N.eqb_neq. intros ->. congruence. }
    rewrite Hn, IH. reflexivity.
  - cbn [app uri_tokens]. change (ch "%" =? ch "%")%N with true. cbv iota.
    destruct (hexDigit_ok (c / 16)) as (H1 & V1).
    { apply N.Div0.div_lt_upper_bound. lia. }
    destruct (hexDigit_ok (c mod 16)) as (H2 & V2).
    { apply N.mod_lt. lia. }
    rewrite H1, H2, V1, V2. cbn [andb]. rewrite IH. cbn [option_map].
    do 3 f_equal. rewrite N.mul_comm. symmetry. apply N.div_mod. lia.
Qed.

Lemma percentEncode_utf8 (keep : N -> bool) (t : jstr) :
  Forall (fun c => (c < 128)%N) t ->
  uri_utf8 utf8_idle (map (fun c => if keep c then TChar c else TByte c) t)
  = Some t.
Proof.
  induction 1 as [| c t Hc _ IH]; [reflexivity |].
  cbn [map]. destruct (keep c).
  - cbn [uri_utf8 u_need utf8_idle]. fold utf8_idle. rewrite IH. reflexivity.
  - cbn [uri_utf8 u_need utf8_idle]. fold utf8_idle.
    unfold utf8_lead.
    replace (c <=? 127)%N with true by (symmetry; apply N.leb_le; lia).
    rewrite IH. reflexivity.
Qed.

Lemma safeDecode_percentEncode (keep : N -> bool) (t : jstr) :
  keep (ch "%") = false -> Forall (fun c => (c < 128)%N) t ->
  safeDecodeURIComponent (percentEncode keep t) = t.
Proof.
  intros Hk Ht. unfold safeDecodeURIComponent, decodeURIComponent. cbv zeta.
  rewrite (percentEncode_tokens keep t Hk Ht), (percentEncode_utf8 keep t Ht).
  reflexivity.
Qed.

End PercentFacts.

(* ================================================================== *)
(** ** Base64 ([base64DecodeUtf8]) *)
(* ================================================================== *)

Module Base64Facts2.
Import JS Codec Val Utils Spec Props StrFacts AuthorityFacts Base64Facts PluginFacts TextFacts.

(** Induction over a list three elements at a time, whatever is left at
    the end. *)
Lemma list_ind3_all {A} (P : list A -> Prop) :
  P [] -> (forall a, P [a]) -> (forall a b, P [a; b]) ->
  (forall a b c l, P l -> P (a :: b :: c :: l)) ->
  forall l, P l.
Proof.
  intros H0 H1 H2 H3 l.
  assert (H : forall n l, (List.length l <= n)%nat -> P l).
  { induction n as [| n IH]; intros l' Hl.
    - destruct l'; [exact H0 | cbn in Hl; lia].
    - destruct l' as [| a [| b [| c l']]]; auto.
      apply H3. apply IH. cbn in Hl. lia. }
  apply (H (List.length l)). lia.
Qed.

Lemma base64Encode_body (bs : list N) :
  base64Encode bs = base64Body bs ++ base64Pad (List.length bs).
Proof.
  induction bs as [| a | a b | a b c l IH] using list_ind3_all;
    try reflexivity.
  cbn [base64Encode base64Body app]. rewrite IH. do 4 f_equal.
  unfold base64Pad. f_equal.
  change (List.length (a :: b :: c :: l)) with (1 * 3 + List.length l)%nat.
  rewrite Nat.add_comm, Nat.Div0.mod_add. reflexivity.
Qed.

Lemma tail_sextets1 (a : N) :
  (a < 256)%N ->
  (a / 4 < 64 /\ (a mod 4) * 16 < 64
   /\ (a / 4) * 4 + ((a mod 4) * 16) / 16 = a)%N.
Proof.
  intros Ha. repeat split; Zify.zify; Z.to_euclidean_division_equations; lia.
Qed.

Lemma tail_sextets2 (a b : N) :
  (a < 256)%N -> (b < 256)%N ->
  (a / 4 < 64 /\ (a mod 4) * 16 + b / 16 < 64 /\ (b mod 16) * 4 < 64
   /\ (a / 4) * 4 + ((a mod 4) * 16 + b / 16) / 16 = a
   /\ (((a mod 4) * 16 + b / 16) mod 16) * 16 + ((b mod 16) * 4) / 4 = b)%N.
Proof.
  intros Ha Hb.
  repeat split; Zify.zify; Z.to_euclidean_division_equations; lia.
Qed.

(** The text without padding: its characters, its length modulo four and
    the octets that it stands for. *)
Lemma base64Body_facts (bs : list N) :
  Forall (fun b => (b < 256)%N) bs ->
  Forall (fun c => isB64 c = true) (base64Body bs)
  /\ (List.length (base64Body bs) mod 4
      = match List.length bs mod 3 with O => 0 | S O => 2 | _ => 3 end)%nat
  /\ b64_octets (map b64sextet (base64Body bs)) = bs.
Proof.
  induction bs as [| a | a b | a b c l IH] using list_ind3_all; intros Hf.
  - repeat split. constructor.
  - inversion Hf as [| ? ? Ha _]; subst.
    destruct (tail_sextets1 a Ha) as (S1 & S2 & D1).
    cbn [base64Body map b64_octets].
    rewrite !b64sextet_b64char by assumption. rewrite D1.
    repeat split.
    repeat (constructor; [apply isB64_b64char; assumption |]). constructor.
  - inversion Hf as [| ? ? Ha Hf1]; subst.
    inversion Hf1 as [| ? ? Hb _]; subst.
    destruct (tail_sextets2 a b Ha Hb) as (S1 & S2 & S3 & D1 & D2).
    cbn [base64Body map b64_octets].
    rewrite !b64sextet_b64char by assumption. rewrite D1, D2.
    repeat split.
    repeat (constructor; [apply isB64_b64char; assumption |]). constructor.
  - inversion Hf as [| ? ? Ha Hf1]; subst.
    inversion Hf1 as [| ? ? Hb Hf2]; subst.
    inversion Hf2 as [| ? ? Hc Hf3]; subst.
    destruct (IH Hf3) as (I1 & I2 & I3).
    destruct (octet_sextets a b c Ha Hb Hc)
      as (S1 & S2 & S3 & S4 & D1 & D2 & D3).
    cbn [base64Body map b64_octets].
    rewrite !b64sextet_b64char by assumption.
    rewrite D1, D2, D3, I3. repeat split.
    + repeat (constructor; [apply isB64_b64char; assumption |]). exact I1.
    + change (List.length (a :: b :: c :: l)) with (1 * 3 + List.length l)%nat.
      rewrite (Nat.add_comm (1 * 3)), Nat.Div0.mod_add. rewrite <- I2.
      cbn [List.length].
      change (S (S (S (S (List.length (base64Body l))))))
        with (1 * 4 + List.length (base64Body l))%nat.
      rewrite (Nat.add_comm (1 * 4)), Nat.Div0.mod_add. reflexivity.
Qed.

Lemma base64Body_nonempty (bs : list N) : bs <> [] -> base64Body bs <> [].
Proof. destruct bs as [| a [| b [| c l]]]; [contradiction | | |]; discriminate. Qed.

(** *** White space *)

Lemma trimStart_cut (s : jstr) :
  exists w, s = w ++ trimStart s /\ Forall (fun c => isWhite c = true) w.
Proof.
  induction s as [| c s (w & E & Hw)].
  - exists []. split; [reflexivity | constructor].
  - cbn [trimStart]. destruct (isWhite c) eqn:Ec.
    + exists (c :: w). split; [cbn; f_equal; exact E | constructor; assumption].
    + exists []. split; [reflexivity | constructor].
Qed.

Lemma compact_white (w : jstr) :
  Forall (fun c => isWhite c = true) w -> compact w = [].
Proof.
  unfold compact. induction 1 as [| c w Hc _ IH]; [reflexivity |].
  cbn [filter]. rewrite Hc. exact IH.
Qed.

Lemma compact_trimStart (s : jstr) : compact (trimStart s) = compact s.
Proof.
  destruct (trimStart_cut s) as (w & E & Hw). rewrite E at 2.
  unfold compact in *. rewrite filter_app. fold (compact w).
  rewrite (compact_white w Hw). reflexivity.
Qed.

Lemma compact_rev (s : jstr) : compact (rev s) = rev (compact s).
Proof. apply filter_rev. Qed.

Lemma compact_trim (s : jstr) : compact (trim s) = compact s.
Proof.
  unfold trim, trimEnd. rewrite compact_rev, compact_trimStart, compact_rev.
  rewrite rev_involutive. apply compact_trimStart.
Qed.

Lemma trimStart_first (s : jstr) : firstOk (trimStart s).
Proof.
  induction s as [| c s IH]; [exact I |].
  cbn [trimStart]. destruct (isWhite c) eqn:E; [exact IH | exact E].
Qed.

Lemma trim_empty (s : jstr) : isEmpty (trim s) = isEmpty (compact s).
Proof.
  rewrite <- (compact_trim s).
  assert (H : firstOk (trim s)).
  { unfold trim, trimEnd.
    destruct (trimStart_cut (rev (trimStart s))) as (w & E & Hw).
    pose proof (trimStart_first s) as Hf.
    pose proof (trimStart_first (rev (trimStart s))) as Hl.
    set (t := trimStart s) in *. set (b := trimStart (rev t)) in *.
    assert (Et : t = rev b ++ rev w).
    { rewrite <- (rev_involutive t), E, rev_app_distr. reflexivity. }
    destruct (rev b) as [| c r] eqn:Eb; [exact I |].
    rewrite Et in Hf. exact Hf. }
  destruct (trim s) as [| c r]; [reflexivity |].
  cbn in H. unfold compact. cbn [filter]. rewrite H. reflexivity.
Qed.

(** *** Normalization *)

(** [_normalizeBase64Input] in terms of the text without white space. *)
Lemma normalize_compact (s : jstr) :
  _normalizeBase64Input s
  = (let normalized :=
       replaceChar (ch "_") (ch "/") (replaceChar (ch "-") (ch "+") (compact s)) in
     if isEmpty (compact s) then []
     else if len normalized mod 4 =? 0 then normalized
     else if len normalized mod 4 =? 2 then normalized ++ js "=="
     else if len normalized mod 4 =? 3 then normalized ++ js "="
     else normalized).
Proof.
  unfold _normalizeBase64Input. cbv zeta.
  rewrite trim_empty. fold (compact (trim s)). rewrite compact_trim.
  reflexivity.
Qed.

Lemma normalize_ignores_white (s : jstr) :
  _normalizeBase64Input (compact s) = _normalizeBase64Input s.
Proof.
  rewrite !normalize_compact.
  assert (E : compact (compact s) = compact s).
  { unfold compact. induction s as [| c s IH]; [reflexivity |].
    cbn [filter]. destruct (isWhite c) eqn:Ec; cbn [negb filter];
      [exact IH | rewrite Ec; cbn [negb]; f_equal; exact IH]. }
  rewrite E. reflexivity.
Qed.

Lemma len_mod4 (s : jstr) : len s mod 4 = Z.of_nat (List.length s mod 4).
Proof. unfold len. rewrite Nat2Z.inj_mod. reflexivity. Qed.

Lemma b64_plain (s : jstr) :
  Forall (fun c => isB64 c = true) s ->
  Forall plain s /\ ~ In (ch "-") s /\ ~ In (ch "_") s /\ ~ In (ch "=") s.
Proof.
  intros H. rewrite Forall_forall in H. split.
  - apply Forall_forall. intros c Hc. apply isB64_plain, H, Hc.
  - repeat split; intros Hi; apply H, isB64_plain in Hi; tauto.
Qed.

Lemma compact_plain (s : jstr) : Forall plain s -> compact s = s.
Proof.
  intros H. apply filter_id. eapply Forall_impl; [| exact H].
  intros c Hc. rewrite (ascii_not_white c Hc). reflexivity.
Qed.

(** Text in the Base64 alphabet, with or without padding, is normalized
    to the padded text. *)
Lemma normalize_body (bs : list N) (p : jstr) :
  Forall (fun b => (b < 256)%N) bs -> bs <> [] ->
  p = [] \/ p = base64Pad (List.length bs) ->
  _normalizeBase64Input (base64Body bs ++ p) = base64Encode bs.
Proof.
  intros Hf Hne Hp.
  destruct (base64Body_facts bs Hf) as (Hb & Hlen & _).
  destruct (b64_plain _ Hb) as (Hpl & Hd & Hu & _).
  pose proof (base64Body_nonempty bs Hne) as Hn.
  assert (Hpad : Forall plain (base64Pad (List.length bs))
                 /\ ~ In (ch "-") (base64Pad (List.length bs))
                 /\ ~ In (ch "_") (base64Pad (List.length bs))).
  { unfold base64Pad. destruct (List.length bs mod 3)%nat as [| [| k]];
      (split; [repeat constructor; unfold plain; cbn; lia
              | split; cbn; intuition discriminate]). }
  destruct Hpad as (Pp & Pd & Pu).
  assert (Hall : Forall plain (base64Body bs ++ p)
                 /\ ~ In (ch "-") (base64Body bs ++ p)
                 /\ ~ In (ch "_") (base64Body bs ++ p)).
  { destruct Hp as [-> | ->].
    - rewrite app_nil_r. auto.
    - split; [apply Forall_app; auto |].
      split; intros Hi; apply in_app_or in Hi; tauto. }
  destruct Hall as (Ha & Had & Hau).
  rewrite normalize_compact. cbv zeta. rewrite (compact_plain _ Ha).
  rewrite (replaceChar_id (ch "-")) by exact Had.
  rewrite (replaceChar_id (ch "_")) by exact Hau.
  assert (E : isEmpty (base64Body bs ++ p) = false).
  { destruct (base64Body bs); [contradiction | reflexivity]. }
  rewrite E, base64Encode_body, len_mod4.
  unfold base64Pad in *.
  destruct Hp as [-> | ->].
  - rewrite app_nil_r, Hlen.
    destruct (List.length bs mod 3)%nat as [| [| k]]; cbn [Z.of_nat Z.eqb];
      try reflexivity. rewrite app_nil_r. reflexivity.
  - rewrite length_app.
    rewrite <- Nat.Div0.add_mod_idemp_l, Hlen.
    destruct (List.length bs mod 3)%nat as [| [| k]]; cbn; reflexivity.
Qed.

Lemma base64Url_back (s : jstr) :
  ~ In (ch "-") s -> ~ In (ch "_") s ->
  replaceChar (ch "_") (ch "/")
    (replaceChar (ch "-") (ch "+") (base64Url s)) = s.
Proof.
  intros Hd Hu. unfold base64Url, replaceChar. rewrite !map_map.
  rewrite <- (map_id s) at 2. apply map_ext_in. intros c Hc.
  assert (H1 : c <> ch "-") by (intros ->; contradiction).
  assert (H2 : c <> ch "_") by (intros ->; contradiction).
  destruct (c =? ch "+")%N eqn:E1.
  { apply N.eqb_eq in E1. subst c. reflexivity. }
  destruct (c =? ch "/")%N eqn:E2.
  { apply N.eqb_eq in E2. subst c. reflexivity. }
  apply N.eqb_neq in H1, H2. rewrite H1, H2. reflexivity.
Qed.

Lemma base64Url_plain (s : jstr) :
  Forall plain s -> Forall plain (base64Url s).
Proof.
  intros H. unfold base64Url, replaceChar. rewrite map_map.
  apply Forall_map. eapply Forall_impl; [| exact H].
  intros c Hc. cbv beta.
  destruct (c =? ch "+")%N; [unfold plain; cbn; lia |].
  destruct (c =? ch "/")%N; [unfold plain; cbn; lia | exact Hc].
Qed.

Lemma base64Url_length (s : jstr) : List.length (base64Url s) = List.length s.
Proof. unfold base64Url, replaceChar. rewrite !length_map. reflexivity. Qed.

(** The same in the URL-safe alphabet. *)
Lemma normalize_url (bs : list N) (p : jstr) :
  Forall (fun b => (b < 256)%N) bs -> bs <> [] ->
  p = [] \/ p = base64Pad (List.length bs) ->
  _normalizeBase64Input (base64Url (base64Body bs ++ p)) = base64Encode bs.
Proof.
  intros Hf Hne Hp.
  rewrite <- (normalize_body bs p Hf Hne Hp).
  destruct (base64Body_facts bs Hf) as (Hb & _ & _).
  destruct (b64_plain _ Hb) as (Hpl & Hd & Hu & _).
  assert (Hall : Forall plain (base64Body bs ++ p)
                 /\ ~ In (ch "-") (base64Body bs ++ p)
                 /\ ~ In (ch "_") (base64Body bs ++ p)).
  { destruct Hp as [-> | ->].
    - rewrite app_nil_r. auto.
    - unfold base64Pad.
      destruct (List.length bs mod 3)%nat as [| [| k]];
        (split; [apply Forall_app; split;
                   [exact Hpl | repeat constructor; unfold plain; cbn; lia]
                | split; intros Hi; apply in_app_or in Hi;
                  destruct Hi as [Hi | Hi]; try contradiction;
                  cbn in Hi; intuition discriminate]). }
  destruct Hall as (Ha & Had & Hau).
  rewrite !normalize_compact. cbv zeta.
  rewrite (compact_plain _ (base64Url_plain _ Ha)), (compact_plain _ Ha).
  rewrite (base64Url_back _ Had Hau).
  rewrite (replaceChar_id (ch "-")) by exact Had.
  rewrite (replaceChar_id (ch "_")) by exact Hau.
  assert (E : isEmpty (base64Url (base64Body bs ++ p))
              = isEmpty (base64Body bs ++ p)).
  { pose proof (base64Url_length (base64Body bs ++ p)) as Hl.
    destruct (base64Url (base64Body bs ++ p)), (base64Body bs ++ p);
      try reflexivity; discriminate Hl. }
  rewrite E. reflexivity.
Qed.

(** *** Decoding *)

Lemma dropPadding_pad (bs : list N) :
  Forall (fun c => isB64 c = true) (base64Body bs) ->
  rev (dropPadding (rev (base64Body bs ++ base64Pad (List.length bs))))
  = base64Body bs.
Proof.
  intros Hb. rewrite rev_app_distr.
  assert (Hd : dropPadding (rev (base64Body bs)) = rev (base64Body bs)).
  { apply dropPadding_id. intros c r' E.
    assert (Hi : In c (base64Body bs)) by (apply in_rev; rewrite E; left; reflexivity).
    rewrite Forall_forall in Hb. apply Hb, isB64_plain in Hi. tauto. }
  unfold base64Pad. destruct (List.length bs mod 3)%nat as [| [| k]].
  - cbn [rev app]. rewrite Hd. apply rev_involutive.
  - cbn [rev app dropPadding]. apply rev_involutive.
  - change (rev (js "=")) with [ch "="]. cbn [app dropPadding].
    change (ch "=" =? ch "=")%N with true. cbv iota.
    destruct (rev (base64Body bs)) as [| c2 r2] eqn:Er;
      [rewrite <- Er; apply rev_involutive |].
    assert (Hi : In c2 (base64Body bs)) by (apply in_rev; rewrite Er; left; reflexivity).
    rewrite Forall_forall in Hb. apply Hb, isB64_plain in Hi.
    destruct Hi as (_ & _ & _ & Hi & _).
    replace (c2 =? ch "=")%N with false by (symmetry; apply N.eqb_neq; exact Hi).
    rewrite <- Er. apply rev_involutive.
Qed.

(** Whatever is normalized to the padded Base64 text of ASCII octets is
    decoded to them. *)
Lemma base64DecodeUtf8_normalized (s : jstr) (t : jstr) :
  t <> [] -> Forall (fun b => (b < 128)%N) t ->
  _normalizeBase64Input s = base64Encode t ->
  base64DecodeUtf8 s = Some t.
Proof.
  intros Hne Ht Hn.
  assert (H256 : Forall (fun b => (b < 256)%N) t).
  { eapply Forall_impl; [| exact Ht]. intros; cbn in *; lia. }
  destruct (base64Body_facts t H256) as (Hb & Hlen & Hoct).
  pose proof (base64Body_nonempty t Hne) as Hbn.
  unfold base64DecodeUtf8. cbv zeta. rewrite Hn, base64Encode_body.
  set (enc := base64Body t ++ base64Pad (List.length t)).
  assert (He : isEmpty enc = false).
  { unfold enc. destruct (base64Body t); [contradiction | reflexivity]. }
  assert (Hmod : len enc mod 4 = 0).
  { unfold enc. rewrite len_mod4, length_app.
    rewrite <- Nat.Div0.add_mod_idemp_l, Hlen. unfold base64Pad.
    destruct (List.length t mod 3)%nat as [| [| k]]; reflexivity. }
  assert (Hpadc : Forall (fun c => c = ch "=") (base64Pad (List.length t))).
  { unfold base64Pad. destruct (List.length t mod 3)%nat as [| [| k]];
      repeat constructor. }
  assert (Hnon : hasNonBase64Char enc = false).
  { unfold hasNonBase64Char, enc. rewrite existsb_app.
    apply orb_false_iff. split.
    - clear - Hb. induction Hb as [| c l Hc _ IH]; [reflexivity |].
      cbn [existsb]. rewrite Hc. exact IH.
    - clear - Hpadc. induction Hpadc as [| c l Hc _ IH]; [reflexivity |].
      cbn [existsb]. subst c. rewrite IH. reflexivity. }
  rewrite He, Hnon, Hmod. cbn [Z.eqb].
  unfold atob. cbv zeta.
  assert (Hw : filter (fun c => negb (isAsciiWhite c)) enc = enc).
  { apply filter_id. unfold enc. apply Forall_app. split.
    - eapply Forall_impl; [| exact Hb]. intros c Hc.
      apply isB64_plain in Hc. destruct Hc as (Hc & _). unfold plain in Hc.
      unfold isAsciiWhite.
      repeat match goal with
             | |- context [(c =? ?k)%N] =>
                 replace (c =? k)%N with false by (symmetry; apply N.eqb_neq; lia)
             end. reflexivity.
    - eapply Forall_impl; [| exact Hpadc]. intros c ->. reflexivity. }
  rewrite Hw, Hmod. cbn [Z.eqb]. unfold enc. rewrite (dropPadding_pad t Hb).
  rewrite len_mod4, Hlen.
  assert (Hall : forallb isB64 (base64Body t) = true).
  { apply forallb_forall. rewrite Forall_forall in Hb. exact Hb. }
  rewrite Hall, Hoct.
  assert (Hland : map (fun c => N.land c 255) t = t).
  { clear - H256. induction H256 as [| b l Hb _ IH]; [reflexivity |].
    cbn [map]. rewrite IH. f_equal.
    change 255%N with (N.ones 8). rewrite N.land_ones.
    apply N.mod_small. exact Hb. }
  unfold _bytesToUtf8.
  assert (Hne1 : (Z.of_nat (match (List.length t mod 3)%nat with
                            | O => 0 | S O => 2 | _ => 3 end%nat) =? 1) = false).
  { destruct (List.length t mod 3)%nat as [| [| k]]; reflexivity. }
  rewrite Hne1, Hland, TextDecoder_ascii by exact Ht. reflexivity.
Qed.

(** A character outside both alphabets makes the text undecodable. *)
Lemma base64DecodeUtf8_rejects (s : jstr) (c : N) :
  In c s -> isWhite c = false -> base64Char c = false ->
  base64DecodeUtf8 s = None.
Proof.
  intros Hi Hw Hc. unfold base64Char in Hc.
  apply orb_false_iff in Hc. destruct Hc as [Hc Hu].
  apply orb_false_iff in Hc. destruct Hc as [Hc Hd].
  apply orb_false_iff in Hc. destruct Hc as [Hb He].
  assert (Hin : In c (compact s)).
  { unfold compact. apply filter_In. split; [exact Hi | rewrite Hw; reflexivity]. }
  set (n := replaceChar (ch "_") (ch "/")
              (replaceChar (ch "-") (ch "+") (compact s))).
  assert (Hn : In c n).
  { unfold n, replaceChar. rewrite map_map. apply in_map_iff. exists c.
    split; [| exact Hin]. rewrite Hd. rewrite Hu. reflexivity. }
  assert (Hbad : forall p, hasNonBase64Char (n ++ p) = true).
  { intros p. unfold hasNonBase64Char. apply existsb_exists. exists c.
    split; [apply in_or_app; left; exact Hn |]. rewrite Hb, He. reflexivity. }
  unfold base64DecodeUtf8. cbv zeta. rewrite normalize_compact. cbv zeta.
  fold n.
  assert (E : isEmpty (compact s) = false).
  { destruct (compact s); [contradiction | reflexivity]. }
  rewrite E.
  assert (En : forall p, isEmpty (n ++ p) = false).
  { intros p. destruct n; [contradiction | reflexivity]. }
  pose proof (Hbad []) as Hbad0. pose proof (En []) as En0.
  rewrite app_nil_r in Hbad0, En0.
  destruct (len n mod 4 =? 0); [rewrite En0, Hbad0; reflexivity |].
  destruct (len n mod 4 =? 2); [rewrite En, Hbad; reflexivity |].
  destruct (len n mod 4 =? 3); [rewrite En, Hbad; reflexivity |].
  rewrite En0, Hbad0. reflexivity.
Qed.

Lemma base64DecodeUtf8_compact (s : jstr) :
  base64DecodeUtf8 (compact s) = base64DecodeUtf8 s.
Proof.
  unfold base64DecodeUtf8. cbv zeta. rewrite normalize_ignores_white.
  reflexivity.
Qed.

End Base64Facts2.

(* ================================================================== *)
(** ** Query strings ([parseQuery]) *)
(* ================================================================== *)

Module QueryFacts.
Import JS Codec Val Utils Common Spec Props StrFacts TextFacts.

Lemma getProp_setProp_same (k : jstr) (v : jsval) (o : obj) :
  getProp k (setProp k v o) = v.
Proof.
  induction o as [| [k' v'] o IH]; cbn [setProp getProp].
  - rewrite str_eqb_refl. reflexivity.
  - destruct (str_eqb k k') eqn:E; cbn [getProp]; rewrite E; [reflexivity | exact IH].
Qed.

Lemma getProp_setProp_other (k k' : jstr) (v : jsval) (o : obj) :
  k <> k' -> getProp k' (setProp k v o) = getProp k' o.
Proof.
  intros Hne.
  assert (Hn : str_eqb k' k = false).
  { destruct (str_eqb k' k) eqn:E; [| reflexivity].
    apply str_eqb_eq in E. congruence. }
  induction o as [| [k0 v0] o IH]; cbn [setProp getProp].
  - rewrite Hn. reflexivity.
  - destruct (str_eqb k k0) eqn:E; cbn [getProp].
    + apply str_eqb_eq in E. subst k0. rewrite Hn. reflexivity.
    + rewrite IH. reflexivity.
Qed.

Lemma parseQuery_fold (q : jstr) :
  parseQuery (Some q) = fold_left queryStep (queryParts q) [].
Proof.
  unfold parseQuery, queryParts. cbv zeta.
  destruct (isEmpty (dropQuestionMark q)) eqn:E; [| reflexivity].
  destruct (dropQuestionMark q); [reflexivity | discriminate E].
Qed.

Lemma stored_snoc (vs : list jstr) (v : jstr) :
  stored (vs ++ [v])
  = match stored vs with
    | VUndef | VNull => VStr v
    | VArr prev => VArr (prev ++ [VStr v])
    | prev => VArr [prev; VStr v]
    end.
Proof.
  destruct vs as [| a [| b l]]; try reflexivity.
  cbn [stored app map]. rewrite map_app. reflexivity.
Qed.

Lemma valuesOf_snoc (key : jstr) (parts : list jstr) (part : jstr) :
  valuesOf key (parts ++ [part])
  = valuesOf key parts
    ++ (if str_eqb (queryKey part) key then [queryValue part] else []).
Proof.
  unfold valuesOf. rewrite filter_app, map_app. cbn [filter].
  destruct (str_eqb (queryKey part) key); reflexivity.
Qed.

(** After the parts [done], the object holds under every key the values
    of the parameters of that name. *)
Lemma queryStep_invariant (parts done : list jstr) (out : obj) :
  (forall key, key <> [] -> getProp key out = stored (valuesOf key done)) ->
  forall key, key <> [] ->
    getProp key (fold_left queryStep parts out)
    = stored (valuesOf key (done ++ parts)).
Proof.
  revert done out. induction parts as [| part parts IH]; intros done out Hinv key Hk.
  - rewrite app_nil_r. apply Hinv. exact Hk.
  - cbn [fold_left].
    replace (done ++ part :: parts) with ((done ++ [part]) ++ parts)
      by (rewrite <- app_assoc; reflexivity).
    apply IH; [| exact Hk]. clear key Hk. intros key Hk.
    rewrite valuesOf_snoc. unfold queryStep.
    destruct (str_eqb (queryKey part) key) eqn:E.
    + apply str_eqb_eq in E.
      assert (Hne : isEmpty (queryKey part) = false).
      { rewrite E. destruct key; [contradiction | reflexivity]. }
      assert (Hp : isEmpty part = false).
      { destruct part; [| reflexivity]. vm_compute in Hne. discriminate Hne. }
      rewrite Hp, Hne, stored_snoc, <- (Hinv key Hk). unfold queryAdd.
      rewrite E.
      destruct (getProp key out); apply getProp_setProp_same.
    + rewrite app_nil_r.
      destruct (isEmpty part); [apply Hinv; exact Hk |].
      destruct (isEmpty (queryKey part)); [apply Hinv; exact Hk |].
      unfold queryAdd.
      assert (Hne : queryKey part <> key).
      { intros Heq. rewrite Heq, str_eqb_refl in E. discriminate E. }
      destruct (getProp (queryKey part) out);
        rewrite getProp_setProp_other by exact Hne; apply Hinv; exact Hk.
Qed.

Lemma parseQuery_stored (q key : jstr) :
  key <> [] ->
  getProp key (parseQuery (Some q)) = stored (valuesOf key (queryParts q)).
Proof.
  intros Hk. rewrite parseQuery_fold.
  apply (queryStep_invariant (queryParts q) [] []); [| exact Hk].
  intros k _. reflexivity.
Qed.

(** No value is stored under the empty key. *)
Lemma queryStep_empty_key (parts : list jstr) (out : obj) :
  getProp [] out = VUndef -> getProp [] (fold_left queryStep parts out) = VUndef.
Proof.
  revert out. induction parts as [| part parts IH]; intros out H; [exact H |].
  cbn [fold_left]. apply IH. unfold queryStep.
  destruct (isEmpty part); [exact H |].
  destruct (queryKey part) as [| c k] eqn:E; [exact H |]. cbn [isEmpty].
  unfold queryAdd.
  destruct (getProp (c :: k) out);
    rewrite getProp_setProp_other by discriminate; exact H.
Qed.

(** The loop of [getRawQueryFirstParam] returns the first value. *)
Lemma firstParamIn_first (key : jstr) (parts : list jstr) :
  key <> [] -> firstParamIn key parts = hd_error (rawValuesOf key parts).
Proof.
  intros Hk. unfold rawValuesOf.
  induction parts as [| part parts IH]; [reflexivity |].
  cbn [firstParamIn filter]. cbv zeta. fold (rawKey part). fold (rawValue part).
  destruct (isEmpty part) eqn:Ep.
  - destruct part; [| discriminate Ep].
    assert (E : str_eqb (rawKey []) key = false).
    { destruct key; [contradiction | reflexivity]. }
    rewrite E. exact IH.
  - destruct (str_eqb (rawKey part) key); [reflexivity | exact IH].
Qed.

Lemma getRawQueryFirstParam_first (q : jstr) (key : string) :
  js key <> [] ->
  getRawQueryFirstParam (Some q) key
  = hd_error (rawValuesOf (js key) (queryParts q)).
Proof.
  intros Hk. unfold getRawQueryFirstParam, queryParts. cbv zeta. cbn [asStr].
  destruct (isEmpty (dropQuestionMark q)) eqn:E.
  - destruct (dropQuestionMark q); [| discriminate E].
    unfold rawValuesOf, splitClass.
    assert (E' : str_eqb (rawKey []) (js key) = false).
    { destruct (js key); [contradiction | reflexivity]. }
    cbn [splitClass_go filter]. rewrite E'. reflexivity.
  - apply firstParamIn_first. exact Hk.
Qed.

(** Without a [+], a parameter is read the same in both ways. *)
Lemma raw_plain_part (part : jstr) :
  ~ In (ch "+") part ->
  queryKey part = rawKey part /\ queryValue part = rawValue part.
Proof.
  intros H. unfold queryKey, rawKey, queryValue, rawValue. cbv zeta.
  destruct (0 <=? indexOf (js "=") part) eqn:E.
  - change (js "=") with [ch "="] in *. apply Z.leb_le in E.
    destruct (indexOf_cut (ch "=") part E) as (Hcut & _).
    assert (H1 : ~ In (ch "+") (slice part 0 (indexOf [ch "="] part))).
    { intros Hi. apply H. rewrite Hcut. apply in_or_app. left. exact Hi. }
    assert (H2 : ~ In (ch "+") (sliceFrom part (indexOf [ch "="] part + 1))).
    { intros Hi. apply H. rewrite Hcut. apply in_or_app. right. right. exact Hi. }
    rewrite !Base64Facts.replaceChar_id by assumption. split; reflexivity.
  - rewrite Base64Facts.replaceChar_id by exact H. split; reflexivity.
Qed.

Lemma splitClass_go_in (p : N -> bool) (s cur : jstr) (part : jstr) (c : N) :
  In part (splitClass_go p s cur) -> In c part -> In c cur \/ In c s.
Proof.
  revert cur. induction s as [| x s IH]; intros cur Hp Hc.
  - cbn in Hp. destruct Hp as [<- | []]. left. exact Hc.
  - cbn [splitClass_go] in Hp. destruct (p x).
    + destruct Hp as [<- | Hp]; [left; exact Hc |].
      destruct (IH [] Hp Hc) as [[] | Hi]. right. right. exact Hi.
    + destruct (IH (cur ++ [x]) Hp Hc) as [Hi | Hi].
      * apply in_app_or in Hi. destruct Hi as [Hi | [<- | []]];
          [left; exact Hi | right; left; reflexivity].
      * right. right. exact Hi.
Qed.

Lemma valuesOf_raw (key : jstr) (parts : list jstr) :
  Forall (fun part => ~ In (ch "+") part) parts ->
  valuesOf key parts = rawValuesOf key parts.
Proof.
  unfold valuesOf, rawValuesOf.
  induction 1 as [| part parts Hp _ IH]; [reflexivity |].
  destruct (raw_plain_part part Hp) as (Ek & Ev).
  cbn [filter]. rewrite Ek.
  destruct (str_eqb (rawKey part) key); cbn [map]; rewrite ?Ev, IH; reflexivity.
Qed.

Section WithBuiltins.
Context {B : Builtins}.

(** [getFirstParam] reads the first of the values. *)
Lemma getFirstParam_first (q : jstr) (key : string) :
  js key <> [] ->
  getFirstParam (parseQuery (Some q)) key
  = hd_error (valuesOf (js key) (queryParts q)).
Proof.
  intros Hk. unfold getFirstParam. rewrite (parseQuery_stored q (js key) Hk).
  destruct (valuesOf (js key) (queryParts q)) as [| a [| b l]]; reflexivity.
Qed.

(** On a query without [+], the raw extraction and [parseQuery] agree. *)
Lemma getRawQueryFirstParam_agrees (q : jstr) (key : string) :
  js key <> [] -> ~ In (ch "+") q ->
  getRawQueryFirstParam (Some q) key = getFirstParam (parseQuery (Some q)) key.
Proof.
  intros Hk Hq.
  rewrite (getRawQueryFirstParam_first q key Hk), (getFirstParam_first q key Hk).
  rewrite valuesOf_raw; [reflexivity |].
  apply Forall_forall. intros part Hp Hc.
  unfold queryParts, splitClass in Hp.
  destruct (splitClass_go_in _ _ _ _ _ Hp Hc) as [[] | Hi].
  apply Hq. unfold dropQuestionMark in Hi.
  destruct (startsWith (js "?") q) eqn:E; [| exact Hi].
  unfold sliceFrom in Hi.
  rewrite <- (firstn_skipn (Z.to_nat (clampIndex (len q) 1)) q).
  apply in_or_app. right. exact Hi.
Qed.

End WithBuiltins.
End QueryFacts.

(* ================================================================== *)
(** ** [isUuid] and [isPort] *)
(* ================================================================== *)

Module CheckFacts.
Import JS Codec Val Utils Common Spec Props StrFacts AuthorityFacts UuidFacts TextFacts.

Lemma matchClasses_nth (pat : list (N -> bool)) (s : jstr) :
  matchClasses pat s = true ->
  forall i p, nth_error pat i = Some p ->
    exists c, nth_error s i = Some c /\ p c = true.
Proof.
  revert s. induction pat as [| p0 pat IH]; intros [| c s] H i p Hi;
    try discriminate H.
  - destruct i; discriminate Hi.
  - cbn [matchClasses] in H. apply andb_true_iff in H. destruct H as [H0 H].
    destruct i as [| i].
    + injection Hi as <-. exists c. split; [reflexivity | exact H0].
    + cbn [nth_error] in *. apply (IH s H i p Hi).
Qed.

Lemma isUuid_regex (s : jstr) : isUuid s = true -> uuidRegex (trim s) = true.
Proof.
  unfold isUuid. cbv zeta. destruct (isEmpty (trim s)); [discriminate | trivial].
Qed.

Lemma isVersion_range (c : N) :
  isVersion c = true <-> (ch "1" <= c <= ch "5")%N.
Proof.
  unfold isVersion, in_range. rewrite andb_true_iff, !N.leb_le. reflexivity.
Qed.

Lemma isVariant_in (c : N) : isVariant c = true <-> In c (js "89abAB").
Proof.
  unfold isVariant. change (js "89abAB")
    with [ch "8"; ch "9"; ch "a"; ch "b"; ch "A"; ch "B"].
  rewrite !orb_true_iff, !N.eqb_eq. cbn [In]. intuition congruence.
Qed.

Lemma isUuid_shape (s : jstr) : isUuid s = true <-> uuidShape (trim s).
Proof.
  unfold isUuid. cbv zeta. set (v := trim s). clearbody v. split.
  - intros H. destruct (isEmpty v); [discriminate H |].
    unfold uuidRegex, uuidPattern in H. cbn [repeat app] in H.
    do 36 (destruct v as [| ?c v]; [discriminate H |];
           cbn [matchClasses] in H; apply andb_true_iff in H;
           let Hc := fresh "Hc" in destruct H as [Hc H]).
    destruct v; [| discriminate H].
    unfold isDash in *.
    repeat match goal with
           | Hd : (?x =? ch "-")%N = true |- _ => apply N.eqb_eq in Hd; subst x
           end.
    exists [c; c0; c1; c2; c3; c4; c5; c6], [c8; c9; c10; c11],
      [c14; c15; c16], [c19; c20; c21],
      [c23; c24; c25; c26; c27; c28; c29; c30; c31; c32; c33; c34],
      c13, c18.
    repeat split; try reflexivity.
    + cbn [forallb]. rewrite Hc, Hc0, Hc1, Hc2, Hc3, Hc4, Hc5, Hc6. reflexivity.
    + cbn [forallb]. rewrite Hc8, Hc9, Hc10, Hc11. reflexivity.
    + cbn [forallb]. rewrite Hc14, Hc15, Hc16. reflexivity.
    + cbn [forallb]. rewrite Hc19, Hc20, Hc21. reflexivity.
    + cbn [forallb].
      rewrite Hc23, Hc24, Hc25, Hc26, Hc27, Hc28, Hc29, Hc30, Hc31, Hc32,
        Hc33, Hc34. reflexivity.
    + apply isVersion_range. assumption.
    + apply isVersion_range. assumption.
    + apply isVariant_in. assumption.
  - intros (a & b & c & d & e & ver & var & -> & (La & Ha) & (Lb & Hb)
            & (Lc & Hc) & (Ld & Hd) & (Le & He) & Hver & Hvar).
    apply isVersion_range in Hver. apply isVariant_in in Hvar.
    do 9 (destruct a as [| ?x a]; try discriminate La).
    do 5 (destruct b as [| ?x b]; try discriminate Lb).
    do 4 (destruct c as [| ?x c]; try discriminate Lc).
    do 4 (destruct d as [| ?x d]; try discriminate Ld).
    do 13 (destruct e as [| ?x e]; try discriminate Le).
    cbn [forallb] in Ha, Hb, Hc, Hd, He.
    repeat match goal with
           | H : _ && _ = true |- _ => apply andb_true_iff in H; destruct H
           end.
    cbn [app isEmpty]. unfold uuidRegex, uuidPattern. cbn [repeat app].
    change (js "-") with [ch "-"]. cbn [app matchClasses].
    unfold isDash. rewrite !N.eqb_refl.
    repeat match goal with
           | H : ?t = true |- context [?t] => rewrite H
           end.
    reflexivity.
Qed.

(** An integer that [parseInt] reads as a number of at most 65535 is that
    number: no rounding takes place. *)
Lemma toDouble_small (z n : Z) :
  0 <= z -> toDouble z = NInt n -> n <= 65535 -> z = n.
Proof.
  intros Hz H Hn. unfold toDouble in H. cbv zeta in H.
  rewrite Z.abs_eq in H by exact Hz.
  destruct (z <? 2 ^ 53) eqn:E; [injection H as <-; reflexivity |].
  apply Z.ltb_ge in E. exfalso.
  assert (Hpos : 0 < z) by (assert (0 < 2 ^ 53) by (cbn; lia); lia).
  pose proof (Z.log2_spec z Hpos) as (Hlo & Hhi).
  assert (Hlog : 53 <= Z.log2 z).
  { apply Z.log2_le_pow2; assumption. }
  set (e := Z.log2 z - 52) in *.
  assert (He : 1 <= e) by (unfold e; lia).
  assert (Hpe : 0 < 2 ^ e) by (apply Z.pow_pos_nonneg; lia).
  assert (Hq : 2 ^ 52 <= z / 2 ^ e).
  { apply Z.div_le_lower_bound; [exact Hpe |].
    rewrite <- Z.pow_add_r by lia.
    replace (e + 52) with (Z.log2 z) by (unfold e; lia). exact Hlo. }
  set (q := z / 2 ^ e) in *.
  set (q' := if (2 ^ (e - 1) <? z mod 2 ^ e)
                || ((z mod 2 ^ e =? 2 ^ (e - 1)) && Z.odd q)
             then q + 1 else q) in *.
  assert (Hq' : 2 ^ 52 <= q').
  { unfold q'. destruct (_ || _); lia. }
  assert (Hm : 2 ^ 52 <= q' * 2 ^ e).
  { assert (H52 : 0 < 2 ^ 52) by (cbn; lia). nia. }
  destruct (2 ^ 1024 <=? q' * 2 ^ e); [discriminate H |].
  replace (z <? 0) with false in H by (symmetry; apply Z.ltb_ge; lia).
  injection H as <-. assert (65535 < 2 ^ 52) by (cbn; lia). lia.
Qed.

Lemma digits_parseInt (t : jstr) :
  t <> [] -> forallb isDigit t = true ->
  JS.parseInt t = Some (digitsValue 0 t) /\ 0 <= digitsValue 0 t.
Proof.
  intros Hne Hd. pose proof (digitsValue_bound t 0 Hd ltac:(lia)) as Hb.
  destruct t as [| c t']; [contradiction |].
  cbn [forallb] in Hd. apply andb_true_iff in Hd. destruct Hd as [Hc Ht].
  assert (Hr : (48 <= c <= 57)%N).
  { unfold isDigit in Hc. apply in_range_bounds in Hc. exact Hc. }
  assert (Hw : isWhite c = false) by (apply ascii_not_white; lia).
  split; [| lia].
  unfold JS.parseInt. cbn [trimStart]. rewrite Hw.
  replace (c =? ch "-")%N with false by (symmetry; apply N.eqb_neq; cbn; lia).
  replace (c =? ch "+")%N with false by (symmetry; apply N.eqb_neq; cbn; lia).
  rewrite Hc. reflexivity.
Qed.

(** [isPort] on a string: digits only, once trimmed, of a value in
    1..65535; leading zeros do not matter. *)
Lemma isPort_string (s : jstr) :
  isPort (VStr s) = true
  <-> trim s <> [] /\ forallb isDigit (trim s) = true
      /\ 1 <= digitsValue 0 (trim s) <= 65535.
Proof.
  unfold isPort. cbv zeta. set (t := trim s). split.
  - intros H.
    destruct (truthy t && forallb isDigit t) eqn:E; [| discriminate H].
    apply andb_true_iff in E. destruct E as [Ht Hd].
    assert (Hne : t <> []) by (destruct t; [discriminate Ht | discriminate]).
    destruct (digits_parseInt t Hne Hd) as (Hp & Hpos).
    unfold parseInt in H. rewrite Hp in H.
    destruct (toDouble (digitsValue 0 t)) as [num |] eqn:En; [| discriminate H].
    apply andb_true_iff in H. destruct H as [H1 H2].
    apply Z.leb_le in H1, H2.
    rewrite (toDouble_small _ _ Hpos En H2). auto.
  - intros (Hne & Hd & H1 & H2).
    assert (Ht : truthy t = true) by (destruct t; [contradiction | reflexivity]).
    rewrite Ht, Hd. cbn [andb].
    destruct (digits_parseInt t Hne Hd) as (Hp & Hpos).
    unfold parseInt. rewrite Hp. unfold toDouble. cbv zeta.
    rewrite Z.abs_eq by exact Hpos.
    assert (E : (digitsValue 0 t <? 2 ^ 53) = true).
    { apply Z.ltb_lt. assert (65535 < 2 ^ 53) by (cbn; lia). lia. }
    rewrite E. apply andb_true_iff. split; apply Z.leb_le; assumption.
Qed.

End CheckFacts.

(* ================================================================== *)
(** ** Records of the parsers *)
(* ================================================================== *)

Module RecordFacts2.
Import JS Codec Val Utils Eff Common Dispatcher Spec Props.
Import StrFacts TextFacts Base64Facts2 Returns ParserFacts PluginFacts.
Local Open Scope eff_scope.

Lemma orElse_nonempty (a b : jstr) : b <> [] -> orElse a b <> [].
Proof.
  intros Hb. unfold orElse, truthy. destruct a; [exact Hb | discriminate].
Qed.

Lemma trim_noOuter (s : jstr) : noOuterWhite (trim s).
Proof.
  unfold trim, trimEnd.
  destruct (trimStart_cut (rev (trimStart s))) as (w & E & Hw).
  pose proof (trimStart_first s) as Hf.
  pose proof (trimStart_first (rev (trimStart s))) as Hl.
  set (t := trimStart s) in *. set (b := trimStart (rev t)) in *.
  assert (Et : t = rev b ++ rev w).
  { rewrite <- (rev_involutive t), E, rev_app_distr. reflexivity. }
  split; [| rewrite rev_involutive; exact Hl].
  destruct (rev b) as [| c r] eqn:Eb; [exact I |].
  rewrite Et in Hf. exact Hf.
Qed.

Lemma noOuterWhite_empty : noOuterWhite [].
Proof. split; exact I. Qed.

Lemma trim_idempotent (s : jstr) : trim (trim s) = trim s.
Proof. apply trim_noOuterWhite, trim_noOuter. Qed.

(** A text that is empty or trimmed. *)
Lemma orElse_trimmed (a b : jstr) :
  noOuterWhite a -> noOuterWhite b -> noOuterWhite (orElse a b).
Proof. intros Ha Hb. unfold orElse. destruct (truthy a); assumption. Qed.

Lemma SSR_parseSsrMain_returns {B : Builtins} m :
  returns (SSR.parseSsrMain m) (fun _ => True).
Proof. eapply returns_weaken; [apply SSR_parseSsrMain_port | trivial]. Qed.

#[export] Hint Resolve VLESS_normalizeUuid_returns TUIC_normalizeUuid_returns
  VMess_normalizeUuid_returns VMess_parseJsonLoosely_returns
  SS_parseMethodPassword_returns SS_parseUserinfoToCreds_returns
  SS_parsePlugin_returns SS_parseMain_returns
  SSR_decodeBase64ToTextMaybe_returns SSR_decodeParam_returns
  SSR_parseSsrMain_returns : returns.

End RecordFacts2.

Ltac literal_nonempty :=
  let Hx := fresh in intros Hx; vm_compute in Hx; discriminate Hx.

(** The record at the end of a parser body has a name that is not empty. *)
Ltac name_ok :=
  apply Returns.returns_node; intros ?; eexists; split;
  [reflexivity
  | first [apply RecordFacts2.orElse_nonempty; literal_nonempty
          | literal_nonempty]].

Module NameFacts.
Import JS Codec Val Utils Eff Common Dispatcher Spec Props.
Import StrFacts TextFacts Base64Facts2 Returns ParserFacts PluginFacts RecordFacts2.
Local Open Scope eff_scope.

Section WithBuiltins.
Context {B : Builtins}.

Lemma VLESS_named url : returns (VLESS.parseBody url) named.
Proof. unfold VLESS.parseBody. cbv zeta. repeat body_step. name_ok. Qed.

Lemma Trojan_named url : returns (Trojan.parseBody url) named.
Proof.
  unfold Trojan.parseBody. cbv zeta.
  destruct (isEmpty (trim url)); repeat body_step; name_ok.
Qed.

Lemma Hysteria_named url : returns (Hysteria.parseBody url) named.
Proof.
  unfold Hysteria.parseBody. cbv zeta.
  destruct (isEmpty (trim url)); repeat body_step; name_ok.
Qed.

Lemma Hysteria2_named url : returns (Hysteria2.parseBody url) named.
Proof.
  unfold Hysteria2.parseBody. cbv zeta.
  destruct (isEmpty (trim url)); repeat body_step; name_ok.
Qed.

Lemma TUIC_named url : returns (TUIC.parseBody url) named.
Proof.
  unfold TUIC.parseBody. cbv zeta.
  destruct (isEmpty (trim url)); repeat body_step; name_ok.
Qed.

Lemma SS_named url : returns (SS.parseBody url) named.
Proof.
  unfold SS.parseBody. cbv zeta.
  destruct (isEmpty (trim url)); repeat body_step; name_ok.
Qed.

Lemma SSR_named url : returns (SSR.parseBody url) named.
Proof.
  unfold SSR.parseBody. cbv zeta.
  destruct (isEmpty (trim url)); [repeat body_step; name_ok |].
  body_step.
  lazymatch goal with
  | |- returns (if ?c then _ else _) _ =>
      destruct c; [body_step; name_ok |]
  end.
  lazymatch goal with
  | |- returns (match ?x with _ => _ end) _ =>
      destruct x; [| body_step; name_ok]
  end.
  lazymatch goal with
  | |- returns (if ?c then _ else _) _ =>
      destruct c; [body_step; name_ok |]
  end.
  repeat body_step. name_ok.
Qed.

Lemma VMess_named url : returns (VMess.parseBody url) named.
Proof.
  unfold VMess.parseBody. cbv zeta.
  destruct (isEmpty (trim url)); [repeat body_step; name_ok |].
  repeat body_step. apply returns_node. intros ws.
  eexists. split; [reflexivity |].
  lazymatch goal with
  | |- trim (orElse (orElse (orElse (trim ?a) (trim ?b)) (trim ?c)) ?d) <> [] =>
      rewrite (trim_noOuterWhite
                 (orElse (orElse (orElse (trim a) (trim b)) (trim c)) d))
  end.
  - apply orElse_nonempty. literal_nonempty.
  - repeat apply orElse_trimmed; try apply trim_noOuter.
    split; vm_compute; reflexivity.
Qed.

Lemma tryOf_named (p : protocol) (url : jstr) : returns (tryOf p url) named.
Proof.
  destruct p; cbn [tryOf].
  - apply VLESS_named.
  - apply VMess_named.
  - apply SS_named.
  - apply Trojan_named.
  - apply Hysteria2_named.
  - apply SSR_named.
  - apply Hysteria_named.
  - apply TUIC_named.
Qed.

End WithBuiltins.
End NameFacts.

(* ================================================================== *)
(** ** Records without warnings *)
(* ================================================================== *)

Module QuietFacts.
Import JS Val Eff Spec Props.
Local Open Scope eff_scope.

Lemma grows_ret {A} (a : A) : grows (ret a).
Proof. intros ws. exists a, []. rewrite app_nil_r. reflexivity. Qed.

Lemma grows_warn (w : jstr) : grows (warn w).
Proof. intros ws. exists tt, [w]. reflexivity. Qed.

Lemma grows_warnings : grows warnings.
Proof. intros ws. exists ws, []. rewrite app_nil_r. reflexivity. Qed.

Lemma grows_bind {A C} (m : M A) (k : A -> M C) :
  grows m -> (forall a, grows (k a)) -> grows (bind m k).
Proof.
  intros Hm Hk ws. destruct (Hm ws) as (a & d1 & E1).
  destruct (Hk a (ws ++ d1)) as (b & d2 & E2).
  exists b, (d1 ++ d2). unfold bind. rewrite E1, E2, app_assoc. reflexivity.
Qed.

Lemma grows_when (c : bool) (m : M unit) : grows m -> grows (when c m).
Proof. intros H. destruct c; [exact H | apply grows_ret]. Qed.

Lemma grows_tryCatch {A} (m : M A) (h : exn -> M A) :
  grows m -> grows (tryCatch m h).
Proof.
  intros H ws. destruct (H ws) as (a & d & E).
  exists a, d. unfold tryCatch. rewrite E. reflexivity.
Qed.

Lemma grows_tryCatch_throw {A} (e : exn) (h : exn -> M A) :
  grows (h e) -> grows (tryCatch (throw e) h).
Proof. intros H ws. exact (H ws). Qed.

Lemma grows_returns {A} (m : M A) : grows m -> returns m (fun _ => True).
Proof.
  intros H ws. destruct (H ws) as (a & d & E). exists a, (ws ++ d). auto.
Qed.

(** *** Steps that say nothing *)

Lemma quiet_bind {A C} (m : M A) (k : A -> M C)
    (Q : A -> list jstr -> Prop) (R : C -> list jstr -> Prop) :
  quiet m Q -> (forall a, quiet (k a) (fun b ws => Q a ws -> R b ws)) ->
  quiet (bind m k) R.
Proof.
  intros Hm Hk ws. destruct (Hm ws) as (a & d1 & E1 & H1).
  destruct (Hk a (ws ++ d1)) as (b & d2 & E2 & H2).
  exists b, (d1 ++ d2). unfold bind. rewrite E1, E2, app_assoc.
  split; [reflexivity |]. intros Hd.
  apply app_eq_nil in Hd. destruct Hd as [-> ->].
  rewrite app_nil_r in H2. apply H2; [reflexivity |]. apply H1. reflexivity.
Qed.

Lemma quiet_when (c : bool) (w : jstr) :
  quiet (when c (warn w)) (fun _ _ => c = false).
Proof.
  intros ws. destruct c.
  - exists tt, [w]. split; [reflexivity | discriminate].
  - exists tt, []. rewrite app_nil_r. split; reflexivity.
Qed.

Lemma quiet_warn (w : jstr) : quiet (warn w) (fun _ _ => False).
Proof. intros ws. exists tt, [w]. split; [reflexivity | discriminate]. Qed.

Lemma quiet_grows {A} (m : M A) : grows m -> quiet m (fun _ _ => True).
Proof.
  intros H ws. destruct (H ws) as (a & d & E). exists a, d. auto.
Qed.

Lemma quiet_returns {A} (m : M A) (P : A -> Prop) :
  returns m P -> grows m -> quiet m (fun a _ => P a).
Proof.
  intros Hr Hg ws. destruct (Hg ws) as (a & d & E).
  destruct (Hr ws) as (a' & ws' & E' & Ha).
  rewrite E in E'. injection E' as <- _. exists a, d. auto.
Qed.

Lemma quiet_node (f : list jstr -> jsval) (P : jsval -> list jstr -> Prop) :
  (forall ws, P (f ws) ws) -> quiet (ws <- warnings ;; ret (f ws)) P.
Proof.
  intros H ws. exists (f ws), []. rewrite app_nil_r.
  split; [reflexivity | intros _; apply H].
Qed.

(** A computation that ends with a warning is never quiet. *)
Lemma quiet_ends_warn (m : M unit) (w : jstr) (P : unit -> list jstr -> Prop) :
  grows m -> quiet (m ;; warn w) P.
Proof.
  intros H ws. destruct (H ws) as ([] & d & E).
  exists tt, (d ++ [w]). unfold bind. rewrite E, app_assoc.
  split; [reflexivity |]. intros Hd. apply app_eq_nil in Hd.
  destruct Hd as [_ Hd]. discriminate Hd.
Qed.

(** *** The warnings of the record *)

Lemma returnsAt_after {A C} (m : M A) (k : A -> M C)
    (P : C -> list jstr -> Prop) :
  returns m (fun _ => True) -> (forall a, returnsAt (k a) P) ->
  returnsAt (bind m k) P.
Proof.
  intros Hm Hk ws. destruct (Hm ws) as (a & ws1 & E & _).
  destruct (Hk a ws1) as (b & ws2 & E2 & H2).
  exists b, ws2. unfold bind. rewrite E. auto.
Qed.

Lemma returnsAt_node (f : list jstr -> jsval) (P : jsval -> list jstr -> Prop) :
  (forall ws, P (f ws) ws) -> returnsAt (ws <- warnings ;; ret (f ws)) P.
Proof. intros H ws. exists (f ws), ws. split; [reflexivity | apply H]. Qed.

Lemma ofStrs_nil (ws : list jstr) : ofStrs ws = ofStrs [] -> ws = [].
Proof. destruct ws; [reflexivity | discriminate]. Qed.

(** A parser whose [try] block is quiet with [P] and whose record lists
    the warnings: a record without warnings satisfies [P]. *)
Lemma quiet_parse (m : M jsval) (h : exn -> M jsval) (P : jsval -> Prop) :
  quiet m (fun node _ => P node) ->
  returnsAt m (fun node ws => field "warnings" node = ofStrs ws) ->
  exists node, run (tryCatch m h) = inr node /\ (silent node -> P node).
Proof.
  intros Hq Hr. destruct (Hq []) as (node & d & E & Hd).
  destruct (Hr []) as (node' & ws' & E' & Hw).
  rewrite E in E'. injection E' as <- <-.
  exists node. unfold run, tryCatch. rewrite E. split; [reflexivity |].
  unfold silent. intros Hs. rewrite Hs in Hw. symmetry in Hw.
  apply ofStrs_nil in Hw. apply Hd. exact Hw.
Qed.

End QuietFacts.

Ltac grows_true :=
  cbv zeta;
  lazymatch goal with
  | |- Props.grows (Eff.ret _) => apply QuietFacts.grows_ret
  | |- Props.grows (Eff.warn _) => apply QuietFacts.grows_warn
  | |- Props.grows Eff.warnings => apply QuietFacts.grows_warnings
  | |- Props.grows (Eff.when _ _) => apply QuietFacts.grows_when; grows_true
  | |- Props.grows (Eff.bind _ _) =>
      apply QuietFacts.grows_bind; [grows_true | intros ?; grows_true]
  | |- Props.grows (Eff.tryCatch (Eff.throw _) _) =>
      apply QuietFacts.grows_tryCatch_throw; grows_true
  | |- Props.grows (Eff.tryCatch (match ?c with _ => _ end) _) =>
      destruct c; grows_true
  | |- Props.grows (Eff.tryCatch _ _) =>
      apply QuietFacts.grows_tryCatch; grows_true
  | |- Props.grows (match ?x with _ => _ end) => destruct x; grows_true
  | |- Props.grows _ => solve [auto with grows]
  end.

Create HintDb grows.

Module GrowsFacts.
Import JS Codec Val Utils Eff Common Dispatcher Spec Props QuietFacts.
Local Open Scope eff_scope.

Section WithBuiltins.
Context {B : Builtins}.

Lemma VLESS_normalizeUuid_grows r : grows (VLESS.normalizeUuid r).
Proof. unfold VLESS.normalizeUuid, VLESS.normalizeUuidPlain. grows_true. Qed.

Lemma TUIC_normalizeUuid_grows r : grows (TUIC.normalizeUuid r).
Proof. unfold TUIC.normalizeUuid. grows_true. Qed.

Lemma VMess_normalizeUuid_grows r : grows (VMess.normalizeUuid r).
Proof. unfold VMess.normalizeUuid. grows_true. Qed.

Lemma VMess_parseJsonLoosely_grows t : grows (VMess.parseJsonLoosely t).
Proof. unfold VMess.parseJsonLoosely. grows_true. Qed.

Lemma SS_parseMethodPassword_grows t : grows (SS.parseMethodPassword t).
Proof. unfold SS.parseMethodPassword. grows_true. Qed.

Hint Resolve SS_parseMethodPassword_grows : grows.

Lemma SS_parseUserinfoToCreds_grows u : grows (SS.parseUserinfoToCreds u).
Proof. unfold SS.parseUserinfoToCreds. grows_true. Qed.

Lemma SS_parsePlugin_grows v : grows (SS.parsePlugin v).
Proof. unfold SS.parsePlugin. grows_true. Qed.

Hint Resolve SS_parseUserinfoToCreds_grows : grows.

Lemma SS_parseMain_grows a1 : grows (SS.parseMain a1).
Proof. unfold SS.parseMain. grows_true. Qed.

Lemma SSR_decodeBase64ToTextMaybe_grows b l :
  grows (SSR.decodeBase64ToTextMaybe b l).
Proof. unfold SSR.decodeBase64ToTextMaybe. grows_true. Qed.

Hint Resolve SSR_decodeBase64ToTextMaybe_grows : grows.

Lemma SSR_decodeParam_grows b l : grows (SSR.decodeParam b l).
Proof. unfold SSR.decodeParam. grows_true. Qed.

Lemma SSR_parseSsrMain_grows m : grows (SSR.parseSsrMain m).
Proof. unfold SSR.parseSsrMain. grows_true. Qed.

End WithBuiltins.

#[export] Hint Resolve VLESS_normalizeUuid_grows TUIC_normalizeUuid_grows
  VMess_normalizeUuid_grows VMess_parseJsonLoosely_grows
  SS_parseMethodPassword_grows SS_parseUserinfoToCreds_grows
  SS_parsePlugin_grows SS_parseMain_grows
  SSR_decodeBase64ToTextMaybe_grows SSR_decodeParam_grows
  SSR_parseSsrMain_grows : grows.

End GrowsFacts.

(** One step of a parser body of which it matters whether it warns. *)
Ltac quiet_step :=
  lazymatch goal with
  | |- Props.quiet (Eff.bind Eff.warnings _) _ => fail
  | |- Props.quiet (Eff.bind (Eff.when _ (Eff.warn _)) _) _ =>
      eapply QuietFacts.quiet_bind; [apply QuietFacts.quiet_when | intros ?]
  | |- Props.quiet (Eff.bind (Eff.warn _) _) _ =>
      eapply QuietFacts.quiet_bind; [apply QuietFacts.quiet_warn | intros ?]
  | |- Props.quiet (Eff.bind _ _) _ =>
      eapply QuietFacts.quiet_bind;
      [apply QuietFacts.quiet_grows; solve [grows_true] | intros ?]
  end.

Ltac port_fact :=
  first [ lazymatch goal with
          | H : Spec.portInRange ?n |- _ => exact H
          end
        | apply ParserFacts.portNum_ok
        | apply ParserFacts.VMess_portNum_ok
        | apply ParserFacts.portOrNull_ok ].

(** The record at the end of a body that has not warned. *)
Ltac complete_ok :=
  apply QuietFacts.quiet_node; intros ?; cbv beta; intros;
  first
  [ contradiction
  | split;
    [ eexists; split; [reflexivity |];
      lazymatch goal with
      | H : JS.isEmpty ?s = false |- ?s <> [] =>
          let E := fresh in intros E; rewrite E in H; discriminate H
      end
    | eexists; split; [reflexivity |];
      lazymatch goal with
      | H : (?n =? 0) = false |- 1 <= ?n <= 65535 =>
          let Hp := fresh in
          assert (Hp : n = 0 \/ 1 <= n <= 65535) by port_fact;
          apply Z.eqb_neq in H; destruct Hp; [contradiction | assumption]
      end ] ].

Ltac at_step :=
  lazymatch goal with
  | |- Props.returnsAt (Eff.bind Eff.warnings _) _ => fail
  | |- Props.returnsAt (Eff.bind _ _) _ =>
      eapply QuietFacts.returnsAt_after; [solve [returns_true] | intros ?]
  end.

(** The record at the end of a body lists the warnings. *)
Ltac warnings_ok :=
  repeat at_step; apply QuietFacts.returnsAt_node; intros ?; reflexivity.

Module CompleteFacts.
Import JS Codec Val Utils Eff Common Dispatcher Spec Props.
Import StrFacts TextFacts Returns ParserFacts RecordFacts2 QuietFacts GrowsFacts.
Local Open Scope eff_scope.

Section WithBuiltins.
Context {B : Builtins}.

Lemma Trojan_quiet url :
  quiet (Trojan.parseBody url) (fun node _ => complete node).
Proof.
  unfold Trojan.parseBody. cbv zeta.
  destruct (isEmpty (trim url)); repeat quiet_step; complete_ok.
Qed.

Lemma Hysteria_quiet url :
  quiet (Hysteria.parseBody url) (fun node _ => complete node).
Proof.
  unfold Hysteria.parseBody. cbv zeta.
  destruct (isEmpty (trim url)); repeat quiet_step; complete_ok.
Qed.

Lemma Hysteria2_quiet url :
  quiet (Hysteria2.parseBody url) (fun node _ => complete node).
Proof.
  unfold Hysteria2.parseBody. cbv zeta.
  destruct (isEmpty (trim url)); repeat quiet_step; complete_ok.
Qed.

Lemma TUIC_quiet url :
  quiet (TUIC.parseBody url) (fun node _ => complete node).
Proof.
  unfold TUIC.parseBody. cbv zeta.
  destruct (isEmpty (trim url)); repeat quiet_step; complete_ok.
Qed.

Lemma VMess_quiet url :
  quiet (VMess.parseBody url) (fun node _ => complete node).
Proof.
  unfold VMess.parseBody. cbv zeta.
  destruct (isEmpty (trim url)); repeat quiet_step; complete_ok.
Qed.

Lemma SS_quiet url :
  quiet (SS.parseBody url) (fun node _ => complete node).
Proof.
  unfold SS.parseBody. cbv zeta.
  destruct (isEmpty (trim url)); [repeat quiet_step; complete_ok |].
  quiet_step. quiet_step.
  eapply quiet_bind;
    [apply quiet_returns; [apply SS_parseMain_port | apply SS_parseMain_grows] |].
  intros main. repeat quiet_step. complete_ok.
Qed.

Lemma SSR_quiet url :
  quiet (SSR.parseBody url) (fun node _ => complete node).
Proof.
  unfold SSR.parseBody. cbv zeta.
  destruct (isEmpty (trim url)); [repeat quiet_step; complete_ok |].
  quiet_step.
  lazymatch goal with
  | |- quiet (if ?c then _ else _) _ =>
      destruct c; [repeat quiet_step; complete_ok |]
  end.
  lazymatch goal with
  | |- quiet (match ?x with _ => _ end) _ =>
      destruct x; [| repeat quiet_step; complete_ok]
  end.
  lazymatch goal with
  | |- quiet (if ?c then _ else _) _ =>
      destruct c; [repeat quiet_step; complete_ok |]
  end.
  eapply quiet_bind;
    [apply quiet_returns; [apply SSR_parseSsrMain_port | apply SSR_parseSsrMain_grows] |].
  intros main. repeat quiet_step. complete_ok.
Qed.

Lemma VLESS_quiet url :
  quiet (VLESS.parseBody url) (fun node _ => complete node).
Proof.
  unfold VLESS.parseBody. cbv zeta.
  quiet_step. quiet_step. quiet_step.
  pose proof (parseAuthority_port
                (Some (asStr (authority (splitUrlLoosely (trim url)))))) as Hp.
  destruct (port _) as [p |] eqn:Ep.
  - repeat quiet_step. apply quiet_node. intros ws. cbv beta. intros.
    split; [eexists; split; [reflexivity |] | exists p; split; [reflexivity | exact Hp]].
    lazymatch goal with
    | H : isEmpty ?s = false |- ?s <> [] =>
        let E := fresh in intros E; rewrite E in H; discriminate H
    end.
  - eapply quiet_bind;
      [apply (quiet_ends_warn _ _ (fun _ _ => False)); grows_true |].
    intros []. repeat quiet_step. apply quiet_node. intros ws. cbv beta. intros.
    lazymatch goal with H : False |- _ => contradiction end.
Qed.

(** The [warnings] of the record are the warnings that were pushed. *)
Lemma tryOf_warnings (p : protocol) (url : jstr) :
  returnsAt (tryOf p url) (fun node ws => field "warnings" node = ofStrs ws).
Proof.
  destruct p; cbn [tryOf].
  - unfold VLESS.parseBody. cbv zeta. warnings_ok.
  - unfold VMess.parseBody. cbv zeta.
    destruct (isEmpty (trim url)); warnings_ok.
  - unfold SS.parseBody. cbv zeta.
    destruct (isEmpty (trim url)); warnings_ok.
  - unfold Trojan.parseBody. cbv zeta.
    destruct (isEmpty (trim url)); warnings_ok.
  - unfold Hysteria2.parseBody. cbv zeta.
    destruct (isEmpty (trim url)); warnings_ok.
  - unfold SSR.parseBody. cbv zeta.
    destruct (isEmpty (trim url)); [warnings_ok |].
    at_step.
    lazymatch goal with
    | |- returnsAt (if ?c then _ else _) _ => destruct c; [warnings_ok |]
    end.
    lazymatch goal with
    | |- returnsAt (match ?x with _ => _ end) _ => destruct x; [| warnings_ok]
    end.
    lazymatch goal with
    | |- returnsAt (if ?c then _ else _) _ => destruct c; [warnings_ok |]
    end.
    warnings_ok.
  - unfold Hysteria.parseBody. cbv zeta.
    destruct (isEmpty (trim url)); warnings_ok.
  - unfold TUIC.parseBody. cbv zeta.
    destruct (isEmpty (trim url)); warnings_ok.
Qed.

Lemma tryOf_quiet (p : protocol) (url : jstr) :
  quiet (tryOf p url) (fun node _ => complete node).
Proof.
  destruct p; cbn [tryOf].
  - apply VLESS_quiet.
  - apply VMess_quiet.
  - apply SS_quiet.
  - apply Trojan_quiet.
  - apply Hysteria2_quiet.
  - apply SSR_quiet.
  - apply Hysteria_quiet.
  - apply TUIC_quiet.
Qed.

(** A record without warnings has a server and a valid port. *)
Lemma parserOf_silent (p : protocol) (url : jstr) :
  exists node, parserOf p url = inr node /\ (silent node -> complete node).
Proof.
  rewrite parserOf_run.
  apply quiet_parse; [apply tryOf_quiet | apply tryOf_warnings].
Qed.

End WithBuiltins.
End CompleteFacts.

(* ================================================================== *)
(** ** Dispatcher ([index.js]) *)
(* ================================================================== *)

Module DispatcherFacts2.
Import JS Codec Val Utils Eff Common Dispatcher Spec Props.
Import StrFacts TextFacts Returns ParserFacts DispatcherFacts RecordFacts2.





Lemma len_slice_le (s : jstr) (n : Z) : 0 <= n -> len (slice s 0 n) <= n.
Proof.
  intros Hn. unfold slice, clampIndex, len. cbn [Z.ltb Z.compare].
  rewrite length_firstn.
  destruct (n <? 0) eqn:E; [lia |]. lia.
Qed.

Lemma shorten_length (t : jstr) : len (shorten t) <= 83.
Proof.
  unfold shorten. destruct (80 <? len t) eqn:E.
  - rewrite len_app. pose proof (len_slice_le t 80 ltac:(lia)).
    change (len (js "...")) with 3. lia.
  - apply Z.ltb_ge in E. lia.
Qed.

Section WithBuiltins.
Context {B : Builtins}.
Variable convert : protocol -> jsval -> jsval.

Lemma parseProxyLink_trim (link : jstr) :
  parseProxyLink convert (trim link) = parseProxyLink convert link.
Proof. unfold parseProxyLink. cbv zeta. rewrite trim_idempotent. reflexivity. Qed.

(** Each line that takes part gives one proxy or one error. *)
Lemma batch_count (lines : list jstr) (position : Z) :
  (List.length (expectedProxies convert lines)
   + List.length (expectedErrors convert lines position)
   = List.length (filter qualifies lines))%nat.
Proof.
  revert position. induction lines as [| l rest IH]; intros position;
    [reflexivity |].
  cbn [expectedProxies flat_map expectedErrors filter].
  rewrite !length_app. specialize (IH (position + 1)).
  unfold expectedProxies in IH.
  destruct (qualifies l).
  - destruct (parseProxyLink convert (trim l)); cbn [List.length]; lia.
  - cbn [List.length]. lia.
Qed.

Lemma expectedErrors_sorted (lines : list jstr) (position : Z) :
  StronglySorted Z.lt (map line (expectedErrors convert lines position))
  /\ Forall (fun e => position <= line e
                      /\ line e < position + Z.of_nat (List.length lines)
                      /\ len (link e) <= 83)
            (expectedErrors convert lines position).
Proof.
  revert position. induction lines as [| l rest IH]; intros position.
  - split; constructor.
  - destruct (IH (position + 1)) as (Hs & Hf).
    assert (Hf' : Forall (fun e => position <= line e
                      /\ line e < position + Z.of_nat (List.length (l :: rest))
                      /\ len (link e) <= 83)
                    (expectedErrors convert rest (position + 1))).
    { eapply Forall_impl; [| exact Hf]. cbn [List.length]. intros e (H1 & H2 & H3).
      repeat split; lia. }
    cbn [expectedErrors].
    destruct (qualifies l); [| split; assumption].
    destruct (parseProxyLink convert (trim l)); [split; assumption |].
    cbn [app map]. split.
    + constructor; [exact Hs |]. cbn [line].
      apply Forall_map. eapply Forall_impl; [| exact Hf].
      intros e (H1 & _). lia.
    + constructor; [| exact Hf']. cbn [line link List.length].
      pose proof (shorten_length (trim l)). repeat split; lia.
Qed.

End WithBuiltins.
End DispatcherFacts2.

(* ================================================================== *)
(** ** Shadowsocks credentials *)
(* ================================================================== *)

Module SSFacts.
Import JS Codec Val Utils Eff Common Dispatcher Spec Props.
Import StrFacts TextFacts Base64Facts Base64Facts2 Returns ParserFacts RecordFacts2.
Import PluginFacts PercentFacts.
Local Open Scope eff_scope.

Section WithBuiltins.
Context {B : Builtins}.

(** [method:password] is cut at the first colon. *)
Lemma parseMethodPassword_pair (text m p : jstr) (ws : list jstr) :
  trim text = m ++ js ":" ++ p -> ~ In (ch ":") m ->
  SS.parseMethodPassword text ws
  = (inr (trim m, trim p), ws ++ credsWarnings (trim m) (trim p)).
Proof.
  intros Ht Hm. unfold SS.parseMethodPassword. cbv zeta. rewrite Ht.
  assert (E : isEmpty (m ++ js ":" ++ p) = false) by (destruct m; reflexivity).
  rewrite E. change (js ":" ++ p) with (ch ":" :: p).
  change (js ":") with [ch ":"].
  rewrite (indexOf_char_first _ m p Hm).
  pose proof (len_nonneg m) as Hl.
  replace (len m <? 0) with false by (symmetry; apply Z.ltb_ge; lia).
  rewrite slice_prefix, sliceFrom_suffix1.
  unfold credsWarnings, bind, when, warn, ret.
  destruct (isEmpty (trim m)), (isEmpty (trim p));
    rewrite <- ?app_assoc, ?app_nil_r; reflexivity.
Qed.

(** A userinfo with a colon is read as it is: it is not Base64. *)
Lemma parseUserinfoToCreds_plain (u m p : jstr) (ws : list jstr) :
  trim (safeDecodeURIComponent u) = m ++ js ":" ++ p -> ~ In (ch ":") m ->
  SS.parseUserinfoToCreds (Some u) ws
  = (inr (SS.mkCreds (trim m) (trim p) []),
     ws ++ credsWarnings (trim m) (trim p)).
Proof.
  intros Ht Hm. unfold SS.parseUserinfoToCreds. cbv zeta. cbn [asStr].
  rewrite Ht.
  assert (E : isEmpty (m ++ js ":" ++ p) = false) by (destruct m; reflexivity).
  rewrite E.
  rewrite (base64DecodeUtf8_rejects (m ++ js ":" ++ p) (ch ":")).
  - unfold bind.
    rewrite (parseMethodPassword_pair (m ++ js ":" ++ p) m p ws); [reflexivity | | exact Hm].
    rewrite <- Ht. apply trim_idempotent.
  - apply in_or_app. right. left. reflexivity.
  - reflexivity.
  - reflexivity.
Qed.

(** A userinfo that is the Base64 text of [method:password]. *)
Lemma parseUserinfoToCreds_base64 (u m p pad : jstr) (ws : list jstr) :
  let t := m ++ js ":" ++ p in
  Forall (fun c => (c < 128)%N) t -> noOuterWhite t -> ~ In (ch ":") m ->
  pad = [] \/ pad = base64Pad (List.length t) ->
  trim (safeDecodeURIComponent u) = base64Body t ++ pad ->
  SS.parseUserinfoToCreds (Some u) ws
  = (inr (SS.mkCreds (trim m) (trim p) t),
     ws ++ [js "检测到 Base64(method:password) 的 userinfo，已成功解码"]
        ++ credsWarnings (trim m) (trim p)).
Proof.
  intros t Ht Hw Hm Hpad Hu. unfold SS.parseUserinfoToCreds. cbv zeta.
  cbn [asStr]. rewrite Hu.
  assert (Hne : t <> []) by (unfold t; destruct m; discriminate).
  assert (H256 : Forall (fun b => (b < 256)%N) t).
  { eapply Forall_impl; [| exact Ht]. intros; cbn in *; lia. }
  assert (E : isEmpty (base64Body t ++ pad) = false).
  { pose proof (base64Body_nonempty t Hne).
    destruct (base64Body t); [contradiction | reflexivity]. }
  rewrite E.
  rewrite (base64DecodeUtf8_normalized _ t Hne Ht
             (normalize_body t pad H256 Hne Hpad)).
  cbn [asStr]. rewrite (trim_noOuterWhite t Hw).
  assert (Hinc : truthy t && includes (js ":") t = true).
  { apply andb_true_iff. split; [destruct t; [contradiction | reflexivity] |].
    unfold includes, t. change (js ":" ++ p) with (ch ":" :: p).
    change (js ":") with [ch ":"]. rewrite (indexOf_char_first _ m p Hm).
    apply Z.leb_le. apply len_nonneg. }
  rewrite Hinc. unfold bind at 1. unfold warn at 1. unfold bind.
  rewrite (parseMethodPassword_pair t m p); [| apply trim_noOuterWhite; exact Hw | exact Hm].
  rewrite <- app_assoc. reflexivity.
Qed.

(** The record of a link whose authority has a userinfo, a host and a
    port, given what the userinfo is read as. *)
Lemma SS_parseBody_creds (url u h : jstr) (n : Z) (c : SS.Creds)
    (d : list jstr) :
  authorityOfSS url = mkAuthority (Some u) (Some h) (Some n) -> h <> [] ->
  (forall ws, SS.parseUserinfoToCreds (Some u) ws = (inr c, ws ++ d)) ->
  returns (SS.parseBody url)
    (ssRecord (trim (safeDecodeURIComponent h)) n (SS.method c) (SS.password c)
       (if truthy (SS.userinfoDecoded c) then js "legacy" else js "sip002-plain")).
Proof.
  intros Ha Hh Hc.
  assert (Hn : 1 <= n <= 65535).
  { pose proof (parseAuthority_port
                  (Some (match authority (splitUrlLoosely (trim url)) with
                         | Some x => x
                         | None => path (splitUrlLoosely (trim url))
                         end))) as Hp.
    unfold authorityOfSS in Ha. cbv zeta in Ha. rewrite Ha in Hp. exact Hp. }
  assert (E : isEmpty (trim url) = false).
  { destruct (trim url) eqn:Et; [| reflexivity].
    unfold authorityOfSS in Ha. rewrite Et in Ha. vm_compute in Ha.
    discriminate Ha. }
  unfold authorityOfSS in Ha. cbv zeta in Ha.
  unfold SS.parseBody. cbv zeta. rewrite E. body_step. body_step.
  rewrite Ha.
  eapply returns_bind
    with (Q := fun main =>
                 main = SS.mkMain (trim (safeDecodeURIComponent h)) n
                          (SS.method c) (SS.password c)
                          (if truthy (SS.userinfoDecoded c)
                           then js "legacy" else js "sip002-plain")).
  { intros ws. unfold SS.parseMain. cbv zeta.
    cbn [host port userinfo asStr ofIntN asPort safeDecodeURIComponentN].
    assert (Ht : truthy h = true) by (destruct h; [contradiction | reflexivity]).
    rewrite Ht. cbn [andb].
    assert (Hp : isPort (ofInt n) = true).
    { unfold isPort, ofInt. apply andb_true_iff. split; apply Z.leb_le; lia. }
    rewrite Hp.
    replace (n =? 0) with false by (symmetry; apply Z.eqb_neq; lia).
    unfold bind, when, ret. rewrite Hc.
    eexists. eexists. split; reflexivity. }
  intros main ->. repeat body_step. apply returns_node. intros ws.
  repeat split.
Qed.

End WithBuiltins.
End SSFacts.

(* ================================================================== *)
(** ** From the record to the proxy *)
(* ================================================================== *)

Ltac trimmed :=
  repeat apply RecordFacts2.orElse_trimmed;
  lazymatch goal with
  | |- Spec.noOuterWhite (JS.trim _) => apply RecordFacts2.trim_noOuter
  | |- Spec.noOuterWhite (match ?o with _ => _ end) =>
      destruct o; [apply RecordFacts2.trim_noOuter | split; exact I]
  | |- Spec.noOuterWhite [] => split; exact I
  | |- Spec.noOuterWhite _ => split; vm_compute; reflexivity
  end.

(** The record at the end of a parser body is tidy. *)
Ltac tidy_ok :=
  apply Returns.returns_node; intros ?;
  split;
  [ eexists; split; [reflexivity |]; split;
    [ trimmed
    | first [apply RecordFacts2.orElse_nonempty; literal_nonempty
            | literal_nonempty] ]
  | split;
    [ eexists; split; [reflexivity | trimmed]
    | split;
      [ eexists; reflexivity
      | eexists; split; [reflexivity | trimmed] ] ] ].

Module ConvertFacts.
Import JS Codec Val Utils Eff Common Dispatcher Spec Props Converters.
Import StrFacts TextFacts Returns ParserFacts PluginFacts RecordFacts2.
Local Open Scope eff_scope.

Section WithBuiltins.
Context {B : Builtins}.
Variable Number_text : jstr -> jsnum.

Lemma orElse_same (s d : jstr) :
  noOuterWhite s -> s <> [] -> orElse (trim s) d = s.
Proof.
  intros Hw Hn. rewrite (trim_noOuterWhite s Hw). unfold orElse, truthy.
  destruct s; [contradiction | reflexivity].
Qed.

Lemma orElse_trim (s : jstr) : noOuterWhite s -> orElse (trim s) [] = s.
Proof.
  intros Hw. rewrite (trim_noOuterWhite s Hw). unfold orElse, truthy.
  destruct s; reflexivity.
Qed.

Lemma orZero_int (z : Z) : orZero (NInt z) = NInt z.
Proof.
  unfold orZero, truthyV. destruct (z =? 0) eqn:E; [| reflexivity].
  apply Z.eqb_eq in E. subst. reflexivity.
Qed.

(** The first fields of the proxy of a tidy record. *)
Lemma Hysteria2_convert_tidy (node : jsval) :
  tidy node -> carriesOver "hysteria2" node (Hysteria2_convert Number_text node).
Proof.
  intros ((name & Hn & Wn & Nn) & (server & Hs & Ws) & (port & Hp)
          & (password & Hpw & Wp)).
  unfold carriesOver. rewrite Hn, Hs, Hp, Hpw.
  unfold Hysteria2_convert. cbv zeta.
  change (pick node "name") with (field "name" node).
  change (pick node "server") with (field "server" node).
  change (pick node "port") with (field "port" node).
  change (pick node "password") with (field "password" node).
  rewrite Hn, Hs, Hp, Hpw.
  change (asString (VStr name)) with name.
  change (asString (VStr server)) with server.
  change (asString (VStr password)) with password.
  cbn [Number]. rewrite orZero_int.
  rewrite (orElse_same name _ Wn Nn), (orElse_trim server Ws),
    (orElse_trim password Wp).
  repeat split.
Qed.

Lemma Trojan_convert_tidy (node : jsval) :
  tidy node -> carriesOver "trojan" node (Trojan_convert Number_text node).
Proof.
  intros ((name & Hn & Wn & Nn) & (server & Hs & Ws) & (port & Hp)
          & (password & Hpw & Wp)).
  unfold carriesOver. rewrite Hn, Hs, Hp, Hpw.
  unfold Trojan_convert. cbv zeta.
  change (pick node "name") with (field "name" node).
  change (pick node "server") with (field "server" node).
  change (pick node "port") with (field "port" node).
  change (pick node "password") with (field "password" node).
  rewrite Hn, Hs, Hp, Hpw.
  change (asString (VStr name)) with name.
  change (asString (VStr server)) with server.
  change (asString (VStr password)) with password.
  cbn [Number]. rewrite orZero_int.
  rewrite (orElse_same name _ Wn Nn), (orElse_trim server Ws),
    (orElse_trim password Wp).
  repeat split.
Qed.

Lemma Hysteria2_tidy url : returns (Hysteria2.parseBody url) tidy.
Proof.
  unfold Hysteria2.parseBody. cbv zeta.
  destruct (isEmpty (trim url)); repeat body_step; tidy_ok.
Qed.

Lemma Trojan_tidy url : returns (Trojan.parseBody url) tidy.
Proof.
  unfold Trojan.parseBody. cbv zeta.
  destruct (isEmpty (trim url)); repeat body_step; tidy_ok.
Qed.

End WithBuiltins.
End ConvertFacts.

(* ================================================================== *)
(** ** The transport of a record *)
(* ================================================================== *)

Module SetFacts.
Import JS Codec Val Utils Eff Common Spec Props StrFacts.

Lemma setHas_in (l : list string) (x : jstr) :
  setHas l x = true -> In x (map js l).
Proof.
  unfold setHas. intros H. apply existsb_exists in H.
  destruct H as (k & Hk & E). apply str_eqb_eq in E. subst x.
  apply in_map. exact Hk.
Qed.

End SetFacts.

(** The last step of a parser body: the network is one of the set, by
    cases on the set. *)
Ltac transport_ok :=
  apply Returns.returns_node; intros ?;
  match goal with
  | |- context [Common.setHas ?l ?n] =>
      let E := fresh "E" in
      destruct (Common.setHas l n) eqn:E;
      [ apply SetFacts.setHas_in in E; cbn [map In] in E;
        repeat (destruct E as [E | E]); try contradiction; rewrite <- E
      | ];
      (eexists; split; [reflexivity |];
       split; [cbn [map In]; tauto |];
       intros k Hk Hn; cbn [In] in Hk;
       repeat (destruct Hk as [Hk | Hk]); try contradiction; subst k;
       first [exfalso; apply Hn; reflexivity | reflexivity])
  end.

Module TransportFacts.
Import JS Codec Val Utils Eff Common Dispatcher Spec Props.
Import StrFacts TextFacts Returns ParserFacts PluginFacts RecordFacts2.
Local Open Scope eff_scope.

Section WithBuiltins.
Context {B : Builtins}.

Lemma VLESS_transport url :
  returns (VLESS.parseBody url) (transportOf ["tcp"; "ws"; "grpc"; "http"]%string).
Proof. unfold VLESS.parseBody. cbv zeta. repeat body_step. transport_ok. Qed.

Lemma Trojan_transport url :
  trim url <> [] ->
  returns (Trojan.parseBody url) (transportOf ["tcp"; "ws"; "grpc"]%string).
Proof.
  intros Hu. unfold Trojan.parseBody. cbv zeta.
  destruct (isEmpty (trim url)) eqn:E.
  - destruct (trim url); [contradiction | discriminate E].
  - repeat body_step. transport_ok.
Qed.

Lemma VMess_transport url :
  trim url <> [] ->
  returns (VMess.parseBody url)
          (transportOf ["tcp"; "ws"; "grpc"; "http"; "h2"]%string).
Proof.
  intros Hu. unfold VMess.parseBody. cbv zeta.
  destruct (isEmpty (trim url)) eqn:E.
  - destruct (trim url); [contradiction | discriminate E].
  - repeat body_step. transport_ok.
Qed.

End WithBuiltins.
End TransportFacts.

(* ================================================================== *)
(** ** Shadowsocks: from the link to the proxy *)
(* ================================================================== *)

Module SSConvertFacts.
Import JS Codec Val Utils Eff Common Dispatcher Spec Props Converters.
Import StrFacts TextFacts Returns ParserFacts PluginFacts RecordFacts2.
Import ConvertFacts.
Local Open Scope eff_scope.

Section WithBuiltins.
Context {B : Builtins}.

Lemma SS_parseMethodPassword_trimmed text :
  returns (SS.parseMethodPassword text) trimmedPair.
Proof.
  unfold SS.parseMethodPassword. cbv zeta.
  destruct (isEmpty (trim text)).
  - body_step. apply returns_ret. split; apply noOuterWhite_empty.
  - destruct (indexOf (js ":") (trim text) <? 0).
    + body_step. apply returns_ret.
      split; [apply trim_noOuter | apply noOuterWhite_empty].
    + body_step. body_step. apply returns_ret. split; apply trim_noOuter.
Qed.

Lemma SS_creds_of_pair d text :
  returns (mp <- SS.parseMethodPassword text ;;
           ret (SS.mkCreds (fst mp) (snd mp) d)) trimmedCreds.
Proof.
  eapply returns_bind; [apply SS_parseMethodPassword_trimmed |].
  intros mp H. apply returns_ret. exact H.
Qed.

Lemma SS_parseUserinfoToCreds_trimmed u :
  returns (SS.parseUserinfoToCreds u) trimmedCreds.
Proof.
  unfold SS.parseUserinfoToCreds. cbv zeta.
  destruct (isEmpty (trim (safeDecodeURIComponent (asStr u)))).
  - body_step. apply returns_ret. split; apply noOuterWhite_empty.
  - destruct (base64DecodeUtf8 (trim (safeDecodeURIComponent (asStr u))))
      as [dec |]; [| apply SS_creds_of_pair].
    lazymatch goal with
    | |- returns (if ?c then _ else _) _ => destruct c
    end; [body_step |]; apply SS_creds_of_pair.
Qed.

Lemma SS_parseMain_trimmed a1 : returns (SS.parseMain a1) trimmedMain.
Proof.
  unfold SS.parseMain. cbv zeta.
  repeat lazymatch goal with
         | |- returns (if ?c then _ else _) _ => destruct c
         | |- returns (match ?x with _ => _ end) _ => destruct x
         end.
  - body_step.
    eapply returns_bind; [apply SS_parseUserinfoToCreds_trimmed |].
    intros c (H1 & H2). apply returns_ret.
    split; [apply trim_noOuter | split; assumption].
  - body_step.
    eapply returns_bind; [apply SS_parseUserinfoToCreds_trimmed |].
    intros c (H1 & H2). body_step. body_step. apply returns_ret.
    split; [apply trim_noOuter | split; assumption].
  - body_step. apply returns_ret. repeat split.
  - body_step. apply returns_ret. repeat split.
Qed.

Lemma SS_tidy url : returns (SS.parseBody url) tidySS.
Proof.
  unfold SS.parseBody. cbv zeta.
  destruct (isEmpty (trim url)).
  - body_step. apply returns_node. intros ws.
    split; [| eexists; split; [reflexivity | apply noOuterWhite_empty]].
    split; [eexists; split; [reflexivity |];
            split; [split; vm_compute; reflexivity | discriminate] |].
    split; [eexists; split; [reflexivity | apply noOuterWhite_empty] |].
    split; [eexists; reflexivity |].
    eexists; split; [reflexivity | apply noOuterWhite_empty].
  - body_step. body_step.
    eapply returns_bind; [apply SS_parseMain_trimmed |].
    intros main (Hs & Hm & Hp). repeat body_step.
    apply returns_node. intros ws.
    split; [| eexists; split; [reflexivity | exact Hm]].
    split.
    { eexists; split; [reflexivity |]. split.
      - repeat apply orElse_trimmed.
        + destruct (fragment (splitUrlLoosely (trim url)));
            [apply trim_noOuter | apply noOuterWhite_empty].
        + exact Hs.
        + split; vm_compute; reflexivity.
      - apply orElse_nonempty. discriminate. }
    split; [eexists; split; [reflexivity | exact Hs] |].
    split; [eexists; reflexivity |].
    eexists; split; [reflexivity | exact Hp].
Qed.

Variable Number_text : jstr -> jsnum.

(** The first fields of the proxy of a tidy record. *)
Lemma SS_convert_tidy (node : jsval) :
  tidySS node ->
  carriesOver "ss" node (SS_convert Number_text node)
  /\ field "cipher" (SS_convert Number_text node) = field "cipher" node.
Proof.
  intros (((name & Hn & Wn & Nn) & (server & Hs & Ws) & (port & Hp)
           & (password & Hpw & Wp)) & (cipher & Hc & Wc)).
  unfold carriesOver. rewrite Hn, Hs, Hp, Hpw, Hc.
  unfold SS_convert. cbv zeta.
  change (pick node "name") with (field "name" node).
  change (pick node "server") with (field "server" node).
  change (pick node "port") with (field "port" node).
  change (pick node "password") with (field "password" node).
  change (pick node "cipher") with (field "cipher" node).
  rewrite Hn, Hs, Hp, Hpw, Hc.
  change (orNullish (VStr cipher) (pick node "method")) with (VStr cipher).
  change (asString (VStr name)) with name.
  change (asString (VStr server)) with server.
  change (asString (VStr password)) with password.
  change (asString (VStr cipher)) with cipher.
  cbn [Number]. rewrite orZero_int.
  rewrite (orElse_same name _ Wn Nn), (orElse_trim server Ws),
    (orElse_trim password Wp), (orElse_trim cipher Wc).
  repeat split.
Qed.

(** The plugin of a link with the [obfs] plugin of SIP003 and its two
    options. *)
Lemma SS_convert_obfs (node : jsval) (name m h : jstr) :
  field "plugin" node = VStr name ->
  field "pluginOpts" node
  = expectedOpts [(js "obfs", m); (js "obfs-host", h)] ->
  noOuterWhite name -> name <> [] ->
  In (toLowerCase name) (map js ["obfs-local"; "simple-obfs"; "obfs"]%string) ->
  noOuterWhite m -> m <> [] -> noOuterWhite h -> h <> [] ->
  field "plugin" (SS_convert Number_text node) = VStr (js "obfs")
  /\ field "plugin-opts" (SS_convert Number_text node)
     = VObj [(js "mode", VStr m); (js "host", VStr h)].
Proof.
  intros Hp Ho Wn Nn Hl Wm Nm Wh Nh.
  unfold SS_convert. cbv zeta.
  change (pick node "plugin") with (field "plugin" node).
  change (pick node "pluginOpts") with (field "pluginOpts" node).
  rewrite Hp, Ho.
  change (asString (VStr name)) with name.
  rewrite (trim_noOuterWhite name Wn).
  assert (En : SS_normalizePluginName (VStr name) = js "obfs").
  { unfold SS_normalizePluginName. cbv zeta.
    change (asString (VStr name)) with name.
    rewrite (trim_noOuterWhite name Wn).
    destruct name as [| c name]; [contradiction |]. cbn [isEmpty].
    cbn [map In] in Hl.
    destruct Hl as [<- | [<- | [<- | []]]]; reflexivity. }
  assert (Eo : SS_buildPluginOpts (VStr name)
                 (expectedOpts [(js "obfs", m); (js "obfs-host", h)])
               = Some [(js "mode", VStr m); (js "host", VStr h)]).
  { unfold SS_buildPluginOpts. cbv zeta. rewrite En.
    cbn [expectedOpts fold_left fst snd].
    change (isEmpty (js "obfs")) with false.
    change (str_eqb (js "obfs") (js "obfs")) with true. cbv iota.
    assert (E1 : forall o,
               o = setProp (js "obfs-host") (VStr h)
                     (setProp (js "obfs") (VStr m) []) ->
               orNullish (pick (VObj o) "obfs") (pick (VObj o) "mode") = VStr m)
      by (intros o ->; reflexivity).
    assert (E2 : forall o,
               o = setProp (js "obfs-host") (VStr h)
                     (setProp (js "obfs") (VStr m) []) ->
               orNullish (pick (VObj o) "obfs-host") (pick (VObj o) "host")
               = VStr h)
      by (intros o ->; reflexivity).
    rewrite (E1 _ eq_refl), (E2 _ eq_refl).
    change (asString (VStr m)) with m. change (asString (VStr h)) with h.
    rewrite (trim_noOuterWhite m Wm), (trim_noOuterWhite h Wh).
    destruct m as [| c1 m]; [contradiction |].
    destruct h as [| c2 h]; [contradiction |]. reflexivity. }
  rewrite En, Eo. split; reflexivity.
Qed.

Lemma SS_obfs_proxy (link enc name m h : jstr) :
  carriesPlugin false link enc name [(js "obfs", m); (js "obfs-host", h)] ->
  In (toLowerCase name) (map js ["obfs-local"; "simple-obfs"; "obfs"]%string) ->
  m <> [] -> h <> [] ->
  returns (SS.parseBody link)
    (fun node =>
       field "plugin" (SS_convert Number_text node) = VStr (js "obfs")
       /\ field "plugin-opts" (SS_convert Number_text node)
          = VObj [(js "mode", VStr m); (js "host", VStr h)]).
Proof.
  intros Hc Hl Nm Nh.
  eapply returns_weaken; [apply (SS_parseBody_plugin link enc); exact Hc |].
  cbn beta. intros node (Hp & Ho).
  destruct Hc as (_ & _ & _ & (Nn & Wn & _) & Hopts).
  inversion Hopts as [| kv1 l1 (_ & Wm & _) Hrest]; subst.
  inversion Hrest as [| kv2 l2 (_ & Wh & _) _]; subst.
  cbn [fst snd] in Wm, Wh.
  apply SS_convert_obfs with (name := name); assumption.
Qed.

End WithBuiltins.
End SSConvertFacts.

(* ================================================================== *)
(** ** The network of a proxy *)
(* ================================================================== *)

Module KeyFacts.
Import JS Codec Val Utils Eff Common Spec Props Converters StrFacts.

Lemma getProp_app_skip (k : jstr) (l1 l2 : obj) :
  hasKey k l1 = false -> getProp k (l1 ++ l2) = getProp k l2.
Proof.
  induction l1 as [| [k' v] l1 IH]; intros H; [reflexivity |].
  cbn in H |- *. apply orb_false_iff in H. destruct H as [H1 H2].
  rewrite H1. apply IH. exact H2.
Qed.

Lemma getProp_app_here (k : jstr) (l1 l2 : obj) :
  hasKey k l1 = true -> getProp k (l1 ++ l2) = getProp k l1.
Proof.
  induction l1 as [| [k' v] l1 IH]; intros H; [discriminate H |].
  cbn in H |- *. destruct (str_eqb k k'); [reflexivity |].
  apply IH. exact H.
Qed.

Lemma getProp_absent (k : jstr) (l : obj) :
  hasKey k l = false -> getProp k l = VUndef.
Proof.
  intros H. rewrite <- (app_nil_r l). rewrite getProp_app_skip by exact H.
  reflexivity.
Qed.

Lemma hasKey_setIf (k : jstr) (c : bool) (key : string) (v : jsval) :
  str_eqb k (js key) = false -> hasKey k (setIf c key v) = false.
Proof. intros H. destruct c; cbn; rewrite ?H; reflexivity. Qed.

Section WithBuiltins.
Context {B : Builtins}.

Lemma hasKey_alpnOf (k : jstr) (a : jsval) :
  str_eqb k (js "alpn") = false -> hasKey k (alpnOf a) = false.
Proof.
  intros H. destruct a as [| | | | | l |]; try reflexivity.
  destruct l; [reflexivity |]. cbn in H |- *. rewrite H. reflexivity.
Qed.

End WithBuiltins.

Lemma hasKey_smuxOf (k : jstr) (s : jsval) :
  str_eqb k (js "smux") = false -> hasKey k (smuxOf s) = false.
Proof.
  intros H. destruct s as [| | | | | |o]; try reflexivity.
  destruct o; [reflexivity |]. cbn in H |- *. rewrite H. reflexivity.
Qed.

Lemma hasKey_objectOf (k : jstr) (key : string) (o : obj) :
  str_eqb k (js key) = false -> hasKey k (objectOf key o) = false.
Proof. intros H. destruct o; cbn; rewrite ?H; reflexivity. Qed.

End KeyFacts.

(** A key that the first part of an object does not have is looked up in
    the rest. *)
Ltac no_key :=
  first [ reflexivity
        | apply KeyFacts.hasKey_setIf; reflexivity
        | apply KeyFacts.hasKey_alpnOf; reflexivity
        | apply KeyFacts.hasKey_smuxOf; reflexivity
        | apply KeyFacts.hasKey_objectOf; reflexivity ].

Ltac skip_keys :=
  repeat (rewrite KeyFacts.getProp_app_skip by no_key);
  try (rewrite KeyFacts.getProp_absent by no_key).

Module NetworkFacts.
Import JS Codec Val Utils Eff Common Dispatcher Spec Props Converters.
Import StrFacts TextFacts Returns ParserFacts PluginFacts RecordFacts2 SetFacts.
Import KeyFacts.
Local Open Scope eff_scope.

Section WithBuiltins.
Context {B : Builtins}.

Lemma Trojan_transport_ready url :
  returns (Trojan.parseBody url) trojanTransport.
Proof.
  unfold Trojan.parseBody. cbv zeta.
  destruct (isEmpty (trim url)).
  - body_step. apply returns_node. intros ws. left. reflexivity.
  - repeat body_step. apply returns_node. intros ws. right.
    eexists. split; [reflexivity |].
    match goal with
    | |- context [setHas ?l ?n] =>
        destruct (setHas l n) eqn:E;
        [ apply setHas_in in E; cbn [map In] in E;
          repeat (destruct E as [E | E]); try contradiction; rewrite <- E
        | ]
    end.
    + left. reflexivity.
    + right. left. split; [reflexivity |].
      eexists. split; [reflexivity |]. split.
      * apply orElse_trimmed; [apply trim_noOuter | split; vm_compute; reflexivity].
      * apply orElse_nonempty. discriminate.
    + right. right. reflexivity.
    + left. reflexivity.
Qed.

Variable Number_text : jstr -> jsnum.

Lemma Trojan_convert_network (node : jsval) :
  trojanTransport node -> proxyNetwork (Trojan_convert Number_text node).
Proof.
  intros H. unfold proxyNetwork, Trojan_convert, field. cbv zeta.
  change (pick node "transport") with (field "transport" node).
  destruct H as [H | (t & H & Hn)]; rewrite H.
  - left. change (orObject VUndef) with (VObj []).
    change (trim (asString (pick (VObj []) "network"))) with (@nil N).
    cbn [str_eqb truthy isEmpty negb andb].
    repeat split; skip_keys; reflexivity.
  - change (orObject (VObj t)) with (VObj t).
    change (pick (VObj t) "network") with (getProp (js "network") t).
    change (pick (VObj t) "ws") with (getProp (js "ws") t).
    destruct Hn as [Hn | [(Hn & p & Hp & Wp & Np) | Hn]]; rewrite Hn.
    + left. change (trim (asString (VStr (js "tcp")))) with (js "tcp").
      change (str_eqb (js "tcp") (js "ws")) with false.
      change (str_eqb (js "tcp") (js "grpc")) with false.
      change (truthy (js "tcp") && negb (str_eqb (js "tcp") (js "tcp")))
        with false.
      cbv iota. repeat split; skip_keys; reflexivity.
    + right. left. change (trim (asString (VStr (js "ws")))) with (js "ws").
      change (str_eqb (js "ws") (js "ws")) with true.
      change (truthy (js "ws") && negb (str_eqb (js "ws") (js "tcp")))
        with true.
      cbv iota.
      assert (Ew : exists o, getProp (js "ws") t = VObj o
                             /\ getProp (js "path") o = VStr p).
      { destruct (getProp (js "ws") t); try discriminate Hp.
        eexists. split; [reflexivity | exact Hp]. }
      destruct Ew as (o & Eo & Ep). rewrite Eo.
      change (orObject (VObj o)) with (VObj o).
      change (pick (VObj o) "path") with (getProp (js "path") o).
      rewrite Ep. change (asString (VStr p)) with p.
      rewrite (trim_noOuterWhite p Wp).
      assert (Tp : truthy p = true) by (destruct p; [contradiction | reflexivity]).
      rewrite Tp.
      split; [skip_keys; reflexivity |].
      split; [| skip_keys; reflexivity].
      exists p. split; [| exact Np]. skip_keys. reflexivity.
    + right. right. change (trim (asString (VStr (js "grpc")))) with (js "grpc").
      change (str_eqb (js "grpc") (js "ws")) with false.
      change (str_eqb (js "grpc") (js "grpc")) with true.
      change (truthy (js "grpc") && negb (str_eqb (js "grpc") (js "tcp")))
        with true.
      cbv iota. split; skip_keys; reflexivity.
Qed.

End WithBuiltins.
End NetworkFacts.

(* ================================================================== *)
(** ** VLESS: from the link to the proxy *)
(* ================================================================== *)

Module VLESSConvertFacts.
Import JS Codec Val Utils Eff Common Dispatcher Spec Props Converters.
Import StrFacts TextFacts Returns ParserFacts PluginFacts RecordFacts2 SetFacts.
Import ConvertFacts KeyFacts.
Local Open Scope eff_scope.

Section WithBuiltins.
Context {B : Builtins}.

Lemma VLESS_normalizeUuidPlain_trimmed raw :
  noOuterWhite raw -> returns (VLESS.normalizeUuidPlain raw) noOuterWhite.
Proof.
  intros H. unfold VLESS.normalizeUuidPlain. cbv zeta.
  destruct (isUuid raw); [apply returns_ret; exact H |].
  lazymatch goal with
  | |- returns (if ?c then _ else _) _ => destruct c
  end; body_step; apply returns_ret; [apply trim_noOuter | exact H].
Qed.

Lemma VLESS_normalizeUuid_trimmed uuidRaw :
  returns (VLESS.normalizeUuid uuidRaw) noOuterWhite.
Proof.
  unfold VLESS.normalizeUuid. cbv zeta.
  destruct (isEmpty (trim uuidRaw)).
  { body_step. apply returns_ret. apply noOuterWhite_empty. }
  destruct (VLESS.hasUuidPrefix (trim uuidRaw));
    [| apply VLESS_normalizeUuidPlain_trimmed, trim_noOuter].
  lazymatch goal with
  | |- returns (if ?c then _ else _) _ => destruct c
  end; [body_step; apply returns_ret; apply trim_noOuter |].
  lazymatch goal with
  | |- returns (if ?c then _ else _) _ => destruct c
  end; [body_step; apply returns_ret; apply trim_noOuter |].
  apply VLESS_normalizeUuidPlain_trimmed, trim_noOuter.
Qed.

Lemma VLESS_tidy url : returns (VLESS.parseBody url) tidyVLESS.
Proof.
  unfold VLESS.parseBody. cbv zeta. body_step.
  eapply returns_bind; [apply VLESS_normalizeUuid_trimmed |].
  intros uuid Hu. repeat body_step.
  apply returns_node. intros ws.
  split.
  { eexists; split; [reflexivity |]. split.
    - repeat apply orElse_trimmed;
        [apply trim_noOuter | apply trim_noOuter
        | split; vm_compute; reflexivity].
    - apply orElse_nonempty. discriminate. }
  split; [eexists; split; [reflexivity | apply trim_noOuter] |].
  split; [eexists; reflexivity |].
  eexists; split; [reflexivity | exact Hu].
Qed.

Lemma VLESS_transport_ready url :
  returns (VLESS.parseBody url) vlessTransport.
Proof.
  unfold VLESS.parseBody. cbv zeta. repeat body_step.
  apply returns_node. intros ws.
  eexists. split; [reflexivity |].
  assert (Hp : forall x, noOuterWhite (orElse (trim x) (js "/"))
                         /\ orElse (trim x) (js "/") <> []).
  { intros x. split.
    - apply orElse_trimmed; [apply trim_noOuter | split; vm_compute; reflexivity].
    - apply orElse_nonempty. discriminate. }
  match goal with
  | |- context [setHas ?l ?n] =>
      destruct (setHas l n) eqn:E;
      [ apply setHas_in in E; cbn [map In] in E;
        repeat (destruct E as [E | E]); try contradiction; rewrite <- E
      | ]
  end.
  - left. reflexivity.
  - right. left. split; [reflexivity |].
    eexists. split; [reflexivity | apply Hp].
  - right. right. left. reflexivity.
  - right. right. right. split; [reflexivity |].
    eexists. split; [reflexivity | apply Hp].
  - left. reflexivity.
Qed.

Lemma VLESS_tls_ready url :
  returns (VLESS.parseBody url) (fun node => exists e, vlessTls e node).
Proof.
  unfold VLESS.parseBody. cbv zeta. repeat body_step.
  apply returns_node. intros ws.
  eexists. eexists. split; [reflexivity |]. split; [reflexivity |].
  intros H. apply orb_false_iff in H. destruct H as [H1 H2].
  rewrite ?H2, ?H1. split; reflexivity.
Qed.

Variable Number_text : jstr -> jsnum.

Lemma VLESS_convert_tidy (node : jsval) :
  tidyVLESS node -> carriesUuid node (VLESS_convert Number_text node).
Proof.
  intros ((name & Hn & Wn & Nn) & (server & Hs & Ws) & (port & Hp)
          & (uuid & Hu & Wu)).
  unfold carriesUuid. rewrite Hn, Hs, Hp, Hu.
  unfold VLESS_convert. cbv zeta.
  change (pick node "name") with (field "name" node).
  change (pick node "server") with (field "server" node).
  change (pick node "port") with (field "port" node).
  change (pick node "uuid") with (field "uuid" node).
  rewrite Hn, Hs, Hp, Hu.
  change (asString (VStr name)) with name.
  change (asString (VStr server)) with server.
  change (asString (VStr uuid)) with uuid.
  cbn [Number]. rewrite orZero_int.
  rewrite (orElse_same name _ Wn Nn), (orElse_trim server Ws),
    (orElse_trim uuid Wu).
  repeat split.
Qed.

(** The options of a network whose sub-object has a path. *)
Lemma options_path (key : string) (t : obj) (k : string) (rest : obj)
    (hostKey : jsval) :
  hasPath k t ->
  let sub := orObject (pick (VObj t) k) in
  let path := trim (asString (pick sub "path")) in
  exists p o,
    objectOf key (setIf (truthy path) "path" (VStr path) ++ rest)
    = [(js key, VObj ((js "path", VStr p) :: o))]
    /\ p <> [].
Proof.
  intros (p & Hp & Wp & Np). cbv zeta.
  change (pick (VObj t) k) with (getProp (js k) t).
  destruct (getProp (js k) t) as [| | | | | |o]; try discriminate Hp.
  change (orObject (VObj o)) with (VObj o).
  change (pick (VObj o) "path") with (field "path" (VObj o)).
  rewrite Hp. change (asString (VStr p)) with p.
  rewrite (trim_noOuterWhite p Wp).
  assert (Tp : truthy p = true) by (destruct p; [contradiction | reflexivity]).
  rewrite Tp. exists p, rest. split; [reflexivity | exact Np].
Qed.

Lemma VLESS_convert_network (node : jsval) :
  vlessTransport node -> proxyNetworkVLESS (VLESS_convert Number_text node).
Proof.
  intros (t & H & Hn).
  unfold proxyNetworkVLESS, optsPath, VLESS_convert, field. cbv zeta.
  change (pick node "transport") with (field "transport" node). rewrite H.
  change (orObject (VObj t)) with (VObj t).
  change (pick (VObj t) "network") with (getProp (js "network") t).
  destruct Hn as [Hn | [(Hn & Hp) | [Hn | (Hn & Hp)]]]; rewrite Hn.
  - left. change (trim (asString (VStr (js "tcp")))) with (js "tcp").
    change (str_eqb (js "tcp") (js "ws")) with false.
    change (str_eqb (js "tcp") (js "grpc")) with false.
    change (str_eqb (js "tcp") (js "http")) with false.
    change (truthy (js "tcp") && negb (str_eqb (js "tcp") (js "tcp")))
      with false.
    cbv iota. repeat split; skip_keys; reflexivity.
  - right. left. change (trim (asString (VStr (js "ws")))) with (js "ws").
    change (str_eqb (js "ws") (js "ws")) with true.
    change (truthy (js "ws") && negb (str_eqb (js "ws") (js "tcp")))
      with true.
    cbv iota.
    lazymatch goal with
    | |- context [objectOf "ws-opts" (_ ++ ?rest)] =>
        destruct (options_path "ws-opts" t "ws" rest VUndef Hp)
          as (p & o & E & Np)
    end.
    cbv zeta in E. rewrite E.
    split; [skip_keys; reflexivity |].
    split; [exists p; split; [skip_keys; reflexivity | exact Np] |].
    split; skip_keys; reflexivity.
  - right. right. left.
    change (trim (asString (VStr (js "grpc")))) with (js "grpc").
    change (str_eqb (js "grpc") (js "ws")) with false.
    change (str_eqb (js "grpc") (js "grpc")) with true.
    change (truthy (js "grpc") && negb (str_eqb (js "grpc") (js "tcp")))
      with true.
    cbv iota. repeat split; skip_keys; reflexivity.
  - right. right. right.
    change (trim (asString (VStr (js "http")))) with (js "http").
    change (str_eqb (js "http") (js "ws")) with false.
    change (str_eqb (js "http") (js "grpc")) with false.
    change (str_eqb (js "http") (js "http")) with true.
    change (truthy (js "http") && negb (str_eqb (js "http") (js "tcp")))
      with true.
    cbv iota.
    lazymatch goal with
    | |- context [objectOf "http-opts" (_ ++ ?rest)] =>
        destruct (options_path "http-opts" t "http" rest VUndef Hp)
          as (p & o & E & Np)
    end.
    cbv zeta in E. rewrite E.
    split; [skip_keys; reflexivity |].
    split; [exists p; split; [skip_keys; reflexivity | exact Np] |].
    split; skip_keys; reflexivity.
Qed.

Lemma VLESS_convert_tls (node : jsval) (e : bool) :
  vlessTls e node -> proxyTls e (VLESS_convert Number_text node).
Proof.
  intros (t & Ht & He & Hoff).
  unfold proxyTls, VLESS_convert, field. cbv zeta.
  change (pick node "tls") with (field "tls" node). rewrite Ht.
  change (orObject (VObj t)) with (VObj t).
  change (pick (VObj t) "enabled") with (getProp (js "enabled") t).
  change (pick (VObj t) "security") with (getProp (js "security") t).
  change (pick (VObj t) "reality") with (getProp (js "reality") t).
  rewrite He. destruct e.
  - split; [skip_keys; reflexivity | right; reflexivity].
  - destruct (Hoff eq_refl) as (Hs & Hr). rewrite Hs, Hr.
    change (orObject VUndef) with (VObj []).
    change (trim (asString VNull)) with (@nil N).
    change (trim (asString (pick (VObj []) "pbk"))) with (@nil N).
    change (trim (asString (pick (VObj []) "sid"))) with (@nil N).
    cbn [truthy isEmpty negb orb]. cbn [setIf].
    split; [skip_keys; reflexivity |].
    left. skip_keys.
    repeat lazymatch goal with
           | |- context [if ?c then _ else _] => destruct c
           end; skip_keys; reflexivity.
Qed.

End WithBuiltins.
End VLESSConvertFacts.

(* ================================================================== *)
(** ** Candidate UUIDs in the record *)
(* ================================================================== *)

Module InvalidRecordFacts.
Import JS Codec Val Utils Eff Common Spec Props KeptUuids.
Import StrFacts AuthorityFacts Base64Facts UuidFacts InvalidUuidFacts.
Import PluginFacts KeepsFacts RecordFacts Returns ParserFacts RecordFacts2.
Import CheckFacts.
Local Open Scope eff_scope.














Section WithBuiltins.
Context {B : Builtins}.










End WithBuiltins.
End InvalidRecordFacts.

(* ================================================================== *)
(** ** The claims *)
(* ================================================================== *)

Module Claims.
Import JS Codec Val Utils Eff Common Dispatcher Spec Props KeptUuids.
Import Returns ParserFacts DispatcherFacts StrFacts AuthorityFacts.
Import Base64Facts UuidFacts InvalidUuidFacts PluginFacts.
Import KeepsFacts RecordFacts InvalidRecordFacts.

Section WithBuiltins.
Context {B : Builtins}.

(** C1. Every parser returns on every input: its [try] block does not
    throw and yields a record with [source], [type], [name], [server],
    [port], [extras] and [warnings]; the [catch] block, were it entered
    with an exception [e], pushes one warning and returns the zeroed record
    that carries the raw URL. *)
Theorem parsers_total (p : protocol) (url : jstr) :
  parserOf p url = run (tryCatch (tryOf p url) (catchOf p url))
  /\ (exists node ws,
        tryOf p url [] = (inr node, ws)
        /\ parserOf p url = inr node
        /\ shaped p node)
  /\ (forall e ws,
        let caught := js "解析异常（已捕获）：" ++ exnText e in
        exists node,
          catchOf p url e ws = (inr node, ws ++ [caught])
          /\ zeroedRecord p url (ws ++ [caught]) node).
Proof.
  split; [apply parserOf_run |]. split.
  - destruct (parserOf_wellFormed p url) as (node & ws & H1 & H2 & H3 & _).
    exists node, ws. auto.
  - intros e ws. apply catchOf_zeroed.
Qed.

(** C2. The [port] of the record of every parser, on every input, is an
    integer that is 0 or lies between 1 and 65535. *)
Theorem port_invariant (p : protocol) (url : jstr) :
  exists node port,
    parserOf p url = inr node
    /\ field "port" node = VNum (NInt port)
    /\ (port = 0 \/ 1 <= port <= 65535).
Proof.
  destruct (parserOf_wellFormed p url) as (node & ws & _ & H2 & _ & (n & Hn & Hr) & _).
  exists node, n. auto.
Qed.

(** C3, at the failing input.  On an input that is empty once trimmed the
    VLESS parser returns a record whose [extras.rawUrl] is [undefined],
    where each of the seven other parsers returns the empty string. *)
Theorem vless_blank_rawUrl_undefined :
  (exists node, VLESS.parse [] = inr node /\ rawUrlIs VUndef node)
  /\ (exists node, VLESS.parse (js "   ") = inr node /\ rawUrlIs VUndef node)
  /\ (forall p, p <> vless ->
        exists node, parserOf p [] = inr node /\ rawUrlIs (VStr []) node).
Proof.
  repeat split.
  - destruct (parserOf_wellFormed vless []) as (node & ws & _ & H2 & _ & _ & H3).
    exists node. split; [exact H2 | exact H3].
  - destruct (parserOf_wellFormed vless (js "   ")) as (node & ws & _ & H2 & _ & _ & H3).
    exists node. split; [exact H2 | exact H3].
  - intros p Hp.
    destruct (parserOf_wellFormed p []) as (node & ws & _ & H2 & _ & _ & H3).
    exists node. split; [exact H2 |]. destruct p; try exact H3. contradiction.
Qed.

(** C10. On an input that is not empty once trimmed, the records of the
    Hysteria and TUIC parsers have [tls.enabled = true] and
    [tls.security = "tls"], whatever the query says. *)
Theorem hysteria_tuic_tls_on (url : jstr) :
  trim url <> [] -> tlsAlwaysOn url.
Proof.
  intros H. split.
  - destruct (returns_parse _ (Hysteria.parseCatch url) _ (Hysteria_tlsOn url H))
      as (node & ws & H1 & H2 & H3).
    exists node, ws. auto.
  - destruct (returns_parse _ (TUIC.parseCatch url) _ (TUIC_tlsOn url H))
      as (node & ws & H1 & H2 & H3).
    exists node, ws. auto.
Qed.


(** C5. [parseBatchProxyLinks] skips the lines that are blank or lack
    [://]; the proxies are those of the lines that parse, in the order of
    the lines, and there is one error entry for each other line, with its
    1-based position among all the lines of the input.  A string is cut
    into lines at the line feeds. *)
Theorem parseBatch_spec
    (convert : protocol -> jsval -> jsval) (lines : list jstr) (text : jstr) :
  parseBatchProxyLinks convert (Lines lines)
  = mkBatchResult (expectedProxies convert lines)
                  (expectedErrors convert lines 1)
  /\ parseBatchProxyLinks convert (Text text)
     = parseBatchProxyLinks convert (Lines (split newline text))
  /\ (forall e,
        In e (errors (parseBatchProxyLinks convert (Lines lines))) ->
        exists i l,
          nth_error lines i = Some l
          /\ line e = Z.of_nat i + 1
          /\ qualifies l = true
          /\ link e = shorten (trim l)
          /\ parseProxyLink convert (trim l) = Failure (error e)).
Proof.
  assert (E : parseBatchProxyLinks convert (Lines lines)
              = mkBatchResult (expectedProxies convert lines)
                              (expectedErrors convert lines 1)).
  { unfold parseBatchProxyLinks. rewrite forEach_batch. reflexivity. }
  split; [exact E |]. split; [reflexivity |].
  rewrite E. cbn [errors]. apply expectedErrors_in.
Qed.

(** C6. [parseAuthority] on the [host:port] part [hp] of an authority:
    - [hp] starts with a bracket: the host is what lies between it and the
      first closing bracket, and a port is read after a colon that follows;
      without a closing bracket, [hp] is the host and there is no port;
    - otherwise, with more than one colon, [hp] is the host and there is no
      port;
    - with one colon, [hp] is split at it when the right-hand side is one
      to five digits of value 1..65535, and is the host otherwise.
    The two examples of the specification follow. *)
Theorem parseAuthority_host_port (a : jstr) :
  let hp := hostportOf a in
  let r := parseAuthority (Some a) in
  (startsWith (js "[") hp = true ->
     let close := indexOf (js "]") hp in
     (In (ch "]") hp ->
        0 < close
        /\ host r = Some (slice hp 1 close)
        /\ port r =
             (let rest := sliceFrom hp (close + 1) in
              if startsWith (js ":") rest
              then portOrNull (parseInt (sliceFrom rest 1))
              else None))
     /\ (~ In (ch "]") hp -> host r = Some hp /\ port r = None))
  /\ (startsWith (js "[") hp = false -> 1 < countChar (ch ":") hp ->
        host r = Some hp /\ port r = None)
  /\ (forall left right,
        hp = left ++ js ":" ++ right ->
        startsWith (js "[") hp = false ->
        ~ In (ch ":") left -> ~ In (ch ":") right ->
        if isPortText right
        then host r = strOrNone left /\ port r = Some (digitsValue 0 right)
        else host r = Some hp /\ port r = None)
  /\ parseAuthority (Some (js "[2001:db8::1]:443"))
     = mkAuthority None (Some (js "2001:db8::1")) (Some 443)
  /\ parseAuthority (Some (js "::1")) = mkAuthority None (Some (js "::1")) None.
Proof.
  cbv zeta.
  destruct (parseAuthority_cases a) as (H1 & H2 & _ & H4).
  split; [exact H1 |]. split; [exact H2 |]. split; [exact H4 |].
  split; vm_compute; reflexivity.
Qed.

(** C8. For a string [u] that matches the UUID pattern, the Base64 text of
    [u] given as the UUID of a VLESS, TUIC or VMess link is normalized to
    [u] itself, and the warning about the Base64 form is appended.  The
    record of a VLESS link whose userinfo is that text, and of a TUIC link
    whose userinfo is that text, a colon and a password, has the UUID [u]
    and the warning. *)
Theorem base64_uuid_recovered (u : jstr) :
  uuidRegex u = true -> base64UuidRecovered u /\ base64UuidInRecord u.
Proof.
  intros H. split; [repeat split; intros ws | split].
  - apply VLESS_normalizeUuid_base64. exact H.
  - apply TUIC_normalizeUuid_base64. exact H.
  - apply VMess_normalizeUuid_base64. exact H.
  - intros url Hui.
    exact (warnsAndReturns_parse _ _ (VLESS.parseCatch url) _
             (VLESS_parseBody_base64 url u H Hui)).
  - intros url password Hui Hp Hw.
    exact (warnsAndReturns_parse _ _ (TUIC.parseCatch url) _
             (TUIC_parseBody_base64 url u password H Hui Hp Hw)).
Qed.


(** C7, amended.  When the first parameter named [plugin] in the query of
    a Shadowsocks link, the query being cut at [&] only, has a value that
    decodes to [name;key=value;...], with a name, keys and values that
    have no white space at their ends and no [;], and decoding that text
    once more leaves it as it is, the record has [plugin = name] and the
    sub-options in [pluginOpts].  Percent signs may occur in the text. *)
Theorem plugin_preserved (link enc name : jstr) (opts : list (jstr * jstr)) :
  carriesPlugin true link enc name opts -> decodedOnce name opts ->
  pluginIs link name opts.
Proof.
  intros H Hd.
  destruct (returns_parse _ (SS.parseCatch link) _
              (SS_parseBody_decodedOnce true link enc name opts H Hd))
    as (node & ws & _ & H2 & H3 & H4).
  exists node. auto.
Qed.

End WithBuiltins.

End Claims.

(* ================================================================== *)
(** ** The claims at concrete inputs *)
(* ================================================================== *)

Module Instances.
Import JS Codec Val Utils Eff Common Dispatcher Spec Props KeptUuids Claims.
Import InvalidRecordFacts.

(** C7, as it is worded, fails: the decoded value [x%41;k=v] is decoded a
    second time by [parsePlugin], and the plugin name becomes [xA]. *)
Lemma plugin_decoded_twice : ~ pluginPreserved true.
Proof.
  intros H.
  assert (Hc : carriesPlugin true percentLink (js "x%2541%3Bk%3Dv")
                 (js "x%41") [(js "k", js "v")]).
  { split; [eexists; exists [], []; split; [vm_compute; reflexivity |];
            split; [vm_compute; reflexivity | constructor] |].
    split; [vm_compute; intuition discriminate |].
    split; [vm_compute; reflexivity |].
    split.
    - split; [discriminate |]. split; [split; vm_compute; reflexivity |].
      split; [vm_compute; intuition discriminate | discriminate].
    - constructor; [| constructor]. cbn [fst snd]. split.
      + split; [| vm_compute; intuition discriminate].
        split; [discriminate |]. split; [split; vm_compute; reflexivity |].
        split; [vm_compute; intuition discriminate | discriminate].
      + split; [split; vm_compute; reflexivity |].
        split; [vm_compute; intuition discriminate | discriminate]. }
  destruct (H Engine.builtins _ _ _ _ Hc) as (node & E & P & _).
  vm_compute in E. injection E as <-. vm_compute in P. discriminate P.
Qed.


(** The conditions on a link and its plugin value, by evaluation. *)
Ltac carries_plugin :=
  split; [eexists; exists [], []; split; [vm_compute; reflexivity |];
          split; [vm_compute; reflexivity | constructor] |];
  split; [vm_compute; intuition discriminate |];
  split; [vm_compute; reflexivity |];
  split;
  [ split; [discriminate |]; split; [split; vm_compute; reflexivity |];
    split; [vm_compute; intuition discriminate | discriminate]
  | repeat constructor; try discriminate; try (vm_compute; reflexivity);
    vm_compute; intuition discriminate ].

(** The example of the specification, a value with stray percent signs,
    and one with an escape that is not valid UTF-8. *)
Lemma plugin_preserved_witness :
  @pluginIs Engine.builtins pluginLink (js "obfs-local")
    [(js "obfs", js "http"); (js "obfs-host", js "example.com")]
  /\ @pluginIs Engine.builtins strayPercentLink (js "100%") [(js "k", js "5%")]
  /\ @pluginIs Engine.builtins brokenEscapeLink (js "x%E4") [(js "k", js "v")].
Proof.
  assert (H1 : carriesPlugin true pluginLink
                 (js "obfs-local%3Bobfs%3Dhttp%3Bobfs-host%3Dexample.com")
                 (js "obfs-local")
                 [(js "obfs", js "http"); (js "obfs-host", js "example.com")])
    by carries_plugin.
  assert (H2 : carriesPlugin true strayPercentLink (js "100%25%3Bk%3D5%25")
                 (js "100%") [(js "k", js "5%")]) by carries_plugin.
  assert (H3 : carriesPlugin true brokenEscapeLink (js "x%25E4%3Bk%3Dv")
                 (js "x%E4") [(js "k", js "v")]) by carries_plugin.
  split; [| split].
  - exact (@plugin_preserved Engine.builtins _ _ _ _ H1 eq_refl).
  - exact (@plugin_preserved Engine.builtins _ _ _ _ H2 eq_refl).
  - exact (@plugin_preserved Engine.builtins _ _ _ _ H3 eq_refl).
Defined.

Lemma base64_uuid_recovered_witness :
  uuidRegex someUuid = true
  /\ @base64UuidRecovered Engine.builtins someUuid
  /\ (exists node,
        @VLESS.parse Engine.builtins vlessBase64Link = inr node
        /\ uuidWithWarning someUuid
             (js "检测到非标准 Base64 UUID，已成功解码为标准 UUID") node)
  /\ (exists node,
        @TUIC.parse Engine.builtins tuicBase64Link = inr node
        /\ uuidWithWarning someUuid
             (js "检测到非标准 Base64 UUID：已成功解码为标准 UUID") node).
Proof.
  assert (H : uuidRegex someUuid = true) by (vm_compute; reflexivity).
  assert (Hv : userinfoOfVLESS vlessBase64Link = Some (base64Encode someUuid))
    by (vm_compute; reflexivity).
  assert (Ht : userinfoOfTUIC tuicBase64Link
               = Some (base64Encode someUuid ++ js ":" ++ js "secret"))
    by (vm_compute; reflexivity).
  assert (Hp : ~ In (ch "%") (js "secret")) by (vm_compute; intuition discriminate).
  assert (Hw : firstOk (rev (js "secret"))) by (vm_compute; reflexivity).
  pose proof (@base64_uuid_recovered Engine.builtins someUuid H) as (Hn & HV & HT).
  exact (conj H (conj Hn (conj (HV _ Hv) (HT _ _ Ht Hp Hw)))).
Defined.


Lemma hysteria_tuic_tls_on_witness :
  trim (js "tuic://u:p@example.com:443?security=none") <> []
  /\ @tlsAlwaysOn Engine.builtins (js "tuic://u:p@example.com:443?security=none").
Proof.
  assert (H : trim (js "tuic://u:p@example.com:443?security=none") <> [])
    by (vm_compute; discriminate).
  exact (conj H (@hysteria_tuic_tls_on Engine.builtins _ H)).
Defined.

Lemma parseAuthority_host_port_witness :
  host (parseAuthority (Some (js "user@example.com:443"))) = Some (js "example.com")
  /\ port (parseAuthority (Some (js "user@example.com:443"))) = Some 443.
Proof.
  destruct (parseAuthority_host_port (js "user@example.com:443"))
    as (_ & _ & H & _).
  assert (Hl : ~ In (ch ":") (js "example.com")) by (vm_compute; intuition discriminate).
  assert (Hr : ~ In (ch ":") (js "443")) by (vm_compute; intuition discriminate).
  exact (H (js "example.com") (js "443") eq_refl eq_refl Hl Hr).
Defined.

(** *** The scenarios of the specification *)

Example query_duplicates :
  parseQuery (Some (js "a=1&a=2&a=3"))
  = [(js "a", VArr [VStr (js "1"); VStr (js "2"); VStr (js "3")])]
  /\ parseQuery (Some (js "flag")) = [(js "flag", VStr [])].
Proof. split; vm_compute; reflexivity. Qed.

Example lone_percent :
  safeDecodeURIComponent (js "%") = js "%"
  /\ safeDecodeURIComponent (js "50% off") = js "50% off".
Proof. split; vm_compute; reflexivity. Qed.

Example batch_mixed (convert : protocol -> jsval -> jsval) :
  let r := @parseBatchProxyLinks Engine.builtins convert
             (Lines [js "vmess://eyJhZGQiOiJleGFtcGxlLmNvbSIsInBvcnQiOjQ0MywiYWlkIjowLCJpZCI6IjEyMzQifQ==";
                     [];
                     js "garbage line";
                     js "foobar://x"]) in
  List.length (proxies r) = 1%nat
  /\ errors r = [mkBatchError 4 (js "foobar://x") (js "不支持的协议: foobar")].
Proof. split; vm_compute; reflexivity. Qed.

End Instances.

(* ================================================================== *)
(** ** Further properties of the parsers, the helpers and the dispatcher *)
(* ================================================================== *)

Module Further.
Import JS Codec Val Utils Eff Common Dispatcher Spec Props Converters.
Import Returns.

(** *** [core/utils.js] *)

(** X1. [splitUrlLoosely] loses nothing: the parts of a URL, written back
    with their separators, are the trimmed URL.  The scheme has no colon;
    the authority has no slash, question mark or hash; the path has no
    question mark or hash; the query has no hash.  An authority is only
    found after a scheme, and the path that follows it is empty or starts
    with a slash. *)
Theorem url_split_lossless (url : jstr) :
  let p := splitUrlLoosely url in
  joinUrl p = trim url
  /\ lacks (ch ":") (scheme p)
  /\ (lacks (ch "/") (authority p) /\ lacks (ch "?") (authority p)
      /\ lacks (ch "#") (authority p))
  /\ (~ In (ch "?") (path p) /\ ~ In (ch "#") (path p))
  /\ lacks (ch "#") (query p)
  /\ (authority p <> None ->
      scheme p <> None /\ (path p = [] \/ startsWith (js "/") (path p) = true)).
Proof. apply UrlFacts.splitUrlLoosely_parts. Qed.

(** X2. [parseAuthority] cuts the userinfo at the last [@] of the
    authority (after the trim and a leading [//]): what is before it is the
    userinfo, as it is written, and what is after it is read as host and
    port.  Without an [@] there is no userinfo. *)
Theorem authority_userinfo_last_at (a : jstr) :
  let raw := trim a in
  let input := if startsWith (js "//") raw then sliceFrom raw 2 else raw in
  (~ In (ch "@") input -> userinfo (parseAuthority (Some a)) = None)
  /\ (forall ui hp,
        input = ui ++ js "@" ++ hp -> ~ In (ch "@") hp ->
        userinfo (parseAuthority (Some a)) = Some ui
        /\ hostportOf a = trim hp).
Proof. apply AuthorityFacts2.parseAuthority_userinfo. Qed.

(** X3. [safeDecodeURIComponent] leaves a text as it is when no [%] of
    it is followed by two hexadecimal digits. *)
Theorem decode_without_escape (s : jstr) :
  noEscape s = true -> safeDecodeURIComponent s = s.
Proof. apply PercentFacts.safeDecode_noEscape. Qed.

(** X4. [safeDecodeURIComponent] inverts percent-encoding: for an ASCII
    text of which any set of characters that includes [%] is written
    [%XX], it returns the text. *)
Theorem decode_inverts_encode (keep : N -> bool) (t : jstr) :
  keep (ch "%") = false -> Forall (fun c => (c < 128)%N) t ->
  safeDecodeURIComponent (percentEncode keep t) = t.
Proof. apply PercentFacts.safeDecode_percentEncode. Qed.

(** X5. [base64DecodeUtf8] inverts Base64 for every ASCII text that is
    not empty: with the padding or without it, in the standard alphabet and
    in the URL-safe one.  The body and the padding are those of
    [base64Encode]. *)
Theorem base64_round_trip (t p : jstr) :
  t <> [] -> Forall (fun c => (c < 128)%N) t ->
  p = [] \/ p = base64Pad (List.length t) ->
  base64Encode t = base64Body t ++ base64Pad (List.length t)
  /\ base64DecodeUtf8 (base64Body t ++ p) = Some t
  /\ base64DecodeUtf8 (base64Url (base64Body t ++ p)) = Some t.
Proof.
  intros Ht Ha Hp.
  assert (Hb : Forall (fun b => (b < 256)%N) t).
  { eapply Forall_impl; [| exact Ha]. cbn. intros c Hc. lia. }
  split; [apply Base64Facts2.base64Encode_body |].
  split; apply Base64Facts2.base64DecodeUtf8_normalized; try assumption.
  - apply Base64Facts2.normalize_body; assumption.
  - apply Base64Facts2.normalize_url; assumption.
Qed.

(** X6. [base64DecodeUtf8] ignores white space, wherever it is in the
    input. *)
Theorem base64_white_space_ignored (s : jstr) :
  base64DecodeUtf8 (compact s) = base64DecodeUtf8 s.
Proof. apply Base64Facts2.base64DecodeUtf8_compact. Qed.

(** X7. [base64DecodeUtf8] returns [null] for an input with a character
    that is neither white space nor of a Base64 alphabet. *)
Theorem base64_foreign_rejected (s : jstr) (c : N) :
  In c s -> isWhite c = false -> base64Char c = false ->
  base64DecodeUtf8 s = None.
Proof. apply Base64Facts2.base64DecodeUtf8_rejects. Qed.

(** X8. What [parseQuery] holds for a key that is not empty: nothing
    when no parameter has that name, the value when one has, and the array
    of the values, in the order of the query, when several have.  The
    parameters are the parts between [&] and [;]; names and values are what
    is before and after the first [=], with [+] read as a space, decoded. *)
Theorem query_values_stored (q key : jstr) :
  key <> [] ->
  getProp key (parseQuery (Some q)) = stored (valuesOf key (queryParts q)).
Proof. apply QueryFacts.parseQuery_stored. Qed.

(** X11. [isUuid] accepts a text exactly when, once trimmed, it has the
    form 8-4-4-4-12 of hexadecimal digits with a version digit from 1 to 5
    and a variant digit among 8, 9, a, b (in either case). *)
Theorem uuid_accepted_iff_shape (s : jstr) :
  isUuid s = true <-> uuidShape (trim s).
Proof. apply CheckFacts.isUuid_shape. Qed.

(** X12. [isPort] accepts a string exactly when, once trimmed, it is made
    of decimal digits only, at least one, and its value is from 1 to
    65535; the number of digits is not bounded. *)
Theorem port_string_accepted_iff (s : jstr) :
  isPort (VStr s) = true
  <-> trim s <> [] /\ forallb isDigit (trim s) = true
      /\ 1 <= digitsValue 0 (trim s) <= 65535.
Proof. apply CheckFacts.isPort_string. Qed.

Section WithBuiltins.
Context {B : Builtins}.

(** *** The parsers *)

(** X9. [getFirstParam] on the object of [parseQuery] is the value of the
    first parameter of that name in the query, whether the name occurs
    once or several times. *)
Theorem first_param_is_first_value (q : jstr) (key : string) :
  js key <> [] ->
  getFirstParam (parseQuery (Some q)) key
  = hd_error (valuesOf (js key) (queryParts q)).
Proof. apply QueryFacts.getFirstParam_first. Qed.

(** X10. On a query without [+], the extraction from the raw query
    ([getRawQueryFirstParam], which keeps [+]) and [getFirstParam] on the
    object of [parseQuery] (which reads [+] as a space) return the same. *)
Theorem raw_param_agrees (q : jstr) (key : string) :
  js key <> [] -> ~ In (ch "+") q ->
  getRawQueryFirstParam (Some q) key = getFirstParam (parseQuery (Some q)) key.
Proof. apply QueryFacts.getRawQueryFirstParam_agrees. Qed.

(** X13. The record of every parser, for every input, has a name that is
    not the empty string. *)
Theorem record_name_nonempty (p : protocol) (url : jstr) :
  exists node, parserOf p url = inr node /\ named node.
Proof.
  rewrite ParserFacts.parserOf_run.
  destruct (returns_parse _ (catchOf p url) _ (NameFacts.tryOf_named p url))
    as (node & ws & _ & E & H).
  exists node. split; assumption.
Qed.

(** X14. Every parser reports each missing or invalid server and port: a
    record without warnings has a server that is not empty and a port from
    1 to 65535. *)
Theorem silent_record_complete (p : protocol) (url : jstr) :
  exists node, parserOf p url = inr node /\ (silent node -> complete node).
Proof. apply CompleteFacts.parserOf_silent. Qed.

(** X15. For an input that is not blank, the network of the record of the
    VLESS, Trojan and VMess parsers is one that the parser supports, and
    the record has the sub-object of that network and of no other. *)
Theorem transport_supported (url : jstr) :
  trim url <> [] ->
  (exists node, VLESS.parse url = inr node
     /\ transportOf ["tcp"; "ws"; "grpc"; "http"]%string node)
  /\ (exists node, Trojan.parse url = inr node
        /\ transportOf ["tcp"; "ws"; "grpc"]%string node)
  /\ (exists node, VMess.parse url = inr node
        /\ transportOf ["tcp"; "ws"; "grpc"; "http"; "h2"]%string node).
Proof.
  intros Hu. split; [| split].
  - destruct (returns_parse _ (VLESS.parseCatch url) _
                (TransportFacts.VLESS_transport url)) as (node & ws & _ & E & H).
    exists node. split; assumption.
  - destruct (returns_parse _ (Trojan.parseCatch url) _
                (TransportFacts.Trojan_transport url Hu))
      as (node & ws & _ & E & H).
    exists node. split; assumption.
  - destruct (returns_parse _ (VMess.parseCatch url) _
                (TransportFacts.VMess_transport url Hu))
      as (node & ws & _ & E & H).
    exists node. split; assumption.
Qed.

(** *** Shadowsocks ([part_014]) *)

(** X19. [parseMethodPassword] cuts [method:password] at the first colon
    and trims both sides; it warns of an empty method and of an empty
    password, and of nothing else. *)
Theorem method_password_split (text m p : jstr) (ws : list jstr) :
  trim text = m ++ js ":" ++ p -> ~ In (ch ":") m ->
  SS.parseMethodPassword text ws
  = (inr (trim m, trim p), ws ++ credsWarnings (trim m) (trim p)).
Proof. apply SSFacts.parseMethodPassword_pair. Qed.

(** X20. [parseUserinfoToCreds] on the Base64 text of [method:password]
    (ASCII, padded or not): the credentials are those of the decoded text,
    which is kept, and the warning of the decoding comes first. *)
Theorem userinfo_base64_creds (u m p pad : jstr) (ws : list jstr) :
  let t := m ++ js ":" ++ p in
  Forall (fun c => (c < 128)%N) t -> noOuterWhite t -> ~ In (ch ":") m ->
  pad = [] \/ pad = base64Pad (List.length t) ->
  trim (safeDecodeURIComponent u) = base64Body t ++ pad ->
  SS.parseUserinfoToCreds (Some u) ws
  = (inr (SS.mkCreds (trim m) (trim p) t),
     ws ++ [js "检测到 Base64(method:password) 的 userinfo，已成功解码"]
        ++ credsWarnings (trim m) (trim p)).
Proof. apply SSFacts.parseUserinfoToCreds_base64. Qed.

(** X21. A Shadowsocks link whose authority has a host, a port and a
    userinfo that decodes to [method:password]: the record has that
    server and port, the cipher and the password of the userinfo, and the
    format [sip002-plain]. *)
Theorem ss_plain_record (url u h m p : jstr) (n : Z) :
  authorityOfSS url = mkAuthority (Some u) (Some h) (Some n) -> h <> [] ->
  trim (safeDecodeURIComponent u) = m ++ js ":" ++ p -> ~ In (ch ":") m ->
  exists node,
    SS.parse url = inr node
    /\ ssRecord (trim (safeDecodeURIComponent h)) n (trim m) (trim p)
                (js "sip002-plain") node.
Proof.
  intros Ha Hh Hu Hm.
  pose proof (SSFacts.SS_parseBody_creds url u h n
                (SS.mkCreds (trim m) (trim p) [])
                (credsWarnings (trim m) (trim p)) Ha Hh
                (fun ws => SSFacts.parseUserinfoToCreds_plain u m p ws Hu Hm))
    as H.
  destruct (returns_parse _ (SS.parseCatch url) _ H) as (node & ws & _ & E & P).
  exists node. split; [exact E | exact P].
Qed.

(** X22. A Shadowsocks link whose authority has a host, a port and, as
    userinfo, the Base64 text of [method:password] (ASCII, padded or not):
    the record has that server and port, the cipher and the password of
    the decoded text, and the format [legacy]. *)
Theorem ss_legacy_record (url u h m p pad : jstr) (n : Z) :
  let t := m ++ js ":" ++ p in
  authorityOfSS url = mkAuthority (Some u) (Some h) (Some n) -> h <> [] ->
  Forall (fun c => (c < 128)%N) t -> noOuterWhite t -> ~ In (ch ":") m ->
  pad = [] \/ pad = base64Pad (List.length t) ->
  trim (safeDecodeURIComponent u) = base64Body t ++ pad ->
  exists node,
    SS.parse url = inr node
    /\ ssRecord (trim (safeDecodeURIComponent h)) n (trim m) (trim p)
                (js "legacy") node.
Proof.
  intros t Ha Hh Hascii Hw Hm Hpad Hu.
  pose proof (SSFacts.SS_parseBody_creds url u h n
                (SS.mkCreds (trim m) (trim p) t) _ Ha Hh
                (fun ws => SSFacts.parseUserinfoToCreds_base64 u m p pad ws
                             Hascii Hw Hm Hpad Hu))
    as H.
  destruct (returns_parse _ (SS.parseCatch url) _ H) as (node & ws & _ & E & P).
  exists node. split; [exact E |].
  cbn [SS.method SS.password SS.userinfoDecoded] in P.
  assert (Et : truthy t = true) by (unfold t; destruct m; reflexivity).
  rewrite Et in P. exact P.
Qed.

(** *** The converters *)

Section WithNumber.
Variable Number_text : jstr -> jsnum.

(** X23. The Hysteria2 parser and converter, one after the other: for
    every input the proxy has the type [hysteria2], the name, the server,
    the port and the password of the record, and [udp: true]. *)
Theorem hysteria2_proxy_carries (url : jstr) :
  exists node,
    Hysteria2.parse url = inr node
    /\ carriesOver "hysteria2" node (Hysteria2_convert Number_text node).
Proof.
  destruct (returns_parse _ (Hysteria2.parseCatch url) _
              (ConvertFacts.Hysteria2_tidy url)) as (node & ws & _ & E & H).
  exists node. split; [exact E |].
  apply ConvertFacts.Hysteria2_convert_tidy. exact H.
Qed.

(** X24. The Trojan parser and converter, one after the other: for every
    input the proxy has the type [trojan], the name, the server, the port
    and the password of the record, and [udp: true]. *)
Theorem trojan_proxy_carries (url : jstr) :
  exists node,
    Trojan.parse url = inr node
    /\ carriesOver "trojan" node (Trojan_convert Number_text node).
Proof.
  destruct (returns_parse _ (Trojan.parseCatch url) _
              (ConvertFacts.Trojan_tidy url)) as (node & ws & _ & E & H).
  exists node. split; [exact E |].
  apply ConvertFacts.Trojan_convert_tidy. exact H.
Qed.

(** X25. The Shadowsocks parser and converter, one after the other: for
    every input the proxy has the type [ss], the name, the server, the
    port, the cipher and the password of the record, and [udp: true]. *)
Theorem ss_proxy_carries (url : jstr) :
  exists node,
    SS.parse url = inr node
    /\ carriesOver "ss" node (SS_convert Number_text node)
    /\ field "cipher" (SS_convert Number_text node) = field "cipher" node.
Proof.
  destruct (returns_parse _ (SS.parseCatch url) _
              (SSConvertFacts.SS_tidy url)) as (node & ws & _ & E & H).
  exists node. split; [exact E |].
  apply SSConvertFacts.SS_convert_tidy. exact H.
Qed.

(** X26. A Shadowsocks link with the plugin [obfs-local], [simple-obfs] or
    [obfs] (in any case) and the options [obfs] and [obfs-host], both with
    a value: the proxy has the plugin [obfs], and its options are [mode]
    and [host] with these values. *)
Theorem ss_obfs_plugin_renamed (link enc name m h : jstr) :
  carriesPlugin false link enc name [(js "obfs", m); (js "obfs-host", h)] ->
  In (toLowerCase name) (map js ["obfs-local"; "simple-obfs"; "obfs"]%string) ->
  m <> [] -> h <> [] ->
  exists node,
    SS.parse link = inr node
    /\ field "plugin" (SS_convert Number_text node) = VStr (js "obfs")
    /\ field "plugin-opts" (SS_convert Number_text node)
       = VObj [(js "mode", VStr m); (js "host", VStr h)].
Proof.
  intros Hc Hl Nm Nh.
  destruct (returns_parse _ (SS.parseCatch link) _
              (SSConvertFacts.SS_obfs_proxy Number_text link enc name m h
                 Hc Hl Nm Nh)) as (node & ws & _ & E & H).
  exists node. split; [exact E | exact H].
Qed.

(** X27. The network of the proxy of a Trojan link, for every input: it
    is left out (that is [tcp]), or it is [ws] or [grpc].  A proxy over
    [ws] has options with a path that is not empty; options of a network
    that is not that of the proxy are never there. *)
Theorem trojan_proxy_network (url : jstr) :
  exists node,
    Trojan.parse url = inr node
    /\ proxyNetwork (Trojan_convert Number_text node).
Proof.
  destruct (returns_parse _ (Trojan.parseCatch url) _
              (NetworkFacts.Trojan_transport_ready url))
    as (node & ws & _ & E & H).
  exists node. split; [exact E |].
  apply NetworkFacts.Trojan_convert_network. exact H.
Qed.

(** X28. The VLESS parser and converter, one after the other: for every
    input the proxy has the type [vless], the name, the server, the port
    and the UUID of the record, and [udp: true]. *)
Theorem vless_proxy_carries (url : jstr) :
  exists node,
    VLESS.parse url = inr node
    /\ carriesUuid node (VLESS_convert Number_text node).
Proof.
  destruct (returns_parse _ (VLESS.parseCatch url) _
              (VLESSConvertFacts.VLESS_tidy url)) as (node & ws & _ & E & H).
  exists node. split; [exact E |].
  apply VLESSConvertFacts.VLESS_convert_tidy. exact H.
Qed.

(** X29. The network of the proxy of a VLESS link, for every input: it is
    left out (that is [tcp]), or it is [ws], [grpc] or [http].  A proxy
    over [ws] or [http] has the options of that network, with a path that
    is not empty; options of another network are never there. *)
Theorem vless_proxy_network (url : jstr) :
  exists node,
    VLESS.parse url = inr node
    /\ proxyNetworkVLESS (VLESS_convert Number_text node).
Proof.
  destruct (returns_parse _ (VLESS.parseCatch url) _
              (VLESSConvertFacts.VLESS_transport_ready url))
    as (node & ws & _ & E & H).
  exists node. split; [exact E |].
  apply VLESSConvertFacts.VLESS_convert_network. exact H.
Qed.

(** X30. The proxy of a VLESS link has [tls] exactly as [tls.enabled] of
    the record says, for every input, and it has options of Reality only
    together with [tls: true]. *)
Theorem vless_proxy_tls (url : jstr) :
  exists node enabled,
    VLESS.parse url = inr node
    /\ field "enabled" (field "tls" node) = VBool enabled
    /\ field "tls" (VLESS_convert Number_text node) = VBool enabled
    /\ (field "reality-opts" (VLESS_convert Number_text node) = VUndef
        \/ enabled = true).
Proof.
  destruct (returns_parse _ (VLESS.parseCatch url) _
              (VLESSConvertFacts.VLESS_tls_ready url))
    as (node & ws & _ & E & (e & H)).
  exists node, e. split; [exact E |].
  destruct (VLESSConvertFacts.VLESS_convert_tls Number_text node e H)
    as (H1 & H2).
  destruct H as (t & Ht & He & _).
  split; [rewrite Ht; exact He |]. split; assumption.
Qed.

End WithNumber.

(** *** The dispatcher ([index.js]) *)

Section WithConverters.
Variable convert : protocol -> jsval -> jsval.


(** X17. [parseBatchProxyLinks] accounts for every line that is not blank
    and has [://]: each gives one proxy or one error entry, and no other
    line gives anything. *)
Theorem batch_conserves_lines (lines : list jstr) :
  let r := parseBatchProxyLinks convert (Lines lines) in
  (List.length (proxies r) + List.length (errors r)
   = List.length (filter qualifies lines))%nat.
Proof.
  cbv zeta. unfold parseBatchProxyLinks.
  rewrite DispatcherFacts.forEach_batch. cbn [proxies errors app].
  apply DispatcherFacts2.batch_count.
Qed.

(** X18. The error entries of [parseBatchProxyLinks] are in the order of
    the lines, with no line reported twice; each line number is from 1 to
    the number of lines, and the link that an entry shows has at most 83
    characters. *)
Theorem batch_errors_ordered (lines : list jstr) :
  let r := parseBatchProxyLinks convert (Lines lines) in
  StronglySorted Z.lt (map line (errors r))
  /\ Forall (fun e => 1 <= line e <= Z.of_nat (List.length lines)
                      /\ len (link e) <= 83)
            (errors r).
Proof.
  cbv zeta. unfold parseBatchProxyLinks.
  rewrite DispatcherFacts.forEach_batch. cbn [proxies errors app].
  destruct (DispatcherFacts2.expectedErrors_sorted convert lines (0 + 1))
    as (Hs & Hf).
  split; [exact Hs |].
  eapply Forall_impl; [| exact Hf]. cbn beta. intros e (H1 & H2 & H3).
  split; [lia | exact H3].
Qed.

End WithConverters.
End WithBuiltins.
End Further.

(* ================================================================== *)
(** ** The further properties on inputs *)
(* ================================================================== *)

(** The built-ins are those of [Engine]. *)
Module FurtherInstances.
Import JS Codec Val Utils Eff Common Dispatcher Spec Props Converters Further.
Import Engine.

(** An authority with two [@]: the userinfo ends at the last one. *)
Lemma authority_userinfo_last_at_witness :
  userinfo (parseAuthority (Some (js "user:p@ss@example.com:443")))
  = Some (js "user:p@ss")
  /\ hostportOf (js "user:p@ss@example.com:443") = js "example.com:443".
Proof.
  assert (H : ~ In (ch "@") (js "example.com:443"))
    by (vm_compute; intuition discriminate).
  exact (proj2 (authority_userinfo_last_at (js "user:p@ss@example.com:443"))
           (js "user:p@ss") (js "example.com:443") eq_refl H).
Defined.

Lemma decode_without_escape_witness :
  noEscape (js "100%zz and 5%") = true
  /\ safeDecodeURIComponent (js "100%zz and 5%") = js "100%zz and 5%".
Proof.
  assert (H : noEscape (js "100%zz and 5%") = true) by (vm_compute; reflexivity).
  exact (conj H (decode_without_escape _ H)).
Defined.

(** The letters, the digits, [+] and [/] are kept, every other character
    is written [%XX]. *)
Lemma decode_inverts_encode_witness :
  percentEncode isB64 (js "a b%c;d=e?") = js "a%20b%25c%3Bd%3De%3F"
  /\ safeDecodeURIComponent (percentEncode isB64 (js "a b%c;d=e?"))
     = js "a b%c;d=e?".
Proof.
  assert (Hk : isB64 (ch "%") = false) by (vm_compute; reflexivity).
  assert (Ha : Forall (fun c => (c < 128)%N) (js "a b%c;d=e?"))
    by (vm_compute; repeat constructor).
  split; [vm_compute; reflexivity |].
  exact (decode_inverts_encode isB64 (js "a b%c;d=e?") Hk Ha).
Defined.

Lemma base64_round_trip_witness :
  base64Encode (js "aes-256-gcm:pass") = js "YWVzLTI1Ni1nY206cGFzcw=="
  /\ base64DecodeUtf8 (js "YWVzLTI1Ni1nY206cGFzcw") = Some (js "aes-256-gcm:pass")
  /\ base64DecodeUtf8 (js "YWVzLTI1Ni1nY206cGFzcw==") = Some (js "aes-256-gcm:pass").
Proof.
  assert (Ht : js "aes-256-gcm:pass" <> []) by discriminate.
  assert (Ha : Forall (fun c => (c < 128)%N) (js "aes-256-gcm:pass"))
    by (vm_compute; repeat constructor).
  split; [vm_compute; reflexivity |].
  split.
  - exact (proj1 (proj2 (base64_round_trip (js "aes-256-gcm:pass") []
                           Ht Ha (or_introl eq_refl)))).
  - exact (proj1 (proj2 (base64_round_trip (js "aes-256-gcm:pass") (js "==")
                           Ht Ha (or_intror eq_refl)))).
Defined.

Lemma base64_foreign_rejected_witness :
  base64DecodeUtf8 (js "YWJj!") = None.
Proof.
  assert (Hi : In (ch "!") (js "YWJj!")) by (vm_compute; tauto).
  exact (base64_foreign_rejected (js "YWJj!") (ch "!") Hi eq_refl eq_refl).
Defined.

Lemma query_values_stored_witness :
  valuesOf (js "a") (queryParts (js "a=1&b=2;a=3")) = [js "1"; js "3"]
  /\ getProp (js "a") (parseQuery (Some (js "a=1&b=2;a=3")))
     = VArr [VStr (js "1"); VStr (js "3")].
Proof.
  assert (H : js "a" <> []) by discriminate.
  split; [vm_compute; reflexivity |].
  exact (query_values_stored (js "a=1&b=2;a=3") (js "a") H).
Defined.

Lemma first_param_is_first_value_witness :
  getFirstParam (parseQuery (Some (js "a=1&b=2;a=3"))) "a"
  = Some (js "1").
Proof.
  assert (H : js "a" <> []) by discriminate.
  exact (first_param_is_first_value (js "a=1&b=2;a=3") "a" H).
Defined.

Lemma raw_param_agrees_witness :
  ~ In (ch "+") (js "type=ws&host=a.example")
  /\ getRawQueryFirstParam (Some (js "type=ws&host=a.example")) "host"
     = getFirstParam
         (parseQuery (Some (js "type=ws&host=a.example"))) "host".
Proof.
  assert (Hk : js "host" <> []) by discriminate.
  assert (Hq : ~ In (ch "+") (js "type=ws&host=a.example"))
    by (vm_compute; intuition discriminate).
  exact (conj Hq (raw_param_agrees _ "host" Hk Hq)).
Defined.

(** A link that gives a record without warnings. *)
Lemma silent_record_complete_witness :
  exists node,
    parserOf trojan (js "trojan://pass@example.com:443#name")
    = inr node
    /\ silent node /\ complete node.
Proof.
  destruct (silent_record_complete trojan
              (js "trojan://pass@example.com:443#name")) as (node & E & H).
  exists node. split; [exact E |].
  assert (Hs : silent node).
  { vm_compute in E. injection E as <-. vm_compute. reflexivity. }
  exact (conj Hs (H Hs)).
Defined.

Lemma transport_supported_witness :
  trim (js "trojan://pass@example.com:443?type=ws&path=%2Fws") <> []
  /\ exists node,
       Trojan.parse
         (js "trojan://pass@example.com:443?type=ws&path=%2Fws") = inr node
       /\ transportOf ["tcp"; "ws"; "grpc"]%string node.
Proof.
  assert (H : trim (js "trojan://pass@example.com:443?type=ws&path=%2Fws") <> [])
    by (vm_compute; discriminate).
  exact (conj H (proj1 (proj2 (transport_supported _ H)))).
Defined.


Lemma method_password_split_witness :
  SS.parseMethodPassword (js " aes-128-gcm : secret ") []
  = (inr (js "aes-128-gcm", js "secret"), []).
Proof.
  assert (Hm : ~ In (ch ":") (js "aes-128-gcm "))
    by (vm_compute; intuition discriminate).
  exact (method_password_split (js " aes-128-gcm : secret ")
           (js "aes-128-gcm ") (js " secret") [] eq_refl Hm).
Defined.

Lemma userinfo_base64_creds_witness :
  SS.parseUserinfoToCreds (Some (js "YWVzLTI1Ni1nY206cGFzcw")) []
  = (inr (SS.mkCreds (js "aes-256-gcm") (js "pass") (js "aes-256-gcm:pass")),
     [js "检测到 Base64(method:password) 的 userinfo，已成功解码"]).
Proof.
  assert (Ha : Forall (fun c => (c < 128)%N) (js "aes-256-gcm" ++ js ":" ++ js "pass"))
    by (vm_compute; repeat constructor).
  assert (Hw : noOuterWhite (js "aes-256-gcm" ++ js ":" ++ js "pass"))
    by (split; vm_compute; reflexivity).
  assert (Hm : ~ In (ch ":") (js "aes-256-gcm"))
    by (vm_compute; intuition discriminate).
  exact (userinfo_base64_creds (js "YWVzLTI1Ni1nY206cGFzcw")
           (js "aes-256-gcm") (js "pass") [] [] Ha Hw Hm (or_introl eq_refl)
           eq_refl).
Defined.

Lemma ss_plain_record_witness :
  exists node,
    SS.parse (js "ss://aes-256-gcm:pass@example.com:8388#n")
    = inr node
    /\ ssRecord (js "example.com") 8388 (js "aes-256-gcm") (js "pass")
                (js "sip002-plain") node.
Proof.
  assert (Hh : js "example.com" <> []) by discriminate.
  assert (Hm : ~ In (ch ":") (js "aes-256-gcm"))
    by (vm_compute; intuition discriminate).
  exact (ss_plain_record
           (js "ss://aes-256-gcm:pass@example.com:8388#n")
           (js "aes-256-gcm:pass") (js "example.com")
           (js "aes-256-gcm") (js "pass") 8388 eq_refl Hh eq_refl Hm).
Defined.

Lemma ss_legacy_record_witness :
  exists node,
    SS.parse
      (js "ss://YWVzLTI1Ni1nY206cGFzcw@example.com:8388#n") = inr node
    /\ ssRecord (js "example.com") 8388 (js "aes-256-gcm") (js "pass")
                (js "legacy") node.
Proof.
  assert (Hh : js "example.com" <> []) by discriminate.
  assert (Ha : Forall (fun c => (c < 128)%N) (js "aes-256-gcm" ++ js ":" ++ js "pass"))
    by (vm_compute; repeat constructor).
  assert (Hw : noOuterWhite (js "aes-256-gcm" ++ js ":" ++ js "pass"))
    by (split; vm_compute; reflexivity).
  assert (Hm : ~ In (ch ":") (js "aes-256-gcm"))
    by (vm_compute; intuition discriminate).
  exact (ss_legacy_record
           (js "ss://YWVzLTI1Ni1nY206cGFzcw@example.com:8388#n")
           (js "YWVzLTI1Ni1nY206cGFzcw") (js "example.com")
           (js "aes-256-gcm") (js "pass") [] 8388 eq_refl Hh Ha Hw Hm
           (or_introl eq_refl) eq_refl).
Defined.

(** The link of the plugin example: [obfs-local] with [obfs=http] and
    [obfs-host=example.com]. *)
Lemma ss_obfs_plugin_renamed_witness :
  exists node,
    SS.parse pluginLink = inr node
    /\ field "plugin" (SS_convert (fun _ => NaN) node)
       = VStr (js "obfs")
    /\ field "plugin-opts" (SS_convert (fun _ => NaN) node)
       = VObj [(js "mode", VStr (js "http"));
               (js "host", VStr (js "example.com"))].
Proof.
  assert (Hc : carriesPlugin false pluginLink
                 (js "obfs-local%3Bobfs%3Dhttp%3Bobfs-host%3Dexample.com")
                 (js "obfs-local")
                 [(js "obfs", js "http"); (js "obfs-host", js "example.com")]).
  { split; [eexists; exists [], []; split; [vm_compute; reflexivity |];
            split; [vm_compute; reflexivity | constructor] |].
    split; [vm_compute; intuition discriminate |].
    split; [vm_compute; reflexivity |].
    split.
    - split; [discriminate |]. split; [split; vm_compute; reflexivity |].
      split; vm_compute; intuition discriminate.
    - repeat constructor; try discriminate; try (vm_compute; reflexivity);
        vm_compute; intuition discriminate. }
  assert (Hl : In (toLowerCase (js "obfs-local"))
                  (map js ["obfs-local"; "simple-obfs"; "obfs"]%string))
    by (left; vm_compute; reflexivity).
  assert (Hm : js "http" <> []) by discriminate.
  assert (Hh : js "example.com" <> []) by discriminate.
  exact (ss_obfs_plugin_renamed (fun _ => NaN) pluginLink _ _ _ _
           Hc Hl Hm Hh).
Defined.

End FurtherInstances.
